(* ===== verification/_CoqProject ===== *)
-Q . S2P
Prelude.v
Bytes.v
Text.v
Vm.v
Ipc.v
MsgQueue.v
MsgSys.v
Shm.v
ShmSys.v
Time.v
Alarm.v
TimeSys.v
Futex.v
FutexRace.v
Epoll.v
EventFd.v
Pipe.v
FdTable.v
IoVec.v
Tty.v
TtyTask.v
Brk.v
UserMem.v
SimpleVfs.v
FsPath.v
FsCtl.v
Dirents.v
Tmpfs.v
PollSelect.v
Pollable.v
Mmap.v
Devices.v
Evdev.v
DevFs.v
Mincore.v
FileIo.v
Process.v
Jobs.v
Pty.v
Signals.v
SockAddr.v
EpollWait.v
PollSys.v
SpecialFiles.v
Sockets.v
Proc.v
ProcFs.v
Loader.v
Clone.v
TaskCtl.v
Dispatch.v
UserTask.v
