(* ===== verification/Prelude.v ===== *)
(** * StarryOS: a verification development

    StarryOS is a Linux-compatible kernel written in Rust on top of the
    ArceOS crates.  [core/] holds the kernel objects (processes, futexes,
    shared memory, timers, virtual files), [api/] the system calls and the
    file-like objects behind descriptors, and [src/] the start-up code.  A
    system call finds its object through the descriptor table or a global
    manager, reads and writes user memory through [starry_vm], and blocks by
    repeating an attempt until it no longer answers [WouldBlock].

    ** Conventions

    - Code is translated into functions on explicit states.  [res] has the
      outcomes [Ok], [Err] and [Panic]; [M S A] threads a state and an
      outcome; an [unwrap], [assert] or index out of range is [Panic].
    - Machine integers are in [Z] with their wrap-around written out
      ([as_u64], [as_i32], [add_u64], ...).
    - A value behind a lock is the value itself, and the code that runs under
      the lock is one step.  Where threads interleave between locks the model
      is a step relation ([Alarm], [Futex], [FutexRace], [EpollWait],
      [TtyTask]).
    - Code that is not in the repository is an interface: a class of
      operations and a class of the laws that callers rely on.  Each has a
      concrete instance, used by the witnesses ([..._witness]), which apply a
      theorem to a concrete input.
    - Loops that are not structural have fuel, computed from the state, and a
      theorem that it suffices: [poll_fuel] in [Epoll] (the room for events
      and the queue length), [turns_fuel] in [Tty] (the pending characters
      and the room of the buffer), [io_fuel] in [IoVec] (the entries left).
      Where the fuel is an argument the theorem states how much is enough: a
      round per page in [Mincore], one more than the length in [FileIo], a
      round per sixteen bytes of control data in [SockAddr], one more than the
      number of elements scanned in [UserMem], one more than the signals that
      wait in [UserTask].  [digits] in [Text] is given twenty rounds, the digits
      of 64 bits.  The recursion of [load_user_app] has no bound
      ([self_script_never_ends]); [Loader] and [Clone] show that it ends for a
      finite chain of scripts ([script_chain]) with more fuel than its length.
    - A wait is given by what its attempts see: [snaps] (readiness of files)
      or [env] (changes by others) in order, and then the end of the wait, a
      timeout or a signal.

    ** Files

    - [Prelude]: outcomes, the state monad, record update, integers, ordered
      maps; the lemmas and tactics the other files share.
    - [Bytes], [Text]: little- and big-endian encodings and stores into
      buffers; decimal numbers and strings as the kernel prints and parses
      them.
    - [Vm]: typed reads and writes of user memory, the interface of
      [starry_vm].
    - [UserMem]: access to user memory ([api/src/mm.rs], the second half of
      [core/src/mm.rs]): range checks, the page-fault guard, checked pointers,
      the search for a terminating null, buffers of [read] and [write].
    - [Ipc]: identifiers and permissions of System V IPC
      ([api/src/syscall/ipc/mod.rs], [core/src/shm.rs: IpcPerm]).
    - [MsgQueue], [MsgSys]: message queues ([api/src/syscall/ipc/msg.rs]),
      first the queue and the manager, then the calls.
    - [Shm], [ShmSys]: shared memory ([core/src/shm.rs],
      [api/src/syscall/ipc/shm.rs], the detaching part of [do_exit] in
      [api/src/task.rs]).
    - [Time], [Alarm], [TimeSys]: conversions ([api/src/time.rs]), CPU-time
      accounting and interval timers ([core/src/time.rs], [core/src/task.rs]),
      the alarm task, and the time, scheduling and resource calls
      ([api/src/syscall/time.rs], [api/src/syscall/task/schedule.rs],
      [api/src/syscall/resources.rs], [core/src/resources.rs]).
    - [Futex], [FutexRace]: wait queues, tables and the call
      ([core/src/futex.rs], [api/src/syscall/sync/futex.rs], robust lists in
      [api/src/task.rs]); the drop of a guard, which takes the lock of the
      table more than once, is done in steps.  [FutexRace] has an order of
      steps in which it loses a waiter.
    - [Epoll]: [api/src/file/epoll.rs] and [epoll_ctl]
      ([api/src/syscall/io_mpx/epoll.rs]).
    - [EventFd], [Pipe]: [api/src/file/event.rs], [api/src/file/pipe.rs].
    - [Pollable], [EpollWait]: the contract between files and those who wait
      for them, its implementation by event counters and pipes, and the
      waiting calls of [io_mpx/epoll.rs] in a world of such files.
    - [SpecialFiles]: the calls that make event counters, pipes, signalfds
      and epoll instances.
    - [FdTable]: the descriptor table ([api/src/file/mod.rs]), the calls of
      [api/src/syscall/fs/fd_ops.rs] on it, and closing on [execve].
    - [IoVec]: vectors of user buffers ([api/src/io.rs]).
    - [Tty], [TtyTask]: terminal settings and line discipline
      ([api/src/terminal/termios.rs], [api/src/terminal/ldisc.rs]), and the
      task that moves input through it.
    - [Pty]: pseudo terminals ([api/src/vfs/dev/tty/]).
    - [Brk]: [api/src/syscall/mm/brk.rs].
    - [SimpleVfs]: inode numbers, files read and written as a whole, and
      directories made of maps ([core/src/vfs/]).
    - [Dirents]: [getdents64] over them ([api/src/syscall/fs/ctl.rs]).
    - [FsPath], [FsCtl]: resolution of paths, file objects and file status
      ([api/src/file/fs.rs], [api/src/syscall/fs/stat.rs]), and the calls on
      paths ([ctl.rs], [openat], [memfd.rs], [mount.rs]).
    - [Tmpfs]: [api/src/vfs/tmp.rs].
    - [Devices], [Evdev], [DevFs]: device nodes ([core/src/vfs/dev.rs]) and
      the devices of [api/src/vfs/dev/].
    - [PollSelect], [PollSys]: [api/src/syscall/io_mpx/poll.rs] and
      [select.rs] and the signal mask around a wait ([api/src/signal.rs]),
      first on values, then on user memory.
    - [Mmap], [Mincore]: [api/src/syscall/mm/mmap.rs] and [mincore.rs].
    - [FileIo]: [api/src/syscall/fs/io.rs] and [File::from_fd] of
      [api/src/file/fs.rs].
    - [Process]: the tables of [core/src/task.rs], signals to processes
      ([api/src/syscall/signal.rs]), the process part of [do_exit]
      ([api/src/task.rs]), [api/src/syscall/task/wait.rs], [job.rs].
    - [Jobs]: [api/src/terminal/job.rs] and the terminal device
      ([api/src/vfs/dev/tty.rs]).
    - [Signals]: masks, actions and waits ([api/src/syscall/signal.rs],
      [api/src/signal.rs]) and signalfd ([api/src/file/signalfd.rs],
      [api/src/syscall/fs/signalfd.rs]).
    - [SockAddr]: socket addresses ([api/src/socket.rs]) and control messages
      ([api/src/syscall/net/cmsg.rs], the loops of [net/io.rs]).
    - [Sockets]: the calls of [api/src/syscall/net/] over an interface of
      the network stack.
    - [Proc], [ProcFs]: tasks and their files below [/proc]
      ([api/src/vfs/proc.rs], [core/src/task/stat.rs]).
    - [Loader]: ELF files and scripts (the first half of [core/src/mm.rs]).
    - [Clone]: [api/src/syscall/task/clone.rs] and [execve.rs], with
      [ProcessData] and [Thread] of [core/src/task.rs]; what processes share
      are numbered objects.
    - [TaskCtl]: [task/ctl.rs] and [thread.rs], process descriptors,
      [api/src/syscall/sys.rs] and [membarrier].
    - [Dispatch]: the table of system calls ([api/src/syscall/mod.rs]).
    - [UserTask]: the loop of a thread between two stays in user space, and
      its end ([api/src/task.rs], [api/src/syscall/task/exit.rs]).

    The files meet where the code does: [Loader] and [Mincore] use the address
    space of [Mmap], [Proc] the files of [SimpleVfs] and the tables of
    [Process], [Jobs] the process tree of [Process], [UserMem] copies through
    the pipe of [Pipe], [Dirents] lists directories of [SimpleVfs] into the
    memory of [UserMem], and [Clone] puts the tables of [Process], the
    descriptor tables of [FdTable] and the loader together.  [Epoll] waits for
    the counters of [EventFd] and the pipes of [Pipe] through [Pollable];
    [Pty] and [TtyTask] run the line discipline of [Tty] between a device and
    its readers; [UserTask] calls [Dispatch], [Time], [Signals], [Process] and
    [Futex] in the order in which a thread does.

    ** What the theorems show

    - Message queues: a queue implements a log of messages with limits; the
      manager's tables stay consistent over all calls; send and receive round
      trip; a failing call changes nothing.  Also: a removed queue that holds
      messages is never freed, and a receive of any type takes the lowest
      type rather than the oldest message.
    - Shared memory: the bookkeeping of attachments agrees with the segments
      and the mappings, and a segment goes away exactly when it is marked and
      its last process leaves.  Also: a [shmat] that fails late makes the
      exit of the process panic.
    - Time: lossless conversions, exact CPU-time accounting, timers that fire
      exactly when due, an alarm task that does not oversleep; round trips
      and limits of the calls.  Also: an interleaving that violates the
      alarm task's assertion, and a sleep of exactly the requested time that
      counts as interrupted.
    - Futexes: every sleeping waiter can be woken, unless somebody looks its
      futex up while a drop is about to remove it; waking is first in first
      out, requeueing loses nothing.  Also: that race, two drops at once that
      leave an unused futex in the table, and stale wakers that swallow a
      wake-up.
    - Epoll: interests are queued or watched; with files that keep the
      contract of [Pollable] the ready queue holds every ready interest
      that is not edge-triggered, in any order of polls and operations, except
      interests made by modifying one that was queued; [epoll_wait] returns
      the events of the first attempt that finds some, or finds none due.
      Also: modifying a queued interest loses its events, a
      level-triggered event fills the whole result, and readiness between the
      last look at a file and the registration is lost.
    - Pipes, eventfds, descriptors: a pipe is a byte stream, an eventfd
      conserves its count, the descriptor table is a map, [close_range] is
      exact, and a vector of buffers is filled and drained in order.  Also:
      a resize of a pipe to a size near 2^64 wraps to nothing, [poll] misses a broken full pipe, a semaphore read returns the whole
      count, [CLOSE_RANGE_UNSHARE] never returns.
    - Terminal: the reader implements a specification of line editing; the
      reader task always comes to rest with its wakers registered and nothing
      left that it could move, in raw mode; a pseudo terminal carries both
      ways what the line discipline makes of it.  Also: spaces are lost in
      canonical mode, draining a half-sent line panics, and the end of a long
      line waits for more input.
    - Heap: exactly the pages below the break are mapped.
    - User memory: an access stays in the user half of the address space for
      every address and length; the search for a null ends and finds the
      first one; what is written to a pipe is read back from it.
    - Virtual files: a file that is replaced as a whole behaves like a
      sequence of bytes; inode numbers are unique; [getdents64] lists every
      entry once in any buffer that can hold each record.
    - Tmpfs: link counts and the slab of inodes are exact after every sequence
      of operations, and directories are maps; a rename is stated for every
      source and destination.  Also: a rename over an existing name empties the
      directory that is moved.
    - Paths: a call on a directory descriptor and a relative path is the call
      after [fchdir]; changed metadata is what [stat] reports of the same node;
      and opened files get the lowest free descriptor.  Also: a bad descriptor
      makes a call on an absolute path fail.
    - Devices: a loop device is its backing file, an event device delivers
      every event once.
    - [poll] and [select]: exactly the readiness of the first state that has
      any, also with the sets in user memory.  Also: an interrupted wait keeps
      its temporary signal mask.
    - Mappings: [mmap] changes nothing but what was asked for, and gives the
      permissions asked for; [mincore] agrees with a lookup page by page.
      Also: a fixed mapping that fails has removed the old ones, [mremap]
      always fails, and [mincore] inside a huge page marks too much.
    - File calls: the copy loop of [sendfile] and [splice] ends and moves a
      prefix of its source.  Also: a short write is not counted and the rest
      of the buffer lost, and [pwritev] reads.
    - Processes: [waitpid] on every branch, the way of an exit status to the
      parent, and the recipients of [kill].  Also: a group signal stops at a
      dead member, a child can be reported twice, and new groups are not in
      the table.
    - Terminals: the foreground group belongs to the terminal's session.
      Also: a second [TIOCSCTTY] panics, [TIOCSPGRP] ignores its argument.
    - Signals: [sigprocmask] and [sigtimedwait] leave the right mask, a
      signalfd delivers exactly one pending signal of its mask per read.
    - Sockets: addresses and options round trip, the walk over control
      messages ends inside the buffer.  Also: Unix paths are not read back.
    - [/proc]: the listing and the lookup of tasks agree, and the line of
      [stat] can be read back.  Also: writes of
      shorter texts are spliced into the old ones.
    - Loader: the segments of the right files are mapped with the permissions
      of their headers on the pages computed for them, which are those of the
      segment unless its end wraps.  Also: malformed files panic, a segment
      that wraps is not mapped, a script that names itself recurses for ever.
    - New tasks: [clone] shares exactly what it is asked to share and keeps
      the bookkeeping consistent, [execve] changes only its caller and what it
      refers to, and returns for a finite chain of scripts.  Also: that includes
      what others share with it, and a [clone] that fails late leaves a child
      in the tree.
    - Calls and threads: every handler is called by the number of its name with
      the registers in order, and it is stated which numbers have no handler;
      before a thread goes back to user space it has taken all signals it can,
      unless the return of a thread from a handler makes it skip them, and its
      times add up.

    ** What is not modelled

    - Start-up ([src/], [api/src/lib.rs]): it mounts file systems and starts
      the first program with the parts above, and ends the kernel if one of
      them fails.
    - The memory tracker and the log device of [api/src/vfs/dev/]: statistics
      of the allocator, which is not in the repository, and a task that copies
      messages to the kernel log.
    - Calls that return a constant or only touch the hardware, accessors of
      records, and declarations without code ([core/src/lib.rs],
      [core/src/config/mod.rs]).
    - Creating and copying whole address spaces, and the contents of mapped
      pages that no call reads or writes; memory ordering; the executor behind
      blocking calls.  Registrations of wakers are modelled where theorems are
      about them ([Epoll], [Pollable], [EpollWait], [TtyTask], [Alarm],
      [Futex]). *)

From Stdlib Require Export ZArith Lia.
From stdpp Require Export base numbers gmap sorting list.

Open Scope Z_scope.

(** A [u8] whose value is never computed with. *)
Abbreviation byte := Byte.byte.
(** A sequence of bytes whose values are *)
Abbreviation bytes := (list Z).

(** ** Errors

    [AxError] has one constructor per variant of [axerrno::AxError] the
    modelled code names; [AxError::from(LinuxError::E)] is [Linux E], because
    the conversion is in a crate that is not part of the repository. *)

Inductive LinuxError :=
  ENOSPC | ENOMSG | ENOENT | EACCES | EIDRM | EEXIST | EINVAL | EAGAIN
| E2BIG | EPERM | ECHILD | EOWNERDEAD | EAFNOSUPPORT | EPROTONOSUPPORT
| ESOCKTNOSUPPORT | ENOPROTOOPT | ENXIO | ENOSYS.

Inductive AxError :=
  InvalidInput | BadFileDescriptor | WouldBlock | Interrupted | NoMemory
| AlreadyExists | NotFound | NoSuchProcess | OperationNotPermitted
| TooManyOpenFiles | BrokenPipe | ResourceBusy | NotATty | BadAddress
| Unsupported | OperationNotSupported | FilesystemLoop | NoSuchDevice
| IllegalBytes | IsADirectory | NotADirectory | DirectoryNotEmpty
| InvalidExecutable | TimedOut | StorageFull | PermissionDenied | NotASocket
| OutOfRange | InvalidData | ReadOnlyFilesystem | InProgress
| Linux (e : LinuxError).

#[export] Instance LinuxError_eq_dec : EqDecision LinuxError.
Proof. solve_decision. Defined.
#[export] Instance AxError_eq_dec : EqDecision AxError.
Proof. solve_decision. Defined.

(** ** Outcomes and the state/error/panic monad

    A Rust function that returns [AxResult<T>] and may panic ([assert!],
    [unwrap], an index out of range) has the outcome type [res T]; one that
    also mutates a state [S] is a [M S T].  The state survives an error and a
    panic, so a partial update on an error path is visible. *)

Inductive res (A : Type) :=
| Ok (a : A)
| Err (e : AxError)
| Panic.
Arguments Ok {_} _.
Arguments Err {_} _.
Arguments Panic {_}.

#[export] Instance res_ret : MRet res := λ A a, Ok a.
#[export] Instance res_fmap : FMap res := λ A B f m,
  match m with Ok a => Ok (f a) | Err e => Err e | Panic => Panic end.
#[export] Instance res_bind : MBind res := λ A B f m,
  match m with Ok a => f a | Err e => Err e | Panic => Panic end.

Definition M (S A : Type) : Type := S → res A * S.

#[export] Instance M_ret {S} : MRet (M S) := λ A a s, (Ok a, s).
#[export] Instance M_bind {S} : MBind (M S) := λ A B f m s,
  match m s with
  | (Ok a, s') => f a s'
  | (Err e, s') => (Err e, s')
  | (Panic, s') => (Panic, s')
  end.

Definition getM {S} : M S S := λ s, (Ok s, s).
Definition putM {S} (s' : S) : M S unit := λ _, (Ok tt, s').
Definition modifyM {S} (f : S → S) : M S unit := λ s, (Ok tt, f s).
Definition failM {S A} (e : AxError) : M S A := λ s, (Err e, s).
Definition panicM {S A} : M S A := λ s, (Panic, s).
Definition liftR {S A} (r : res A) : M S A := λ s, (r, s).

(** [o.ok_or(e)?] *)
Definition ok_or {A} (e : AxError) (o : option A) : res A :=
  match o with Some a => Ok a | None => Err e end.
(** [o.unwrap()] *)
Definition unwrap {A} (o : option A) : res A :=
  match o with Some a => Ok a | None => Panic end.
(** [assert!(b)] *)
Definition assertM {S} (b : bool) : M S unit :=
  λ s, (if b then Ok tt else Panic, s).

Definition is_ok {A} (r : res A) : bool :=
  match r with Ok _ => true | _ => false end.

(** Runs a monadic computation on a state: unfolds the monad and splits on
    every test the code makes. *)
Ltac unfold_m :=
  unfold mbind, M_bind, mret, M_ret, getM, putM, modifyM, failM, panicM, liftR,
    assertM, res_bind, res_ret in *.
Ltac run_m := unfold_m; cbn in *; repeat (case_match; cbn in *; simplify_eq).

(** Running the first step of a computation. *)
Lemma bind_ok {S A B} (m : M S A) (f : A → M S B) s a s' :
  m s = (Ok a, s') → (m ≫= f) s = f a s'.
Proof. intros Hm. unfold mbind, M_bind. by rewrite Hm. Qed.

(** [m.is_ok()]: an error is only noticed, a panic is one. *)
Definition attempt {S A} (m : M S A) : M S bool := λ s,
  match m s with (Ok _, s') => (Ok true, s') | (Err _, s') => (Ok false, s') | (Panic, s') => (Panic, s') end.

Lemma bind_inv {S A B} (m : M S A) (f : A → M S B) s b s' : (m ≫= f) s = (Ok b, s') →
  ∃ a s1, m s = (Ok a, s1) ∧ f a s1 = (Ok b, s').
Proof. unfold mbind, M_bind. destruct (m s) as [[a|e|] s1]; [eauto|done..]. Qed.

(** ** Computations that commute with a change of the state

    [Stable set P m]: from states that satisfy [P], [m] does the same before
    and after the change [set], and keeps [P]. *)

Class Stable {S A} (set : S → S) (P : S → Prop) (m : M S A) : Prop :=
  stable s : P s → m (set s) = ((m s).1, set (m s).2) ∧ P (m s).2.

Section Stable.
Context {S : Type} (set : S → S) (P : S → Prop).

#[export] Instance stable_ret {A} (a : A) : Stable set P (mret a).
Proof. by intros s. Qed.
#[export] Instance stable_fail {A} e : Stable set P (@failM S A e).
Proof. by intros s. Qed.
#[export] Instance stable_panic {A} : Stable set P (@panicM S A).
Proof. by intros s. Qed.
#[export] Instance stable_lift {A} (r : res A) : Stable set P (liftR r).
Proof. by intros s. Qed.
Lemma stable_bind {A B} (m : M S A) (f : A → M S B) :
  Stable set P m → (∀ a, Stable set P (f a)) → Stable set P (m ≫= f).
Proof.
  intros Hm Hf s Hs. unfold mbind, M_bind. destruct (Hm s Hs) as [-> Hs'].
  destruct (m s) as [[a|e|] s']; cbn in *; [by apply Hf|done|done].
Qed.
Lemma stable_get {A} (f : S → M S A) :
  (∀ s, P s → Stable set P (f s)) → (∀ s, P s → f (set s) (set s) = f s (set s)) → Stable set P (getM ≫= f).
Proof. intros Hf Hs s Hp. unfold mbind, M_bind, getM. cbn. rewrite Hs by done. by apply Hf. Qed.
Lemma stable_modify (f : S → S) : (∀ s, P s → f (set s) = set (f s) ∧ P (f s)) → Stable set P (modifyM f).
Proof. intros Hf s Hs. unfold modifyM. cbn. by destruct (Hf s Hs) as [-> ?]. Qed.
End Stable.

Ltac stable_tac :=
  repeat lazymatch goal with
  | |- ∀ _, _ => intro
  | |- Stable _ _ (getM ≫= _) => apply stable_get; [|done]
  | |- Stable _ _ (modifyM _) => by apply stable_modify
  | |- Stable _ _ (_ ≫= _) => apply stable_bind
  | |- Stable _ _ (match ?x with _ => _ end) => destruct x
  | |- Stable _ _ ((λ _, _) _) => cbv beta
  | |- Stable _ _ (let _ := _ in _) => cbv zeta
  | |- _ => by apply _
  end.

(** ** Computations that change the state along a relation

    [keeps R m s]: the state after [m] is related to [s]; for a preorder the
    parts of a computation can be looked at one by one. *)

Definition keeps {S A} (R : S → S → Prop) (m : M S A) (s : S) : Prop := R s (m s).2.

Section Keeps.
Context {S : Type} (R : S → S → Prop) `{!PreOrder R}.

Lemma keeps_pure {A} (m : M S A) s : (m s).2 = s → keeps R m s.
Proof. unfold keeps. by intros ->. Qed.
Lemma keeps_then {A B} (m : M S A) (f : A → M S B) s :
  keeps R m s → (∀ a s', m s = (Ok a, s') → keeps R (f a) s') → keeps R (m ≫= f) s.
Proof.
  unfold keeps, mbind, M_bind. intros Hm Hf. destruct (m s) as [[a|e|] s'] eqn:E; cbn in *; [|done..].
  etransitivity; [exact Hm|]. by apply Hf.
Qed.
Lemma keeps_seq {A B} (m : M S A) (f : A → M S B) s :
  keeps R m s → (∀ a s', R s s' → keeps R (f a) s') → keeps R (m ≫= f) s.
Proof. intros Hm Hf. apply keeps_then; [done|]. intros a s' E. apply Hf. unfold keeps in Hm. by rewrite E in Hm. Qed.
Lemma keeps_get {A} (f : S → M S A) s : keeps R (f s) s → keeps R (getM ≫= f) s.
Proof. done. Qed.
Lemma keeps_attempt {A} (m : M S A) s : keeps R m s → keeps R (attempt m) s.
Proof. unfold keeps, attempt. by destruct (m s) as [[]]. Qed.
Lemma keeps_put x s : R s x → keeps R (putM x) s.
Proof. done. Qed.
Lemma keeps_modify f s : R s (f s) → keeps R (modifyM f) s.
Proof. done. Qed.
End Keeps.

(** Leaves the steps that need a reason of their own. *)
Ltac keeps_step :=
  lazymatch goal with
  | |- ∀ _, _ => intro
  | |- keeps _ (getM ≫= _) _ => apply keeps_get
  | |- keeps _ (_ ≫= _) _ => apply keeps_then; [apply _| |]
  | |- keeps _ (attempt _) _ => apply keeps_attempt
  | |- keeps _ (mret _) _ => apply keeps_pure; [apply _|done]
  | |- keeps _ (failM _) _ => apply keeps_pure; [apply _|done]
  | |- keeps _ panicM _ => apply keeps_pure; [apply _|done]
  | |- keeps _ (liftR _) _ => apply keeps_pure; [apply _|done]
  | |- keeps _ (match ?x with _ => _ end) _ => destruct x eqn:?
  | |- keeps _ (let _ := _ in _) _ => cbv zeta
  | |- keeps _ ((λ _, _) _) _ => cbv beta
  end.
Ltac keeps_tac := repeat keeps_step.

(** Closes a branch in which a call that never panics panicked. *)
Ltac absurd_panic lem :=
  match goal with
  | Hx : _ = (Panic, _) |- _ =>
      exfalso; apply (f_equal fst) in Hx; eapply lem; exact Hx
  end.

(** ** Record update: [r <| field := v |>] and [r <| field ::= f |>]

    [Eta R] holds the eta expansion of a record; [Setter] replaces one
    projection in it. *)

Class Eta (R : Type) := eta_rec : R → R.
Class Setter {R T : Type} (p : R → T) := setf : (T → T) → R → R.
#[global] Typeclasses Opaque Eta Setter.
#[global] Arguments setf {R T} p {Setter} _ _ /.

Ltac derive_setter :=
  match goal with
  | |- @Setter ?R ?T ?p =>
      let inst := constr:(_ : Eta R) in
      let body := eval hnf in inst in
      match eval pattern p in body with
      | (λ _, ?b) _ => fail 2 "the record has no such projection"
      | ?F _ => let s := constr:(fun (g : T → T) (r : R) => F (fun x => g (p x)) r) in
                let s' := eval cbv beta in s in exact s'
      end
  end.
#[export] Hint Extern 1 (Setter _) => derive_setter : typeclass_instances.

Notation "r <| p := v |>" := (setf p (λ _, v) r)
  (at level 1, left associativity, p at level 9, v at level 200,
   format "r  <| p  :=  v |>").
Notation "r <| p ::= f |>" := (setf p f r)
  (at level 1, left associativity, p at level 9, f at level 200,
   format "r  <| p  ::=  f |>").

(** ** Machine integers

    Integers are [Z]; every operation that can leave the width of its Rust
    type is followed by the wrap-around of that width (the release build has
    no overflow checks), and [as] casts are written out. *)

Definition wrapu (w z : Z) : Z := z mod 2 ^ w.
Definition wraps (w z : Z) : Z :=
  let m := z mod 2 ^ w in if m <? 2 ^ (w - 1) then m else m - 2 ^ w.

Definition as_u8 := wrapu 8.
Definition as_u16 := wrapu 16.
Definition as_u32 := wrapu 32.
Definition as_u64 := wrapu 64.
Definition as_i32 := wraps 32.
Definition as_i64 := wraps 64.

Definition u64_max : Z := 2 ^ 64 - 1.
Definition u32_max : Z := 2 ^ 32 - 1.

Definition add_u64 (a b : Z) : Z := as_u64 (a + b).
Definition sub_u64 (a b : Z) : Z := as_u64 (a - b).

Definition in_u64 (z : Z) : Prop := 0 ≤ z < 2 ^ 64.
Definition in_u32 (z : Z) : Prop := 0 ≤ z < 2 ^ 32.
Definition in_i32 (z : Z) : Prop := - 2 ^ 31 ≤ z < 2 ^ 31.

(** [flags.contains(f)] of a bitflags type *)
Definition has_flag (flags f : Z) : bool := Z.land flags f =? f.
(** [x & f != 0] *)
Definition any_bit (x f : Z) : bool := negb (Z.land x f =? 0).

Definition zlen {A} (l : list A) : Z := Z.of_nat (length l).

Lemma as_u64_small z : in_u64 z → as_u64 z = z.
Proof. intros ?. unfold as_u64, wrapu. apply Z.mod_small. unfold in_u64 in *. lia. Qed.
Lemma as_u64_in z : in_u64 (as_u64 z).
Proof. apply Z.mod_pos_bound. lia. Qed.
Lemma as_u32_small z : in_u32 z → as_u32 z = z.
Proof. intros ?. unfold as_u32, wrapu. apply Z.mod_small. unfold in_u32 in *. lia. Qed.
Lemma as_u32_in z : in_u32 (as_u32 z).
Proof. apply Z.mod_pos_bound. lia. Qed.
Lemma wraps_small w z : 0 < w → - 2 ^ (w - 1) ≤ z < 2 ^ (w - 1) → wraps w z = z.
Proof.
  intros Hw Hz. unfold wraps.
  assert (2 ^ w = 2 * 2 ^ (w - 1)) as Hp.
  { rewrite <- Z.pow_succ_r by lia. f_equal. lia. }
  destruct (decide (0 ≤ z)).
  - rewrite Z.mod_small by lia. destruct (Z.ltb_spec z (2 ^ (w - 1))); lia.
  - assert (z mod 2 ^ w = z + 2 ^ w) as ->.
    { symmetry. apply Z.mod_unique with (-1); lia. }
    destruct (Z.ltb_spec (z + 2 ^ w) (2 ^ (w - 1))); lia.
Qed.
Lemma wraps_range w z : 0 < w → - 2 ^ (w - 1) ≤ wraps w z < 2 ^ (w - 1).
Proof.
  intros Hw. unfold wraps. assert (2 ^ w = 2 * 2 ^ (w - 1)) as E by (rewrite <- Z.pow_succ_r by lia; f_equal; lia).
  assert (0 < 2 ^ (w - 1)) by (apply Z.pow_pos_nonneg; lia).
  pose proof (Z.mod_pos_bound z (2 ^ w) ltac:(lia)). repeat case_match; lia.
Qed.
Lemma as_i32_small z : in_i32 z → as_i32 z = z.
Proof. intros. apply wraps_small; [lia|]. exact H. Qed.

Lemma as_u64_add_l a b : as_u64 (as_u64 a + b) = as_u64 (a + b).
Proof. unfold as_u64, wrapu. by rewrite Zplus_mod_idemp_l. Qed.
Lemma add_u64_wrap a b : add_u64 (as_u64 a) b = as_u64 (a + b).
Proof. unfold add_u64, as_u64, wrapu. by rewrite Zplus_mod_idemp_l. Qed.
Lemma sub_u64_wrap a b : sub_u64 (as_u64 a) b = as_u64 (a - b).
Proof. unfold sub_u64, as_u64, wrapu. by rewrite Zminus_mod_idemp_l. Qed.

(** Bit [i] of a word is what masking with [2^i] tests. *)
Lemma any_bit_pow2 x i : 0 ≤ i → any_bit x (2 ^ i) = Z.testbit x i.
Proof.
  intros Hi. unfold any_bit. destruct (Z.testbit x i) eqn:Hb.
  - destruct (Z.eqb_spec (Z.land x (2 ^ i)) 0) as [H0|]; [|done].
    apply (f_equal (λ z, Z.testbit z i)) in H0.
    rewrite Z.land_spec, Hb, Z.pow2_bits_true, Z.bits_0 in H0; done.
  - destruct (Z.eqb_spec (Z.land x (2 ^ i)) 0) as [|H0]; [done|].
    exfalso. apply H0, Z.bits_inj. intros j.
    rewrite Z.land_spec, Z.bits_0, Z.pow2_bits_eqb by done.
    destruct (Z.eqb_spec i j); subst; rewrite ?Hb; by rewrite ?andb_false_r.
Qed.

(** A field above [n] bits and a value below them *)
Lemma lor_shiftl_add a b n : 0 ≤ n → 0 ≤ b < 2 ^ n → Z.lor (Z.shiftl a n) b = a * 2 ^ n + b.
Proof.
  intros Hn Hb. assert (Hl : Z.land (Z.shiftl a n) b = 0).
  { apply Z.bits_inj'. intros i Hi. rewrite Z.land_spec, Z.bits_0, Z.shiftl_spec by lia.
    destruct (Z.ltb_spec i n); [by rewrite Z.testbit_neg_r by lia|].
    rewrite <- (Z.mod_small b (2 ^ n)), Z.mod_pow2_bits_high by lia. apply andb_false_r. }
  rewrite <- Z.lxor_lor, <- Z.add_nocarry_lxor by done. by rewrite Z.shiftl_mul_pow2.
Qed.

Lemma zlen_nil {A} : zlen (@nil A) = 0.
Proof. done. Qed.
Lemma zlen_cons {A} (x : A) l : zlen (x :: l) = 1 + zlen l.
Proof. unfold zlen. simpl. lia. Qed.
Lemma zlen_app {A} (l k : list A) : zlen (l ++ k) = zlen l + zlen k.
Proof. unfold zlen. rewrite length_app. lia. Qed.
Lemma zlen_nonneg {A} (l : list A) : 0 ≤ zlen l.
Proof. unfold zlen. lia. Qed.

(** Sum of a measure over a list. *)
Definition zsum {A} (f : A → Z) (l : list A) : Z := foldr (λ x a, f x + a) 0 l.

Lemma zsum_app {A} (f : A → Z) l k : zsum f (l ++ k) = zsum f l + zsum f k.
Proof. induction l as [|x l IH]; simpl; [done|]. rewrite IH. lia. Qed.
#[export] Instance zsum_perm {A} (f : A → Z) : Proper ((≡ₚ) ==> (=)) (zsum f).
Proof. induction 1; simpl in *; lia. Qed.
Lemma zsum_nonneg {A} (f : A → Z) l : (∀ x, x ∈ l → 0 ≤ f x) → 0 ≤ zsum f l.
Proof.
  induction l as [|x l IH]; simpl; [done|]. intros Hf.
  assert (0 ≤ f x) by (apply Hf; left).
  assert (0 ≤ zsum f l) by (apply IH; intros; apply Hf; by right). lia.
Qed.

Create HintDb starry.
Create Rewrite HintDb starry.
#[export] Hint Resolve as_u64_in as_u32_in zlen_nonneg : starry.
#[export] Hint Rewrite @zlen_nil @zlen_cons @zlen_app : starry.

(** ** [BTreeMap] iteration

    A [BTreeMap<i64, V>] is a [gmap Z V]; [btree_iter] is its iteration, in
    ascending key order. *)

Definition key_le {V} (x y : Z * V) : Prop := x.1 ≤ y.1.
#[export] Instance key_le_dec {V} : RelDecision (@key_le V).
Proof. intros x y. unfold key_le. apply _. Defined.

Definition btree_iter {V} (m : gmap Z V) : list (Z * V) :=
  merge_sort key_le (map_to_list m).

Definition btree_values {V} (m : gmap Z V) : list V := (btree_iter m).*2.
Definition btree_keys {V} (m : gmap Z V) : list Z := (btree_iter m).*1.

Section btree.
Context {V : Type}.
Implicit Types m : gmap Z V.

#[local] Instance key_le_trans : Transitive (@key_le V).
Proof. unfold key_le. intros ????. lia. Qed.
#[local] Instance key_le_total : Total (@key_le V).
Proof. unfold key_le. intros x y. lia. Qed.

Lemma btree_iter_perm m : btree_iter m ≡ₚ map_to_list m.
Proof. apply merge_sort_Permutation. Qed.

Lemma elem_of_btree_iter m k v : (k, v) ∈ btree_iter m ↔ m !! k = Some v.
Proof. rewrite btree_iter_perm. apply elem_of_map_to_list. Qed.

Lemma btree_iter_nodup_keys m : NoDup (btree_keys m).
Proof.
  unfold btree_keys. rewrite btree_iter_perm. apply NoDup_fst_map_to_list.
Qed.

(** Keys come out strictly ascending. *)
Lemma btree_iter_sorted m :
  StronglySorted (λ x y : Z * V, x.1 < y.1) (btree_iter m).
Proof.
  pose proof (btree_iter_nodup_keys m) as Hnd. unfold btree_keys in Hnd.
  pose proof (StronglySorted_merge_sort key_le (map_to_list m)) as Hs.
  unfold btree_iter in *. revert Hnd Hs.
  induction (merge_sort key_le (map_to_list m)) as [|x l IH];
    intros Hnd Hs; [constructor|].
  inversion Hs as [|?? Hs' Hall]; subst. inversion Hnd as [|?? Hnin Hnd']; subst.
  constructor; [by apply IH|].
  rewrite Forall_forall in Hall |- *. intros y Hy. specialize (Hall y Hy).
  unfold key_le in Hall.
  assert (x.1 ≠ y.1); [|lia].
  intros Heq. apply Hnin. apply list_elem_of_fmap. eauto.
Qed.

Lemma btree_values_insert m k v :
  m !! k = None → btree_values (<[k:=v]> m) ≡ₚ v :: btree_values m.
Proof.
  intros. unfold btree_values. rewrite !btree_iter_perm.
  by rewrite map_to_list_insert.
Qed.

Lemma btree_iter_empty : btree_iter (∅ : gmap Z V) = [].
Proof. unfold btree_iter. by rewrite map_to_list_empty. Qed.
End btree.
