(* ===== verification/Text.v ===== *)
(** * Texts

    What the kernel prints and parses: decimal numbers ([to_string] and
    [str::parse]) and the encoding of Rust strings.  A text is a list of
    bytes. *)

From stdpp Require Export strings.
From S2P Require Import Prelude.
Open Scope Z_scope.

Abbreviation text := (list Z).

(** The bytes of a literal *)
Definition str (s : string) : text := (λ a, Z.of_nat (Ascii.nat_of_ascii a)) <$> String.list_ascii_of_string s.

Definition chr_0 : Z := 48.
Definition chr_plus : Z := 43.
Definition chr_minus : Z := 45.
Definition chr_newline : Z := 10.

(** ** Numbers as text: [to_string] and [str::parse] *)

Fixpoint digits (fuel : nat) (z : Z) (acc : text) : text :=
  match fuel with
  | O => acc
  | S fuel =>
      let acc := chr_0 + z mod 10 :: acc in
      if z / 10 =? 0 then acc else digits fuel (z / 10) acc
  end.
(** Twenty digits are enough for 64 bits. *)
Definition print_u (z : Z) : text := digits 20 z [].
Definition print_i32 (z : Z) : text := if z <? 0 then chr_minus :: print_u (- z) else print_u z.

Definition is_digit (c : Z) : bool := (chr_0 <=? c) && (c <=? chr_0 + 9).
Definition value (l : text) : Z := foldl (λ a c, 10 * a + (c - chr_0)) 0 l.
Definition parse_digits (l : text) : option Z :=
  match l with [] => None | _ => if forallb is_digit l then Some (value l) else None end.

(** A sign, digits, and a value in range *)
Definition parse_i32 (l : text) : option Z :=
  o ← match l with
      | c :: l' =>
          if c =? chr_minus then Z.opp <$> parse_digits l'
          else if c =? chr_plus then parse_digits l'
          else parse_digits l
      | [] => None
      end;
  if (- 2 ^ 31 <=? o) && (o <? 2 ^ 31) then Some o else None.
Definition parse_unsigned (w : Z) (l : text) : option Z :=
  o ← match l with c :: l' => if c =? chr_plus then parse_digits l' else parse_digits l | [] => None end;
  if o <? 2 ^ w then Some o else None.
Definition parse_u32 := parse_unsigned 32.
Definition parse_usize := parse_unsigned 64.

(** ** Round trips *)

Lemma digits_value fuel : ∀ z acc, 0 ≤ z < 10 ^ Z.of_nat fuel →
  foldl (λ a c, 10 * a + (c - chr_0)) 0 (digits fuel z acc) = foldl (λ a c, 10 * a + (c - chr_0)) z acc.
Proof.
  induction fuel as [|fuel IH]; intros z acc Hz; [replace z with 0 by (cbn in Hz; lia); done|].
  cbn [digits]. rewrite Nat2Z.inj_succ, Z.pow_succ_r in Hz by lia.
  pose proof (Z.div_mod z 10). pose proof (Z.mod_pos_bound z 10).
  destruct (Z.eqb_spec (z / 10) 0) as [Hq0|Hq0].
  - cbn [foldl]. f_equal. lia.
  - rewrite IH by (split; [apply Z.div_pos; lia|apply Z.div_lt_upper_bound; lia]). cbn [foldl]. f_equal. lia.
Qed.

Lemma digits_are fuel : ∀ z acc, forallb is_digit acc = true → forallb is_digit (digits fuel z acc) = true.
Proof.
  induction fuel as [|fuel IH]; intros z acc Hacc; cbn [digits]; [done|].
  assert (Hd : forallb is_digit (chr_0 + z mod 10 :: acc) = true).
  { cbn [forallb]. rewrite Hacc, andb_true_r. unfold is_digit, chr_0. pose proof (Z.mod_pos_bound z 10).
    apply andb_true_intro. split; apply Z.leb_le; lia. }
  destruct (z / 10 =? 0); [done|by apply IH].
Qed.
Lemma digits_cons fuel : ∀ z acc, (fuel ≠ 0)%nat ∨ acc ≠ [] → digits fuel z acc ≠ [].
Proof.
  induction fuel as [|fuel IH]; intros z acc Hne; cbn [digits]; [naive_solver|].
  destruct (z / 10 =? 0); [done|]. apply IH. by right.
Qed.

Lemma digits_length fuel : ∀ z acc, (length (digits fuel z acc) ≤ fuel + length acc)%nat.
Proof.
  induction fuel as [|fuel IH]; intros z acc; cbn [digits]; [done|].
  destruct (z / 10 =? 0); [cbn; lia|]. etrans; [apply IH|]. cbn. lia.
Qed.

Lemma parse_print_u z : 0 ≤ z < 10 ^ 20 → parse_digits (print_u z) = Some z ∧ ∃ c l, print_u z = c :: l ∧ is_digit c = true.
Proof.
  intros Hz. unfold print_u. pose proof (digits_are 20 z [] eq_refl) as Hd. pose proof (digits_value 20 z [] Hz) as Hv.
  pose proof (digits_cons 20 z [] ltac:(left; lia)) as Hc.
  destruct (digits 20 z []) as [|c l]; [done|]. unfold parse_digits, value. rewrite Hd, Hv. split; [done|].
  exists c, l. split; [done|]. cbn in Hd. by apply andb_true_iff in Hd as [? _].
Qed.

Lemma digit_no_sign c : is_digit c = true → (c =? chr_minus) = false ∧ (c =? chr_plus) = false.
Proof.
  unfold is_digit, chr_0, chr_minus, chr_plus. intros [Hl%Z.leb_le Hr%Z.leb_le]%andb_true_iff.
  split; apply Z.eqb_neq; lia.
Qed.

Lemma parse_print_i32 z : in_i32 z → parse_i32 (print_i32 z) = Some z.
Proof.
  intros Hz. unfold in_i32 in Hz. unfold print_i32. destruct (Z.ltb_spec z 0).
  - destruct (parse_print_u (- z)) as [Hp _]; [lia|]. unfold parse_i32. cbn [Z.eqb chr_minus Pos.eqb]. rewrite Hp. cbn.
    rewrite Z.opp_involutive. rewrite (proj2 (Z.leb_le _ _)), (proj2 (Z.ltb_lt _ _)) by lia. done.
  - destruct (parse_print_u z) as [Hp (c & l & Hl & [Hm Hq]%digit_no_sign)]; [lia|]. unfold parse_i32. rewrite Hl in *.
    rewrite Hm, Hq, Hp. cbn. rewrite (proj2 (Z.leb_le _ _)), (proj2 (Z.ltb_lt _ _)) by lia. done.
Qed.
Lemma parse_print_unsigned w z : 0 ≤ z < 2 ^ w → w ≤ 64 → parse_unsigned w (print_u z) = Some z.
Proof.
  intros Hz Hw. assert (2 ^ w ≤ 2 ^ 64) by (apply Z.pow_le_mono_r; lia).
  destruct (parse_print_u z) as [Hp (c & l & Hl & [Hm Hq]%digit_no_sign)]; [lia|].
  unfold parse_unsigned. rewrite Hl in *. rewrite Hq, Hp. cbn. by rewrite (proj2 (Z.ltb_lt _ _)) by lia.
Qed.
Lemma parse_print_u32 z : in_u32 z → parse_u32 (print_u z) = Some z.
Proof. intros Hz. by apply parse_print_unsigned. Qed.
Lemma parse_print_usize z : in_u64 z → parse_usize (print_u z) = Some z.
Proof. intros Hz. by apply parse_print_unsigned. Qed.

(** ** Texts of numbers are plain ASCII *)

Definition ascii (l : text) : Prop := Forall (λ c, 0 ≤ c < 128) l.
Lemma digits_ascii l : forallb is_digit l = true → ascii l.
Proof.
  intros Hl. apply Forall_forall. intros c Hc%list_elem_of_In. apply (proj1 (forallb_forall _ _) Hl) in Hc.
  unfold is_digit, chr_0 in Hc. apply andb_true_iff in Hc as [?%Z.leb_le ?%Z.leb_le]. lia.
Qed.
Lemma print_i32_ascii z : ascii (print_i32 z).
Proof.
  unfold print_i32. destruct (z <? 0); [constructor; [done|]|]; apply digits_ascii, digits_are; done.
Qed.

Lemma print_i32_length z : (0 < length (print_i32 z) ≤ 21)%nat.
Proof.
  assert (∀ x, 0 < length (print_u x) ≤ 20)%nat as Hu.
  { intros x. unfold print_u. pose proof (digits_length 20 x []) as Hl. pose proof (digits_cons 20 x [] ltac:(left; lia)).
    destruct (digits 20 x []); [done|]. cbn in *. lia. }
  unfold print_i32. destruct (z <? 0); [cbn [length]|]; [pose proof (Hu (- z))|pose proof (Hu z)]; lia.
Qed.

(** ** UTF-8

    [str::from_utf8] accepts shortest forms up to U+10FFFF without surrogates;
    a [str] may be cut where no continuation byte follows. *)

Definition in_range (lo hi c : Z) : bool := (lo <=? c) && (c <=? hi).
Definition continuation (c : Z) : bool := in_range 0x80 0xBF c.

Definition lead3 (a b : Z) : bool :=
  (a =? 0xE0) && in_range 0xA0 0xBF b || (in_range 0xE1 0xEC a || in_range 0xEE 0xEF a) && continuation b
  || (a =? 0xED) && in_range 0x80 0x9F b.
Definition lead4 (a b : Z) : bool :=
  (a =? 0xF0) && in_range 0x90 0xBF b || in_range 0xF1 0xF3 a && continuation b
  || (a =? 0xF4) && in_range 0x80 0x8F b.

Fixpoint utf8 (l : text) : bool :=
  match l with
  | [] => true
  | a :: l1 =>
      if a <? 128 then utf8 l1
      else match l1 with
      | b :: l2 =>
          if in_range 0xC2 0xDF a then continuation b && utf8 l2
          else match l2 with
          | c :: l3 =>
              if lead3 a b then continuation c && utf8 l3
              else match l3 with
              | d :: l4 => lead4 a b && continuation c && continuation d && utf8 l4
              | [] => false
              end
          | [] => false
          end
      | [] => false
      end
  end.

(** [str::is_char_boundary], and [&s[..n]], which panics inside a character *)
Definition is_char_boundary (n : nat) (s : text) : bool :=
  match s !! n with Some c => negb (continuation c) | None => (n =? length s)%nat end.
Definition str_prefix (n : nat) (s : text) : res text := if is_char_boundary n s then Ok (take n s) else Panic.

Lemma utf8_ascii l : ascii l → utf8 l = true.
Proof. induction 1 as [|c l Hc _ IH]; cbn; [done|]. by rewrite (proj2 (Z.ltb_lt _ _)) by lia. Qed.
