(* ===== verification/Vm.v ===== *)
(** * User memory

    The interface of the user memory the system calls read and write through
    [starry_vm] ([VmPtr::vm_read], [VmMutPtr::vm_write], [vm_load],
    [vm_write_slice]): a type [V] of memories, and for each type [T] of
    objects a read and a write at an address.  A null pointer is address 0
    ([nullable]). *)

From S2P Require Import Prelude.

Class VmPtr (V T : Type) := {
  vm_read : V → Z → res T;
  vm_write : Z → T → M V unit;
}.

(** What the callers rely on: an access fails with an error, never with a
    panic, and what was written is read back. *)
Class VmPtrOk (V T : Type) `{VmPtr V T} := {
  vm_read_no_panic v p : vm_read v p ≠ Panic;
  vm_write_no_panic v p x : (vm_write p x v).1 ≠ Panic;
  vm_read_write v v' p x : vm_write p x v = (Ok tt, v') → vm_read v' p = Ok x;
}.

(** [ptr.nullable()]: [f] is run on a pointer that is not null. *)
Definition when_not_null {S A} (p : Z) (f : M S A) : M S (option A) :=
  if p =? 0 then mret None else x ← f; mret (Some x).

(** ** Runs of bytes

    [UserPtr::get_as_slice] and the like, with the alignment of the type the
    pointer is cast to. *)

Class UserBytes (V : Type) := {
  ub_get : V → Z → Z → nat → res bytes;           (* alignment, address, length *)
  ub_put : Z → bytes → M V unit;
}.

(** Bytes that can be read at an address can be read in parts, and through an
    aligned pointer; what has been written is read back. *)
Class UserBytesOk (V : Type) `{UserBytes V} := {
  ub_get_part v p n l k m : ub_get v 1 p n = Ok l → (k + m ≤ n)%nat →
    ub_get v 1 (p + Z.of_nat k) m = Ok (take m (drop k l));
  ub_get_aligned v a p n l : ub_get v 1 p n = Ok l → (a | p) → ub_get v a p n = Ok l;
  ub_put_ok p l v v' : ub_put p l v = (Ok tt, v') → ub_get v' 1 p (length l) = Ok l;
}.

(** [UserPtr::get_as_mut_slice]: the content of a region that can also be
    written. *)
Class UserBytesMut (V : Type) `{UserBytes V} := {
  ub_get_mut : V → Z → Z → nat → res bytes;
  ub_get_mut_no_panic v a p n : ub_get_mut v a p n ≠ Panic;
  ub_get_mut_length v a p n l : ub_get_mut v a p n = Ok l → length l = n;
  ub_put_mut v a p n l l' : ub_get_mut v a p n = Ok l → (length l' ≤ n)%nat → (ub_put p l' v).1 = Ok tt;
  ub_put_keeps_mut v p l r v' a q n x : ub_put p l v = (r, v') → ub_get_mut v a q n = Ok x → ∃ y, ub_get_mut v' a q n = Ok y;
}.

(** [u32], [u64] and the like as objects in memory *)
Record uint (w : Z) := mkUint { uint_val : Z }.
Arguments mkUint {w}.
Arguments uint_val {w}.

(** A memory of one type of objects, for the witnesses. *)
Abbreviation cells T := (gmap Z T).
#[export] Instance cells_vm {T} : VmPtr (cells T) T := {|
  vm_read v p := ok_or BadAddress (v !! p);
  vm_write p x := λ v, (Ok tt, <[p := x]> v);
|}.
#[export] Instance cells_vm_ok {T} : VmPtrOk (cells T) T.
Proof.
  split; cbn.
  - intros v p. by destruct (v !! p).
  - done.
  - intros v v' p x [= <-]. by rewrite lookup_insert_eq.
Qed.

(** A memory with nothing mapped, for the witnesses. *)
Record unmapped := mkUnmapped {}.
#[export] Instance unmapped_vm {X} : VmPtr unmapped X := {|
  vm_read _ _ := Err BadAddress; vm_write _ _ := failM BadAddress
|}.
#[export] Instance unmapped_ok {X} : VmPtrOk unmapped X.
Proof. by split. Qed.
#[export] Instance unmapped_bytes : UserBytes unmapped := {
  ub_get _ _ _ _ := Err BadAddress; ub_put _ _ := failM BadAddress;
}.
#[export] Instance unmapped_bytes_mut : UserBytesMut unmapped.
Proof. by refine {| ub_get_mut _ _ _ _ := Err BadAddress |}. Defined.
