(* ===== verification/Ipc.v ===== *)
(** * System V IPC: permissions and identifiers

    Models [api/src/syscall/ipc/mod.rs] and the permission record
    [core/src/shm.rs: IpcPerm], which message queues and shared memory share. *)

From S2P Require Import Prelude.
Open Scope Z_scope.

(** [struct IpcPerm] *)
Record IpcPerm := mkIpcPerm {
  ipc_key : Z; ipc_uid : Z; ipc_gid : Z; ipc_cuid : Z; ipc_cgid : Z;
  ipc_mode : Z; ipc_seq : Z; ipc_pad : Z; ipc_unused0 : Z; ipc_unused1 : Z
}.
#[export] Instance eta_IpcPerm : Eta IpcPerm := λ r,
  mkIpcPerm (ipc_key r) (ipc_uid r) (ipc_gid r) (ipc_cuid r) (ipc_cgid r)
    (ipc_mode r) (ipc_seq r) (ipc_pad r) (ipc_unused0 r) (ipc_unused1 r).

Definition IPC_PRIVATE : Z := 0.
Definition IPC_CREAT : Z := 0x200. (* 0o1000 *)
Definition IPC_EXCL : Z := 0x400. (* 0o2000 *)
Definition IPC_RMID : Z := 0.
Definition IPC_SET : Z := 1.
Definition IPC_STAT : Z := 2.
Definition IPC_INFO : Z := 3.
Definition MSG_STAT : Z := 11.
Definition MSG_INFO : Z := 12.

Definition USER_READ : Z := 0x100. (* 0o400 *)
Definition USER_WRITE : Z := 0x80. (* 0o200 *)
Definition GROUP_READ : Z := 0x20. (* 0o040 *)
Definition GROUP_WRITE : Z := 0x10. (* 0o020 *)
Definition OTHER_READ : Z := 0x4. (* 0o004 *)
Definition OTHER_WRITE : Z := 0x2. (* 0o002 *)

(** [IPC_ID.fetch_add(1)]: the state is the [AtomicI32]. *)
Definition next_ipc_id : M Z Z := λ id, (Ok id, as_i32 (id + 1)).

Definition has_ipc_permission (perm : IpcPerm) (current_uid current_gid : Z)
    (is_write : bool) : bool :=
  if current_uid =? 0 then true
  else if ipc_uid perm =? current_uid then
    any_bit (ipc_mode perm) (if is_write then USER_WRITE else USER_READ)
  else if ipc_gid perm =? current_gid then
    any_bit (ipc_mode perm) (if is_write then GROUP_WRITE else GROUP_READ)
  else
    any_bit (ipc_mode perm) (if is_write then OTHER_WRITE else OTHER_READ).

(** [sys_getuid] and [sys_getgid] of [api/src/syscall/sys.rs]: every process
    runs as root. *)
Definition sys_getuid : res Z := Ok 0.
Definition sys_getgid : res Z := Ok 0.

(** The bit of the mode that decides for a caller: the first class (owner,
    group, other) the caller is in, three bits apart, read above write. *)
Definition deciding_bit (perm : IpcPerm) (uid gid : Z) (is_write : bool) : Z :=
  (if decide (ipc_uid perm = uid) then 6
   else if decide (ipc_gid perm = gid) then 3 else 0)
  + (if is_write then 1 else 2).

Lemma has_ipc_permission_bit perm uid gid w :
  has_ipc_permission perm uid gid w = true ↔
  uid = 0 ∨ Z.testbit (ipc_mode perm) (deciding_bit perm uid gid w) = true.
Proof.
  unfold has_ipc_permission, deciding_bit.
  destruct (Z.eqb_spec uid 0) as [->|Hu]; [naive_solver|].
  rewrite <- any_bit_pow2 by (repeat case_decide; destruct w; lia).
  destruct (Z.eqb_spec (ipc_uid perm) uid) as [He|He]; 
    [rewrite decide_True by done|rewrite decide_False by done].
  2: destruct (Z.eqb_spec (ipc_gid perm) gid) as [Hg|Hg];
    [rewrite decide_True by done|rewrite decide_False by done].
  all: destruct w; tauto.
Qed.

(** The counter is a 32-bit atomic; ids stay distinct until it has handed out
    [2^31 - 1] of them. *)
Definition id_in_range (id : Z) : Prop := 0 ≤ id < 2 ^ 31 - 1.

Lemma id_in_range_succ id : id_in_range id → as_i32 (id + 1) = id + 1.
Proof. unfold id_in_range. intros. apply as_i32_small. unfold in_i32. lia. Qed.

Lemma next_ipc_id_fresh id :
  id_in_range id → next_ipc_id id = (Ok id, id + 1).
Proof. intros. unfold next_ipc_id. by rewrite id_in_range_succ. Qed.
