(* ===== verification/MsgQueue.v ===== *)
(** * System V message queues: the queue and the queue manager

    Models the data part of [api/src/syscall/ipc/msg.rs]: [msqid_ds],
    [Message], [MessageQueue] with its operations and [MsgManager].

    The abstract specification of a queue is its log, the list of queued
    messages in the order they were sent; [msgq_rep] relates a queue to its
    log, and the operations are proved to implement their effect on the log. *)

From S2P Require Import Prelude Ipc.
Open Scope Z_scope.

(** [struct msqid_ds] *)
Record msqid_ds := mkMsqidDs {
  msg_perm : IpcPerm;
  msg_stime : Z; msg_rtime : Z; msg_ctime : Z;
  msg_cbytes : Z; msg_qnum : Z; msg_qbytes : Z;
  msg_lspid : Z; msg_lrpid : Z
}.
#[export] Instance eta_msqid_ds : Eta msqid_ds := λ r,
  mkMsqidDs (msg_perm r) (msg_stime r) (msg_rtime r) (msg_ctime r)
    (msg_cbytes r) (msg_qnum r) (msg_qbytes r) (msg_lspid r) (msg_lrpid r).

Definition MSGMNI : Z := 32000.
Definition MSGMNB : Z := 16384.
Definition MSGMAX : Z := 8192.

(** [msqid_ds::new]; [now] is [monotonic_time_nanos()]. *)
Definition msqid_ds_new (now key mode pid uid gid : Z) : msqid_ds :=
  {| msg_perm := {| ipc_key := key; ipc_uid := uid; ipc_gid := gid;
                    ipc_cuid := uid; ipc_cgid := gid; ipc_mode := mode;
                    ipc_seq := 0; ipc_pad := 0; ipc_unused0 := 0;
                    ipc_unused1 := 0 |};
     msg_stime := 0; msg_rtime := 0; msg_ctime := as_i64 now;
     msg_cbytes := 0; msg_qnum := 0; msg_qbytes := MSGMNB;
     msg_lspid := pid; msg_lrpid := pid |}.

(** [struct Message] *)
Record Message := mkMessage { mtype : Z; data : list byte }.

(** [struct MessageQueue] *)
Record MessageQueue := mkMessageQueue {
  mq_ds : msqid_ds;
  messages : gmap Z (list Message);
  total_bytes : Z;
  mark_removed : bool
}.
#[export] Instance eta_MessageQueue : Eta MessageQueue := λ r,
  mkMessageQueue (mq_ds r) (messages r) (total_bytes r) (mark_removed r).

Definition MessageQueue_new (now key mode pid uid gid : Z) : MessageQueue :=
  {| mq_ds := msqid_ds_new now key mode (as_i32 pid) uid gid;
     messages := ∅; total_bytes := 0; mark_removed := false |}.

(** The messages of one type; [entry(mtype).or_default()]. *)
Definition msgs_of (q : MessageQueue) (t : Z) : list Message :=
  default [] (messages q !! t).

Definition enqueue_message (mt : Z) (d : list byte) : M MessageQueue unit :=
  q ← getM;
  let data_len := zlen d in
  if msg_qbytes (mq_ds q) <? add_u64 (total_bytes q) data_len
  then failM (Linux ENOSPC)
  else putM
    (q <| messages := <[mt := msgs_of q mt ++ [mkMessage mt d]]> (messages q) |>
       <| total_bytes ::= λ n, add_u64 n data_len |>
       <| mq_ds ::= λ ds, ds <| msg_cbytes ::= λ n, add_u64 n data_len |>
                             <| msg_qnum ::= λ n, add_u64 n 1 |> |>).

(** The iteration shared by [find_first_message] and
    [find_message_not_equal]: the head of the first non-empty entry whose type
    is kept. *)
Fixpoint scan_entries (keep : Z → bool) (l : list (Z * list Message))
    : option (Z * list byte) :=
  match l with
  | [] => None
  | (mt, ms) :: l' =>
      match ms with
      | m :: _ => if keep mt then Some (mt, data m) else scan_entries keep l'
      | [] => scan_entries keep l'
      end
  end.

Definition find_first_message (q : MessageQueue) : option (Z * list byte) :=
  scan_entries (λ _, true) (btree_iter (messages q)).

Definition find_message_by_type (q : MessageQueue) (msgtyp : Z)
    : option (Z * list byte) :=
  ms ← messages q !! msgtyp;
  m ← head ms;
  Some (msgtyp, data m).

Definition find_message_not_equal (q : MessageQueue) (msgtyp : Z)
    : option (Z * list byte) :=
  scan_entries (λ mt, negb (mt =? msgtyp)) (btree_iter (messages q)).

Definition find_message_less_equal (q : MessageQueue) (abs_typ : Z)
    : option (Z * list byte) :=
  let candidate_type :=
    foldl (λ (candidate : option Z) '(mt, ms),
      if (mt <=? abs_typ) && negb (bool_decide (ms = []))
         && match candidate with None => true | Some c => mt <? c end
      then Some mt else candidate)
      None (btree_iter (messages q)) in
  match candidate_type with
  | Some mt =>
      ms ← messages q !! mt;
      m ← head ms;
      Some (mt, data m)
  | None => None
  end.

Definition get_total_message_count (q : MessageQueue) : Z :=
  zsum zlen (btree_values (messages q)).

Fixpoint index_entries (l : list (list Message)) (current_index index : Z)
    : option Message :=
  match l with
  | [] => None
  | ms :: l' =>
      if index <? current_index + zlen ms
      then ms !! Z.to_nat (index - current_index)
      else index_entries l' (current_index + zlen ms) index
  end.

Definition get_message_by_index (q : MessageQueue) (index : Z) : option Message :=
  index_entries (btree_values (messages q)) 0 index.

Definition remove_message_by_type_and_index (mt index : Z) : M MessageQueue Message :=
  q ← getM;
  match messages q !! mt with
  | Some ms =>
      match ms !! Z.to_nat index with
      | Some removed_msg =>
          let ms' := delete (Z.to_nat index) ms in
          let len := zlen (data removed_msg) in
          putM
            (q <| total_bytes ::= λ n, sub_u64 n len |>
               <| mq_ds ::= λ ds, ds <| msg_cbytes ::= λ n, sub_u64 n len |>
                                     <| msg_qnum ::= λ n, sub_u64 n 1 |> |>
               <| messages := if bool_decide (ms' = [])
                              then delete mt (messages q)
                              else <[mt := ms']> (messages q) |>);;
          mret removed_msg
      | None => failM (Linux ENOMSG)
      end
  | None => failM (Linux ENOMSG)
  end.

(** [struct MsgManager] *)
Record MsgManager := mkMsgManager {
  key_msqid : gmap Z Z;
  msqid_queues : gmap Z MessageQueue
}.
#[export] Instance eta_MsgManager : Eta MsgManager := λ r,
  mkMsgManager (key_msqid r) (msqid_queues r).

Definition MsgManager_new : MsgManager := mkMsgManager ∅ ∅.

Definition iter_msg_queues (mm : MsgManager) : list (Z * MessageQueue) :=
  btree_iter (msqid_queues mm).
Definition iter_active_queues (mm : MsgManager) : list (Z * MessageQueue) :=
  filter (λ kq, mark_removed kq.2 = false) (iter_msg_queues mm).
Definition get_msqid_by_key (mm : MsgManager) (key : Z) : option Z :=
  key_msqid mm !! key.
Definition get_queue_by_msqid (mm : MsgManager) (msqid : Z) : option MessageQueue :=
  msqid_queues mm !! msqid.
Definition insert_key_msqid (key msqid : Z) (mm : MsgManager) : MsgManager :=
  mm <| key_msqid ::= <[key := msqid]> |>.
Definition insert_msqid_queues (msqid : Z) (q : MessageQueue) (mm : MsgManager)
    : MsgManager :=
  mm <| msqid_queues ::= <[msqid := q]> |>.
Definition queue_count (mm : MsgManager) : Z := Z.of_nat (size (msqid_queues mm)).
Definition remove_msqid (msqid : Z) (mm : MsgManager) : MsgManager :=
  mm <| key_msqid ::= filter (λ kv, kv.2 ≠ msqid) |>
     <| msqid_queues ::= delete msqid |>.
Definition manager_total_bytes (mm : MsgManager) : Z :=
  as_u64 (zsum (λ kq, total_bytes kq.2) (iter_active_queues mm)).

(** ** The log of a queue *)

Definition of_type (t : Z) (m : Message) : Prop := mtype m = t.
#[export] Instance of_type_dec t m : Decision (of_type t m).
Proof. unfold of_type. apply _. Defined.

Definition log_bytes (log : list Message) : Z := zsum (λ m, zlen (data m)) log.

(** The log without its [i]-th message of type [t]. *)
Fixpoint log_remove (t : Z) (i : nat) (log : list Message) : list Message :=
  match log with
  | [] => []
  | m :: log' =>
      if decide (of_type t m) then
        match i with O => log' | S i' => m :: log_remove t i' log' end
      else m :: log_remove t i log'
  end.

Record msgq_rep (q : MessageQueue) (log : list Message) : Prop := {
  rep_fifo : ∀ t, msgs_of q t = filter (of_type t) log;
  rep_nonempty : ∀ t, messages q !! t ≠ Some [];
  rep_total : total_bytes q = as_u64 (log_bytes log);
  rep_cbytes : msg_cbytes (mq_ds q) = as_u64 (log_bytes log);
  rep_qnum : msg_qnum (mq_ds q) = as_u64 (zlen log)
}.

Section msgq.
Implicit Types (q : MessageQueue) (log : list Message) (t : Z).

Lemma filter_type_app t log m :
  filter (of_type t) (log ++ [m])
  = filter (of_type t) log ++ (if decide (mtype m = t) then [m] else []).
Proof.
  rewrite filter_app, filter_cons, filter_nil. by unfold of_type.
Qed.

Lemma rep_new now key mode pid uid gid :
  msgq_rep (MessageQueue_new now key mode pid uid gid) [].
Proof.
  split; simpl; try done; intros t; unfold msgs_of; simpl; by rewrite lookup_empty.
Qed.

(** Each entry of the map is the sub-log of its type, never empty. *)
Lemma rep_lookup q log t :
  msgq_rep q log →
  messages q !! t =
    match filter (of_type t) log with [] => None | ms => Some ms end.
Proof.
  intros [Hf Hn _ _ _]. specialize (Hf t). specialize (Hn t).
  unfold msgs_of in Hf. rewrite <- Hf.
  destruct (messages q !! t) as [[|m ms]|]; naive_solver.
Qed.

Lemma log_remove_filter_eq t i log :
  filter (of_type t) (log_remove t i log) = delete i (filter (of_type t) log).
Proof.
  revert i. induction log as [|m log IH]; intros i; simpl; [done|].
  rewrite (filter_cons _ m log).
  case_decide as Ht; [destruct i as [|i]; [done|]|]; rewrite filter_cons.
  - rewrite decide_True by done. simpl. f_equal. apply IH.
  - rewrite decide_False by done. apply IH.
Qed.

Lemma log_remove_filter_ne t u i log :
  t ≠ u → filter (of_type u) (log_remove t i log) = filter (of_type u) log.
Proof.
  intros Hne. revert i. induction log as [|m log IH]; intros i; simpl; [done|].
  unfold of_type in *. case_decide as Ht; [destruct i as [|i]|];
    rewrite ?(filter_cons _ m).
  - rewrite decide_False by congruence. done.
  - rewrite IH. done.
  - rewrite IH. done.
Qed.

Lemma log_remove_measure (f : Message → Z) t i log m :
  filter (of_type t) log !! i = Some m →
  zsum f (log_remove t i log) = zsum f log - f m.
Proof.
  revert i. induction log as [|m' log IH]; intros i; simpl; [done|].
  rewrite filter_cons. case_decide.
  - destruct i as [|i]; simpl; [intros [= ->]; lia|].
    intros Hi. rewrite (IH i Hi). lia.
  - intros Hi. simpl. rewrite (IH i Hi). lia.
Qed.

Lemma zlen_zsum {A} (l : list A) : zlen l = zsum (λ _, 1) l.
Proof. induction l as [|x l IH]; simpl; [done|]. rewrite zlen_cons. lia. Qed.

Lemma rep_entry q log m :
  msgq_rep q log → m ∈ log →
  messages q !! mtype m = Some (filter (of_type (mtype m)) log)
  ∧ filter (of_type (mtype m)) log ≠ [].
Proof.
  intros Hr Hm. rewrite (rep_lookup q log _ Hr).
  assert (m ∈ filter (of_type (mtype m)) log) as Hin
    by (by apply list_elem_of_filter).
  destruct (filter _ log); [by apply elem_of_nil in Hin|done].
Qed.

(** *** Adding and removing *)

Lemma enqueue_rep q log t d :
  msgq_rep q log →
  match enqueue_message t d q with
  | (Ok _, q') => msgq_rep q' (log ++ [mkMessage t d])
                  ∧ as_u64 (log_bytes log + zlen d) ≤ msg_qbytes (mq_ds q)
                  ∧ msg_qbytes (mq_ds q') = msg_qbytes (mq_ds q)
  | (Err e, q') => e = Linux ENOSPC ∧ q' = q
                   ∧ msg_qbytes (mq_ds q) < as_u64 (log_bytes log + zlen d)
  | (Panic, _) => False
  end.
Proof.
  intros [Hf Hn Ht Hc Hq]. unfold enqueue_message, mbind, M_bind, getM. simpl.
  rewrite Ht, add_u64_wrap.
  destruct (Z.ltb_spec (msg_qbytes (mq_ds q)) (as_u64 (log_bytes log + zlen d)));
    [done|]. unfold putM. simpl. repeat split; simpl; [| | | | |lia].
  - intros u. rewrite filter_type_app. cbn [mtype].
    transitivity (if decide (t = u) then msgs_of q t ++ [mkMessage t d] else msgs_of q u).
    + unfold msgs_of. simpl. rewrite lookup_insert. by case_decide.
    + destruct (decide (t = u)) as [->|]; rewrite Hf; [done|by rewrite app_nil_r].
  - intros u. rewrite lookup_insert. case_decide; [|apply Hn].
    by destruct (msgs_of q t).
  - unfold log_bytes. rewrite zsum_app. simpl. f_equal. lia.
  - rewrite Hc, add_u64_wrap. unfold log_bytes. rewrite zsum_app. simpl. f_equal. lia.
  - rewrite Hq, add_u64_wrap. by rewrite zlen_app.
Qed.

Lemma remove_rep q log t i :
  msgq_rep q log →
  match filter (of_type t) log !! i with
  | Some m => ∃ q', remove_message_by_type_and_index t (Z.of_nat i) q = (Ok m, q')
                    ∧ msgq_rep q' (log_remove t i log)
                    ∧ mark_removed q' = mark_removed q
                    ∧ msg_perm (mq_ds q') = msg_perm (mq_ds q)
                    ∧ msg_qbytes (mq_ds q') = msg_qbytes (mq_ds q)
  | None => remove_message_by_type_and_index t (Z.of_nat i) q = (Err (Linux ENOMSG), q)
  end.
Proof.
  intros Hr. pose proof (rep_lookup q log t Hr) as Hl.
  unfold remove_message_by_type_and_index, mbind, M_bind, getM.
  rewrite Hl, Nat2Z.id. destruct (filter (of_type t) log !! i) as [m|] eqn:Hi.
  - destruct (filter (of_type t) log) as [|m0 ms0] eqn:Hfl; [done|].
    rewrite <- Hfl in *. rewrite Hi. unfold putM, mret, M_ret.
    eexists; split; [done|]. destruct Hr as [Hf Hn Ht Hc Hq].
    split; [|done]. split; simpl.
    + intros u. unfold msgs_of. simpl.
      destruct (decide (t = u)) as [->|Hne].
      * rewrite log_remove_filter_eq. case_bool_decide as Hd.
        -- by rewrite lookup_delete_eq, Hd.
        -- by rewrite lookup_insert_eq.
      * rewrite log_remove_filter_ne by done. rewrite <- (Hf u). unfold msgs_of.
        case_bool_decide; [by rewrite lookup_delete_ne|by rewrite lookup_insert_ne].
    + intros u. case_bool_decide as Hd.
      * rewrite lookup_delete. case_decide; [done|apply Hn].
      * rewrite lookup_insert. case_decide; [naive_solver|apply Hn].
    + rewrite Ht, sub_u64_wrap. unfold log_bytes. by erewrite log_remove_measure.
    + rewrite Hc, sub_u64_wrap. unfold log_bytes. by erewrite log_remove_measure.
    + rewrite Hq, sub_u64_wrap, !zlen_zsum. by erewrite log_remove_measure.
  - by destruct (filter (of_type t) log) as [|m0 ms0]; [|rewrite Hi].
Qed.

(** *** Searching

    A search keeps some types; it answers with the oldest message of the
    lowest kept type in the log. *)
Definition lowest_selected (keep : Z → Prop) log (o : option (Z * list byte)) : Prop :=
  match o with
  | None => ∀ m, m ∈ log → ¬ keep (mtype m)
  | Some (t, d) =>
      keep t ∧ (∃ m, head (filter (of_type t) log) = Some m ∧ data m = d)
      ∧ ∀ m, m ∈ log → keep (mtype m) → t ≤ mtype m
  end.

Lemma lowest_selected_iff (keep keep' : Z → Prop) log o :
  (∀ t, keep' t ↔ keep t) → lowest_selected keep' log o → lowest_selected keep log o.
Proof.
  intros Hiff. destruct o as [[t d]|]; cbn; [|naive_solver].
  intros (Hk & Hm & Hmin). split_and!; [by apply Hiff|done|].
  intros m Hin Hkm. by apply Hmin, Hiff.
Qed.

Lemma scan_entries_spec keep l :
  StronglySorted (λ x y : Z * list Message, x.1 < y.1) l →
  match scan_entries keep l with
  | Some (t, d) => ∃ m ms, (t, m :: ms) ∈ l ∧ keep t = true ∧ data m = d
      ∧ ∀ u x xs, (u, x :: xs) ∈ l → keep u = true → t ≤ u
  | None => ∀ u x xs, (u, x :: xs) ∈ l → keep u = false
  end.
Proof.
  induction 1 as [|[t ms] l Hs IH Hall]; simpl; [by intros ??? ?%elem_of_nil|].
  rewrite Forall_forall in Hall. destruct ms as [|m ms].
  - destruct (scan_entries keep l) as [[t' d]|].
    + destruct IH as (m & ms & Hin & Hk & Hd & Hmin). exists m, ms.
      split; [by right|]. do 2 (split; [done|]).
      intros u x xs [?|Hu]%elem_of_cons; [done|eauto].
    + intros u x xs [?|Hu]%elem_of_cons; [done|eauto].
  - destruct (keep t) eqn:Hkt.
    + exists m, ms. split; [by left|]. do 2 (split; [done|]).
      intros u x xs [[= -> -> ->]|Hu]%elem_of_cons Hk; [done|].
      specialize (Hall _ Hu). simpl in Hall. lia.
    + destruct (scan_entries keep l) as [[t' d]|].
      * destruct IH as (m' & ms' & Hin & Hk & Hd & Hmin). exists m', ms'.
        split; [by right|]. do 2 (split; [done|]).
        intros u x xs [[= -> -> ->]|Hu]%elem_of_cons Hk'; [congruence|eauto].
      * intros u x xs [[= -> -> ->]|Hu]%elem_of_cons; [done|eauto].
Qed.

Lemma scan_entries_selects keep q log :
  msgq_rep q log →
  lowest_selected (λ t, keep t = true) log (scan_entries keep (btree_iter (messages q))).
Proof.
  intros Hr. pose proof (scan_entries_spec keep _ (btree_iter_sorted (messages q))) as Hs.
  assert (∀ m, m ∈ log → ∃ x xs, (mtype m, x :: xs) ∈ btree_iter (messages q)) as Hin.
  { intros m Hm. destruct (rep_entry q log m Hr Hm) as [Hl Hne].
    destruct (filter _ log) as [|x xs]; [done|]. exists x, xs.
    by apply elem_of_btree_iter. }
  unfold lowest_selected. destruct (scan_entries _ _) as [[t d]|].
  - destruct Hs as (m & ms & Hm & Hk & Hd & Hmin). split; [done|]. split.
    + exists m. split; [|done]. apply elem_of_btree_iter in Hm.
      rewrite (rep_lookup q log t Hr) in Hm. destruct (filter _ log); naive_solver.
    + intros m' Hm' Hk'. destruct (Hin m' Hm') as (x & xs & Hx). eauto.
  - intros m Hm. destruct (Hin m Hm) as (x & xs & Hx). rewrite (Hs _ _ _ Hx). done.
Qed.

(** The scan for the smallest type of [find_message_less_equal] stops at the
    first kept entry, because entries come in ascending order. *)
Lemma less_equal_scan q a log :
  msgq_rep q log →
  find_message_less_equal q a
  = scan_entries (λ t, t <=? a) (btree_iter (messages q)).
Proof.
  intros Hr. unfold find_message_less_equal.
  set (f := λ (c : option Z) '(mt, ms), _).
  assert (∀ l c, Forall (λ x : Z * list Message, c < x.1) l → foldl f (Some c) l = Some c)
    as Hkeep.
  { induction l as [|[t ms] l IH]; intros c; [done|]. intros [Hc Hl]%Forall_cons.
    simpl in *. rewrite (proj2 (Z.ltb_ge t c)) by lia. rewrite andb_false_r. eauto. }
  pose proof (btree_iter_sorted (messages q)) as Hs.
  assert (∀ t ms, (t, ms) ∈ btree_iter (messages q) → messages q !! t = Some ms) as Hl
    by (intros; by apply elem_of_btree_iter).
  induction Hs as [|[t ms] l Hs IH Hall]; [done|]. simpl.
  rewrite andb_true_r. destruct ms as [|m ms]; simpl.
  { rewrite andb_false_r. apply IH. intros ???; apply Hl; by right. }
  destruct (t <=? a); simpl.
  - rewrite Hkeep by done. rewrite (Hl t (m :: ms)) by left. done.
  - apply IH. intros ???; apply Hl; by right.
Qed.

(** *** Indexing ([MSG_COPY]) *)

Lemma index_entries_concat l cur i :
  cur ≤ i → index_entries l cur i = concat l !! Z.to_nat (i - cur).
Proof.
  revert cur. induction l as [|ms l IH]; intros cur Hi; simpl; [done|].
  destruct (Z.ltb_spec i (cur + zlen ms)) as [H|H].
  - rewrite lookup_app_l; [done|]. unfold zlen in H. lia.
  - rewrite IH by done. unfold zlen in *. rewrite lookup_app_r by lia. f_equal. lia.
Qed.

Lemma count_concat (l : list (list Message)) : zsum zlen l = zlen (concat l).
Proof. induction l as [|ms l IH]; simpl; [done|]. rewrite zlen_app. lia. Qed.

(** The entries, concatenated in iteration order, are the log reordered. *)
Lemma entries_perm_log (m : gmap Z (list Message)) log :
  (∀ t, default [] (m !! t) = filter (of_type t) log) →
  concat (btree_values m) ≡ₚ log.
Proof.
  revert log. induction m as [|t ms m Hnone IH] using map_ind; intros log Hf.
  - destruct log as [|x log]; [by unfold btree_values; rewrite btree_iter_empty|].
    specialize (Hf (mtype x)). rewrite lookup_empty, filter_cons in Hf.
    by rewrite decide_True in Hf.
  - rewrite btree_values_insert by done. simpl.
    rewrite (IH (filter (λ x, ¬ of_type t x) log)).
    + assert (ms = filter (of_type t) log) as ->
        by (specialize (Hf t); by rewrite lookup_insert_eq in Hf).
      clear. induction log as [|x log IHl]; [done|]. rewrite !filter_cons.
      destruct (decide (of_type t x)) as [Hx|Hx].
      * rewrite decide_False by tauto. simpl. by rewrite IHl.
      * rewrite decide_True by done. rewrite <- Permutation_middle. by rewrite IHl.
    + intros u. rewrite list_filter_filter. destruct (decide (t = u)) as [->|Hne].
      * rewrite Hnone. simpl. clear. induction log as [|x log IHl]; [done|]. rewrite filter_cons.
        rewrite decide_False by (unfold of_type; tauto). done.
      * specialize (Hf u). rewrite lookup_insert_ne in Hf by done. rewrite Hf.
        clear -Hne. induction log as [|x log IHl]; [done|]. rewrite !filter_cons, IHl.
        unfold of_type in *. destruct (decide (mtype x = u)).
        -- by rewrite decide_True by (split; congruence).
        -- by rewrite decide_False by tauto.
Qed.

Lemma rep_perm q log : msgq_rep q log → concat (btree_values (messages q)) ≡ₚ log.
Proof. intros Hr. apply entries_perm_log. apply (rep_fifo _ _ Hr). Qed.
End msgq.

(** ** The queue implements its log *)

(** C1: a queue refines its log of messages in arrival order.  [enqueue_message]
    appends to the log, or fails with [ENOSPC] and changes nothing when the
    bytes would exceed [msg_qbytes]; [remove_message_by_type_and_index] takes
    out exactly the indexed message of the type, or fails with [ENOMSG] and
    changes nothing.  In both cases [total_bytes], [msg_cbytes] and [msg_qnum]
    stay the byte and message counts of the log (modulo the word width). *)
Theorem queue_refines_log q log :
  msgq_rep q log →
  (∀ t d, match enqueue_message t d q with
     | (Ok _, q') => msgq_rep q' (log ++ [mkMessage t d])
                     ∧ as_u64 (log_bytes log + zlen d) ≤ msg_qbytes (mq_ds q)
                     ∧ msg_qbytes (mq_ds q') = msg_qbytes (mq_ds q)
     | (Err e, q') => e = Linux ENOSPC ∧ q' = q
                      ∧ msg_qbytes (mq_ds q) < as_u64 (log_bytes log + zlen d)
     | (Panic, _) => False
     end)
  ∧ (∀ t i, match filter (of_type t) log !! i with
     | Some m => ∃ q', remove_message_by_type_and_index t (Z.of_nat i) q = (Ok m, q')
                       ∧ msgq_rep q' (log_remove t i log)
                       ∧ mark_removed q' = mark_removed q
                       ∧ msg_perm (mq_ds q') = msg_perm (mq_ds q)
                       ∧ msg_qbytes (mq_ds q') = msg_qbytes (mq_ds q)
     | None => remove_message_by_type_and_index t (Z.of_nat i) q
               = (Err (Linux ENOMSG), q)
     end).
Proof. intros Hr. split; intros; [by apply enqueue_rep|by apply remove_rep]. Qed.

(** A queue holding a message of type 2, then one of type 1. *)
Definition two_messages : MessageQueue :=
  ((enqueue_message 2 [Byte.x61];; enqueue_message 1 [Byte.x62; Byte.x63])
     (MessageQueue_new 0 7 0x1ff 1 0 0)).2.
Definition two_log : list Message :=
  [mkMessage 2 [Byte.x61]; mkMessage 1 [Byte.x62; Byte.x63]].

Lemma two_messages_rep : msgq_rep two_messages two_log.
Proof.
  pose proof (enqueue_rep _ [] 2 [Byte.x61] (rep_new 0 7 0x1ff 1 0 0)) as H1.
  vm_compute (enqueue_message _ _ _) in H1. destruct H1 as [H1 _].
  pose proof (enqueue_rep _ _ 1 [Byte.x62; Byte.x63] H1) as H2.
  vm_compute (enqueue_message _ _ _) in H2. destruct H2 as [H2 _]. exact H2.
Qed.

Lemma queue_refines_log_witness :
  msgq_rep two_messages two_log
  ∧ ∃ q', remove_message_by_type_and_index 1 0 two_messages
          = (Ok (mkMessage 1 [Byte.x62; Byte.x63]), q')
          ∧ msgq_rep q' [mkMessage 2 [Byte.x61]].
Proof.
  split; [exact two_messages_rep|].
  destruct (queue_refines_log two_messages two_log two_messages_rep) as [_ Hrm].
  destruct (Hrm 1 0%nat) as (q' & He & Hr & _). exists q'. split; [exact He|exact Hr].
Defined.

(** what the four searches of [sys_msgrcv] find, in terms of the log: the
    oldest message of the given type; of the lowest type at all; of the lowest
    type other than the given one; of the lowest type not above the bound. *)
Lemma queue_searches_log q log :
  msgq_rep q log →
  (∀ t, find_message_by_type q t
        = (λ m, (t, data m)) <$> head (filter (of_type t) log))
  ∧ lowest_selected (λ _, True) log (find_first_message q)
  ∧ (∀ t, lowest_selected (λ u, u ≠ t) log (find_message_not_equal q t))
  ∧ (∀ a, lowest_selected (λ u, u ≤ a) log (find_message_less_equal q a)).
Proof.
  intros Hr. split_and!.
  - intros t. unfold find_message_by_type. rewrite (rep_lookup q log t Hr).
    by destruct (filter _ log).
  - eapply lowest_selected_iff; [|by apply (scan_entries_selects (λ _, true))]. done.
  - intros t. eapply lowest_selected_iff;
      [|by apply (scan_entries_selects (λ u, negb (u =? t)))].
    intros u. rewrite negb_true_iff, Z.eqb_neq. done.
  - intros a. rewrite (less_equal_scan q a log Hr).
    eapply lowest_selected_iff; [|by apply scan_entries_selects].
    intros u. apply Z.leb_le.
Qed.

(** [MSG_COPY] indexing.  The count is the number of queued messages, an
    index below it always yields a message (so the second [ENOMSG] test of
    [sys_msgrcv] never fires), and the messages found at the indices
    [0, 1, ...] are exactly the messages of the log, each once. *)
Lemma message_index_enumerates_log q log :
  msgq_rep q log →
  get_total_message_count q = zlen log
  ∧ ∃ order, order ≡ₚ log
      ∧ (∀ i, 0 ≤ i → get_message_by_index q i = order !! Z.to_nat i)
      ∧ (∀ i, 0 ≤ i < get_total_message_count q → is_Some (get_message_by_index q i)).
Proof.
  intros Hr. pose proof (rep_perm q log Hr) as Hp.
  assert (get_total_message_count q = zlen log) as Hc.
  { unfold get_total_message_count. rewrite count_concat. unfold zlen. by rewrite Hp. }
  assert (∀ i, 0 ≤ i → get_message_by_index q i
            = concat (btree_values (messages q)) !! Z.to_nat i) as Hi.
  { intros i ?. unfold get_message_by_index. rewrite index_entries_concat by done.
    by rewrite Z.sub_0_r. }
  split; [done|]. exists (concat (btree_values (messages q))). split_and!; [done..|].
  intros i [H0 Hlt]. rewrite Hi by done. apply lookup_lt_is_Some_2. rewrite Hp.
  rewrite Hc in Hlt. unfold zlen in Hlt. lia.
Qed.
