(* ===== verification/MsgSys.v ===== *)
(** * System V message queues: the system calls

    Models [sys_msgget], [sys_msgsnd], [sys_msgrcv] and [sys_msgctl] of
    [api/src/syscall/ipc/msg.rs].  Each call is one atomic transition of
    [MsgSys]: the id counter [IPC_ID], the global [MSG_MANAGER] and the user
    memory of the caller.  The user memory belongs to the [starry_vm] crate and
    is the parameter [V] of the class [MsgVm]. *)

From S2P Require Import Prelude Ipc MsgQueue.
Open Scope Z_scope.

(** [struct MsgInfo] of [sys_msgctl] *)
Record MsgInfo := mkMsgInfo {
  msgpool : Z; msgmap : Z; msgmax : Z; msgmnb : Z;
  msgmni : Z; msgssz : Z; msgtql : Z; msgseg : Z
}.

(** The user memory operations the calls make: [vm_read]/[vm_write] at the
    types they are used at, [vm_load] and [vm_write_slice] of bytes. *)
Class MsgVm (V : Type) := {
  vm_read_i64 : V → Z → res Z;
  vm_load_u8 : V → Z → Z → res (list byte);
  vm_read_msqid_ds : V → Z → res msqid_ds;
  vm_write_i64 : Z → Z → M V unit;
  vm_write_u8 : Z → list byte → M V unit;
  vm_write_msqid_ds : Z → msqid_ds → M V unit;
  vm_write_msginfo : Z → MsgInfo → M V unit
}.

(** What the calls rely on: an access succeeds or fails but does not panic, and
    [vm_load] returns as many bytes as it was asked for. *)
Class MsgVmOk (V : Type) `{MsgVm V} := {
  vm_read_i64_np v a : vm_read_i64 v a ≠ Panic;
  vm_load_u8_np v a n : vm_load_u8 v a n ≠ Panic;
  vm_read_msqid_ds_np v a : vm_read_msqid_ds v a ≠ Panic;
  vm_write_i64_np a x v : (vm_write_i64 a x v).1 ≠ Panic;
  vm_write_u8_np a l v : (vm_write_u8 a l v).1 ≠ Panic;
  vm_write_msqid_ds_np a x v : (vm_write_msqid_ds a x v).1 ≠ Panic;
  vm_write_msginfo_np a x v : (vm_write_msginfo a x v).1 ≠ Panic;
  vm_load_u8_len v a n l : vm_load_u8 v a n = Ok l → zlen l = n
}.

Record MsgSys (V : Type) := mkMsgSys {
  ms_ipc_id : Z;
  ms_mgr : MsgManager;
  ms_vm : V
}.
Arguments mkMsgSys {V}.
Arguments ms_ipc_id {V}.
Arguments ms_mgr {V}.
Arguments ms_vm {V}.
#[export] Instance eta_MsgSys {V} : Eta (MsgSys V) := λ r,
  mkMsgSys (ms_ipc_id r) (ms_mgr r) (ms_vm r).

(** [MsgRcvFlags] and [MsgSndFlags] *)
Definition IPC_NOWAIT : Z := 0x800.   (* 0o4000 *)
Definition MSG_NOERROR : Z := 0x1000. (* 0o10000 *)
Definition MSG_COPY : Z := 0x2000.    (* 0o20000 *)
Definition MSG_EXCEPT : Z := 0x400.   (* 0o2000 *)
Definition MsgRcvFlags_truncate (bits : Z) : Z :=
  Z.land bits (Z.lor IPC_NOWAIT (Z.lor MSG_NOERROR (Z.lor MSG_COPY MSG_EXCEPT))).
Definition MsgSndFlags_truncate (bits : Z) : Z := Z.land bits IPC_NOWAIT.

Section sys.
Context {V : Type} `{MsgVm V}.

Definition on_vm {A} (f : M V A) : M (MsgSys V) A := λ s,
  let '(r, v) := f (ms_vm s) in (r, s <| ms_vm := v |>).
Definition new_id : M (MsgSys V) Z := λ s,
  let '(r, i) := next_ipc_id (ms_ipc_id s) in (r, s <| ms_ipc_id := i |>).
Definition on_mgr (f : MsgManager → MsgManager) : M (MsgSys V) unit :=
  modifyM (λ s, s <| ms_mgr ::= f |>).
(** Runs [f] on the locked queue [q] of id [msqid]. *)
Definition on_queue {A} (msqid : Z) (q : MessageQueue) (f : M MessageQueue A)
    : M (MsgSys V) A := λ s,
  let '(r, q') := f q in (r, s <| ms_mgr ::= insert_msqid_queues msqid q' |>).

Definition sys_msgget (now pid key msgflg : Z) : M (MsgSys V) Z :=
  current_uid ← liftR sys_getuid;
  current_gid ← liftR sys_getgid;
  s ← getM;
  if MSGMNI <=? queue_count (ms_mgr s) then failM (Linux ENOSPC)
  else if key =? IPC_PRIVATE then
    msqid ← new_id;
    on_mgr (insert_msqid_queues msqid
      (MessageQueue_new now key (Z.land msgflg 0x1ff) pid current_uid current_gid));;
    mret msqid
  else
    match get_msqid_by_key (ms_mgr s) key with
    | Some msqid =>
        q ← liftR (ok_or (Linux ENOENT) (get_queue_by_msqid (ms_mgr s) msqid));
        if negb (has_ipc_permission (msg_perm (mq_ds q)) current_uid current_gid false)
        then failM (Linux EACCES)
        else if mark_removed q then failM (Linux EIDRM)
        else if any_bit msgflg IPC_EXCL && any_bit msgflg IPC_CREAT
        then failM (Linux EEXIST)
        else mret msqid
    | None =>
        if negb (any_bit msgflg IPC_CREAT) then failM (Linux ENOENT)
        else
          msqid ← new_id;
          on_mgr (insert_key_msqid key msqid);;
          on_mgr (insert_msqid_queues msqid
            (MessageQueue_new now key (Z.land msgflg 0x1ff) pid current_uid current_gid));;
          mret msqid
    end.

Definition sys_msgsnd (now pid msqid msgp msgsz msgflg : Z) : M (MsgSys V) Z :=
  if MSGMAX <? msgsz then failM (Linux EINVAL)
  else
    current_uid ← liftR sys_getuid;
    current_gid ← liftR sys_getgid;
    let flags := MsgSndFlags_truncate msgflg in
    s ← getM;
    q ← liftR (ok_or (Linux EINVAL) (get_queue_by_msqid (ms_mgr s) msqid));
    if negb (has_ipc_permission (msg_perm (mq_ds q)) current_uid current_gid true)
    then failM (Linux EACCES)
    else
      mt ← liftR (vm_read_i64 (ms_vm s) msgp);
      if mt <=? 0 then failM (Linux EINVAL)
      else
        data_vec ← liftR (vm_load_u8 (ms_vm s) (add_u64 msgp 8) msgsz);
        let would_exceed_bytes :=
          msg_qbytes (mq_ds q) <? add_u64 (total_bytes q) (zlen data_vec) in
        let would_exceed_messages :=
          msg_qbytes (mq_ds q) <? add_u64 (msg_qnum (mq_ds q)) 1 in
        if would_exceed_bytes || would_exceed_messages then
          if has_flag flags IPC_NOWAIT then failM (Linux EAGAIN)
          else failM (Linux EAGAIN)
        else
          on_queue msqid q
            (enqueue_message mt data_vec;;
             modifyM (λ q, q <| mq_ds ::= λ ds,
               ds <| msg_lspid := as_i32 pid |> <| msg_stime := as_i64 now |> |>));;
          mret 0.

(** The message a [msgrcv] call in normal mode looks for. *)
Definition match_message (q : MessageQueue) (flags msgtyp : Z) : option (Z * list byte) :=
  if msgtyp =? 0 then find_first_message q
  else if 0 <? msgtyp then
    if has_flag flags MSG_EXCEPT then find_message_not_equal q msgtyp
    else find_message_by_type q msgtyp
  else find_message_less_equal q (as_i64 (Z.abs msgtyp)).

(** Message matching of [sys_msgrcv]: type, data, index, [should_remove]. *)
Definition select_message (q : MessageQueue) (flags msgtyp : Z)
    : res (Z * list byte * Z * bool) :=
  if has_flag flags MSG_COPY then
    let index := as_u64 msgtyp in
    if get_total_message_count q <=? index then Err (Linux ENOMSG)
    else
      m ← ok_or (Linux ENOMSG) (get_message_by_index q index);
      Ok (mtype m, data m, index, false)
  else
    match match_message q flags msgtyp with
    | Some (mt, d) => Ok (mt, d, 0, true)
    | None => if has_flag flags IPC_NOWAIT then Err (Linux ENOMSG)
              else Err (Linux ENOMSG)
    end.

Definition note_receiver (now pid : Z) : M MessageQueue unit :=
  modifyM (λ q, q <| mq_ds ::= λ ds,
    ds <| msg_lrpid := as_i32 pid |> <| msg_rtime := as_i64 now |> |>).

Definition sys_msgrcv (now pid msqid msgp msgsz msgtyp msgflg : Z) : M (MsgSys V) Z :=
  let flags := MsgRcvFlags_truncate msgflg in
  current_uid ← liftR sys_getuid;
  current_gid ← liftR sys_getgid;
  if has_flag flags MSG_COPY && negb (has_flag flags IPC_NOWAIT)
  then failM (Linux EINVAL)
  else if has_flag flags MSG_COPY && has_flag flags MSG_EXCEPT
  then failM (Linux EINVAL)
  else
    s ← getM;
    q ← liftR (ok_or (Linux EINVAL) (get_queue_by_msqid (ms_mgr s) msqid));
    if negb (has_ipc_permission (msg_perm (mq_ds q)) current_uid current_gid false)
    then failM (Linux EACCES)
    else if mark_removed q then failM (Linux EIDRM)
    else
      '(mt, data_slice, index, should_remove) ← liftR (select_message q flags msgtyp);
      if (msgsz <? zlen data_slice) && negb (has_flag flags MSG_NOERROR)
      then failM (Linux E2BIG)
      else
        on_vm (vm_write_i64 msgp mt);;
        let copy_len := zlen data_slice `min` msgsz in
        on_vm (vm_write_u8 (add_u64 msgp 8) (take (Z.to_nat copy_len) data_slice));;
        on_queue msqid q
          (if should_remove : bool then
             remove_message_by_type_and_index mt index;; note_receiver now pid
           else note_receiver now pid);;
        mret copy_len.

(** [IPC_INFO] *)
Definition msgctl_ipc_info (buf : Z) : M (MsgSys V) Z :=
  on_vm (vm_write_msginfo buf
    {| msgpool := 0; msgmap := 0; msgmax := MSGMAX; msgmnb := MSGMNB;
       msgmni := MSGMNI; msgssz := 0; msgtql := 0; msgseg := 0 |});;
  mret 0.

(** [MSG_INFO] *)
Definition msgctl_msg_info (uid gid buf : Z) : M (MsgSys V) Z :=
  s ← getM;
  on_vm (vm_write_msqid_ds buf
    {| msg_perm := {| ipc_key := 0; ipc_uid := uid; ipc_gid := gid; ipc_cuid := uid;
                      ipc_cgid := gid; ipc_mode := 0x180; (* 0o600 *)
                      ipc_seq := 0; ipc_pad := 0; ipc_unused0 := 0; ipc_unused1 := 0 |};
       msg_stime := 0; msg_rtime := 0; msg_ctime := 0;
       msg_cbytes := manager_total_bytes (ms_mgr s);
       msg_qnum := queue_count (ms_mgr s);
       msg_qbytes := MSGMNB; msg_lspid := 0; msg_lrpid := 0 |});;
  mret (queue_count (ms_mgr s)).

(** [MSG_STAT]: [msqid] is an index into the active queues. *)
Definition msgctl_msg_stat (uid gid msqid buf : Z) : M (MsgSys V) Z :=
  s ← getM;
  '(actual_msqid, q) ← liftR (ok_or (Linux EINVAL)
      (iter_active_queues (ms_mgr s) !! Z.to_nat (as_u64 msqid)));
  if negb (has_ipc_permission (msg_perm (mq_ds q)) uid gid false)
  then failM (Linux EACCES)
  else on_vm (vm_write_msqid_ds buf (mq_ds q));; mret actual_msqid.

(** [IPC_SET], on the locked queue *)
Definition msgctl_set (now : Z) (user_buf : msqid_ds) (is_privileged : bool)
    : M MessageQueue Z :=
  modifyM (λ q, q <| mq_ds ::= λ ds, ds <| msg_perm ::= λ p,
    p <| ipc_uid := ipc_uid (msg_perm user_buf) |>
      <| ipc_gid := ipc_gid (msg_perm user_buf) |>
      <| ipc_mode := Z.land (ipc_mode (msg_perm user_buf)) 0x1ff |> |> |>);;
  q ← getM;
  (if negb (msg_qbytes user_buf =? msg_qbytes (mq_ds q)) then
     if (MSGMNB <? msg_qbytes user_buf) && negb is_privileged
     then failM (Linux EPERM)
     else modifyM (λ q, q <| mq_ds ::= λ ds, ds <| msg_qbytes := msg_qbytes user_buf |> |>)
   else mret tt);;
  modifyM (λ q, q <| mq_ds ::= λ ds, ds <| msg_ctime := as_i64 now |> |>);;
  mret 0.

(** [IPC_RMID] *)
Definition msgctl_rmid (now msqid : Z) (q : MessageQueue) : M (MsgSys V) Z :=
  on_queue msqid q (modifyM (λ q, q <| mark_removed := true |>));;
  if msg_qnum (mq_ds q) =? 0 then on_mgr (remove_msqid msqid);; mret 0
  else
    on_queue msqid (q <| mark_removed := true |>)
      (modifyM (λ q, q <| mq_ds ::= λ ds, ds <| msg_ctime := as_i64 now |> |>));;
    mret 0.

(** The commands that act on one queue. *)
Definition msgctl_queue (now uid gid msqid cmd buf : Z) : M (MsgSys V) Z :=
  s ← getM;
  q ← liftR (ok_or (Linux EINVAL) (get_queue_by_msqid (ms_mgr s) msqid));
  if mark_removed q then failM (Linux EIDRM)
  else if cmd =? IPC_STAT then
    if negb (has_ipc_permission (msg_perm (mq_ds q)) uid gid false)
    then failM (Linux EACCES)
    else on_vm (vm_write_msqid_ds buf (mq_ds q));; mret 0
  else
    let is_privileged := uid =? 0 in
    let is_owner := uid =? ipc_uid (msg_perm (mq_ds q)) in
    let is_creator := uid =? ipc_cuid (msg_perm (mq_ds q)) in
    if negb is_privileged && negb is_owner && negb is_creator
    then failM (Linux EPERM)
    else if cmd =? IPC_SET then
      user_buf ← liftR (vm_read_msqid_ds (ms_vm s) buf);
      on_queue msqid q (msgctl_set now user_buf is_privileged)
    else if cmd =? IPC_RMID then msgctl_rmid now msqid q
    else failM (Linux EINVAL).

Definition sys_msgctl (now msqid cmd buf : Z) : M (MsgSys V) Z :=
  current_uid ← liftR sys_getuid;
  current_gid ← liftR sys_getgid;
  if negb (cmd =? IPC_STAT) && negb (cmd =? IPC_SET) && negb (cmd =? IPC_RMID)
     && negb (cmd =? IPC_INFO) && negb (cmd =? MSG_INFO) && negb (cmd =? MSG_STAT)
  then failM (Linux EINVAL)
  else if cmd =? IPC_INFO then msgctl_ipc_info buf
  else if cmd =? MSG_INFO then msgctl_msg_info current_uid current_gid buf
  else if cmd =? MSG_STAT then msgctl_msg_stat current_uid current_gid msqid buf
  else msgctl_queue now current_uid current_gid msqid cmd buf.
End sys.

(** ** Calls as steps *)

Inductive msg_call :=
| CGet (now pid key msgflg : Z)
| CSnd (now pid msqid msgp msgsz msgflg : Z)
| CRcv (now pid msqid msgp msgsz msgtyp msgflg : Z)
| CCtl (now msqid cmd buf : Z).

Definition run_call {V} `{MsgVm V} (c : msg_call) : M (MsgSys V) Z :=
  match c with
  | CGet now pid key flg => sys_msgget now pid key flg
  | CSnd now pid id p sz flg => sys_msgsnd now pid id p sz flg
  | CRcv now pid id p sz t flg => sys_msgrcv now pid id p sz t flg
  | CCtl now id cmd buf => sys_msgctl now id cmd buf
  end.

(** Well-formed logs: positive types, sizes within [MSGMAX]. *)
Definition log_ok (log : list Message) : Prop :=
  ∀ m, m ∈ log → 0 < mtype m ∧ zlen (data m) ≤ MSGMAX.

(** What one call may do to an existing queue. *)
Record queue_step (q q' : MessageQueue) : Prop := {
  qs_key : ipc_key (msg_perm (mq_ds q')) = ipc_key (msg_perm (mq_ds q));
  qs_mark : mark_removed q = true → mark_removed q' = true;
  qs_log : ∀ log, msgq_rep q log → log_ok log →
    ∃ log', msgq_rep q' log' ∧ log_ok log'
            ∧ (mark_removed q = true → log `prefix_of` log')
}.

(** What one call may do to the manager and the id counter. *)
Inductive mgr_effect (id : Z) (mm : MsgManager) : res Z → Z → MsgManager → Prop :=
| eff_same r : r ≠ Panic → mgr_effect id mm r id mm
| eff_private now mode pid uid gid :
    queue_count mm < MSGMNI →
    mgr_effect id mm (Ok id) (as_i32 (id + 1))
      (insert_msqid_queues id (MessageQueue_new now IPC_PRIVATE mode pid uid gid) mm)
| eff_create key now mode pid uid gid :
    queue_count mm < MSGMNI → key ≠ IPC_PRIVATE → key_msqid mm !! key = None →
    mgr_effect id mm (Ok id) (as_i32 (id + 1))
      (insert_msqid_queues id (MessageQueue_new now key mode pid uid gid)
        (insert_key_msqid key id mm))
| eff_update msqid q q' n :
    msqid_queues mm !! msqid = Some q → queue_step q q' →
    mgr_effect id mm (Ok n) id (insert_msqid_queues msqid q' mm)
| eff_remove msqid q :
    msqid_queues mm !! msqid = Some q → mark_removed q = false →
    msg_qnum (mq_ds q) = 0 →
    mgr_effect id mm (Ok 0) id (remove_msqid msqid mm).

Section effects.
Context {V : Type} `{MsgVmOk V}.
Implicit Types s : MsgSys V.

Definition effect_of (m : M (MsgSys V) Z) s : Prop :=
  mgr_effect (ms_ipc_id s) (ms_mgr s) (m s).1 (ms_ipc_id (m s).2) (ms_mgr (m s).2).

Lemma insert_queue_same mm id q q' :
  insert_msqid_queues id q' (insert_msqid_queues id q mm) = insert_msqid_queues id q' mm.
Proof. unfold insert_msqid_queues. destruct mm; simpl. by rewrite insert_insert_eq. Qed.

Lemma sys_msgget_effect now pid key flg s :
  effect_of (sys_msgget now pid key flg) s.
Proof.
  unfold effect_of, sys_msgget, sys_getuid, sys_getgid, new_id, on_mgr, next_ipc_id,
    get_msqid_by_key.
  unfold_m. cbn.
  destruct (Z.leb_spec MSGMNI (queue_count (ms_mgr s))); [by constructor|].
  destruct (Z.eqb_spec key IPC_PRIVATE) as [->|Hk]; [by constructor|].
  destruct (key_msqid (ms_mgr s) !! key) as [id|] eqn:Hid.
  - destruct (get_queue_by_msqid (ms_mgr s) id); cbn; [|by constructor].
    repeat case_match; by constructor.
  - destruct (any_bit flg IPC_CREAT); cbn; by constructor.
Qed.

Lemma rep_frame q q' log :
  messages q' = messages q → total_bytes q' = total_bytes q →
  msg_cbytes (mq_ds q') = msg_cbytes (mq_ds q) →
  msg_qnum (mq_ds q') = msg_qnum (mq_ds q) →
  msgq_rep q log → msgq_rep q' log.
Proof.
  intros Hm Ht Hc Hq [Hf Hn Ht' Hc' Hq']. split; [|..]; try congruence.
  unfold msgs_of. rewrite Hm. exact Hf.
Qed.

(** A change of the bookkeeping fields only. *)
Lemma queue_step_frame q q' :
  messages q' = messages q → total_bytes q' = total_bytes q →
  msg_cbytes (mq_ds q') = msg_cbytes (mq_ds q) →
  msg_qnum (mq_ds q') = msg_qnum (mq_ds q) →
  ipc_key (msg_perm (mq_ds q')) = ipc_key (msg_perm (mq_ds q)) →
  (mark_removed q = true → mark_removed q' = true) → queue_step q q'.
Proof.
  intros. split; [done..|]. intros log Hr Hok. exists log.
  split; [by eapply rep_frame|]. done.
Qed.

Lemma enqueue_queue_step q q' t d :
  0 < t → zlen d ≤ MSGMAX → enqueue_message t d q = (Ok tt, q') → queue_step q q'.
Proof.
  intros Ht Hd He. pose proof He as He'.
  unfold enqueue_message in He'. unfold_m. cbn in He'. case_match; [done|].
  simplify_eq. split; cbn; [done..|]. intros log Hr Hok.
  pose proof (enqueue_rep q log t d Hr) as Hrep. rewrite He in Hrep.
  exists (log ++ [mkMessage t d]). split; [apply Hrep|]. split; [|by intros _; eexists].
  intros m [Hm| ->%list_elem_of_singleton]%elem_of_app; [by apply Hok|done].
Qed.

Lemma sys_msgsnd_effect now pid msqid msgp msgsz flg s :
  effect_of (sys_msgsnd now pid msqid msgp msgsz flg) s.
Proof.
  unfold effect_of, sys_msgsnd, sys_getuid, sys_getgid, on_queue, get_queue_by_msqid.
  unfold_m. cbn.
  destruct (Z.ltb_spec MSGMAX msgsz); [by constructor|].
  destruct (msqid_queues (ms_mgr s) !! msqid) as [q|] eqn:Hq; cbn; [|by constructor].
  pose proof (vm_read_i64_np (ms_vm s) msgp) as Hnp.
  destruct (vm_read_i64 (ms_vm s) msgp) as [mt| |]; cbn; [|by constructor|done].
  destruct (Z.leb_spec mt 0); [by constructor|].
  pose proof (vm_load_u8_np (ms_vm s) (add_u64 msgp 8) msgsz) as Hnp'.
  destruct (vm_load_u8 (ms_vm s) (add_u64 msgp 8) msgsz) as [d| |] eqn:Hd; cbn;
    [|by constructor|done].
  apply vm_load_u8_len in Hd.
  destruct (Z.ltb_spec (msg_qbytes (mq_ds q)) (add_u64 (total_bytes q) (zlen d)));
    cbn; [case_match; by constructor|].
  case_match; [case_match; by constructor|].
  assert (∃ q', enqueue_message mt d q = (Ok tt, q')) as [q' He].
  { unfold enqueue_message. unfold_m. cbn. rewrite (proj2 (Z.ltb_ge _ _)) by lia. eauto. }
  rewrite He. cbn. apply eff_update with q; [done|].
  pose proof (enqueue_queue_step q q' mt d ltac:(lia) ltac:(lia) He) as [Hk Hm Hl].
  split; [done..|]. intros log Hr Hok. destruct (Hl log Hr Hok) as (log' & Hr' & Hok' & Hp).
  exists log'. split; [by eapply rep_frame; [..|exact Hr']|]. done.
Qed.

Lemma log_remove_incl t i log m : m ∈ log_remove t i log → m ∈ log.
Proof.
  revert i. induction log as [|x log IH]; intros i; simpl; [done|].
  case_decide; [destruct i as [|i]|]; rewrite ?elem_of_cons; naive_solver.
Qed.

Lemma remove_queue_step q q' t m :
  mark_removed q = false →
  remove_message_by_type_and_index t 0 q = (Ok m, q') → queue_step q q'.
Proof.
  intros Hmk He. pose proof He as He'.
  unfold remove_message_by_type_and_index in He'. unfold_m. cbn in He'.
  do 2 (case_match; [|done]). simplify_eq. split; cbn; [done|congruence|].
  intros log Hr Hok. pose proof (remove_rep q log t 0 Hr) as Hrep.
  change (Z.of_nat 0) with 0 in Hrep. exists (log_remove t 0 log).
  destruct (filter (of_type t) log !! 0%nat) as [m'|].
  - destruct Hrep as (q' & He' & Hr' & _). rewrite He in He'. simplify_eq.
    split; [done|]. split; [|congruence].
    intros x Hx. eapply Hok, log_remove_incl, Hx.
  - rewrite He in Hrep. done.
Qed.

Lemma select_message_normal q flags msgtyp mt d i b :
  select_message q flags msgtyp = Ok (mt, d, i, b) → b = true → i = 0.
Proof. unfold select_message. unfold_m. intros. repeat case_match; congruence. Qed.

Lemma select_message_np q flags msgtyp : select_message q flags msgtyp ≠ Panic.
Proof.
  unfold select_message. unfold_m. repeat case_match; try done.
  unfold ok_or in *. by case_match.
Qed.

Lemma on_queue_same msqid q s :
  msqid_queues (ms_mgr s) !! msqid = Some q →
  insert_msqid_queues msqid q (ms_mgr s) = ms_mgr s.
Proof.
  intros Hq. unfold insert_msqid_queues. destruct (ms_mgr s); cbn in *. by rewrite insert_id.
Qed.

Lemma sys_msgrcv_effect now pid msqid msgp msgsz msgtyp flg s :
  effect_of (sys_msgrcv now pid msqid msgp msgsz msgtyp flg) s.
Proof.
  unfold effect_of, sys_msgrcv, sys_getuid, sys_getgid, on_vm, get_queue_by_msqid.
  unfold_m. cbn. do 2 (case_match; [by constructor|]).
  destruct (msqid_queues (ms_mgr s) !! msqid) as [q|] eqn:Hq; cbn; [|by constructor].
  destruct (mark_removed q) eqn:Hmk; [by constructor|].
  pose proof (select_message_np q (MsgRcvFlags_truncate flg) msgtyp) as Hnp.
  destruct (select_message q _ msgtyp) as [[[[mt d] i] b]| |] eqn:Hsel; cbn;
    [|by constructor|done].
  case_match; [by constructor|].
  pose proof (vm_write_i64_np msgp mt (ms_vm s)) as Hw.
  destruct (vm_write_i64 msgp mt (ms_vm s)) as [[[]| |] v1]; cbn in *;
    [|by constructor|done].
  pose proof (λ l, vm_write_u8_np (add_u64 msgp 8) l v1) as Hw'.
  specialize (Hw' (take (Z.to_nat (zlen d `min` msgsz)) d)).
  destruct (vm_write_u8 _ _ v1) as [[[]| |] v2]; cbn in *; [|by constructor|done].
  unfold on_queue. destruct b.
  - apply select_message_normal in Hsel as ->; [|done]. unfold_m. unfold note_receiver.
    destruct (remove_message_by_type_and_index mt 0 q) as [[m| |] q'] eqn:Hrm; cbn.
    + apply eff_update with q; [done|].
      pose proof (remove_queue_step q q' mt m Hmk Hrm) as [Hk Hm Hl].
      split; [done..|]. intros log Hr Hok.
      destruct (Hl log Hr Hok) as (log' & Hr' & Hok' & Hp). exists log'.
      split; [by eapply rep_frame; [..|exact Hr']|]. done.
    + assert (q' = q) as ->.
      { unfold remove_message_by_type_and_index in Hrm. unfold_m. cbn in Hrm.
        repeat case_match; naive_solver. }
      rewrite on_queue_same by done. by constructor.
    + unfold remove_message_by_type_and_index in Hrm. unfold_m. cbn in Hrm.
      repeat case_match; naive_solver.
  - cbn. apply eff_update with q; [done|]. by apply queue_step_frame.
Qed.

Lemma vm_only_effect (f : M V unit) n s :
  (f (ms_vm s)).1 ≠ Panic → effect_of (on_vm f;; mret n) s.
Proof.
  intros Hnp. unfold effect_of, on_vm. unfold_m.
  destruct (f (ms_vm s)) as [[[]| |] v]; cbn in *; by constructor.
Qed.

Lemma msgctl_queue_effect now msqid cmd buf s :
  effect_of (msgctl_queue now 0 0 msqid cmd buf) s.
Proof.
  unfold effect_of, msgctl_queue, get_queue_by_msqid. unfold_m. cbn.
  destruct (msqid_queues (ms_mgr s) !! msqid) as [q|] eqn:Hq; cbn; [|by constructor].
  destruct (mark_removed q) eqn:Hmk; [by constructor|].
  case_match; [by apply (vm_only_effect (vm_write_msqid_ds buf (mq_ds q)) 0),
                  vm_write_msqid_ds_np|].
  case_match.
  - pose proof (vm_read_msqid_ds_np (ms_vm s) buf) as Hnp.
    destruct (vm_read_msqid_ds (ms_vm s) buf) as [ub| |]; [|by constructor|done].
    cbn. unfold on_queue, msgctl_set. unfold_m. cbn. rewrite andb_false_r.
    destruct (msg_qbytes ub =? msg_qbytes (mq_ds q)); cbn;
      (apply eff_update with q; [done|]); by apply queue_step_frame.
  - case_match; [|by constructor]. unfold msgctl_rmid, on_queue, on_mgr. unfold_m. cbn.
    destruct (Z.eqb_spec (msg_qnum (mq_ds q)) 0) as [Hempty|]; cbn.
    + assert (remove_msqid msqid (insert_msqid_queues msqid (q <| mark_removed := true |>)
        (ms_mgr s)) = remove_msqid msqid (ms_mgr s)) as Heq.
      { unfold remove_msqid, insert_msqid_queues. destruct (ms_mgr s); cbn.
        by rewrite delete_insert_eq. }
      cbn in Heq. rewrite Heq. by eapply eff_remove.
    + rewrite insert_queue_same. apply eff_update with q; [done|].
      by apply queue_step_frame.
Qed.

Lemma sys_msgctl_effect now msqid cmd buf s : effect_of (sys_msgctl now msqid cmd buf) s.
Proof.
  unfold sys_msgctl, sys_getuid, sys_getgid. unfold effect_of. unfold_m. cbn.
  case_match; [by constructor|]. case_match.
  { apply (vm_only_effect (vm_write_msginfo buf _) 0), vm_write_msginfo_np. }
  case_match.
  { unfold msgctl_msg_info. unfold_m. apply vm_only_effect, vm_write_msqid_ds_np. }
  case_match; [|apply msgctl_queue_effect].
  unfold msgctl_msg_stat. unfold_m. cbn.
  destruct (iter_active_queues (ms_mgr s) !! _) as [[id q]|]; cbn; [|by constructor].
  apply vm_only_effect, vm_write_msqid_ds_np.
Qed.

Lemma run_call_effect c s : effect_of (run_call c) s.
Proof.
  destruct c; [apply sys_msgget_effect|apply sys_msgsnd_effect
              |apply sys_msgrcv_effect|apply sys_msgctl_effect].
Qed.
End effects.

(** ** The manager invariant *)

Record mgr_inv (id : Z) (mm : MsgManager) : Prop := {
  mi_ids : ∀ i q, msqid_queues mm !! i = Some q → 0 ≤ i < id;
  mi_keys : ∀ k i, key_msqid mm !! k = Some i ↔
    k ≠ IPC_PRIVATE
    ∧ ∃ q, msqid_queues mm !! i = Some q ∧ ipc_key (msg_perm (mq_ds q)) = k;
  mi_logs : ∀ i q, msqid_queues mm !! i = Some q → ∃ log, msgq_rep q log ∧ log_ok log;
  mi_count : queue_count mm ≤ MSGMNI
}.

Section invariant.
Implicit Types mm : MsgManager.

Lemma mgr_inv_new id : mgr_inv id MsgManager_new.
Proof.
  split; cbn; try done; intros *; rewrite ?lookup_empty; try done.
  split; [done|]. by intros (_ & q & Hq & _).
Qed.

(** Keys of an insertion at an id that is not in use. *)
Lemma mgr_inv_fresh id mm q log :
  0 ≤ id → mgr_inv id mm → msgq_rep q log → log_ok log → queue_count mm < MSGMNI →
  let k := ipc_key (msg_perm (mq_ds q)) in
  (k ≠ IPC_PRIVATE → key_msqid mm !! k = None) →
  mgr_inv (id + 1) (insert_msqid_queues id q
    (if decide (k = IPC_PRIVATE) then mm else insert_key_msqid k id mm)).
Proof.
  intros Hid [Hids Hkeys Hlogs Hcnt] Hr Hok Hc k Hk.
  assert (msqid_queues mm !! id = None) as Hnone.
  { destruct (msqid_queues mm !! id) eqn:E; [|done]. apply Hids in E. lia. }
  set (mm' := if decide (k = IPC_PRIVATE) then mm else insert_key_msqid k id mm).
  assert (msqid_queues mm' = msqid_queues mm) as Hsame by (subst mm'; by case_decide).
  assert (∀ k' i, key_msqid mm' !! k' = Some i ↔
    (k' = k ∧ k ≠ IPC_PRIVATE ∧ i = id) ∨ key_msqid mm !! k' = Some i) as Hkey'.
  { intros k' i. subst mm'. case_decide as Hp; [naive_solver|]. cbn.
    specialize (Hk Hp). rewrite lookup_insert. case_decide; naive_solver. }
  clearbody mm'. split; cbn; rewrite ?Hsame.
  - intros i q'. rewrite lookup_insert. case_decide; [intros; lia|]. intros ?%Hids. lia.
  - intros k' i. rewrite Hkey', Hkeys. setoid_rewrite lookup_insert. split.
    + intros [(-> & Hp & ->)|(Hp & q' & Hq' & Hkq)]; (split; [done|]).
      * exists q. by rewrite decide_True.
      * exists q'. rewrite decide_False; [done|]. intros ->. congruence.
    + intros (Hp & q' & Hq' & Hkq). case_decide; [left|right]; [|eauto].
      simplify_eq. done.
  - intros i q'. rewrite lookup_insert. case_decide; [intros [= <-]; eauto|apply Hlogs].
  - unfold queue_count in *. cbn. rewrite Hsame, map_size_insert_None by done. lia.
Qed.

Lemma mgr_inv_update id mm i q q' :
  mgr_inv id mm → msqid_queues mm !! i = Some q → queue_step q q' →
  mgr_inv id (insert_msqid_queues i q' mm).
Proof.
  intros [Hids Hkeys Hlogs Hcnt] Hq [Hk _ Hl]. split; cbn.
  - intros j q''. rewrite lookup_insert. case_decide; [subst; intros _; eauto|apply Hids].
  - intros k j. rewrite Hkeys. rewrite lookup_insert. case_decide; [|done]. subst j.
    rewrite Hq. naive_solver congruence.
  - intros j q''. rewrite lookup_insert. case_decide; [|apply Hlogs]. intros [= <-].
    destruct (Hlogs i q Hq) as (log & Hr & Hok). destruct (Hl log Hr Hok) as (log' & ? & ? & _).
    eauto.
  - unfold queue_count in *. cbn. rewrite map_size_insert_Some; [done|]. by rewrite Hq.
Qed.

Lemma mgr_inv_remove id mm i : mgr_inv id mm → mgr_inv id (remove_msqid i mm).
Proof.
  intros [Hids Hkeys Hlogs Hcnt]. split; cbn.
  - intros j q [_ ?]%lookup_delete_Some. eauto.
  - intros k j. rewrite map_lookup_filter_Some, Hkeys. cbn. split.
    + intros [(? & q & ? & ?) ?]. split; [done|]. exists q. by rewrite lookup_delete_ne.
    + intros (? & q & [? ?]%lookup_delete_Some & ?). split; [|done]. eauto.
  - intros j q [_ ?]%lookup_delete_Some. eauto.
  - unfold queue_count in *. cbn. rewrite map_size_delete. destruct (_ !! _); cbn; lia.
Qed.
End invariant.

Lemma mgr_effect_inv id mm r id' mm' :
  id_in_range id → mgr_inv id mm → mgr_effect id mm r id' mm' →
  mgr_inv id' mm' ∧ id ≤ id' ∧ r ≠ Panic.
Proof.
  intros [Hid0 Hid] Hinv Heff.
  assert (as_i32 (id + 1) = id + 1) as Hsucc by (apply as_i32_small; unfold in_i32; lia).
  destruct Heff; rewrite ?Hsucc; split_and?; try done; try lia.
  - pose proof (mgr_inv_fresh id mm _ [] Hid0 Hinv
      (rep_new now IPC_PRIVATE mode pid uid gid)) as Hf.
    cbn in Hf. rewrite decide_True in Hf by done. apply Hf; [|done..].
    by intros m ?%elem_of_nil.
  - pose proof (mgr_inv_fresh id mm _ [] Hid0 Hinv (rep_new now key mode pid uid gid)) as Hf.
    cbn in Hf. rewrite decide_False in Hf by done. apply Hf; [|done..].
    by intros m ?%elem_of_nil.
  - by eapply mgr_inv_update.
  - by apply mgr_inv_remove.
Qed.

(** ** Runs of the system *)

Section runs.
Context {V : Type} `{MsgVmOk V}.
Implicit Types s : MsgSys V.

Inductive msg_run : MsgSys V → MsgSys V → Prop :=
| run_refl s : msg_run s s
| run_more s c s' :
    id_in_range (ms_ipc_id s) → msg_run (run_call c s).2 s' → msg_run s s'.

Definition msg_boot (v : V) : MsgSys V := mkMsgSys 0 MsgManager_new v.

Lemma msg_run_invariant s s' :
  mgr_inv (ms_ipc_id s) (ms_mgr s) → msg_run s s' → mgr_inv (ms_ipc_id s') (ms_mgr s').
Proof.
  intros Hinv Hrun. induction Hrun as [|s c s' Hid Hrun IH]; [done|].
  apply IH. by eapply mgr_effect_inv; [..|apply run_call_effect].
Qed.

Lemma msg_run_ind_effect (P : Z → MsgManager → Prop) s s' :
  (∀ id mm r id' mm', id_in_range id → mgr_inv id mm → P id mm →
     mgr_effect id mm r id' mm' → P id' mm') →
  mgr_inv (ms_ipc_id s) (ms_mgr s) → P (ms_ipc_id s) (ms_mgr s) →
  msg_run s s' → P (ms_ipc_id s') (ms_mgr s').
Proof.
  intros Hstep Hinv HP Hrun. induction Hrun as [|s c s' Hid Hrun IH]; [done|].
  pose proof (run_call_effect c s) as Heff. apply IH.
  - by eapply mgr_effect_inv; [..|exact Heff].
  - by eapply Hstep; [..|exact Heff].
Qed.

(** A queue marked for removal while it holds messages: no call touches it
    except to add more messages. *)
Definition zombie (i : Z) (mm : MsgManager) : Prop :=
  ∃ q log, msqid_queues mm !! i = Some q ∧ mark_removed q = true
           ∧ msgq_rep q log ∧ log_ok log ∧ log ≠ [].

Lemma zombie_effect i id mm r id' mm' :
  id_in_range id → mgr_inv id mm → zombie i mm →
  mgr_effect id mm r id' mm' → zombie i mm'.
Proof.
  intros Hid Hinv (q & log & Hq & Hmk & Hr & Hok & Hne) Heff.
  assert (i ≠ id) as Hi by (apply (mi_ids _ _ Hinv) in Hq; lia).
  destruct Heff as [|now mode pid uid gid|key now mode pid uid gid
                   |j q0 q' n Hj [Hk Hm Hl]|j q0 Hj Hm0 _];
    unfold zombie; cbn; try (exists q, log; rewrite ?lookup_insert_ne by done; by eauto).
  - destruct (decide (j = i)) as [->|Hji]; [|exists q, log; rewrite lookup_insert_ne; done].
    simplify_eq. destruct (Hl log Hr Hok) as (log' & Hr' & Hok' & Hp).
    exists q', log'. rewrite lookup_insert_eq. split_and?; auto.
    intros ->. specialize (Hp Hmk). by apply prefix_nil_inv in Hp.
  - exists q, log. rewrite lookup_delete_ne; [done|]. congruence.
Qed.
End runs.

(** ** A concrete user memory: one typed cell per address *)

Inductive ucell := UI64 (z : Z) | UBytes (l : list byte) | UDs (d : msqid_ds)
| UInfo (i : MsgInfo).

Definition cell_write (a : Z) (c : ucell) : M (gmap Z ucell) unit :=
  λ v, (Ok tt, <[a := c]> v).

#[export] Instance cell_vm : MsgVm (gmap Z ucell) := {
  vm_read_i64 v a := match v !! a with Some (UI64 z) => Ok z | _ => Err BadAddress end;
  vm_load_u8 v a n := match v !! a with
    | Some (UBytes l) => if (0 <=? n) && (n <=? zlen l) then Ok (take (Z.to_nat n) l)
                         else Err BadAddress
    | _ => Err BadAddress end;
  vm_read_msqid_ds v a := match v !! a with Some (UDs d) => Ok d | _ => Err BadAddress end;
  vm_write_i64 a z := cell_write a (UI64 z);
  vm_write_u8 a l := cell_write a (UBytes l);
  vm_write_msqid_ds a d := cell_write a (UDs d);
  vm_write_msginfo a i := cell_write a (UInfo i)
}.

#[export] Instance cell_vm_ok : MsgVmOk (gmap Z ucell).
Proof.
  split; cbn; intros; repeat case_match; try done. simplify_eq.
  match goal with Hb : _ && _ = true |- _ =>
    apply andb_true_iff in Hb as [Hn%Z.leb_le Hl%Z.leb_le] end.
  unfold zlen in *. rewrite length_take. lia.
Qed.

(** A memory with a message of type 2 at address 0x1000 and one of type 1 at
    address 0x2000, and a system that has created the queue of key 7 (id 0). *)
Definition demo_vm : gmap Z ucell :=
  <[0x1000 := UI64 2]> (<[0x1008 := UBytes [Byte.x61]]>
  (<[0x2000 := UI64 1]> (<[0x2008 := UBytes [Byte.x62; Byte.x63]]> ∅))).
Definition demo_created : MsgSys (gmap Z ucell) :=
  (sys_msgget 0 1 7 IPC_CREAT (msg_boot demo_vm)).2.
Definition demo_sent : MsgSys (gmap Z ucell) :=
  (sys_msgsnd 0 1 0 0x1000 1 0 demo_created).2.

Lemma demo_sent_run : msg_run (msg_boot demo_vm) demo_sent.
Proof.
  apply (run_more _ (CGet 0 1 7 IPC_CREAT)); [by vm_compute|].
  apply (run_more _ (CSnd 0 1 0 0x1000 1 0)); [by vm_compute|]. apply run_refl.
Qed.

(** C9: in every reachable state the manager is well formed (ids below the
    counter, the key table is the inverse of the queues' keys, every queue is
    the image of a log of well-formed messages, at most [MSGMNI] queues) and no
    message-queue system call panics. *)
Theorem msg_manager_invariant {V} `{MsgVmOk V} (v : V) s c :
  msg_run (msg_boot v) s → id_in_range (ms_ipc_id s) →
  mgr_inv (ms_ipc_id s) (ms_mgr s) ∧ (run_call c s).1 ≠ Panic.
Proof.
  intros Hrun Hid.
  assert (mgr_inv (ms_ipc_id s) (ms_mgr s)) as Hinv
    by (eapply msg_run_invariant; [|exact Hrun]; apply mgr_inv_new).
  split; [done|]. by eapply mgr_effect_inv; [..|apply run_call_effect].
Qed.

Lemma msg_manager_invariant_witness :
  mgr_inv (ms_ipc_id demo_sent) (ms_mgr demo_sent)
  ∧ (run_call (CCtl 0 0 IPC_RMID 0) demo_sent).1 ≠ Panic.
Proof.
  apply (msg_manager_invariant demo_vm demo_sent (CCtl 0 0 IPC_RMID 0));
    [exact demo_sent_run|vm_compute; split; congruence].
Defined.

(** a call that returns an error leaves every queue, the key table and the
    id counter as they were. *)
Lemma msg_error_changes_nothing {V} `{MsgVmOk V} (s s' : MsgSys V) c e :
  run_call c s = (Err e, s') →
  ms_mgr s' = ms_mgr s ∧ ms_ipc_id s' = ms_ipc_id s.
Proof.
  intros Hc. pose proof (run_call_effect c s) as Heff. unfold effect_of in Heff.
  rewrite Hc in Heff. cbn in Heff. by inversion Heff.
Qed.

(** [IPC_RMID] of a queue that still holds messages.  The comment says the
    queue is deleted once all its messages are taken, but a marked queue can
    no longer be received from, so it is never deleted: whatever calls follow,
    the queue stays in the manager (and counts against [MSGMNI]) and every
    receive from it fails with [EIDRM]. *)
Lemma rmid_nonempty_never_freed {V} `{MsgVmOk V} (s s' : MsgSys V) now i buf q :
  mgr_inv (ms_ipc_id s) (ms_mgr s) →
  msqid_queues (ms_mgr s) !! i = Some q → mark_removed q = false →
  msg_qnum (mq_ds q) ≠ 0 →
  msg_run (sys_msgctl now i IPC_RMID buf s).2 s' →
  (∃ q', msqid_queues (ms_mgr s') !! i = Some q' ∧ mark_removed q' = true)
  ∧ ∀ now' pid p sz t, sys_msgrcv now' pid i p sz t 0 s' = (Err (Linux EIDRM), s').
Proof.
  intros Hinv Hq Hmk Hne Hrun.
  pose proof (run_call_effect (CCtl now i IPC_RMID buf) s) as Heff. cbn in Heff.
  assert (zombie i (ms_mgr (sys_msgctl now i IPC_RMID buf s).2)
          ∧ ms_ipc_id (sys_msgctl now i IPC_RMID buf s).2 = ms_ipc_id s
          ∧ mgr_inv (ms_ipc_id s) (ms_mgr (sys_msgctl now i IPC_RMID buf s).2)) as (Hz & Hid & Hi).
  { destruct (mi_logs _ _ Hinv i q Hq) as (log & Hr & Hok).
    assert (log ≠ []) by (intros ->; by destruct Hr as [_ _ _ _ ?]).
    unfold sys_msgctl, msgctl_queue, get_queue_by_msqid, msgctl_rmid, on_queue in *.
    unfold sys_getuid, sys_getgid in *. unfold_m. cbn in *. rewrite Hq in *. cbn in *.
    rewrite Hmk in *. cbn in *. rewrite (proj2 (Z.eqb_neq _ _) Hne) in *. cbn in *.
    rewrite insert_queue_same in *. split_and!; [|done|].
    - eexists _, log. cbn. rewrite lookup_insert_eq. split_and!; try done.
      by eapply rep_frame; [..|exact Hr].
    - eapply mgr_inv_update; [done..|]. by apply queue_step_frame. }
  assert (zombie i (ms_mgr s')) as (q' & log' & Hq' & Hmk' & _).
  { eapply (msg_run_ind_effect (λ _ mm, zombie i mm)); [|by rewrite Hid|exact Hz|exact Hrun].
    intros; by eapply zombie_effect. }
  split; [by exists q'|]. intros now' pid p sz t.
  unfold sys_msgrcv, get_queue_by_msqid, sys_getuid, sys_getgid. unfold_m.
  change (has_flag (MsgRcvFlags_truncate 0) MSG_COPY) with false. cbn.
  rewrite Hq'. cbn. by rewrite Hmk'.
Qed.

Example rmid_nonempty_never_freed_instance :
  ∃ q', msqid_queues (ms_mgr (sys_msgctl 0 0 IPC_RMID 0 demo_sent).2) !! 0 = Some q'
        ∧ mark_removed q' = true.
Proof.
  destruct (msqid_queues (ms_mgr demo_sent) !! 0) as [q|] eqn:Hq; [|by vm_compute in Hq].
  refine (proj1 (rmid_nonempty_never_freed demo_sent _ 0 0 0 q _ Hq _ _ _)).
  - eapply msg_run_invariant; [|exact demo_sent_run]; apply mgr_inv_new.
  - vm_compute in Hq. by injection Hq as <-.
  - vm_compute in Hq. by injection Hq as <-.
  - apply run_refl.
Qed.

(** Receiving "the first message" ([msgtyp = 0]) does not deliver messages
    in the order they were sent: a later message of a lower type overtakes the
    oldest one. *)
Lemma receive_any_overtakes q m m' log flags :
  msgq_rep q (m :: log) → m' ∈ log → mtype m' < mtype m →
  ∃ t d, match_message q flags 0 = Some (t, d) ∧ t < mtype m.
Proof.
  intros Hr Hm' Hlt. unfold match_message. cbn.
  pose proof (scan_entries_selects (λ _, true) q _ Hr) as Hsel.
  unfold find_first_message. destruct (scan_entries _ _) as [[t d]|]; cbn in Hsel.
  - exists t, d. split; [done|]. destruct Hsel as (_ & _ & Hmin).
    specialize (Hmin m' ltac:(by right) eq_refl). lia.
  - by destruct (Hsel m ltac:(by left)).
Qed.

(** ** Sending and receiving *)

Section transfer.
Context {V : Type} `{MsgVmOk V}.
Implicit Types s : MsgSys V.

(** What a successful send has done. *)
Lemma sys_msgsnd_ok now pid i p sz flg s n s1 q log :
  msqid_queues (ms_mgr s) !! i = Some q → msgq_rep q log →
  sys_msgsnd now pid i p sz flg s = (Ok n, s1) →
  ∃ t d q1, vm_read_i64 (ms_vm s) p = Ok t ∧ 0 < t
    ∧ vm_load_u8 (ms_vm s) (add_u64 p 8) sz = Ok d ∧ zlen d = sz
    ∧ s1 = s <| ms_mgr ::= insert_msqid_queues i q1 |>
    ∧ msgq_rep q1 (log ++ [mkMessage t d]) ∧ mark_removed q1 = mark_removed q
    ∧ msg_perm (mq_ds q1) = msg_perm (mq_ds q) ∧ n = 0.
Proof.
  intros Hq Hr. unfold sys_msgsnd, sys_getuid, sys_getgid, get_queue_by_msqid, on_queue.
  unfold_m. destruct (Z.ltb_spec MSGMAX sz); [done|]. cbn. rewrite Hq. cbn.
  destruct (vm_read_i64 (ms_vm s) p) as [t| |]; cbn; [|done..].
  destruct (Z.leb_spec t 0); [done|].
  destruct (vm_load_u8 (ms_vm s) (add_u64 p 8) sz) as [d| |] eqn:Hd; cbn; [|done..].
  case_match; [case_match; done|].
  pose proof (enqueue_rep q log t d Hr) as He.
  destruct (enqueue_message t d q) as [[[]| |] q1] eqn:Heq; cbn; [|done..].
  intros [= <- <-]. eexists t, d, _. split_and!; try done.
  - by eapply vm_load_u8_len.
  - eapply rep_frame; [..|exact (proj1 He)]; done.
  - unfold enqueue_message in Heq. unfold_m. cbn in Heq. case_match; by simplify_eq.
  - unfold enqueue_message in Heq. unfold_m. cbn in Heq. case_match; by simplify_eq.
Qed.

(** A receive by type from a queue that has such a message. *)
Lemma sys_msgrcv_by_type now pid i p sz t s q log m v1 v2 :
  0 < t → msqid_queues (ms_mgr s) !! i = Some q → msgq_rep q log →
  mark_removed q = false → head (filter (of_type t) log) = Some m →
  zlen (data m) ≤ sz →
  vm_write_i64 p t (ms_vm s) = (Ok tt, v1) →
  vm_write_u8 (add_u64 p 8) (data m) v1 = (Ok tt, v2) →
  ∃ s' q', sys_msgrcv now pid i p sz t 0 s = (Ok (zlen (data m)), s')
    ∧ ms_vm s' = v2 ∧ msqid_queues (ms_mgr s') !! i = Some q'
    ∧ msgq_rep q' (log_remove t 0 log).
Proof.
  intros Ht Hq Hr Hmk Hhd Hsz Hw1 Hw2.
  unfold sys_msgrcv, get_queue_by_msqid, sys_getuid, sys_getgid, select_message, on_vm,
    match_message. unfold_m.
  change (has_flag (MsgRcvFlags_truncate 0) MSG_COPY) with false.
  change (has_flag (MsgRcvFlags_truncate 0) MSG_EXCEPT) with false.
  change (has_flag (MsgRcvFlags_truncate 0) MSG_NOERROR) with false. cbn.
  rewrite Hq. cbn. rewrite Hmk, (proj2 (Z.eqb_neq t 0)), (proj2 (Z.ltb_lt 0 t)) by lia.
  assert (find_message_by_type q t = Some (t, data m)) as ->.
  { unfold find_message_by_type. rewrite (rep_lookup q log t Hr).
    by destruct (filter _ log); simplify_eq/=. }
  cbn. rewrite (proj2 (Z.ltb_ge sz _)) by done. cbn. rewrite Hw1. cbn.
  rewrite Z.min_l by done. rewrite take_ge by (unfold zlen; lia). rewrite Hw2. cbn.
  unfold on_queue, note_receiver. unfold_m.
  pose proof (remove_rep q log t 0 Hr) as Hrm.
  destruct (filter (of_type t) log) as [|m0 ms]; simplify_eq/=.
  destruct Hrm as (q' & He & Hr' & _). change (Z.of_nat 0) with 0 in He. rewrite He. cbn.
  eexists _, _. split_and!; [done..| |].
  - cbn. by rewrite lookup_insert_eq.
  - eapply rep_frame; [..|exact Hr']; done.
Qed.

Lemma log_remove_last t log m :
  (∀ x, x ∈ log → mtype x ≠ t) → mtype m = t →
  filter (of_type t) (log ++ [m]) = [m] ∧ log_remove t 0 (log ++ [m]) = log.
Proof.
  intros Hno Hm. induction log as [|x log IH].
  - cbn. by rewrite !decide_True.
  - cbn [app log_remove]. destruct IH as [IH1 IH2]; [intros; apply Hno; by right|].
    assert (¬ of_type t x) by (apply Hno; by left).
    rewrite filter_cons, !decide_False by done. by rewrite IH1, IH2.
Qed.
End transfer.

(** send and receive round trip.  When a queue holds no message of type
    [t], a successful [msgsnd] of a message of type [t] followed by a [msgrcv]
    of that type with a large enough buffer returns the message's length,
    writes exactly its type and bytes to the receiver's buffer, and leaves the
    queue with the log it had before the send. *)
Lemma msgsnd_msgrcv_roundtrip {V} `{MsgVmOk V} (s s1 : MsgSys V) now pid i p sz flg
    t d q log now' pid' p' sz' v1 v2 :
  msqid_queues (ms_mgr s) !! i = Some q → msgq_rep q log → mark_removed q = false →
  (∀ m, m ∈ log → mtype m ≠ t) →
  vm_read_i64 (ms_vm s) p = Ok t → vm_load_u8 (ms_vm s) (add_u64 p 8) sz = Ok d →
  sys_msgsnd now pid i p sz flg s = (Ok 0, s1) →
  sz ≤ sz' →
  vm_write_i64 p' t (ms_vm s1) = (Ok tt, v1) →
  vm_write_u8 (add_u64 p' 8) d v1 = (Ok tt, v2) →
  ∃ s2 q2, sys_msgrcv now' pid' i p' sz' t 0 s1 = (Ok sz, s2) ∧ ms_vm s2 = v2
    ∧ msqid_queues (ms_mgr s2) !! i = Some q2 ∧ msgq_rep q2 log.
Proof.
  intros Hq Hr Hmk Hno Ht Hd Hsnd Hsz Hw1 Hw2.
  destruct (sys_msgsnd_ok _ _ _ _ _ _ _ _ _ _ _ Hq Hr Hsnd)
    as (t' & d' & q1 & Ht' & Hpos & Hd' & Hlen & -> & Hr1 & Hmk1 & _).
  rewrite Ht in Ht'. injection Ht' as <-. rewrite Hd in Hd'. injection Hd' as <-. subst sz.
  destruct (log_remove_last t log (mkMessage t d) Hno eq_refl) as [Hf Hrm].
  destruct (sys_msgrcv_by_type now' pid' i p' sz' t
    (s <| ms_mgr ::= insert_msqid_queues i q1 |>) q1 (log ++ [mkMessage t d]) (mkMessage t d) v1 v2)
    as (s2 & q2 & He & Hv & Hq2 & Hr2); try done.
  - cbn. by rewrite lookup_insert_eq.
  - congruence.
  - by rewrite Hf.
  - exists s2, q2. rewrite Hrm in Hr2. done.
Qed.

