(* ===== verification/Shm.v ===== *)
(** * System V shared memory: data

    [core/src/shm.rs]: the bidirectional map [BiBTreeMap], a segment
    [ShmInner], and [ShmManager], which records the keys of the segments and
    where each process has attached them.  A [Mutex] around a value is the
    value itself: each operation below runs under the lock the code takes.
    The physical pages of a segment ([axmm::SharedPages]) are values of a type
    [P]. *)

From S2P Require Import Prelude Ipc.

Definition PAGE_SIZE_4K : Z := 4096.

(** ** [BiBTreeMap], instantiated at integers (ids, keys, addresses) *)

Record BiBTreeMap := mkBi { forward : gmap Z Z; reverse : gmap Z Z }.

Definition bi_new : BiBTreeMap := mkBi ∅ ∅.

Definition bi_insert (key value : Z) (b : BiBTreeMap) : BiBTreeMap :=
  let rev := <[value := key]> (reverse b) in
  let fwd := match reverse b !! value with
             | Some old_key => delete old_key (forward b)
             | None => forward b
             end in
  mkBi (<[key := value]> fwd)
       (match fwd !! key with
        | Some old_value => delete old_value rev
        | None => rev
        end).

Definition bi_get_by_key (b : BiBTreeMap) (key : Z) : option Z := forward b !! key.
Definition bi_get_by_value (b : BiBTreeMap) (value : Z) : option Z := reverse b !! value.

Definition bi_remove_by_key (key : Z) (b : BiBTreeMap) : option Z * BiBTreeMap :=
  match forward b !! key with
  | Some value => (Some value, mkBi (delete key (forward b)) (delete value (reverse b)))
  | None => (None, b)
  end.

Definition bi_remove_by_value (value : Z) (b : BiBTreeMap) : option Z * BiBTreeMap :=
  match reverse b !! value with
  | Some key => (Some key, mkBi (delete key (forward b)) (delete value (reverse b)))
  | None => (None, b)
  end.

(** ** Segments *)

(** [struct ShmidDs] *)
Record ShmidDs := mkShmidDs {
  shm_perm : IpcPerm;
  shm_segsz : Z;
  shm_atime : Z;
  shm_dtime : Z;
  shm_ctime : Z;
  shm_cpid : Z;
  shm_lpid : Z;
  shm_nattch : Z; (* c_ushort *)
}.
#[export] Instance eta_ShmidDs : Eta ShmidDs := λ d,
  mkShmidDs (shm_perm d) (shm_segsz d) (shm_atime d) (shm_dtime d) (shm_ctime d)
    (shm_cpid d) (shm_lpid d) (shm_nattch d).

Definition ShmidDs_new (key size mode pid : Z) : ShmidDs :=
  {| shm_perm := {| ipc_key := key; ipc_uid := 0; ipc_gid := 0; ipc_cuid := 0;
                    ipc_cgid := 0; ipc_mode := mode; ipc_seq := 0; ipc_pad := 0;
                    ipc_unused0 := 0; ipc_unused1 := 0 |};
     shm_segsz := size; shm_atime := 0; shm_dtime := 0; shm_ctime := 0;
     shm_cpid := pid; shm_lpid := pid; shm_nattch := 0 |}.

(** [struct ShmInner]; a [VirtAddrRange] is the pair of its bounds. *)
Record ShmInner (P : Type) := mkShmInner {
  shmid : Z;
  page_num : Z;
  va_range : gmap Z (Z * Z);
  phys_pages : option P;
  rmid : bool;
  mapping_flags : Z;
  shmid_ds : ShmidDs;
}.
Arguments mkShmInner {_}.
Arguments shmid {_}.
Arguments page_num {_}.
Arguments va_range {_}.
Arguments phys_pages {_}.
Arguments rmid {_}.
Arguments mapping_flags {_}.
Arguments shmid_ds {_}.
#[export] Instance eta_ShmInner {P} : Eta (ShmInner P) := λ i,
  mkShmInner (shmid i) (page_num i) (va_range i) (phys_pages i) (rmid i)
    (mapping_flags i) (shmid_ds i).

Section inner.
Context {P : Type}.
Implicit Types i : ShmInner P.

(** [ShmInner::new], given the size aligned up to a page. *)
Definition ShmInner_new (key id size aligned flags pid : Z) : ShmInner P :=
  {| shmid := id; page_num := aligned / PAGE_SIZE_4K; va_range := ∅;
     phys_pages := None; rmid := false; mapping_flags := flags;
     shmid_ds := ShmidDs_new key size (as_u32 flags) (as_i32 pid) |}.

Definition try_update (size flags pid : Z) : M (ShmInner P) Z :=
  i ← getM;
  if negb (size =? shm_segsz (shmid_ds i))
     || negb (as_u32 flags =? ipc_mode (shm_perm (shmid_ds i)))
  then failM InvalidInput
  else
    modifyM (λ i, i <| shmid_ds ::= λ d, d <| shm_lpid := as_i32 pid |> |>);;
    mret (shmid i).

Definition map_to_phys (pages : P) (i : ShmInner P) : ShmInner P :=
  i <| phys_pages := Some pages |>.

Definition attach_count i : Z := Z.of_nat (size (va_range i)).

Definition get_addr_range i (pid : Z) : option (Z * Z) := va_range i !! pid.

Definition attach_process (now pid : Z) (range : Z * Z) : M (ShmInner P) unit :=
  i ← getM;
  assertM (bool_decide (get_addr_range i pid = None));;
  modifyM (λ i, i <| va_range ::= <[pid := range]> |>
    <| shmid_ds ::= λ d, d <| shm_nattch ::= λ n, wrapu 16 (n + 1) |>
         <| shm_lpid := as_i32 pid |> <| shm_atime := as_i64 now |> |>).

Definition detach_process (now pid : Z) : M (ShmInner P) unit :=
  i ← getM;
  assertM (bool_decide (is_Some (get_addr_range i pid)));;
  modifyM (λ i, i <| va_range ::= delete pid |>
    <| shmid_ds ::= λ d, d <| shm_nattch ::= λ n, wrapu 16 (n - 1) |>
         <| shm_lpid := as_i32 pid |> <| shm_dtime := as_i64 now |> |>).
End inner.

(** ** [ShmManager] *)

Record ShmManager (P : Type) := mkShmManager {
  key_shmid : BiBTreeMap;
  shmid_inner : gmap Z (ShmInner P);
  pid_shmid_vaddr : gmap Z BiBTreeMap;
}.
Arguments mkShmManager {_}.
Arguments key_shmid {_}.
Arguments shmid_inner {_}.
Arguments pid_shmid_vaddr {_}.
#[export] Instance eta_ShmManager {P} : Eta (ShmManager P) := λ m,
  mkShmManager (key_shmid m) (shmid_inner m) (pid_shmid_vaddr m).

Section manager.
Context {P : Type}.
Implicit Types m : ShmManager P.

Definition ShmManager_new : ShmManager P := mkShmManager bi_new ∅ ∅.

Definition get_shmid_by_key m (key : Z) : option Z := bi_get_by_key (key_shmid m) key.
Definition get_inner_by_shmid m (id : Z) : option (ShmInner P) := shmid_inner m !! id.
Definition get_shmid_by_vaddr m (pid vaddr : Z) : option Z :=
  b ← pid_shmid_vaddr m !! pid; bi_get_by_value b vaddr.
Definition get_shmids_by_pid m (pid : Z) : option (list Z) :=
  (λ b, btree_keys (forward b)) <$> pid_shmid_vaddr m !! pid.
Definition find_vaddr_by_shmid m (pid id : Z) : option Z :=
  b ← pid_shmid_vaddr m !! pid; bi_get_by_key b id.

Definition insert_key_shmid (key id : Z) m : ShmManager P :=
  m <| key_shmid ::= bi_insert key id |>.
Definition insert_shmid_inner (id : Z) (i : ShmInner P) m : ShmManager P :=
  m <| shmid_inner ::= <[id := i]> |>.
Definition insert_shmid_vaddr (pid id vaddr : Z) m : ShmManager P :=
  m <| pid_shmid_vaddr ::= λ t,
    <[pid := bi_insert id vaddr (default bi_new (t !! pid))]> t |>.

Definition remove_shmaddr (pid shmaddr : Z) m : ShmManager P :=
  match pid_shmid_vaddr m !! pid with
  | Some map =>
      let map' := (bi_remove_by_value shmaddr map).2 in
      let m' := m <| pid_shmid_vaddr ::= <[pid := map']> |> in
      if bool_decide (forward map' = ∅)
      then m' <| pid_shmid_vaddr ::= delete pid |> else m'
  | None => m
  end.

Definition remove_pid (pid : Z) m : ShmManager P :=
  m <| pid_shmid_vaddr ::= delete pid |>.

Definition remove_shmid (id : Z) m : ShmManager P :=
  m <| key_shmid ::= λ b, (bi_remove_by_value id b).2 |>
    <| shmid_inner ::= delete id |>.

(** [shm_inner.detach_process(pid)] on the segment the manager holds as [id],
    and its removal when it is marked and nobody is attached any more. *)
Definition detach_and_reap (now pid id : Z) (i : ShmInner P) : M (ShmManager P) unit := λ m,
  let '(r, i') := detach_process now pid i in
  let m' := insert_shmid_inner id i' m in
  match r with
  | Ok _ => if rmid i' && (attach_count i' =? 0)
            then (Ok tt, remove_shmid id m') else (Ok tt, m')
  | Err e => (Err e, m')
  | Panic => (Panic, m')
  end.

(** The loop of [clear_proc_shm] *)
Fixpoint clear_segments (now pid : Z) (shmids : list Z) : M (ShmManager P) unit :=
  match shmids with
  | [] => mret tt
  | id :: rest =>
      m ← getM;
      (match get_inner_by_shmid m id with
       | Some i => detach_and_reap now pid id i
       | None => mret tt
       end);;
      clear_segments now pid rest
  end.

Definition clear_proc_shm (now pid : Z) : M (ShmManager P) unit :=
  m ← getM;
  (match get_shmids_by_pid m pid with
   | Some shmids => clear_segments now pid shmids
   | None => mret tt
   end);;
  modifyM (remove_pid pid).
End manager.

(** ** [BiBTreeMap] is a bijection *)

Definition bi_wf (b : BiBTreeMap) : Prop :=
  ∀ k v, forward b !! k = Some v ↔ reverse b !! v = Some k.

Lemma bi_wf_new : bi_wf bi_new.
Proof. intros k v. simpl. rewrite !lookup_empty. naive_solver. Qed.

Lemma bi_wf_inj b k k' v :
  bi_wf b → forward b !! k = Some v → forward b !! k' = Some v → k = k'.
Proof. intros Hw H1 H2. apply Hw in H1, H2. congruence. Qed.

(** Lookup after [bi_insert]: the new pair, and every old pair that shares
    neither its key nor its value. *)
Lemma bi_insert_forward b k v k' v' : bi_wf b →
  forward (bi_insert k v b) !! k' = Some v' ↔
  (k' = k ∧ v' = v) ∨ (k' ≠ k ∧ v' ≠ v ∧ forward b !! k' = Some v').
Proof.
  intros Hw. unfold bi_insert; simpl.
  destruct (decide (k' = k)) as [->|Hk].
  { rewrite lookup_insert_eq. naive_solver. }
  rewrite lookup_insert_ne by done.
  destruct (reverse b !! v) as [k0|] eqn:Hr.
  - apply Hw in Hr. destruct (decide (k' = k0)) as [->|Hk0].
    + rewrite lookup_delete_eq. naive_solver.
    + rewrite lookup_delete_ne by done. split; [|naive_solver].
      intros Hf. right. split_and!; try done. intros ->.
      by pose proof (bi_wf_inj _ _ _ _ Hw Hr Hf).
  - split; [|naive_solver]. intros Hf. right. split_and!; try done.
    intros ->. apply Hw in Hf. congruence.
Qed.

Lemma bi_insert_reverse b k v k' v' : bi_wf b →
  reverse (bi_insert k v b) !! v' = Some k' ↔
  (k' = k ∧ v' = v) ∨ (k' ≠ k ∧ v' ≠ v ∧ forward b !! k' = Some v').
Proof.
  intros Hw. unfold bi_insert; simpl.
  assert (∀ old, (match reverse b !! v with
                  | Some k0 => delete k0 (forward b) | None => forward b end) !! k
                 = Some old → forward b !! k = Some old ∧ old ≠ v) as Hold.
  { intros old. destruct (reverse b !! v) as [k0|] eqn:Hr.
    - rewrite lookup_delete_Some. intros [Hne Hf]. split; [done|]. intros ->.
      apply Hw in Hr. by pose proof (bi_wf_inj _ _ _ _ Hw Hr Hf).
    - intros Hf. split; [done|]. intros ->. apply Hw in Hf. congruence. }
  assert (∀ old, forward b !! k = Some old → old ≠ v →
    (match reverse b !! v with
     | Some k0 => delete k0 (forward b) | None => forward b end) !! k = Some old) as Hold'.
  { intros old Hf Hne. destruct (reverse b !! v) as [k0|] eqn:Hr; [|done].
    rewrite lookup_delete_ne; [done|]. intros ->. apply Hw in Hr. congruence. }
  specialize (Hw k' v') as Hkv.
  destruct (_ !! k) as [old|] eqn:Ho.
  - destruct (Hold old eq_refl) as [Hf Hne].
    rewrite lookup_delete_Some, lookup_insert_Some, <- Hkv.
    split; [naive_solver|]. intros [[-> ->]|(? & ? & Hf')]; [naive_solver|].
    split; [|naive_solver]. intros <-. by pose proof (bi_wf_inj _ _ _ _ Hw Hf Hf').
  - rewrite lookup_insert_Some. rewrite <- Hkv.
    destruct (decide (v' = v)) as [->|Hne]; [naive_solver|].
    split; [|naive_solver]. intros [[-> ->]|[? Hf]]; [done|].
    right. split_and!; try done. intros ->. by pose proof (Hold' v' Hf Hne).
Qed.

Lemma bi_insert_wf k v b : bi_wf b → bi_wf (bi_insert k v b).
Proof. intros Hw k' v'. rewrite bi_insert_forward, bi_insert_reverse by done. done. Qed.

Lemma bi_remove_by_value_wf v b : bi_wf b → bi_wf (bi_remove_by_value v b).2.
Proof.
  intros Hw k' v'. unfold bi_remove_by_value.
  destruct (reverse b !! v) as [k|] eqn:Hr; simpl; [|done].
  rewrite !lookup_delete_Some. apply Hw in Hr.
  specialize (Hw k' v') as Hkv. rewrite <- Hkv.
  pose proof (bi_wf_inj b k k' v' Hw). naive_solver.
Qed.

Lemma bi_remove_by_value_forward v b k' v' : bi_wf b →
  forward (bi_remove_by_value v b).2 !! k' = Some v' ↔
  forward b !! k' = Some v' ∧ v' ≠ v.
Proof.
  intros Hw. unfold bi_remove_by_value.
  destruct (reverse b !! v) as [k|] eqn:Hr; simpl.
  - apply Hw in Hr. rewrite lookup_delete_Some.
    pose proof (bi_wf_inj b k k' v Hw). naive_solver.
  - split; [|naive_solver]. intros Hf. split; [done|].
    intros ->. apply Hw in Hf. congruence.
Qed.

Lemma bi_remove_by_key_forward k b k' v' : bi_wf b →
  bi_wf (bi_remove_by_key k b).2 ∧
  (forward (bi_remove_by_key k b).2 !! k' = Some v' ↔
   forward b !! k' = Some v' ∧ k' ≠ k).
Proof.
  intros Hw. unfold bi_remove_by_key.
  destruct (forward b !! k) as [v|] eqn:Hf; simpl; [|split; naive_solver].
  split; [|rewrite lookup_delete_Some; naive_solver].
  intros k2 v2. simpl. rewrite !lookup_delete_Some. specialize (Hw k2 v2) as Hkv.
  rewrite <- Hkv. pose proof (bi_wf_inj b k k2 v Hw). naive_solver.
Qed.

(** ** Attachments and their records

    [attached]: segment [id] is mapped at [r] in process [pid], according to
    the segment; [tracked]: the manager has [id] at address [va] of [pid].  The
    operations are described by what they do to these two relations. *)

Section records.
Context {P : Type}.
Implicit Types m : ShmManager P.

Definition attached m (id pid : Z) (r : Z * Z) : Prop :=
  ∃ i, shmid_inner m !! id = Some i ∧ va_range i !! pid = Some r.
Definition tracked m (pid id va : Z) : Prop :=
  ∃ b, pid_shmid_vaddr m !! pid = Some b ∧ forward b !! id = Some va.

(** Well-formedness of the manager; [next] is the id counter. *)
Record mgr_wf (next : Z) m : Prop := {
  wf_keys : bi_wf (key_shmid m);
  wf_key_live k id : forward (key_shmid m) !! k = Some id → is_Some (shmid_inner m !! id);
  wf_pids pid b : pid_shmid_vaddr m !! pid = Some b → bi_wf b ∧ forward b ≠ ∅;
  wf_segment id i : shmid_inner m !! id = Some i →
    shmid i = id ∧ 0 ≤ id < next ∧ 0 < page_num i < 2 ^ 52;
}.

Lemma wf_default_pid next m pid :
  mgr_wf next m → bi_wf (default bi_new (pid_shmid_vaddr m !! pid)).
Proof.
  intros Hw. destruct (_ !! pid) as [b|] eqn:Hb; simpl; [|apply bi_wf_new].
  by apply (wf_pids _ _ Hw) in Hb as [? _].
Qed.

Lemma attached_insert m id i id' pid r :
  attached (insert_shmid_inner id i m) id' pid r ↔
  (id' = id ∧ va_range i !! pid = Some r) ∨ (id' ≠ id ∧ attached m id' pid r).
Proof.
  unfold attached, insert_shmid_inner; simpl. setoid_rewrite lookup_insert_Some.
  naive_solver.
Qed.

(** Replacing a segment by one with the same identity. *)
Lemma update_wf next m id i i' :
  mgr_wf next m → shmid_inner m !! id = Some i → shmid i' = shmid i →
  page_num i' = page_num i → mgr_wf next (insert_shmid_inner id i' m).
Proof.
  intros Hw Hi Hs Hp. split; simpl.
  - apply Hw.
  - intros k id' Hk. rewrite lookup_insert_is_Some. destruct (decide (id = id')); [by left|].
    right. split; [done|]. by eapply wf_key_live.
  - apply Hw.
  - intros id' j. rewrite lookup_insert_Some. intros [[-> <-]|[_ Hj]].
    + rewrite Hs, Hp. by eapply (wf_segment _ _ Hw).
    + by eapply (wf_segment _ _ Hw).
Qed.

Lemma update_attached m id i i' id' pid r :
  shmid_inner m !! id = Some i → va_range i' = va_range i →
  attached (insert_shmid_inner id i' m) id' pid r ↔ attached m id' pid r.
Proof.
  intros Hi Hv. rewrite attached_insert, Hv. unfold attached.
  destruct (decide (id' = id)) as [->|]; naive_solver.
Qed.

Lemma create_wf next m key id i :
  mgr_wf next m → shmid i = id → next ≤ id → 0 ≤ next → 0 < page_num i < 2 ^ 52 →
  mgr_wf (id + 1) (insert_shmid_inner id i (insert_key_shmid key id m)).
Proof.
  intros Hw Hs Hn H0 Hp. split; simpl.
  - apply bi_insert_wf, Hw.
  - intros k id' Hk. rewrite lookup_insert_is_Some.
    apply bi_insert_forward in Hk; [|apply Hw].
    destruct Hk as [[_ ->]|(_ & Hne & Hk)]; [by left|right].
    split; [done|]. by eapply wf_key_live.
  - apply Hw.
  - intros id' j. rewrite lookup_insert_Some. intros [[-> <-]|[_ Hj]]; [lia|].
    apply (wf_segment _ _ Hw) in Hj. lia.
Qed.

Lemma remove_shmid_wf next m id : mgr_wf next m → mgr_wf next (remove_shmid id m).
Proof.
  intros Hw. split; simpl.
  - apply bi_remove_by_value_wf, Hw.
  - intros k id' Hk. apply bi_remove_by_value_forward in Hk as [Hk Hne]; [|apply Hw].
    rewrite lookup_delete_ne by done. by eapply wf_key_live.
  - apply Hw.
  - intros id' j. rewrite lookup_delete_Some. intros [_ Hj]. by eapply (wf_segment _ _ Hw).
Qed.

Lemma insert_vaddr_wf next m pid id va :
  mgr_wf next m → mgr_wf next (insert_shmid_vaddr pid id va m).
Proof.
  intros Hw. split; simpl; try apply Hw.
  intros pid' b. rewrite lookup_insert_Some. intros [[-> <-]|[_ Hb]];
    [|by eapply (wf_pids _ _ Hw)].
  split; [by eapply bi_insert_wf, wf_default_pid|].
  apply (insert_non_empty (M := gmap Z)).
Qed.

Lemma insert_vaddr_tracked next m pid id va pid' id' va' : mgr_wf next m →
  tracked (insert_shmid_vaddr pid id va m) pid' id' va' ↔
  (pid' = pid ∧ ((id' = id ∧ va' = va) ∨ (id' ≠ id ∧ va' ≠ va ∧ tracked m pid id' va')))
  ∨ (pid' ≠ pid ∧ tracked m pid' id' va').
Proof.
  intros Hw. unfold tracked, insert_shmid_vaddr; simpl.
  pose proof (bi_insert_forward _ id va id' va' (wf_default_pid next m pid Hw)) as Hf.
  setoid_rewrite lookup_insert_Some.
  destruct (decide (pid' = pid)) as [->|Hne]; [|naive_solver].
  destruct (pid_shmid_vaddr m !! pid) as [b|] eqn:Hb; simpl in Hf.
  - naive_solver.
  - rewrite lookup_empty in Hf. naive_solver.
Qed.

Lemma remove_shmaddr_eq m pid va :
  remove_shmaddr pid va m = m <| pid_shmid_vaddr :=
    pid_shmid_vaddr (remove_shmaddr pid va m) |>.
Proof.
  unfold remove_shmaddr. destruct (pid_shmid_vaddr m !! pid); [|by destruct m].
  by case_bool_decide.
Qed.

Lemma remove_shmaddr_tracked next m pid va pid' id' va' : mgr_wf next m →
  tracked (remove_shmaddr pid va m) pid' id' va' ↔
  tracked m pid' id' va' ∧ ¬ (pid' = pid ∧ va' = va).
Proof.
  intros Hw. unfold tracked, remove_shmaddr.
  destruct (pid_shmid_vaddr m !! pid) as [b|] eqn:Hb; [|naive_solver].
  destruct (wf_pids _ _ Hw _ _ Hb) as [Hbw _].
  pose proof (bi_remove_by_value_forward va b id' va' Hbw) as Hf.
  case_bool_decide as He; simpl.
  - setoid_rewrite lookup_delete_Some. setoid_rewrite lookup_insert_Some.
    rewrite He, lookup_empty in Hf.
    destruct (decide (pid' = pid)) as [->|]; naive_solver.
  - setoid_rewrite lookup_insert_Some.
    destruct (decide (pid' = pid)) as [->|]; naive_solver.
Qed.

Lemma remove_shmaddr_wf next m pid va :
  mgr_wf next m → mgr_wf next (remove_shmaddr pid va m).
Proof.
  intros Hw. rewrite remove_shmaddr_eq. split; simpl; try apply Hw.
  unfold remove_shmaddr. destruct (pid_shmid_vaddr m !! pid) as [b|] eqn:Hb; [|apply Hw].
  destruct (wf_pids _ _ Hw _ _ Hb) as [Hbw _].
  intros pid' b'. case_bool_decide as He; simpl.
  - rewrite lookup_delete_Some, lookup_insert_Some. intros [? [[]|[_ ?]]]; [done|].
    by apply (wf_pids _ _ Hw pid').
  - rewrite lookup_insert_Some. intros [[-> <-]|[_ ?]]; [|by apply (wf_pids _ _ Hw pid')].
    split; [by apply bi_remove_by_value_wf|done].
Qed.

Lemma size_empty_iff i : (attach_count i =? 0) = true ↔ va_range (P := P) i = ∅.
Proof.
  unfold attach_count. rewrite Z.eqb_eq. split; intros H.
  - apply map_size_empty_inv. lia.
  - by rewrite H, map_size_empty.
Qed.

(** Detaching an attached process never fails; it removes exactly that
    attachment, whether or not the segment goes with it. *)
Lemma detach_and_reap_spec next m now pid id i r :
  mgr_wf next m → shmid_inner m !! id = Some i → va_range i !! pid = Some r →
  ∃ m', detach_and_reap now pid id i m = (Ok tt, m')
    ∧ mgr_wf next m' ∧ pid_shmid_vaddr m' = pid_shmid_vaddr m
    ∧ (∀ id' pid' r', attached m' id' pid' r' ↔
         attached m id' pid' r' ∧ ¬ (id' = id ∧ pid' = pid))
    ∧ (∀ id', shmid_inner m' !! id' = None ↔
         shmid_inner m !! id' = None
         ∨ (id' = id ∧ rmid i = true ∧ ∀ q, q ≠ pid → va_range i !! q = None))
    ∧ (∀ id', id' ≠ id → shmid_inner m' !! id' = shmid_inner m !! id').
Proof.
  intros Hw Hi Hr. unfold detach_and_reap, detach_process. unfold_m. cbn.
  unfold get_addr_range. rewrite Hr, bool_decide_true by eauto. cbn.
  set (i' := mkShmInner _ _ (delete pid (va_range i)) _ _ _ _).
  assert (mgr_wf next (insert_shmid_inner id i' m)) as Hw' by (by eapply update_wf).
  assert (∀ id' pid' r', attached (insert_shmid_inner id i' m) id' pid' r' ↔
    attached m id' pid' r' ∧ ¬ (id' = id ∧ pid' = pid)) as Hatt.
  { intros id' pid' r'. rewrite attached_insert. simpl. rewrite lookup_delete_Some.
    unfold attached. destruct (decide (id' = id)) as [->|]; naive_solver. }
  assert ((attach_count i' =? 0) = true ↔ ∀ q, q ≠ pid → va_range i !! q = None) as Hc.
  { rewrite size_empty_iff, map_empty. simpl. setoid_rewrite lookup_delete_None.
    split; [intros H q Hq; destruct (H q); congruence|].
    intros H q. destruct (decide (pid = q)); [by left|right; auto]. }
  destruct (rmid i && (attach_count i' =? 0)) eqn:Hre.
  - apply andb_true_iff in Hre as [Hrm Hc0]. pose proof Hc0 as Hempty.
    rewrite size_empty_iff in Hempty. simpl in Hempty. rewrite Hc in Hc0.
    eexists. split_and!; [done|by apply remove_shmid_wf|done|..].
    + intros id' pid' r'. rewrite <- Hatt, attached_insert. unfold attached; simpl.
      rewrite Hempty, lookup_empty. setoid_rewrite lookup_delete_Some.
      setoid_rewrite lookup_insert_Some. naive_solver.
    + intros id'. simpl. rewrite lookup_delete_None, lookup_insert_None.
      destruct (decide (id = id')); naive_solver.
    + intros id' Hne. simpl. by rewrite lookup_delete_ne, lookup_insert_ne.
  - eexists. split_and!; [done..| |intros id' Hne; by apply lookup_insert_ne].
    intros id'. simpl. rewrite lookup_insert_None.
    rewrite andb_false_iff in Hre. split.
    + intros [? _]; by left.
    + intros [?|(-> & Hrm & Hq)]; [split; [done|congruence]|].
      apply Hc in Hq. destruct Hre; congruence.
Qed.

(** The loop detaches [pid] from every listed segment. *)
Lemma clear_segments_spec next now pid l : ∀ m,
  mgr_wf next m → NoDup l → (∀ id, id ∈ l → ∃ r, attached m id pid r) →
  ∃ m', clear_segments now pid l m = (Ok tt, m')
    ∧ mgr_wf next m' ∧ pid_shmid_vaddr m' = pid_shmid_vaddr m
    ∧ (∀ id' pid' r', attached m' id' pid' r' ↔
         attached m id' pid' r' ∧ ¬ (id' ∈ l ∧ pid' = pid))
    ∧ (∀ id', shmid_inner m' !! id' = None ↔
         shmid_inner m !! id' = None
         ∨ (id' ∈ l ∧ ∃ i, shmid_inner m !! id' = Some i ∧ rmid i = true
              ∧ ∀ q, q ≠ pid → va_range i !! q = None)).
Proof.
  induction l as [|id l IH]; intros m Hw Hnd Hall; simpl.
  { exists m. split_and!; try done; set_solver. }
  apply NoDup_cons in Hnd as [Hni Hnd].
  destruct (Hall id) as [r (i & Hi & Hr)]; [left|].
  destruct (detach_and_reap_spec next m now pid id i r Hw Hi Hr)
    as (m1 & He1 & Hw1 & Hp1 & Ha1 & Hg1 & Hk1).
  destruct (IH m1 Hw1 Hnd) as (m2 & He2 & Hw2 & Hp2 & Ha2 & Hg2).
  { intros id' Hin. destruct (Hall id') as [r' Hr']; [by right|].
    exists r'. apply Ha1. split; [done|]. intros [-> _]. done. }
  exists m2. split_and!; [|done|congruence|..].
  - unfold_m. cbn. unfold get_inner_by_shmid. rewrite Hi, He1. exact He2.
  - intros id' pid' r'. rewrite Ha2, Ha1. set_solver.
  - intros id'. rewrite Hg2, Hg1, elem_of_cons.
    destruct (decide (id' = id)) as [->|Hne]; [naive_solver|].
    rewrite Hk1 by done. clear -Hne. intuition.
Qed.

(** The loop panics at a listed segment the process is not attached to. *)
Lemma clear_segments_panics next now pid l : ∀ m id i,
  mgr_wf next m → NoDup l → id ∈ l → shmid_inner m !! id = Some i →
  va_range i !! pid = None → (clear_segments now pid l m).1 = Panic.
Proof.
  induction l as [|id0 l IH]; intros m id i Hw Hnd Hin Hi Hr; [set_solver|].
  apply NoDup_cons in Hnd as [Hni Hnd]. simpl. unfold_m. cbn. unfold get_inner_by_shmid.
  destruct (shmid_inner m !! id0) as [i0|] eqn:Hi0.
  - destruct (va_range i0 !! pid) as [r|] eqn:Hr0.
    + assert (id ≠ id0) as Hne by congruence.
      destruct (detach_and_reap_spec next m now pid id0 i0 r Hw Hi0 Hr0)
        as (m1 & -> & Hw1 & _ & _ & _ & Hk1).
      eapply (IH m1 id i); try done; [set_solver|]. by rewrite Hk1.
    + unfold detach_and_reap, detach_process, get_addr_range. unfold_m. cbn.
      by rewrite Hr0.
  - eapply (IH m id i); try done. set_solver.
Qed.
End records.

(** ** Main results *)

(** a [BiBTreeMap] is a bijection whatever is done to it.  Insertion adds
    its pair and drops exactly the old pairs that share its key or its value;
    removal by key or by value drops exactly that pair and returns its other
    half; the two lookups are inverse to each other. *)
Lemma bibtreemap_bijection b k v : bi_wf b →
  (∀ k' v', bi_get_by_key b k' = Some v' ↔ bi_get_by_value b v' = Some k')
  ∧ (bi_wf (bi_insert k v b)
     ∧ ∀ k' v', bi_get_by_key (bi_insert k v b) k' = Some v' ↔
         (k' = k ∧ v' = v) ∨ (k' ≠ k ∧ v' ≠ v ∧ bi_get_by_key b k' = Some v'))
  ∧ (bi_wf (bi_remove_by_key k b).2
     ∧ (bi_remove_by_key k b).1 = bi_get_by_key b k
     ∧ ∀ k' v', bi_get_by_key (bi_remove_by_key k b).2 k' = Some v' ↔
         bi_get_by_key b k' = Some v' ∧ k' ≠ k)
  ∧ (bi_wf (bi_remove_by_value v b).2
     ∧ (bi_remove_by_value v b).1 = bi_get_by_value b v
     ∧ ∀ k' v', bi_get_by_key (bi_remove_by_value v b).2 k' = Some v' ↔
         bi_get_by_key b k' = Some v' ∧ v' ≠ v).
Proof.
  intros Hw. split; [exact Hw|]. split_and!.
  - by apply bi_insert_wf.
  - intros. by apply bi_insert_forward.
  - by apply (bi_remove_by_key_forward k b 0 0).
  - unfold bi_remove_by_key, bi_get_by_key. by destruct (forward b !! k).
  - intros. by apply bi_remove_by_key_forward.
  - by apply bi_remove_by_value_wf.
  - unfold bi_remove_by_value, bi_get_by_value. by destruct (reverse b !! v).
  - intros. by apply bi_remove_by_value_forward.
Qed.

