(* ===== verification/ShmSys.v ===== *)
(** * System V shared memory: system calls

    [api/src/syscall/ipc/shm.rs]: [shmget], [shmat], [shmctl], [shmdt], and
    the detaching of a process that exits ([api/src/task.rs]: [do_exit]).
    Address spaces, physical pages and user memory belong to other crates:
    [ShmEnv] holds the operations the code calls and [ShmEnvOk] what it relies
    on.  Each call is atomic, as under the locks it holds. *)

From S2P Require Import Prelude Ipc Shm.

(** [A] is an address space ([axmm::AddrSpace]), [P] the physical pages of a
    segment ([SharedPages]), [W] the rest of the machine: the frame allocator
    and the caller's memory. *)
Class ShmEnv (A P W : Type) := {
  align_up_4k : Z → Z;
  align_down_4k : Z → Z;
  MF_USER : Z;
  MF_READ : Z;
  MF_WRITE : Z;
  MF_EXECUTE : Z;
  aspace_base : A → Z;
  aspace_end : A → Z;
  (* hint, size, limit, page size *)
  find_free_area : A → Z → Z → Z * Z → Z → option Z;
  VirtAddrRange_new : Z → Z → res (Z * Z);
  aspace_map : Z → Z → Z → P → M A unit;
  aspace_unmap : Z → Z → M A unit;
  SharedPages_new : Z → M W P;
  get_shmid_ds : W → Z → res ShmidDs;
  put_shmid_ds : Z → ShmidDs → M W unit;
}.

(** [mapped a x]: address [x] belongs to some area of [a]. *)
Class ShmEnvOk (A P W : Type) `{ShmEnv A P W} := {
  mapped : A → Z → Prop;
  align_up_range z : in_u64 z → 0 ≤ align_up_4k z < 2 ^ 64;
  va_range_ok lo hi : lo ≤ hi → VirtAddrRange_new lo hi = Ok (lo, hi);
  aspace_end_range a : aspace_end a < 2 ^ 64;
  find_free_ok a hint len lo hi al st :
    find_free_area a hint len (lo, hi) al = Some st →
    0 ≤ st ∧ st + len ≤ hi ∧ ∀ x, st ≤ x < st + len → ¬ mapped a x;
  map_ok st len fl p a a' : aspace_map st len fl p a = (Ok tt, a') →
    ∀ x, mapped a' x ↔ mapped a x ∨ st ≤ x < st + len;
  map_no_panic st len fl p a : (aspace_map st len fl p a).1 ≠ Panic;
  unmap_ok st len a a' : aspace_unmap st len a = (Ok tt, a') →
    ∀ x, mapped a' x ↔ mapped a x ∧ ¬ (st ≤ x < st + len);
  unmap_err st len a a' e : aspace_unmap st len a = (Err e, a') →
    ∀ x, mapped a' x ↔ mapped a x;
  unmap_no_panic st len a : (aspace_unmap st len a).1 ≠ Panic;
  pages_no_panic len w : (SharedPages_new len w).1 ≠ Panic;
  get_ds_no_panic w p : get_shmid_ds w p ≠ Panic;
  put_ds_no_panic p d w : (put_shmid_ds p d w).1 ≠ Panic;
}.

(** The global manager, the id counter, the address space of each process. *)
Record ShmSys (A P W : Type) := mkShmSys {
  sh_id : Z;
  sh_mgr : ShmManager P;
  sh_as : Z → A;
  sh_world : W;
}.
Arguments mkShmSys {_ _ _}.
Arguments sh_id {_ _ _}.
Arguments sh_mgr {_ _ _}.
Arguments sh_as {_ _ _}.
Arguments sh_world {_ _ _}.
#[export] Instance eta_ShmSys {A P W} : Eta (ShmSys A P W) := λ s,
  mkShmSys (sh_id s) (sh_mgr s) (sh_as s) (sh_world s).

Definition SHM_RDONLY : Z := 0x1000. (* 0o10000 *)
Definition SHM_RND : Z := 0x2000.    (* 0o20000 *)
Definition SHM_REMAP : Z := 0x4000.  (* 0o40000 *)
Definition ShmAtFlags_truncate (bits : Z) : Z :=
  Z.land bits (Z.lor SHM_RDONLY (Z.lor SHM_RND SHM_REMAP)).

Section sys.
Context {A P W : Type} `{ShmEnv A P W}.
Abbreviation S := (ShmSys A P W).

Definition on_shm_mgr {R} (f : M (ShmManager P) R) : M S R := λ s,
  let '(r, m) := f (sh_mgr s) in (r, s <| sh_mgr := m |>).
Definition on_aspace {R} (pid : Z) (f : M A R) : M S R := λ s,
  let '(r, a) := f (sh_as s pid) in
  (r, s <| sh_as ::= λ t q, if q =? pid then a else t q |>).
Definition on_world {R} (f : M W R) : M S R := λ s,
  let '(r, w) := f (sh_world s) in (r, s <| sh_world := w |>).
(** Runs [f] on the locked segment. *)
Definition on_inner {R} (id : Z) (i : ShmInner P) (f : M (ShmInner P) R) : M S R := λ s,
  let '(r, i') := f i in (r, s <| sh_mgr ::= insert_shmid_inner id i' |>).
Definition new_shmid : M S Z := λ s,
  let '(r, n) := next_ipc_id (sh_id s) in (r, s <| sh_id := n |>).

Definition shmget_flags (shmflg : Z) : Z :=
  let f := MF_USER in
  let f := if any_bit shmflg 0x100 (* 0o400 *) then Z.lor f MF_READ else f in
  let f := if any_bit shmflg 0x80 (* 0o200 *) then Z.lor f MF_WRITE else f in
  if any_bit shmflg 0x40 (* 0o100 *) then Z.lor f MF_EXECUTE else f.

Definition sys_shmget (cur_pid key size shmflg : Z) : M S Z :=
  if align_up_4k size / PAGE_SIZE_4K =? 0 then failM InvalidInput
  else
    let flags := shmget_flags shmflg in
    s ← getM;
    match (if negb (key =? IPC_PRIVATE) then get_shmid_by_key (sh_mgr s) key else None) with
    | Some id =>
        i ← liftR (ok_or InvalidInput (get_inner_by_shmid (sh_mgr s) id));
        on_inner id i (try_update size flags cur_pid)
    | None =>
        id ← new_shmid;
        on_shm_mgr (modifyM (insert_key_shmid key id));;
        on_shm_mgr (modifyM (insert_shmid_inner id
          (ShmInner_new key id size (align_up_4k size) flags cur_pid)));;
        mret id
    end.

(** Where [shmat] places a segment: near the hint, else anywhere. *)
Definition shmat_place (a : A) (addr length : Z) : option Z :=
  let limit := (aspace_base a, aspace_end a) in
  match find_free_area a (align_down_4k addr) length limit PAGE_SIZE_4K with
  | Some st => Some st
  | None => find_free_area a (aspace_base a) length limit PAGE_SIZE_4K
  end.

Definition sys_shmat (now pid id addr shmflg : Z) : M S Z :=
  s ← getM;
  i ← liftR (unwrap (get_inner_by_shmid (sh_mgr s) id));
  let flags := if has_flag (ShmAtFlags_truncate shmflg) SHM_RDONLY
               then Z.ldiff (mapping_flags i) MF_WRITE else mapping_flags i in
  let length := as_u64 (page_num i * PAGE_SIZE_4K) in
  assertM (bool_decide (get_addr_range i pid = None));;
  start_addr ← liftR (ok_or NoMemory (shmat_place (sh_as s pid) addr length));
  range ← liftR (VirtAddrRange_new start_addr (add_u64 start_addr length));
  on_shm_mgr (modifyM (insert_shmid_vaddr pid (shmid i) start_addr));;
  i' ← (match phys_pages i with
        | Some pages =>
            on_aspace pid (aspace_map start_addr length flags pages);; mret i
        | None =>
            pages ← on_world (SharedPages_new length);
            on_aspace pid (aspace_map start_addr length flags pages);;
            mret (map_to_phys pages i)
        end);
  on_inner id i' (attach_process now pid range);;
  mret start_addr.

Definition sys_shmctl (now id cmd buf : Z) : M S Z :=
  s ← getM;
  i ← liftR (ok_or InvalidInput (get_inner_by_shmid (sh_mgr s) id));
  let cmd := as_i32 cmd in
  i' ← (if cmd =? IPC_SET then
          d ← liftR (get_shmid_ds (sh_world s) buf);
          mret (i <| shmid_ds := d |>)
        else if cmd =? IPC_STAT then
          (if buf =? 0 then mret tt else on_world (put_shmid_ds buf (shmid_ds i)));;
          mret i
        else if cmd =? IPC_RMID then mret (i <| rmid := true |>)
        else failM InvalidInput);
  on_inner id i' (modifyM (λ i, i <| shmid_ds ::= λ d, d <| shm_ctime := as_i64 now |> |>));;
  mret 0.

Definition sys_shmdt (now pid shmaddr : Z) : M S Z :=
  s ← getM;
  id ← liftR (ok_or InvalidInput (get_shmid_by_vaddr (sh_mgr s) pid shmaddr));
  i ← liftR (ok_or InvalidInput (get_inner_by_shmid (sh_mgr s) id));
  range ← liftR (ok_or InvalidInput (get_addr_range i pid));
  on_aspace pid (aspace_unmap range.1 (range.2 - range.1));;
  on_shm_mgr (modifyM (remove_shmaddr pid shmaddr));;
  on_shm_mgr (detach_and_reap now pid id i);;
  mret 0.

(** The shared-memory part of the last thread's [do_exit] *)
Definition exit_shm (now pid : Z) : M S unit := on_shm_mgr (clear_proc_shm now pid).

Inductive shm_call :=
| ShmGet (pid key size shmflg : Z)
| ShmAt (now pid id addr shmflg : Z)
| ShmCtl (now id cmd buf : Z)
| ShmDt (now pid addr : Z)
| ShmExit (now pid : Z).

Definition run_shm (c : shm_call) : M S Z :=
  match c with
  | ShmGet pid key size shmflg => sys_shmget pid key size shmflg
  | ShmAt now pid id addr shmflg => sys_shmat now pid id addr shmflg
  | ShmCtl now id cmd buf => sys_shmctl now id cmd buf
  | ShmDt now pid addr => sys_shmdt now pid addr
  | ShmExit now pid => exit_shm now pid;; mret 0
  end.
End sys.

(** ** The invariant *)

Section invariant.
Context {A P W : Type} `{ShmEnvOk A P W}.
Implicit Types s : ShmSys A P W.

(** The manager's records are exactly the attachments of the segments; the
    attached ranges are mapped in their process and disjoint. *)
Record shm_sync s : Prop := {
  sync_tracked pid id va :
    tracked (sh_mgr s) pid id va ↔ ∃ e, attached (sh_mgr s) id pid (va, e);
  sync_mapped id pid a e : attached (sh_mgr s) id pid (a, e) →
    a < e ∧ ∀ x, a ≤ x < e → mapped (sh_as s pid) x;
  sync_disjoint id id' pid a e a' e' :
    attached (sh_mgr s) id pid (a, e) → attached (sh_mgr s) id' pid (a', e') →
    id ≠ id' → e ≤ a' ∨ e' ≤ a;
}.

Record shm_inv s : Prop := {
  inv_wf : mgr_wf (sh_id s) (sh_mgr s);
  inv_id : 0 ≤ sh_id s;
  inv_sync : shm_sync s;
}.

(** The same attachments and records, with at least the same mappings. *)
Lemma sync_same s s' :
  shm_sync s →
  (∀ id pid r, attached (sh_mgr s') id pid r ↔ attached (sh_mgr s) id pid r) →
  pid_shmid_vaddr (sh_mgr s') = pid_shmid_vaddr (sh_mgr s) →
  (∀ pid x, mapped (sh_as s pid) x → mapped (sh_as s' pid) x) → shm_sync s'.
Proof.
  intros [Ht Hm Hd] Ha Hp Has. split.
  - intros pid id va. setoid_rewrite Ha. rewrite <- Ht. unfold tracked. by rewrite Hp.
  - intros id pid a e. rewrite Ha. intros [? Hx]%Hm. split; [done|]. auto.
  - intros id id' pid a e a' e'. rewrite !Ha. apply Hd.
Qed.

(** A new attachment in an unmapped range of the process. *)
Lemma sync_attach s s' pid id st e :
  shm_sync s → (∀ r, ¬ attached (sh_mgr s) id pid r) → st < e →
  (∀ x, st ≤ x < e → ¬ mapped (sh_as s pid) x) →
  (∀ pid' id' va', tracked (sh_mgr s') pid' id' va' ↔
     (pid' = pid ∧ ((id' = id ∧ va' = st) ∨ (id' ≠ id ∧ va' ≠ st ∧ tracked (sh_mgr s) pid id' va')))
     ∨ (pid' ≠ pid ∧ tracked (sh_mgr s) pid' id' va')) →
  (∀ id' pid' r, attached (sh_mgr s') id' pid' r ↔
     (id' = id ∧ pid' = pid ∧ r = (st, e)) ∨ attached (sh_mgr s) id' pid' r) →
  (∀ pid' x, mapped (sh_as s' pid') x ↔
     mapped (sh_as s pid') x ∨ (pid' = pid ∧ st ≤ x < e)) →
  shm_sync s'.
Proof.
  intros [Ht Hm Hd] Hnew Hlt Hfree Htr Hatt Hmap. split.
  - intros pid' id' va'. rewrite Htr. setoid_rewrite Hatt. rewrite !Ht.
    destruct (decide (pid' = pid)) as [->|]; [|naive_solver].
    destruct (decide (id' = id)) as [->|]; [naive_solver|].
    split; [naive_solver|]. intros [e' [(? & _)|Ha]]; [done|]. left. split; [done|].
    right. split_and!; [done| |by eauto]. intros ->.
    destruct (Hm _ _ _ _ Ha) as [? Hx]. apply (Hfree st); [lia|]. apply Hx. lia.
  - intros id' pid' a e'. rewrite Hatt. setoid_rewrite Hmap.
    intros [(-> & -> & [= -> ->])|Ha]; [naive_solver|].
    destruct (Hm _ _ _ _ Ha). naive_solver.
  - assert (∀ id' a e', attached (sh_mgr s) id' pid (a, e') → e ≤ a ∨ e' ≤ st) as Hsep.
    { intros id' a e' Ha. destruct (Hm _ _ _ _ Ha) as [? Hx].
      destruct (decide (e ≤ a)); [by left|]. destruct (decide (e' ≤ st)); [by right|].
      exfalso. apply (Hfree (a `max` st)); [lia|]. apply Hx. lia. }
    intros i1 i2 pid' a1 e1 a2 e2. rewrite !Hatt.
    intros [(-> & -> & [= -> ->])|Ha1] [(-> & ? & [= -> ->])|Ha2] Hne; subst;
      [done|by eapply Hsep| |by eapply Hd].
    apply or_comm. by eapply Hsep.
Qed.

(** Dropping attachments together with their records and, for the process
    concerned, possibly the mappings of the dropped ranges. *)
Lemma sync_drop s s' (drop : Z → Z → Prop) :
  shm_sync s →
  (∀ id pid r, attached (sh_mgr s') id pid r ↔
     attached (sh_mgr s) id pid r ∧ ¬ drop id pid) →
  (∀ pid id va, tracked (sh_mgr s') pid id va ↔
     tracked (sh_mgr s) pid id va ∧ ¬ drop id pid) →
  (∀ id pid a e x, attached (sh_mgr s') id pid (a, e) → a ≤ x < e →
     mapped (sh_as s pid) x → mapped (sh_as s' pid) x) →
  shm_sync s'.
Proof.
  intros [Ht Hm Hd] Ha Htr Has. split.
  - intros pid id va. setoid_rewrite Ha. rewrite Htr, Ht. naive_solver.
  - intros id pid a e Ha'. pose proof Ha' as [Hold _]%Ha.
    destruct (Hm _ _ _ _ Hold). split; [done|]. intros x Hx. eapply Has; eauto.
  - intros id id' pid a e a' e'. rewrite !Ha. intros [? _] [? _]. by eapply Hd.
Qed.

Definition keeps_segments s s' : Prop :=
  ∀ id, is_Some (shmid_inner (sh_mgr s) !! id) → is_Some (shmid_inner (sh_mgr s') !! id).

Lemma keeps_segments_same s s' :
  shmid_inner (sh_mgr s') = shmid_inner (sh_mgr s) → keeps_segments s s'.
Proof. intros He id' ?. by rewrite He. Qed.

Lemma keeps_segments_insert s s' id i :
  shmid_inner (sh_mgr s') = <[id := i]> (shmid_inner (sh_mgr s)) → keeps_segments s s'.
Proof. intros He id' ?. rewrite He, lookup_insert_is_Some'. by right. Qed.

Lemma shmget_inv s pid key size flg : 
  shm_inv s → id_in_range (sh_id s) → in_u64 size →
  let '(r, s') := sys_shmget pid key size flg s in
  r ≠ Panic ∧ shm_inv s' ∧ keeps_segments s s'.
Proof.
  intros [Hw Hn0 Hs] Hid Hsz. pose proof (align_up_range size Hsz) as Hal.
  unfold sys_shmget. destruct (Z.eqb_spec (align_up_4k size / PAGE_SIZE_4K) 0) as [|Hp];
    [by split_and!; [|split|apply keeps_segments_same]|].
  assert (0 < align_up_4k size / PAGE_SIZE_4K < 2 ^ 52) as Hpn.
  { unfold PAGE_SIZE_4K in *. pose proof (Z.div_pos (align_up_4k size) 4096). 
    split; [lia|]. apply Z.div_lt_upper_bound; lia. }
  unfold_m. cbn.
  destruct (if negb (key =? IPC_PRIVATE) then _ else _) as [id|] eqn:Hk.
  - unfold get_inner_by_shmid. destruct (shmid_inner (sh_mgr s) !! id) as [i|] eqn:Hi;
      cbn; [|by split_and!; [|split|apply keeps_segments_same]].
    unfold on_inner, try_update. unfold_m. cbn.
    destruct (negb _ || negb _); cbn; (split_and!; [done| |by eapply keeps_segments_insert]); split; cbn; try done;
      try (by eapply update_wf); eapply (sync_same s); try done; cbn;
      intros; by erewrite update_attached.
  - unfold new_shmid, on_shm_mgr. cbn. rewrite (id_in_range_succ _ Hid).
    split_and!; [done| |by eapply keeps_segments_insert]. split; cbn; [eapply create_wf; try done|lia|].
    eapply (sync_same s); try done; cbn. intros id pid' r. rewrite attached_insert. cbn.
    split; [intros [[_ Hn]|[_ ?]]; [by rewrite lookup_empty in Hn|done]|].
    intros Ha. right. split; [|done]. intros ->. destruct Ha as (i & Hi & _).
    apply (wf_segment _ _ Hw) in Hi. lia.
Qed.

Lemma shmctl_inv s now id cmd buf :
  shm_inv s →
  let '(r, s') := sys_shmctl now id cmd buf s in
  r ≠ Panic ∧ shm_inv s' ∧ keeps_segments s s'.
Proof.
  intros Hinv. pose proof Hinv as [Hw Hn0 Hs]. unfold sys_shmctl. unfold_m. cbn.
  unfold get_inner_by_shmid. destruct (shmid_inner (sh_mgr s) !! id) as [i|] eqn:Hi;
    cbn; [|by split_and!; [..|apply keeps_segments_same]].
  assert (∀ i' w, shmid i' = shmid i → page_num i' = page_num i → va_range i' = va_range i →
    shm_inv (mkShmSys (sh_id s) (insert_shmid_inner id i' (sh_mgr s)) (sh_as s) w)) as Hu.
  { intros i' w ? ? Hv. split; cbn; [by eapply update_wf|done|].
    eapply (sync_same s); try done; cbn. intros. by erewrite update_attached. }
  destruct (as_i32 cmd =? IPC_SET).
  { destruct (get_shmid_ds _ _) eqn:Hg; cbn;
      [|by split_and!; [..|apply keeps_segments_same]|by apply get_ds_no_panic in Hg].
    split_and!; [done|by apply Hu|by eapply keeps_segments_insert]. }
  destruct (as_i32 cmd =? IPC_STAT).
  { destruct (buf =? 0); cbn; [split_and!; [done|by apply Hu|by eapply keeps_segments_insert]|].
    unfold on_world. destruct (put_shmid_ds _ _ _) as [[] w] eqn:Hg; cbn.
    - split_and!; [done|by apply Hu|by eapply keeps_segments_insert].
    - split_and!; [done| |by apply keeps_segments_same].
      split; cbn; [done..|]. by apply (sync_same s).
    - absurd_panic put_ds_no_panic. }
  destruct (as_i32 cmd =? IPC_RMID); cbn;
    [|by split_and!; [..|apply keeps_segments_same]].
  split_and!; [done|by apply Hu|by eapply keeps_segments_insert].
Qed.

Lemma shmat_place_ok a addr len st :
  shmat_place a addr len = Some st →
  0 ≤ st ∧ st + len < 2 ^ 64 ∧ ∀ x, st ≤ x < st + len → ¬ mapped a x.
Proof.
  unfold shmat_place. intros Hp. pose proof (aspace_end_range a).
  destruct (find_free_area a (align_down_4k addr) _ _ _) eqn:Hf; simplify_eq;
    [apply find_free_ok in Hf|apply find_free_ok in Hp]; intuition lia.
Qed.

(** A segment the process is not attached to, and a free place for it: the
    pieces of [sys_shmat] up to the mapping. *)
Lemma attach_range next (m : ShmManager P) id i :
  mgr_wf next m → shmid_inner m !! id = Some i →
  as_u64 (page_num i * PAGE_SIZE_4K) = page_num i * PAGE_SIZE_4K
  ∧ 0 < page_num i * PAGE_SIZE_4K.
Proof.
  intros Hw Hi. apply (wf_segment _ _ Hw) in Hi as (_ & _ & Hp). unfold PAGE_SIZE_4K.
  split; [|lia]. apply as_u64_small. unfold in_u64. lia.
Qed.

(** Everything [sys_shmat] can do: panic on an unknown segment or a second
    attachment, fail before anything is recorded, fail with only the record
    made, or attach. *)
Inductive shmat_outcome s (pid id : Z) : res Z → ShmSys A P W → Prop :=
| At_unknown : shmid_inner (sh_mgr s) !! id = None → shmat_outcome s pid id Panic s
| At_twice r : attached (sh_mgr s) id pid r → shmat_outcome s pid id Panic s
| At_no_place : is_Some (shmid_inner (sh_mgr s) !! id) →
    (∀ r, ¬ attached (sh_mgr s) id pid r) → shmat_outcome s pid id (Err NoMemory) s
| At_recorded s' e st : is_Some (shmid_inner (sh_mgr s) !! id) →
    (∀ r, ¬ attached (sh_mgr s) id pid r) →
    sh_id s' = sh_id s → sh_mgr s' = insert_shmid_vaddr pid id st (sh_mgr s) →
    shmat_outcome s pid id (Err e) s'
| At_ok s' i i' st e : shmid_inner (sh_mgr s) !! id = Some i →
    sh_mgr s' = insert_shmid_inner id i' (insert_shmid_vaddr pid id st (sh_mgr s)) →
    (∀ r, ¬ attached (sh_mgr s) id pid r) → st < e →
    (∀ x, st ≤ x < e → ¬ mapped (sh_as s pid) x) →
    shmid i' = shmid i → page_num i' = page_num i → rmid i' = rmid i →
    va_range i' = <[pid := (st, e)]> (va_range i) →
    sh_id s' = sh_id s →
    (∀ pid' x, mapped (sh_as s' pid') x ↔
       mapped (sh_as s pid') x ∨ (pid' = pid ∧ st ≤ x < e)) →
    shmat_outcome s pid id (Ok st) s'.

Lemma on_aspace_mapped s pid st len fl p a' :
  aspace_map st len fl p (sh_as s pid) = (Ok tt, a') →
  ∀ pid' x, mapped (if pid' =? pid then a' else sh_as s pid') x ↔
     mapped (sh_as s pid') x ∨ (pid' = pid ∧ st ≤ x < st + len).
Proof.
  intros Hm pid' x. destruct (Z.eqb_spec pid' pid) as [->|]; [|naive_solver].
  rewrite (map_ok _ _ _ _ _ _ Hm). naive_solver.
Qed.

Lemma shmat_outcome_of s now pid id addr flg :
  mgr_wf (sh_id s) (sh_mgr s) →
  let '(r, s') := sys_shmat now pid id addr flg s in shmat_outcome s pid id r s'.
Proof.
  intros Hw. unfold sys_shmat. unfold_m. cbn. unfold get_inner_by_shmid.
  destruct (shmid_inner (sh_mgr s) !! id) as [i|] eqn:Hi; cbn; [|by apply At_unknown].
  destruct (attach_range _ _ _ _ Hw Hi) as [-> Hlen].
  destruct (wf_segment _ _ Hw _ _ Hi) as (-> & _ & _).
  unfold get_addr_range. destruct (va_range i !! pid) as [r0|] eqn:Hr.
  { rewrite bool_decide_false by done. cbn. eapply At_twice. by exists i. }
  rewrite bool_decide_true by done. cbn.
  assert (∀ r, ¬ attached (sh_mgr s) id pid r) as Hnew.
  { intros r (i' & Hi' & Hr'). congruence. }
  destruct (shmat_place _ _ _) as [st|] eqn:Hpl; cbn; [|by apply At_no_place].
  apply shmat_place_ok in Hpl as (Hst & Hend & Hfree).
  unfold add_u64. rewrite as_u64_small by (unfold in_u64; lia).
  rewrite va_range_ok by lia. cbn. unfold on_aspace, on_world. cbn.
  destruct (phys_pages i) as [pages|]; [|destruct (SharedPages_new _ _) as [[pages| |] w] eqn:Hpg];
    cbn; [| |by eapply At_recorded|absurd_panic pages_no_panic].
  all: destruct (aspace_map _ _ _ _ _) as [[[]| |] a'] eqn:Hmap; cbn;
    [|by eapply At_recorded|absurd_panic map_no_panic].
  all: unfold on_inner, attach_process, get_addr_range; unfold_m; cbn; rewrite Hr; cbn.
  all: eapply (At_ok s pid id _ i _ st (st + page_num i * PAGE_SIZE_4K)); [done|reflexivity|done|lia|done..|].
  all: cbn; by eapply on_aspace_mapped.
Qed.

Lemma attach_inv s s' pid id r :
  shm_inv s → shmat_outcome s pid id r s' → r ≠ Panic →
  (∀ e, r = Err e → sh_mgr s' = sh_mgr s) → shm_inv s'.
Proof.
  intros [Hw Hn0 Hs] Ho Hnp Hclean.
  destruct Ho as [?|? ?|? ?|s' e st ? ? Hid Hm|s' i i' st e Hi Hm Hnew Hlt Hfree Hsh Hpn Hrm Hva Hid Hmap];
    try done.
  - exfalso. specialize (Hclean e eq_refl).
    assert (tracked (sh_mgr s) pid id st) as (e' & Ha)%(sync_tracked _ Hs); [|naive_solver].
    rewrite <- Hclean, Hm. apply (insert_vaddr_tracked _ _ _ _ _ _ _ _ Hw). auto.
  - split; rewrite ?Hid, ?Hm; [|done|].
    + eapply update_wf; [by apply insert_vaddr_wf|done..].
    + eapply (sync_attach s _ pid id st e); try done.
      * intros. rewrite Hm. by apply (insert_vaddr_tracked (sh_id s)).
      * intros id' pid' r. rewrite Hm, attached_insert, Hva, lookup_insert_Some.
        unfold attached in *; simpl. destruct (decide (id' = id)) as [->|]; naive_solver.
Qed.

(** The address a process passes to [shmdt] determines the segment. *)
Lemma shmid_by_vaddr next m pid va id : mgr_wf next m →
  get_shmid_by_vaddr (P := P) m pid va = Some id ↔ tracked m pid id va.
Proof.
  intros Hw. unfold get_shmid_by_vaddr, tracked, bi_get_by_value.
  destruct (pid_shmid_vaddr m !! pid) as [b|] eqn:Hb; simpl; [|naive_solver].
  apply (wf_pids _ _ Hw) in Hb as [Hbw _]. rewrite <- (Hbw id va). naive_solver.
Qed.

Lemma shmdt_inv s now pid va :
  shm_inv s →
  let '(r, s') := sys_shmdt now pid va s in
  r ≠ Panic ∧ shm_inv s' ∧ sh_id s' = sh_id s
  ∧ if is_ok r then ∃ id e i, attached (sh_mgr s) id pid (va, e)
       ∧ shmid_inner (sh_mgr s) !! id = Some i
       ∧ (∀ id' pid' r', attached (sh_mgr s') id' pid' r' ↔
           attached (sh_mgr s) id' pid' r' ∧ ¬ (id' = id ∧ pid' = pid))
       ∧ (∀ id', shmid_inner (sh_mgr s') !! id' = None ↔
           shmid_inner (sh_mgr s) !! id' = None
           ∨ (id' = id ∧ rmid i = true ∧ ∀ q, q ≠ pid → va_range i !! q = None))
    else keeps_segments s s'.
Proof.
  intros Hinv. pose proof Hinv as [Hw Hn0 Hs]. unfold sys_shmdt. unfold_m. cbn.
  destruct (get_shmid_by_vaddr _ _ _) as [id|] eqn:Hg; cbn;
    [|by split_and!; [..|apply keeps_segments_same]].
  apply (shmid_by_vaddr _ _ _ _ _ Hw) in Hg.
  pose proof Hg as (e & i & Hi & Hr)%(sync_tracked _ Hs).
  unfold get_inner_by_shmid, get_addr_range. rewrite Hi; cbn. rewrite Hr; cbn.
  assert (attached (sh_mgr s) id pid (va, e)) as Hatt by (by exists i).
  unfold on_aspace. destruct (aspace_unmap _ _ _) as [[[]| |] a'] eqn:Hun; cbn;
    [| |absurd_panic unmap_no_panic].
  2:{ split_and!; [done| |done|by apply keeps_segments_same].
      split; cbn; try done. apply (sync_same s); try done. cbn.
      intros q x Hx. destruct (Z.eqb_spec q pid) as [->|]; [|done].
      by apply (unmap_err _ _ _ _ _ Hun). }
  pose proof (remove_shmaddr_wf _ _ pid va Hw) as Hw1.
  assert (shmid_inner (remove_shmaddr pid va (sh_mgr s)) = shmid_inner (sh_mgr s)) as Hsi
    by (by rewrite remove_shmaddr_eq).
  destruct (detach_and_reap_spec _ _ now pid id i (va, e) Hw1) as (m' & He & Hw' & Hp' & Ha' & Hgone & _);
    [by rewrite Hsi|done|].
  unfold on_shm_mgr. cbn. rewrite He. cbn.
  assert (∀ id' pid' r', attached m' id' pid' r' ↔
    attached (sh_mgr s) id' pid' r' ∧ ¬ (id' = id ∧ pid' = pid)) as Hatt'.
  { intros. rewrite Ha'. unfold attached. by rewrite Hsi. }
  rewrite Hsi in Hgone. split_and!; [done| |done|by eauto 10]. split; cbn; try done.
  eapply (sync_drop s _ (λ id' pid', id' = id ∧ pid' = pid)); try done; cbn.
  - intros pid' id' va'. unfold tracked at 1. rewrite Hp'.
    change (tracked (remove_shmaddr pid va (sh_mgr s)) pid' id' va' ↔
      tracked (sh_mgr s) pid' id' va' ∧ ¬ (id' = id ∧ pid' = pid)).
    rewrite (remove_shmaddr_tracked (sh_id s)) by done.
    pose proof (shmid_by_vaddr _ _ pid va' id' Hw) as Hv'.
    pose proof (shmid_by_vaddr _ _ pid va id Hw) as Hv.
    split; intros [Ht Hne]; (split; [done|]); intros [-> ->]; apply Hne.
    + destruct Ht as (b & Hb & Hf), Hg as (b' & Hb' & Hf'). split; congruence.
    + apply Hv' in Ht. apply Hv in Hg. split; congruence.
  - intros id' pid' a1 e1 x Ha1 Hx Hmx. destruct (Z.eqb_spec pid' pid) as [->|]; [|done].
    apply (unmap_ok _ _ _ _ Hun). split; [done|]. apply Hatt' in Ha1 as [Ha1 Hne].
    destruct (sync_disjoint _ Hs _ _ _ _ _ _ _ Ha1 Hatt); [intros ->; by apply Hne|lia..].
Qed.

Lemma exit_inv s now pid :
  shm_inv s →
  ∃ s', exit_shm now pid s = (Ok tt, s') ∧ shm_inv s' ∧ sh_id s' = sh_id s
    ∧ (∀ id' pid' r', attached (sh_mgr s') id' pid' r' ↔
        attached (sh_mgr s) id' pid' r' ∧ pid' ≠ pid)
    ∧ (∀ id', shmid_inner (sh_mgr s') !! id' = None ↔
        shmid_inner (sh_mgr s) !! id' = None
        ∨ ∃ i, shmid_inner (sh_mgr s) !! id' = Some i ∧ rmid i = true
            ∧ (∃ r, attached (sh_mgr s) id' pid r)
            ∧ ∀ q, q ≠ pid → va_range i !! q = None).
Proof.
  intros Hinv. pose proof Hinv as [Hw Hn0 Hs].
  unfold exit_shm, on_shm_mgr, clear_proc_shm, get_shmids_by_pid. unfold_m. cbn.
  set (l := match pid_shmid_vaddr (sh_mgr s) !! pid with
            | Some b => btree_keys (forward b) | None => [] end).
  assert (∀ id, id ∈ l ↔ ∃ va, tracked (sh_mgr s) pid id va) as Hl.
  { intros id. unfold l, tracked. destruct (_ !! pid) as [b|]; [|set_solver].
    unfold btree_keys. rewrite list_elem_of_fmap. split.
    - intros [[k v] [-> Hin]]. apply elem_of_btree_iter in Hin. naive_solver.
    - intros (va & b' & [= <-] & Hf). exists (id, va). by rewrite elem_of_btree_iter. }
  destruct (clear_segments_spec (sh_id s) now pid l (sh_mgr s) Hw) as (m' & He & Hw' & Hp' & Ha' & Hgone).
  { unfold l. destruct (_ !! pid); [apply btree_iter_nodup_keys|constructor]. }
  { intros id (va & Ht)%Hl. apply (sync_tracked _ Hs) in Ht as [e Ha]. eauto. }
  assert ((match (λ b, btree_keys (forward b)) <$> pid_shmid_vaddr (sh_mgr s) !! pid with
           | Some shmids => clear_segments now pid shmids | None => λ m0, (Ok tt, m0) end)
          (sh_mgr s) = (Ok tt, m')) as ->.
  { unfold l in He. by destruct (pid_shmid_vaddr (sh_mgr s) !! pid). }
  assert (∀ id' pid' r', attached m' id' pid' r' ↔
        attached (sh_mgr s) id' pid' r' ∧ pid' ≠ pid) as Hatt.
  { intros id' pid' [a e]. rewrite Ha', Hl. setoid_rewrite (sync_tracked _ Hs). naive_solver. }
  eexists. split; [done|]. split_and!; [split; cbn; try done|done|done|].
  - destruct Hw'. split; try done. cbn. intros q b. rewrite lookup_delete_Some. naive_solver.
  - eapply (sync_drop s _ (λ _ pid', pid' = pid)); try done; cbn.
    intros pid' id' va'. unfold tracked, remove_pid; cbn. rewrite Hp'.
    setoid_rewrite lookup_delete_Some. naive_solver.
  - intros id'. cbn. rewrite Hgone, Hl. setoid_rewrite (sync_tracked _ Hs).
    assert ((∃ va e, attached (sh_mgr s) id' pid (va, e)) ↔
            (∃ r, attached (sh_mgr s) id' pid r)) as -> by (split; [naive_solver|];
      intros [[a e] ?]; eauto).
    naive_solver.
Qed.
End invariant.

(** ** Runs *)

Section runs.
Context {A P W : Type} `{ShmEnvOk A P W}.
Implicit Types s : ShmSys A P W.

(** Sizes are machine words. *)
Definition shm_call_ok (c : shm_call) : Prop :=
  match c with ShmGet _ _ size _ => in_u64 size | _ => True end.

(** An attachment that failed without leaving a record behind. *)
Definition attach_clean (c : shm_call) (r : res Z) s s' : Prop :=
  match c, r with ShmAt _ _ _ _ _, Err _ => sh_mgr s' = sh_mgr s | _, _ => True end.

Inductive shm_run : ShmSys A P W → ShmSys A P W → Prop :=
| shm_run_refl s : shm_run s s
| shm_run_step s s1 s2 c r :
    shm_run s s1 → shm_call_ok c → id_in_range (sh_id s1) →
    run_shm c s1 = (r, s2) → r ≠ Panic → attach_clean c r s1 s2 → shm_run s s2.

Definition shm_boot (id : Z) (as0 : Z → A) (w : W) : ShmSys A P W :=
  mkShmSys id ShmManager_new as0 w.

Lemma shm_boot_inv id as0 w : 0 ≤ id → shm_inv (shm_boot id as0 w).
Proof.
  intros Hid. split; [split|done|split]; cbn.
  - apply bi_wf_new.
  - intros k i. by rewrite lookup_empty.
  - intros pid b. by rewrite lookup_empty.
  - intros i j. by rewrite lookup_empty.
  - unfold tracked, attached; cbn. setoid_rewrite lookup_empty. naive_solver.
  - intros ???? (? & Hl & _). cbn in Hl. by rewrite lookup_empty in Hl.
  - intros ??????? (? & Hl & _). cbn in Hl. by rewrite lookup_empty in Hl.
Qed.

Lemma run_shm_inv s s' c r :
  shm_inv s → shm_call_ok c → id_in_range (sh_id s) → run_shm c s = (r, s') →
  r ≠ Panic → attach_clean c r s s' → shm_inv s'.
Proof.
  intros Hinv Hc Hid Hr Hnp Hcl. destruct c as [pid key sz fl|now pid id ad fl|now id cmd b|now pid va|now pid]; cbn in Hr.
  - pose proof (shmget_inv s pid key sz fl Hinv Hid Hc) as Hx. rewrite Hr in Hx. apply Hx.
  - pose proof (shmat_outcome_of s now pid id ad fl (inv_wf _ Hinv)) as Hx.
    rewrite Hr in Hx. eapply attach_inv; try done. intros e ->. exact Hcl.
  - pose proof (shmctl_inv s now id cmd b Hinv) as Hx. rewrite Hr in Hx. apply Hx.
  - pose proof (shmdt_inv s now pid va Hinv) as Hx. rewrite Hr in Hx. apply Hx.
  - destruct (exit_inv s now pid Hinv) as (s1 & He & Hi & _). unfold_m.
    rewrite He in Hr. cbn in Hr. by simplify_eq.
Qed.

Lemma shm_run_inv s s' : shm_inv s → shm_run s s' → shm_inv s'.
Proof.
  intros Hinv Hr. revert Hinv.
  induction Hr as [|s s1 s2 c r _ IH]; intros Hinv; [done|].
  eapply (run_shm_inv s1); [by apply IH|done..].
Qed.

(** Which calls panic in a state that satisfies the invariant. *)
Definition bad_attach (c : shm_call) s : Prop :=
  match c with
  | ShmAt _ pid id _ _ =>
      shmid_inner (sh_mgr s) !! id = None ∨ ∃ r, attached (sh_mgr s) id pid r
  | _ => False
  end.

Lemma run_shm_panics s c :
  shm_inv s → shm_call_ok c → id_in_range (sh_id s) →
  (run_shm c s).1 = Panic ↔ bad_attach c s.
Proof.
  intros Hinv Hc Hid. destruct c as [pid key sz fl|now pid id ad fl|now id cmd b|now pid va|now pid]; cbn.
  - pose proof (shmget_inv s pid key sz fl Hinv Hid Hc) as Hx.
    destruct (sys_shmget _ _ _ _ s). cbn. split; [apply Hx|done].
  - pose proof (shmat_outcome_of s now pid id ad fl (inv_wf _ Hinv)) as Hx.
    destruct (sys_shmat _ _ _ _ _ s) as [r s']. cbn. destruct Hx; try naive_solver.
    + split; [done|]. intros [Hn|[r Hr]]; [|naive_solver]. by rewrite Hn in *.
    + split; [done|]. intros [Hn|[r Hr]]; [|naive_solver]. by rewrite Hn in *.
  - pose proof (shmctl_inv s now id cmd b Hinv) as Hx.
    destruct (sys_shmctl _ _ _ _ s). cbn. split; [apply Hx|done].
  - pose proof (shmdt_inv s now pid va Hinv) as Hx.
    destruct (sys_shmdt _ _ _ s). cbn. split; [apply Hx|done].
  - destruct (exit_inv s now pid Hinv) as (s1 & He & Hi & _). unfold_m.
    by rewrite He.
Qed.

Lemma failed_attach_state s s' now pid id addr flg e :
  shm_inv s → sys_shmat now pid id addr flg s = (Err e, s') → sh_mgr s' ≠ sh_mgr s →
  mgr_wf (sh_id s') (sh_mgr s') ∧ ∃ i b, shmid_inner (sh_mgr s') !! id = Some i
    ∧ va_range i !! pid = None
    ∧ pid_shmid_vaddr (sh_mgr s') !! pid = Some b ∧ id ∈ btree_keys (forward b).
Proof.
  intros Hinv Hr Hne. pose proof (inv_wf _ Hinv) as Hw.
  pose proof (shmat_outcome_of s now pid id addr flg Hw) as Hx. rewrite Hr in Hx.
  inversion Hx as [| |? ? Hq|? ? st [i Hi] Hnew Hid Hm|]; subst; [done|].
  rewrite Hid, Hm. split; [by apply insert_vaddr_wf|]. exists i.
  assert (tracked (insert_shmid_vaddr pid id st (sh_mgr s)) pid id st) as (b & Hb & Hf).
  { apply (insert_vaddr_tracked _ _ _ _ _ _ _ _ Hw). auto. }
  exists b. split_and!; [done| |done|].
  - destruct (va_range i !! pid) as [r|] eqn:Hv; [|done]. exfalso. apply (Hnew r). by exists i.
  - unfold btree_keys. apply list_elem_of_fmap. exists (id, st). by rewrite elem_of_btree_iter.
Qed.

(** The process that detaches from segment [id] in a call, if the call does. *)
Definition detaches (c : shm_call) (r : res Z) s (id pid : Z) : Prop :=
  match c with
  | ShmExit _ p => p = pid ∧ ∃ rg, attached (sh_mgr s) id pid rg
  | ShmDt _ p va => p = pid ∧ is_ok r = true ∧ ∃ e, attached (sh_mgr s) id pid (va, e)
  | _ => False
  end.

Lemma no_detach_lifetime s s' c r id i :
  keeps_segments s s' → shmid_inner (sh_mgr s) !! id = Some i →
  (∀ pid, ¬ detaches c r s id pid) →
  shmid_inner (sh_mgr s') !! id = None ↔
  rmid i = true ∧ ∃ pid, detaches c r s id pid ∧ ∀ q, q ≠ pid → va_range i !! q = None.
Proof.
  intros Hk Hi Hd. split; [|naive_solver]. intros Hn. destruct (Hk id) as [? Hs]; [eauto|].
  by rewrite Hn in Hs.
Qed.

Lemma attached_same_va s id id' pid va e e' :
  shm_inv s → attached (sh_mgr s) id pid (va, e) → attached (sh_mgr s) id' pid (va, e') →
  id = id'.
Proof.
  intros Hinv H1 H2. destruct (decide (id = id')) as [|Hne]; [done|].
  destruct (sync_mapped _ (inv_sync _ Hinv) _ _ _ _ H1) as [? _].
  destruct (sync_mapped _ (inv_sync _ Hinv) _ _ _ _ H2) as [? _].
  destruct (sync_disjoint _ (inv_sync _ Hinv) _ _ _ _ _ _ _ H1 H2 Hne); lia.
Qed.
End runs.

(** ** A concrete environment, for the witnesses

    An address space is a number of mappings still allowed and a list of
    mapped ranges; physical pages are numbered. *)

Definition toy_as : Type := nat * list (Z * Z).
Definition toy_world : Type := Z * gmap Z ShmidDs.
Definition toy_top (a : toy_as) : Z := foldr (λ r t, r.2 `max` t) 0x1000 a.2.

#[export] Instance toy_env : ShmEnv toy_as Z toy_world := {|
  align_up_4k z := as_u64 (z + 4095) / 4096 * 4096;
  align_down_4k z := z / 4096 * 4096;
  MF_USER := 8; MF_READ := 1; MF_WRITE := 2; MF_EXECUTE := 4;
  aspace_base _ := 0x1000;
  aspace_end _ := 2 ^ 47;
  find_free_area a hint len lim al :=
    if toy_top a + len <=? lim.2 then Some (toy_top a) else None;
  VirtAddrRange_new lo hi := if lo <=? hi then Ok (lo, hi) else Panic;
  aspace_map st len fl p := λ a,
    match a with
    | (O, l) => (Err NoMemory, (O, l))
    | (Datatypes.S n, l) => (Ok tt, (n, (st, st + len) :: l))
    end;
  aspace_unmap st len := λ a,
    (Ok tt, (a.1, a.2 ≫= λ r, [(r.1, r.2 `min` st); (r.1 `max` (st + len), r.2)]));
  SharedPages_new len := λ w, (Ok w.1, (w.1 + 1, w.2));
  get_shmid_ds w p := ok_or BadAddress (w.2 !! p);
  put_shmid_ds p d := λ w, (Ok tt, (w.1, <[p := d]> w.2));
|}.

Definition toy_mapped (a : toy_as) (x : Z) : Prop := ∃ r, r ∈ a.2 ∧ r.1 ≤ x < r.2.

Lemma toy_top_bound a r : r ∈ a.2 → r.2 ≤ toy_top a.
Proof. unfold toy_top. induction a.2; set_unfold; naive_solver lia. Qed.
Lemma toy_top_pos a : 0 ≤ toy_top a.
Proof. unfold toy_top. induction a.2; simpl; lia. Qed.

#[export] Instance toy_env_ok : ShmEnvOk toy_as Z toy_world.
Proof.
  refine {| mapped := toy_mapped |}; cbn -[Z.pow].
  - intros z _. pose proof (as_u64_in (z + 4095)) as Hu. unfold in_u64 in Hu.
    pose proof (Z.mul_div_le (as_u64 (z + 4095)) 4096).
    pose proof (Z.div_pos (as_u64 (z + 4095)) 4096). lia.
  - intros lo hi ?. by rewrite (proj2 (Z.leb_le lo hi)).
  - lia.
  - intros a _ len _ hi _ st. destruct (Z.leb_spec (toy_top a + len) hi); [|done].
    intros [= <-]. split_and!; [apply toy_top_pos|done|].
    intros x Hx (r & Hr & Hb). apply toy_top_bound in Hr. lia.
  - intros st len fl p [[|n] l] a' Ha x; simplify_eq. unfold toy_mapped; simpl.
    setoid_rewrite elem_of_cons. split.
    + intros (r & [->|Hr] & Hb); simpl in *; eauto.
    + intros [(r & Hr & Hb)|Hb]; [eauto|]. exists (st, st + len). eauto.
  - by intros st len fl p [[|n] l].
  - intros st len a a' [= <-] x. unfold toy_mapped; simpl.
    setoid_rewrite list_elem_of_bind. split.
    + intros (r & (r0 & Hr & Hr0) & Hb). set_unfold in Hr.
      destruct Hr as [->|[->|[]]]; simpl in Hb; (split; [exists r0|]); split_and?; try done; lia.
    + intros [(r & Hr & Hb) Hn]. destruct (decide (x < st)).
      * exists (r.1, r.2 `min` st). split; [|simpl; lia]. exists r. set_solver.
      * exists (r.1 `max` (st + len), r.2). split; [|simpl; lia]. exists r. set_solver.
  - done.
  - done.
  - done.
  - intros w p. by destruct (w.2 !! p).
  - done.
Qed.

(** A process has created a segment with key 5 and attached it. *)
Definition toy_start : ShmSys toy_as Z toy_world :=
  shm_boot 0 (λ _, (1%nat, [])) (0, ∅).
Definition toy_created : ShmSys toy_as Z toy_world :=
  (run_shm (ShmGet 7 5 100 0x180) toy_start).2.
Definition toy_attached : ShmSys toy_as Z toy_world :=
  (run_shm (ShmAt 1 7 0 0 0) toy_created).2.
(** ... and another segment, which its address space has no room for. *)
Definition toy_second : ShmSys toy_as Z toy_world :=
  (run_shm (ShmGet 7 6 100 0x180) toy_attached).2.

(** ... or which has been marked for removal. *)
Definition toy_marked : ShmSys toy_as Z toy_world :=
  (run_shm (ShmCtl 2 0 0 0) toy_attached).2.

Lemma shm_run_ok {A P W} `{ShmEnv A P W} (s s1 : ShmSys A P W) c :
  shm_run s s1 → shm_call_ok c → id_in_range (sh_id s1) →
  is_ok (run_shm c s1).1 = true → shm_run s (run_shm c s1).2.
Proof.
  intros Hr Hc Hid Hok.
  eapply (shm_run_step s s1 _ c); [done..|apply surjective_pairing| |].
  - by destruct (run_shm c s1).1.
  - unfold attach_clean. destruct (run_shm c s1).1; by destruct c.
Qed.

Lemma toy_attached_run : shm_run toy_start toy_attached.
Proof. do 2 (apply shm_run_ok; [|by vm_compute..]). apply shm_run_refl. Qed.
Lemma toy_second_run : shm_run toy_start toy_second.
Proof. apply shm_run_ok; [|by vm_compute..]. apply toy_attached_run. Qed.

Lemma toy_marked_run : shm_run toy_start toy_marked.
Proof. apply shm_run_ok; [|by vm_compute..]. apply toy_attached_run. Qed.

(** ** Main results *)

(** C7: shared-memory bookkeeping.  In every state reached from boot by
    [shmget], [shmat], [shmctl], [shmdt] and process exits, in which no
    [shmat] failed after it had recorded the address: the manager's table of
    addresses is exactly the set of attachments the segments know, attached
    ranges are mapped and pairwise disjoint, keys lead to live segments and
    both tables are bijections; and the only calls that panic are [shmat] of
    an unknown segment and a second [shmat] of the same segment. *)
Theorem shm_bookkeeping {A P W} `{ShmEnvOk A P W} id as0 w (s : ShmSys A P W) :
  0 ≤ id → shm_run (shm_boot id as0 w) s →
  shm_inv s
  ∧ ∀ c, shm_call_ok c → id_in_range (sh_id s) →
      (run_shm c s).1 = Panic ↔ bad_attach c s.
Proof.
  intros Hid Hr. assert (shm_inv s) as Hinv.
  { eapply shm_run_inv; [|done]. by apply shm_boot_inv. }
  split; [done|]. intros c. by apply run_shm_panics.
Qed.

Lemma shm_bookkeeping_witness :
  shm_run toy_start toy_attached ∧ (run_shm (ShmAt 2 7 0 0 0) toy_attached).1 = Panic.
Proof.
  split; [apply toy_attached_run|].
  destruct (shm_bookkeeping 0 (λ _, (1%nat, [])) (0, ∅) toy_attached ltac:(lia) toy_attached_run)
    as [_ Hp].
  apply Hp; [done|by vm_compute|]. right. eexists (0x1000, 0x2000).
  eexists. split; vm_compute; reflexivity.
Defined.

(** a failed attachment brings the kernel down at process exit.  [shmat]
    records the address of the segment before it allocates pages and maps
    them; when one of these steps fails, the record stays, and the exit of
    the process panics in [detach_process]. *)
Lemma failed_shmat_then_exit_panics {A P W} `{ShmEnvOk A P W}
    (s s' : ShmSys A P W) now now' pid id addr flg e :
  shm_inv s → sys_shmat now pid id addr flg s = (Err e, s') → sh_mgr s' ≠ sh_mgr s →
  (exit_shm now' pid s').1 = Panic.
Proof.
  intros Hinv Hr Hne.
  destruct (failed_attach_state _ _ _ _ _ _ _ _ Hinv Hr Hne)
    as (Hw & i & b & Hi & Hv & Hb & Hin).
  unfold exit_shm, on_shm_mgr, clear_proc_shm, get_shmids_by_pid. unfold_m. cbn.
  rewrite Hb. cbn.
  pose proof (clear_segments_panics (sh_id s') now' pid _ (sh_mgr s') id i Hw
    (btree_iter_nodup_keys _) Hin Hi Hv) as Hp.
  destruct (clear_segments _ _ _ _) as [r m']. cbn in Hp. by subst.
Qed.

Example failed_shmat_then_exit_panics_instance :
  (sys_shmat 2 7 1 0 0 toy_second).1 = Err NoMemory
  ∧ (exit_shm 3 7 (sys_shmat 2 7 1 0 0 toy_second).2).1 = Panic.
Proof.
  split; [vm_compute; reflexivity|].
  apply (failed_shmat_then_exit_panics toy_second _ 2 3 7 1 0 0 NoMemory).
  - eapply shm_run_inv; [|apply toy_second_run]. by apply shm_boot_inv.
  - apply injective_projections; [vm_compute; reflexivity|done].
  - intros He. apply (f_equal (λ m, get_shmids_by_pid m 7)) in He. by vm_compute in He.
Qed.

(** when a segment disappears.  A call removes a segment exactly when the
    segment is marked by [IPC_RMID] and the call, a successful [shmdt] or the
    exit of a process, detaches the only process attached to it.  In
    particular [IPC_RMID] itself never removes one, not even a segment nobody
    is attached to. *)
Lemma segment_lifetime {A P W} `{ShmEnvOk A P W} (s s' : ShmSys A P W) c r id i :
  shm_inv s → shm_call_ok c → id_in_range (sh_id s) → run_shm c s = (r, s') →
  shmid_inner (sh_mgr s) !! id = Some i →
  shmid_inner (sh_mgr s') !! id = None ↔
  rmid i = true ∧ ∃ pid, detaches c r s id pid ∧ ∀ q, q ≠ pid → va_range i !! q = None.
Proof.
  intros Hinv Hc Hid Hr Hi.
  destruct c as [pid key sz fl|now pid id0 ad fl|now id0 cmd b|now pid va|now pid]; cbn in Hr.
  - apply (no_detach_lifetime s); [|done|by intros ? []].
    pose proof (shmget_inv s pid key sz fl Hinv Hid Hc) as Hx. rewrite Hr in Hx. apply Hx.
  - apply (no_detach_lifetime s); [|done|by intros ? []].
    pose proof (shmat_outcome_of s now pid id0 ad fl (inv_wf _ Hinv)) as Hx.
    rewrite Hr in Hx. destruct Hx as [?|? ?|? ?|? ? ? ? ? ? Hm|? ? ? ? ? ? Hm];
      [by apply keeps_segments_same..| |].
    + apply keeps_segments_same. by rewrite Hm.
    + eapply keeps_segments_insert. by rewrite Hm.
  - apply (no_detach_lifetime s); [|done|by intros ? []].
    pose proof (shmctl_inv s now id0 cmd b Hinv) as Hx. rewrite Hr in Hx. apply Hx.
  - pose proof (shmdt_inv s now pid va Hinv) as Hx. rewrite Hr in Hx.
    destruct Hx as (_ & _ & _ & Hx). destruct (is_ok r) eqn:Hok.
    + destruct Hx as (id1 & e & i1 & Ha & Hi1 & _ & ->). cbn. split.
      * intros [?|(-> & ? & ?)]; [congruence|]. simplify_eq. eauto 10.
      * intros (? & ? & (<- & _ & e' & Ha') & ?). right.
        rewrite (attached_same_va s id1 id pid va e e' Hinv Ha Ha') in *.
        by simplify_eq.
    + apply (no_detach_lifetime s); [done..|]. intros p (_ & Hok' & _). congruence.
  - destruct (exit_inv s now pid Hinv) as (s1 & He & _ & _ & _ & Hg). unfold_m.
    rewrite He in Hr. cbn in Hr. simplify_eq. rewrite Hg. cbn. split.
    + intros [?|(i1 & ? & ? & ? & ?)]; [congruence|]. simplify_eq. eauto.
    + intros (? & ? & [<- ?] & ?). right. eauto.
Qed.

