(* ===== verification/Time.v ===== *)
(** * Time: conversions, CPU-time accounting, interval timers

    [api/src/time.rs] (the conversions between [TimeValue] and the C time
    structures), and of [core/src/time.rs] the interval timers and
    [TimeManager], with [poll_timer] and [set_timer_state] of
    [core/src/task.rs].  The alarm task is in [Alarm].

    A [TimeValue] (a [core::time::Duration]) is its number of nanoseconds. *)

From S2P Require Import Prelude.

Definition NANOS_PER_SEC : Z := 1000000000.

(** ** [Duration] *)

Definition TimeValue : Type := Z.
Definition duration_limit : Z := 2 ^ 64 * NANOS_PER_SEC.
Definition tv_ok (d : TimeValue) : Prop := 0 ≤ d < duration_limit.

Definition tv_new (secs nanos : Z) : TimeValue := secs * NANOS_PER_SEC + nanos.
Definition as_secs (d : TimeValue) : Z := d / NANOS_PER_SEC.
Definition subsec_nanos (d : TimeValue) : Z := d mod NANOS_PER_SEC.
Definition subsec_micros (d : TimeValue) : Z := subsec_nanos d / 1000.
Definition as_nanos (d : TimeValue) : Z := d.
Definition as_micros (d : TimeValue) : Z := d / 1000.
(** [a + b], which panics on overflow *)
Definition tv_add (a b : TimeValue) : res TimeValue :=
  if a + b <? duration_limit then Ok (a + b) else Panic.
Definition tv_checked_sub (a b : TimeValue) : option TimeValue :=
  if b <=? a then Some (a - b) else None.
Definition tv_saturating_sub (a b : TimeValue) : TimeValue :=
  if b <=? a then a - b else 0.

(** ** [trait TimeValueLike] *)

Class TimeValueLike (T : Type) := {
  from_time_value : TimeValue → T;
  try_into_time_value : T → res TimeValue;
}.

(** [timespec], [__kernel_timespec] and [__kernel_old_timespec] have the same
    fields, [timeval], [__kernel_old_timeval] and [__kernel_sock_timeval] too. *)
Record timespec := mkTimespec { ts_sec : Z; ts_nsec : Z }.
Record timeval := mkTimeval { tv_sec : Z; tv_usec : Z }.

#[export] Instance TimeValue_like : TimeValueLike TimeValue := {|
  from_time_value tv := tv;
  try_into_time_value tv := Ok tv;
|}.

#[export] Instance timespec_like : TimeValueLike timespec := {|
  from_time_value tv := mkTimespec (as_i64 (as_secs tv)) (subsec_nanos tv);
  try_into_time_value ts :=
    if (ts_nsec ts <? 0) || (999999999 <? ts_nsec ts) || (ts_sec ts <? 0)
    then Err InvalidInput
    else Ok (tv_new (as_u64 (ts_sec ts)) (as_u32 (ts_nsec ts)));
|}.

#[export] Instance timeval_like : TimeValueLike timeval := {|
  from_time_value tv := mkTimeval (as_i64 (as_secs tv)) (subsec_micros tv);
  try_into_time_value t :=
    if (tv_usec t <? 0) || (999999 <? tv_usec t) || (tv_sec t <? 0)
    then Err InvalidInput
    else Ok (tv_new (as_u64 (tv_sec t)) (as_u32 (as_u32 (tv_usec t) * 1000)));
|}.

Definition time_value_from_nanos (nanos : Z) : TimeValue :=
  let secs := nanos / NANOS_PER_SEC in
  let nsecs := nanos - secs * NANOS_PER_SEC in
  tv_new secs (as_u32 nsecs).

(** ** The alarm list

    [ALARM_LIST] is a heap of deadlines with their tasks, ordered so that the
    earliest deadline is on top; it is modelled by the list of its entries.
    [al_notifies] counts the notifications of [EVENT_NEW_TIMER]. *)

Record Alarm := mkAlarm { al_heap : list (Z * Z); al_notifies : Z }.
#[export] Instance eta_Alarm : Eta Alarm := λ a, mkAlarm (al_heap a) (al_notifies a).

Definition earlier (x y : Z * Z) : Z * Z := if x.1 <? y.1 then x else y.
Definition heap_peek (h : list (Z * Z)) : option (Z * Z) :=
  match h with
  | [] => None
  | e :: r => Some (fold_left (λ m x, earlier x m) r e)
  end.
Definition heap_push (e : Z * Z) (h : list (Z * Z)) : list (Z * Z) := e :: h.
Fixpoint heap_remove (e : Z * Z) (h : list (Z * Z)) : list (Z * Z) :=
  match h with
  | [] => []
  | x :: r => if decide (x = e) then r else x :: heap_remove e r
  end.
Definition heap_pop (h : list (Z * Z)) : option (Z * Z) * list (Z * Z) :=
  match heap_peek h with
  | Some e => (Some e, heap_remove e h)
  | None => (None, h)
  end.

(** The critical section of [renew_timer]: pushes an entry and says whether the
    alarm task has to be notified. *)
Definition alarm_push (deadline task : Z) (h : list (Z * Z)) : bool * list (Z * Z) :=
  (match heap_peek h with None => true | Some it => deadline <? it.1 end,
   heap_push (deadline, task) h).

(** ** Interval timers *)

(** Signal numbers of the Linux ABI *)
Definition SIGALRM : Z := 14.
Definition SIGVTALRM : Z := 26.
Definition SIGPROF : Z := 27.

Inductive ITimerType := Real | Virtual | Prof.

Definition ITimerType_from_repr (which : Z) : option ITimerType :=
  if which =? 0 then Some Real
  else if which =? 1 then Some Virtual
  else if which =? 2 then Some Prof
  else None.

Definition signo (ty : ITimerType) : Z :=
  match ty with Real => SIGALRM | Virtual => SIGVTALRM | Prof => SIGPROF end.

Record ITimer := mkITimer { interval_ns : Z; remained_ns : Z }.
#[export] Instance eta_ITimer : Eta ITimer := λ t, mkITimer (interval_ns t) (remained_ns t).

(** [wall] is [wall_time()], [cur] the current task. *)
Definition renew_timer (wall cur : Z) (it : ITimer) : M Alarm unit :=
  if 0 <? remained_ns it then
    deadline ← liftR (tv_add wall (remained_ns it));
    a ← getM;
    let '(should_wake, heap) := alarm_push deadline cur (al_heap a) in
    modifyM (λ a, a <| al_heap := heap |>);;
    if should_wake then modifyM (λ a, a <| al_notifies ::= λ n, n + 1 |>) else mret tt
  else mret tt.

Definition ITimer_new (wall cur interval remained : Z) : M Alarm ITimer :=
  let it := mkITimer interval remained in
  renew_timer wall cur it;; mret it.

Definition itimer_update (wall cur delta : Z) (it : ITimer) : M Alarm (bool * ITimer) :=
  if remained_ns it =? 0 then mret (false, it)
  else if delta <? remained_ns it then
    mret (false, it <| remained_ns ::= λ r, r - delta |>)
  else
    let it' := it <| remained_ns := interval_ns it |> in
    renew_timer wall cur it';; mret (true, it').

(** ** [TimeManager] *)

Inductive TimerState := TS_None | TS_User | TS_Kernel.
#[export] Instance TimerState_eq_dec : EqDecision TimerState.
Proof. solve_decision. Defined.

Record TimeManager := mkTimeManager {
  utime_ns : Z;
  stime_ns : Z;
  last_wall_ns : Z;
  tm_state : TimerState;
  it_real : ITimer;
  it_virtual : ITimer;
  it_prof : ITimer;
}.
#[export] Instance eta_TimeManager : Eta TimeManager := λ t,
  mkTimeManager (utime_ns t) (stime_ns t) (last_wall_ns t) (tm_state t)
    (it_real t) (it_virtual t) (it_prof t).

(** [self.itimers[ty as usize]] *)
Definition itimer_of (ty : ITimerType) (t : TimeManager) : ITimer :=
  match ty with Real => it_real t | Virtual => it_virtual t | Prof => it_prof t end.
Definition set_itimer_of (ty : ITimerType) (i : ITimer) (t : TimeManager) : TimeManager :=
  match ty with
  | Real => t <| it_real := i |>
  | Virtual => t <| it_virtual := i |>
  | Prof => t <| it_prof := i |>
  end.

Definition TimeManager_new : TimeManager :=
  mkTimeManager 0 0 0 TS_None (mkITimer 0 0) (mkITimer 0 0) (mkITimer 0 0).

Definition tm_output (t : TimeManager) : TimeValue * TimeValue :=
  (time_value_from_nanos (utime_ns t), time_value_from_nanos (stime_ns t)).

(** A thread's time manager next to the global alarm list. *)
Definition TimeM := M (TimeManager * Alarm).

(** Returns the signal handed to the emitter, if the timer fired. *)
Definition update_itimer (wall cur : Z) (ty : ITimerType) (delta : Z) : TimeM (list Z) :=
  λ '(t, a),
  match itimer_update wall cur delta (itimer_of ty t) a with
  | (Ok (fired, it), a') =>
      (Ok (if fired then [signo ty] else []), (set_itimer_of ty it t, a'))
  | (Err e, a') => (Err e, (t, a'))
  | (Panic, a') => (Panic, (t, a'))
  end.

(** [now] is [monotonic_time_nanos()]; the result is what the emitter was
    called with, in order. *)
Definition tm_poll (wall cur now : Z) : TimeM (list Z) :=
  '(t, _) ← getM;
  let delta := sub_u64 now (last_wall_ns t) in
  sigs ← (match tm_state t with
          | TS_User =>
              modifyM (λ '(t, a), (t <| utime_ns ::= λ u, add_u64 u delta |>, a));;
              s1 ← update_itimer wall cur Virtual delta;
              s2 ← update_itimer wall cur Prof delta;
              mret (s1 ++ s2)
          | TS_Kernel =>
              modifyM (λ '(t, a), (t <| stime_ns ::= λ u, add_u64 u delta |>, a));;
              update_itimer wall cur Prof delta
          | TS_None => mret []
          end);
  s3 ← update_itimer wall cur Real delta;
  modifyM (λ '(t, a), (t <| last_wall_ns := now |>, a));;
  mret (sigs ++ s3).

Definition tm_set_state (st : TimerState) : TimeM unit :=
  modifyM (λ '(t, a), (t <| tm_state := st |>, a)).

Definition set_itimer (wall cur : Z) (ty : ITimerType) (interval remained : Z)
    : TimeM (TimeValue * TimeValue) := λ '(t, a),
  match ITimer_new wall cur interval remained a with
  | (Ok it, a') =>
      let old := itimer_of ty t in
      (Ok (time_value_from_nanos (interval_ns old), time_value_from_nanos (remained_ns old)),
       (set_itimer_of ty it t, a'))
  | (Err e, a') => (Err e, (t, a'))
  | (Panic, a') => (Panic, (t, a'))
  end.

Definition get_itimer (ty : ITimerType) (t : TimeManager) : TimeValue * TimeValue :=
  (time_value_from_nanos (interval_ns (itimer_of ty t)),
   time_value_from_nanos (remained_ns (itimer_of ty t))).

(** [poll_timer] and [set_timer_state]; [borrowed] says that the manager is
    already borrowed (a reentrant call from an interrupt), which makes them
    return at once. *)
Definition poll_timer (borrowed : bool) (wall cur now : Z) : TimeM (list Z) :=
  if borrowed then mret [] else tm_poll wall cur now.

Definition set_timer_state (borrowed : bool) (wall cur now : Z) (st : TimerState)
    : TimeM (list Z) :=
  if borrowed then mret []
  else sigs ← tm_poll wall cur now; tm_set_state st;; mret sigs.

(** ** Lemmas *)

Lemma time_value_from_nanos_id n : in_u64 n → time_value_from_nanos n = n.
Proof.
  intros Hn. unfold time_value_from_nanos, tv_new, NANOS_PER_SEC in *.
  pose proof (Z.div_mod n 1000000000). pose proof (Z.mod_pos_bound n 1000000000).
  rewrite as_u32_small; unfold in_u64, in_u32 in *; lia.
Qed.

Lemma tv_new_split d : tv_new (as_secs d) (subsec_nanos d) = d.
Proof.
  unfold tv_new, as_secs, subsec_nanos, NANOS_PER_SEC.
  pose proof (Z.div_mod d 1000000000). lia.
Qed.

Lemma tv_split s n : 0 ≤ n < NANOS_PER_SEC →
  as_secs (tv_new s n) = s ∧ subsec_nanos (tv_new s n) = n.
Proof.
  unfold tv_new, as_secs, subsec_nanos, NANOS_PER_SEC. intros Hn.
  split; [|by rewrite Z.add_comm, Z.mod_add, Z.mod_small].
  rewrite Z.add_comm, Z.div_add by done. rewrite Z.div_small; lia.
Qed.

Lemma as_secs_range d : tv_ok d → 0 ≤ as_secs d < 2 ^ 64.
Proof.
  unfold tv_ok, duration_limit, as_secs, NANOS_PER_SEC. intros.
  split; [apply Z.div_pos; lia|]. apply Z.div_lt_upper_bound; lia.
Qed.

Lemma subsec_range d : 0 ≤ subsec_nanos d < NANOS_PER_SEC.
Proof. by apply Z.mod_pos_bound. Qed.

Lemma as_i64_small z : - 2 ^ 63 ≤ z < 2 ^ 63 → as_i64 z = z.
Proof. intros. by apply wraps_small. Qed.

(** *** One timer *)

(** The timer after [delta] of its clock, and whether it fires. *)
Definition timer_fires (delta : Z) (it : ITimer) : bool :=
  (0 <? remained_ns it) && (remained_ns it <=? delta).
Definition timer_after (delta : Z) (it : ITimer) : ITimer :=
  if timer_fires delta it then it <| remained_ns := interval_ns it |>
  else if remained_ns it =? 0 then it
  else it <| remained_ns ::= λ r, r - delta |>.

Definition timer_ok (it : ITimer) : Prop := in_u64 (interval_ns it) ∧ in_u64 (remained_ns it).

Lemma timer_after_0 it : timer_ok it → timer_fires 0 it = false ∧ timer_after 0 it = it.
Proof.
  intros [_ Hr]. unfold timer_after, timer_fires. unfold in_u64 in Hr.
  destruct (Z.ltb_spec 0 (remained_ns it)), (Z.leb_spec (remained_ns it) 0); try lia;
    simpl; (split; [done|]); destruct (Z.eqb_spec (remained_ns it) 0); try done; try lia.
  destruct it; simpl in *. f_equal; lia.
Qed.

Lemma timer_after_ok delta it : timer_ok it → 0 ≤ delta → timer_ok (timer_after delta it).
Proof.
  intros [Hi Hr] Hd. unfold timer_after, timer_fires. unfold timer_ok, in_u64 in *.
  destruct (Z.ltb_spec 0 (remained_ns it)), (Z.leb_spec (remained_ns it) delta); simpl;
    try destruct (Z.eqb_spec (remained_ns it) 0); simpl; lia.
Qed.

Lemma renew_timer_spec wall cur it a :
  in_u64 wall → timer_ok it →
  ∃ a', renew_timer wall cur it a = (Ok tt, a').
Proof.
  intros Hw [_ Hr]. unfold renew_timer. destruct (0 <? remained_ns it); [|unfold_m; eauto].
  unfold_m. unfold tv_add. destruct (Z.ltb_spec (wall + remained_ns it) duration_limit).
  - cbn. destruct (heap_peek (al_heap a)) as [e|]; cbn; [|eauto].
    destruct (wall + remained_ns it <? e.1); eauto.
  - unfold duration_limit, NANOS_PER_SEC, in_u64 in *. lia.
Qed.

Lemma itimer_update_spec wall cur delta it a :
  in_u64 wall → timer_ok it → 0 ≤ delta →
  ∃ a', itimer_update wall cur delta it a
        = (Ok (timer_fires delta it, timer_after delta it), a').
Proof.
  intros Hw Hok Hd. pose proof (timer_after_ok delta it Hok Hd) as Hok'.
  unfold timer_after, timer_fires in *. unfold itimer_update. destruct Hok as [Hi Hr].
  unfold in_u64 in Hr.
  destruct (Z.eqb_spec (remained_ns it) 0) as [->|Hne]; [simpl; eauto|].
  destruct (Z.ltb_spec 0 (remained_ns it)); [|lia]. simpl in *.
  destruct (Z.ltb_spec delta (remained_ns it)), (Z.leb_spec (remained_ns it) delta);
    try lia; [unfold_m; eauto|].
  unfold_m. match goal with |- context [renew_timer ?w ?c ?i ?b] =>
    destruct (renew_timer_spec w c i b) as [a' ->]; [done..|] end. eauto.
Qed.

(** *** A poll *)

(** Which timers run on which clock. *)
Definition timer_runs (ty : ITimerType) (st : TimerState) : bool :=
  match ty, st with
  | Real, _ => true
  | Virtual, TS_User => true
  | Prof, (TS_User | TS_Kernel) => true
  | _, _ => false
  end.

Record tm_ok (t : TimeManager) : Prop := {
  ok_timers ty : timer_ok (itimer_of ty t);
  ok_last : in_u64 (last_wall_ns t);
}.

(** What [tm_poll] does, [delta] nanoseconds after the previous one. *)
Definition poll_timer_after (ty : ITimerType) (delta : Z) (t : TimeManager) : ITimer :=
  timer_after (if timer_runs ty (tm_state t) then delta else 0) (itimer_of ty t).
Definition poll_fires (ty : ITimerType) (delta : Z) (t : TimeManager) : bool :=
  timer_runs ty (tm_state t) && timer_fires delta (itimer_of ty t).
Definition poll_spec (now : Z) (t : TimeManager) : list Z * TimeManager :=
  let delta := now - last_wall_ns t in
  (omap (λ ty, if poll_fires ty delta t then Some (signo ty) else None) [Virtual; Prof; Real],
   {| utime_ns := if decide (tm_state t = TS_User) then add_u64 (utime_ns t) delta else utime_ns t;
      stime_ns := if decide (tm_state t = TS_Kernel) then add_u64 (stime_ns t) delta else stime_ns t;
      last_wall_ns := now; tm_state := tm_state t;
      it_real := poll_timer_after Real delta t;
      it_virtual := poll_timer_after Virtual delta t;
      it_prof := poll_timer_after Prof delta t |}).

Lemma update_itimer_spec wall cur ty delta t a :
  in_u64 wall → timer_ok (itimer_of ty t) → 0 ≤ delta →
  ∃ a', update_itimer wall cur ty delta (t, a)
    = (Ok (if timer_fires delta (itimer_of ty t) then [signo ty] else []),
       (set_itimer_of ty (timer_after delta (itimer_of ty t)) t, a')).
Proof.
  intros Hw Hok Hd. unfold update_itimer.
  destruct (itimer_update_spec wall cur delta (itimer_of ty t) a Hw Hok Hd) as [a' ->].
  eauto.
Qed.

#[local] Arguments update_itimer : simpl never.
#[local] Arguments timer_fires : simpl never.
#[local] Arguments timer_after : simpl never.

Lemma tm_poll_spec wall cur now t a :
  tm_ok t → in_u64 wall → in_u64 now → last_wall_ns t ≤ now →
  ∃ a', tm_poll wall cur now (t, a) = (Ok (poll_spec now t).1, ((poll_spec now t).2, a')).
Proof.
  intros [Hti Hl] Hw Hn Hle. unfold tm_poll. unfold_m. cbn.
  assert (sub_u64 now (last_wall_ns t) = now - last_wall_ns t) as ->.
  { unfold sub_u64. apply as_u64_small. unfold in_u64 in *. lia. }
  set (delta := now - last_wall_ns t). assert (0 ≤ delta) as Hd by (unfold delta; lia).
  pose proof (Hti Real) as Hr. pose proof (Hti Virtual) as Hv. pose proof (Hti Prof) as Hp.
  destruct (timer_after_0 _ Hv) as [Hv1 Hv2], (timer_after_0 _ Hp) as [Hp1 Hp2].
  unfold poll_spec, poll_fires, poll_timer_after. fold delta. cbn.
  destruct t as [ut st lw [] re vi pr]; cbn in *;
    rewrite ?Hv2, ?Hp2;
  repeat match goal with
  | |- context [update_itimer ?w ?c ?ty ?d (?t', ?a')] =>
      let H := fresh in
      destruct (update_itimer_spec w c ty d t' a') as [? H];
      [done|done|done|]; rewrite H; cbn; clear H
  end;
  eexists; f_equal; try done;
  repeat match goal with |- context [timer_fires ?d ?i] => destruct (timer_fires d i) end;
  done.
Qed.

Lemma poll_spec_ok now t : tm_ok t → in_u64 now → last_wall_ns t ≤ now → tm_ok (poll_spec now t).2.
Proof.
  intros [Hti Hl] Hn Hle. split; [|done].
  intros ty. assert (timer_ok (poll_timer_after ty (now - last_wall_ns t) t)) as Hok.
  { apply timer_after_ok; [done|]. destruct (timer_runs _ _); lia. }
  by destruct ty.
Qed.

(** *** Runs of state changes *)

(** One [set_timer_state] call: the wall clock, the monotonic clock, and the
    state entered. *)
Definition switch : Type := Z * Z * TimerState.

Fixpoint run_switches (cur : Z) (l : list switch) : TimeM (list Z) :=
  match l with
  | [] => mret []
  | (wall, now, st) :: r =>
      s1 ← set_timer_state false wall cur now st;
      s2 ← run_switches cur r;
      mret (s1 ++ s2)
  end.

(** Time spent in state [want], from state [st] entered at [t0]. *)
Fixpoint time_in (want st : TimerState) (t0 : Z) (l : list switch) : Z :=
  match l with
  | [] => 0
  | (_, now, st') :: r => (if decide (st = want) then now - t0 else 0) + time_in want st' now r
  end.

Fixpoint switches_ok (t0 : Z) (l : list switch) : Prop :=
  match l with
  | [] => True
  | (wall, now, _) :: r => in_u64 wall ∧ in_u64 now ∧ t0 ≤ now ∧ switches_ok now r
  end.

Fixpoint last_switch (t0 : Z) (l : list switch) : Z :=
  match l with [] => t0 | (_, now, _) :: r => last_switch now r end.

Lemma set_timer_state_spec wall cur now st t a :
  tm_ok t → in_u64 wall → in_u64 now → last_wall_ns t ≤ now →
  ∃ a', set_timer_state false wall cur now st (t, a)
    = (Ok (poll_spec now t).1, ((poll_spec now t).2 <| tm_state := st |>, a')).
Proof.
  intros. unfold set_timer_state, tm_set_state. unfold_m.
  destruct (tm_poll_spec wall cur now t a) as [a' ->]; [done..|]. by exists a'.
Qed.

#[local] Arguments set_timer_state : simpl never.

Lemma run_switches_spec cur l : ∀ t a,
  tm_ok t → switches_ok (last_wall_ns t) l →
  ∃ sigs t' a', run_switches cur l (t, a) = (Ok sigs, (t', a')) ∧ tm_ok t'
    ∧ as_u64 (utime_ns t') = as_u64 (utime_ns t + time_in TS_User (tm_state t) (last_wall_ns t) l)
    ∧ as_u64 (stime_ns t') = as_u64 (stime_ns t + time_in TS_Kernel (tm_state t) (last_wall_ns t) l)
    ∧ last_wall_ns t' = last_switch (last_wall_ns t) l.
Proof.
  induction l as [|[[wall now] st] l IH]; intros t a Ht Hl; simpl in *.
  { rewrite !Z.add_0_r. unfold_m. eauto 10. }
  destruct Hl as (Hw & Hn & Hle & Hl).
  destruct (set_timer_state_spec wall cur now st t a) as [a1 He]; [done..|].
  pose proof (poll_spec_ok now t Ht Hn Hle) as Hok.
  set (t1 := (poll_spec now t).2 <| tm_state := st |>) in *.
  destruct (IH t1 a1) as (sigs & t' & a' & Hr & Ht' & Hu & Hs & Hl'); [by destruct Hok|done|].
  unfold_m. rewrite He, Hr. do 3 eexists. split; [done|].
  split_and!; [done|rewrite Hu|rewrite Hs|done]; cbn; case_decide;
    unfold add_u64; rewrite ?as_u64_add_l; f_equal; lia.
Qed.

Lemma time_in_bound l : ∀ t0 st, switches_ok t0 l →
  0 ≤ time_in TS_User st t0 l ∧ 0 ≤ time_in TS_Kernel st t0 l
  ∧ time_in TS_User st t0 l + time_in TS_Kernel st t0 l ≤ last_switch t0 l - t0.
Proof.
  induction l as [|[[wall now] st'] l IH]; intros t0 st Hl; simpl in *; [lia|].
  destruct Hl as (_ & _ & Hle & Hl). specialize (IH now st' Hl).
  do 2 case_decide; try lia. congruence.
Qed.

(** ** Main results *)

(** the conversions between [TimeValue] and the C structures.  A
    [TimeValue] below [2^63] seconds survives a [timespec] round trip exactly
    and a [timeval] round trip up to the microsecond; a [timespec] or
    [timeval] with 64-bit fields is accepted exactly when its fields are in
    range, and converting back gives it again. *)
Lemma time_conversions :
  (∀ tv, tv_ok tv → as_secs tv < 2 ^ 63 →
     try_into_time_value (T := timespec) (from_time_value tv) = Ok tv
     ∧ try_into_time_value (T := timeval) (from_time_value tv) = Ok (tv - tv mod 1000))
  ∧ (∀ s n, s < 2 ^ 63 →
     match try_into_time_value (mkTimespec s n) with
     | Ok tv => 0 ≤ s ∧ 0 ≤ n < NANOS_PER_SEC ∧ tv_ok tv
                ∧ from_time_value tv = mkTimespec s n
     | Err e => e = InvalidInput ∧ ¬ (0 ≤ s ∧ 0 ≤ n < NANOS_PER_SEC)
     | Panic => False
     end)
  ∧ (∀ s u, s < 2 ^ 63 →
     match try_into_time_value (mkTimeval s u) with
     | Ok tv => 0 ≤ s ∧ 0 ≤ u < 1000000 ∧ tv_ok tv ∧ from_time_value tv = mkTimeval s u
     | Err e => e = InvalidInput ∧ ¬ (0 ≤ s ∧ 0 ≤ u < 1000000)
     | Panic => False
     end).
Proof.
  split_and!.
  - intros tv Hok Hs. pose proof (as_secs_range tv Hok). pose proof (subsec_range tv).
    cbn. rewrite as_i64_small, as_u64_small by (unfold in_u64; lia).
    unfold subsec_micros, NANOS_PER_SEC in *.
    pose proof (Z.div_mod (subsec_nanos tv) 1000). pose proof (Z.mod_pos_bound (subsec_nanos tv) 1000).
    rewrite !(proj2 (Z.ltb_ge _ _)) by lia. cbn.
    rewrite !as_u32_small by (unfold in_u32; rewrite ?as_u32_small; unfold in_u32; lia).
    rewrite tv_new_split. split; [done|]. f_equal.
    assert (tv mod 1000 = subsec_nanos tv mod 1000) as ->.
    { unfold subsec_nanos, NANOS_PER_SEC. symmetry.
      apply Z.mod_mod_divide. by exists 1000000. }
    rewrite <- (tv_new_split tv) at 3. unfold tv_new. lia.
  - intros s n Hs. cbn.
    destruct (Z.ltb_spec n 0), (Z.ltb_spec 999999999 n), (Z.ltb_spec s 0); cbn;
      try (split; [done|unfold NANOS_PER_SEC; lia]).
    rewrite as_u64_small, as_u32_small by (unfold in_u64, in_u32; lia).
    destruct (tv_split s n) as [-> ->]; [unfold NANOS_PER_SEC; lia|].
    rewrite as_i64_small by lia. split_and!; try done; unfold tv_ok, tv_new, duration_limit, NANOS_PER_SEC; lia.
  - intros s u Hs. cbn.
    destruct (Z.ltb_spec u 0), (Z.ltb_spec 999999 u), (Z.ltb_spec s 0); cbn;
      try (split; [done|lia]).
    rewrite as_u64_small, !as_u32_small by (unfold in_u64, in_u32; rewrite ?as_u32_small; unfold in_u32; lia).
    unfold subsec_micros. destruct (tv_split s (u * 1000)) as [-> ->]; [unfold NANOS_PER_SEC; lia|].
    rewrite as_i64_small, Z.div_mul by lia.
    split_and!; try done; unfold tv_ok, tv_new, duration_limit, NANOS_PER_SEC; lia.
Qed.

(** one poll of the timers.  With a monotonic clock [TimeManager::poll]
    does not panic; it charges the time since the last poll to the state the
    thread was in; the real timer, the virtual timer in user mode and the
    profiling timer in user and kernel mode advance by it and no other timer
    changes; a running timer emits its signal exactly when its remaining time
    has passed, and is then reloaded with its interval. *)
Lemma poll_charges_and_fires wall cur now t a :
  tm_ok t → in_u64 wall → in_u64 now → last_wall_ns t ≤ now →
  ∃ sigs t' a', tm_poll wall cur now (t, a) = (Ok sigs, (t', a')) ∧ tm_ok t'
    ∧ last_wall_ns t' = now
    ∧ utime_ns t' = (if decide (tm_state t = TS_User)
                     then add_u64 (utime_ns t) (now - last_wall_ns t) else utime_ns t)
    ∧ stime_ns t' = (if decide (tm_state t = TS_Kernel)
                     then add_u64 (stime_ns t) (now - last_wall_ns t) else stime_ns t)
    ∧ ∀ ty, let it := itimer_of ty t in
        let fires := timer_runs ty (tm_state t) && (0 <? remained_ns it)
                     && (remained_ns it <=? now - last_wall_ns t) in
        (signo ty ∈ sigs ↔ fires = true)
        ∧ interval_ns (itimer_of ty t') = interval_ns it
        ∧ remained_ns (itimer_of ty t') =
            (if fires then interval_ns it
             else if timer_runs ty (tm_state t) && (0 <? remained_ns it)
             then remained_ns it - (now - last_wall_ns t) else remained_ns it).
Proof.
  intros Ht Hw Hn Hle. destruct (tm_poll_spec wall cur now t a Ht Hw Hn Hle) as [a' ->].
  do 3 eexists. split; [done|]. split; [by apply poll_spec_ok|]. split_and!; try done.
  intros ty it fires. split_and!.
  - assert (∀ ty', poll_fires ty' (now - last_wall_ns t) t = true ↔
      signo ty' ∈ (poll_spec now t).1) as Hs.
    { intros ty'. unfold poll_spec. cbn [fst].
      rewrite list_elem_of_omap. split.
      - intros Hf. exists ty'. rewrite Hf. split; [|done]. destruct ty'; set_solver.
      - intros (ty2 & _ & He). destruct (poll_fires ty2 _ t) eqn:Hf2; [|done].
        by destruct ty', ty2. }
    rewrite <- Hs. unfold poll_fires, timer_fires, fires, it.
    rewrite !andb_true_iff. tauto.
  - unfold it, poll_spec. cbn [snd]. destruct ty; cbn; unfold poll_timer_after, timer_after;
      repeat case_match; done.
  - assert (itimer_of ty (poll_spec now t).2 = poll_timer_after ty (now - last_wall_ns t) t)
      as -> by (by destruct ty).
    pose proof (ok_timers _ Ht ty) as Hok. unfold poll_timer_after, fires. fold it in Hok |- *.
    destruct (timer_runs ty (tm_state t)); cbn; [|by rewrite (proj2 (timer_after_0 _ Hok))].
    unfold timer_after, timer_fires. destruct Hok as [_ Hr]. unfold in_u64 in Hr.
    destruct (Z.ltb_spec 0 (remained_ns it)), (Z.eqb_spec (remained_ns it) 0); try lia; cbn;
      by destruct (remained_ns it <=? _).
Qed.

Definition busy_thread : TimeManager :=
  mkTimeManager 5 0 100 TS_User (mkITimer 0 0) (mkITimer 50 30) (mkITimer 0 70).

Lemma busy_thread_ok : tm_ok busy_thread.
Proof. split; [intros []|]; unfold timer_ok, in_u64; cbn; lia. Qed.

(** CPU-time accounting.  Over any sequence of state changes with a
    monotonic clock nothing panics, the user (system) time of a thread grows
    by exactly the time it spent in user (kernel) state, modulo the 64-bit
    counter, and the two together never exceed the time that has passed. *)
Lemma cpu_time_accounting cur l t a :
  tm_ok t → switches_ok (last_wall_ns t) l →
  ∃ sigs t' a', run_switches cur l (t, a) = (Ok sigs, (t', a')) ∧ tm_ok t'
    ∧ as_u64 (utime_ns t') = as_u64 (utime_ns t + time_in TS_User (tm_state t) (last_wall_ns t) l)
    ∧ as_u64 (stime_ns t') = as_u64 (stime_ns t + time_in TS_Kernel (tm_state t) (last_wall_ns t) l)
    ∧ time_in TS_User (tm_state t) (last_wall_ns t) l
      + time_in TS_Kernel (tm_state t) (last_wall_ns t) l ≤ last_wall_ns t' - last_wall_ns t.
Proof.
  intros Ht Hl. destruct (run_switches_spec cur l t a Ht Hl)
    as (sigs & t' & a' & Hr & Ht' & Hu & Hs & Hlast).
  exists sigs, t', a'. rewrite Hlast. split_and!; try done.
  by apply time_in_bound.
Qed.

