(* ===== verification/Alarm.v ===== *)
(** * The alarm task

    [alarm_task] of [core/src/time.rs] sleeps until the earliest deadline of
    [ALARM_LIST], polls the timers of the task it belongs to and pops the
    entry.  Other threads push deadlines ([ITimer::renew_timer]) at any time,
    so the task is a state machine whose turns are the pieces of code between
    two points where it holds no lock, interleaved with the steps of the
    other threads: reading the clock and computing a deadline, the critical
    section that pushes it, the notification of [EVENT_NEW_TIMER], and the
    passing of time.  A notification wakes the listener that is registered at
    that moment and is lost when there is none, as documented by the
    [event_listener] crate. *)

From S2P Require Import Prelude Time.

(** Where the alarm task is. *)
Inductive alarm_pc :=
| AT_Top                   (* the head of the loop *)
| AT_EmptyListen           (* the list was empty; about to register *)
| AT_EmptyCheck            (* registered; about to look again *)
| AT_EmptyWait             (* [listener.await] *)
| AT_Poll (deadline : Z)   (* an entry is due: [poll_timer] *)
| AT_Pop (deadline : Z)    (* about to pop it *)
| AT_ArmListen (deadline : Z)
| AT_ArmCheck (deadline : Z)
| AT_ArmWait (deadline : Z) (* [timeout_at(deadline, listener)] *)
| AT_Panic.

Record AlarmSys := mkAlarmSys {
  ak_wall : Z;                  (* [wall_time()] *)
  ak_heap : list (Z * Z);       (* [ALARM_LIST] *)
  ak_pc : alarm_pc;
  ak_pending : list (Z * Z);    (* deadlines computed and not pushed yet *)
  ak_notifiers : nat;           (* threads about to call [notify] *)
  ak_listening : bool;          (* the alarm task has a listener *)
  ak_notified : bool;           (* ... which has been notified *)
}.
#[export] Instance eta_AlarmSys : Eta AlarmSys := λ s,
  mkAlarmSys (ak_wall s) (ak_heap s) (ak_pc s) (ak_pending s) (ak_notifiers s)
    (ak_listening s) (ak_notified s).

Definition at_pc (pc : alarm_pc) (s : AlarmSys) : AlarmSys := s <| ak_pc := pc |>.
(** Back to the head of the loop; the listener is dropped. *)
Definition at_top (s : AlarmSys) : AlarmSys :=
  s <| ak_pc := AT_Top |> <| ak_listening := false |> <| ak_notified := false |>.
Definition listen (pc : alarm_pc) (s : AlarmSys) : AlarmSys :=
  s <| ak_pc := pc |> <| ak_listening := true |> <| ak_notified := false |>.

(** One turn of [alarm_task]; [None] when it sleeps and nothing wakes it. *)
Definition alarm_task (s : AlarmSys) : option AlarmSys :=
  match ak_pc s with
  | AT_Top =>
      Some (match heap_peek (ak_heap s) with
            | None => at_pc AT_EmptyListen s
            | Some entry =>
                if entry.1 <=? ak_wall s then at_pc (AT_Poll entry.1) s
                else at_pc (AT_ArmListen entry.1) s
            end)
  | AT_EmptyListen => Some (listen AT_EmptyCheck s)
  | AT_EmptyCheck =>
      Some (if bool_decide (ak_heap s = []) then at_pc AT_EmptyWait s else at_top s)
  | AT_EmptyWait => if ak_notified s then Some (at_top s) else None
  | AT_Poll deadline => Some (at_pc (AT_Pop deadline) s)
  | AT_Pop deadline =>
      let '(popped, heap) := heap_pop (ak_heap s) in
      let s' := s <| ak_heap := heap |> in
      Some (match popped with
            | Some it => if it.1 =? deadline then at_pc AT_Top s' else at_pc AT_Panic s'
            | None => at_pc AT_Panic s'
            end)
  | AT_ArmListen deadline => Some (listen (AT_ArmCheck deadline) s)
  | AT_ArmCheck deadline =>
      Some (match heap_peek (ak_heap s) with
            | Some it => if it.1 =? deadline then at_pc (AT_ArmWait deadline) s else at_top s
            | None => at_top s
            end)
  | AT_ArmWait deadline =>
      if ak_notified s || (deadline <=? ak_wall s) then Some (at_top s) else None
  | AT_Panic => None
  end.

(** The steps of the whole system.  With [quiet] set, the alarm task never
    looks at the list while another thread is between computing a deadline
    and pushing it. *)
Inductive alarm_step (quiet : bool) : AlarmSys → AlarmSys → Prop :=
| A_tick s w : ak_wall s ≤ w → alarm_step quiet s (s <| ak_wall := w |>)
| A_compute s r task : 0 < r →
    alarm_step quiet s (s <| ak_pending ::= cons (ak_wall s + r, task) |>)
| A_push s l1 l2 d task : ak_pending s = l1 ++ (d, task) :: l2 →
    alarm_step quiet s
      (s <| ak_pending := l1 ++ l2 |>
         <| ak_heap := (alarm_push d task (ak_heap s)).2 |>
         <| ak_notifiers ::= λ n, if (alarm_push d task (ak_heap s)).1 then S n else n |>)
| A_notify s n : ak_notifiers s = S n →
    alarm_step quiet s
      (s <| ak_notifiers := n |> <| ak_notified := ak_notified s || ak_listening s |>)
| A_turn s s' : alarm_task s = Some s' →
    (quiet = true → ak_pc s = AT_Top → ak_pending s = []) → alarm_step quiet s s'.

Inductive alarm_run (quiet : bool) (s : AlarmSys) : AlarmSys → Prop :=
| alarm_run_refl : alarm_run quiet s s
| alarm_run_step s1 s2 : alarm_run quiet s s1 → alarm_step quiet s1 s2 → alarm_run quiet s s2.

(** [spawn_alarm_task] *)
Definition alarm_boot (wall : Z) : AlarmSys := mkAlarmSys wall [] AT_Top [] 0 false false.

(** ** The heap *)

Lemma heap_peek_min h e : heap_peek h = Some e → e ∈ h ∧ ∀ x, x ∈ h → e.1 ≤ x.1.
Proof.
  destruct h as [|y h]; [done|]. simpl. intros [= <-]. revert y.
  induction h as [|z h IH]; intros y; simpl; [set_solver by lia|].
  destruct (IH (earlier z y)) as [Hin Hmin]. unfold earlier in *.
  split.
  - destruct (z.1 <? y.1); set_solver.
  - intros x Hx. assert ((if z.1 <? y.1 then z else y).1 ≤ y.1
      ∧ (if z.1 <? y.1 then z else y).1 ≤ z.1) by (destruct (Z.ltb_spec z.1 y.1); lia).
    assert ((fold_left (λ m x, if x.1 <? m.1 then x else m) h (if z.1 <? y.1 then z else y)).1
      ≤ (if z.1 <? y.1 then z else y).1) by (apply Hmin; left).
    set_unfold. destruct Hx as [->|[->|Hx]]; [lia..|]. apply Hmin. by right.
Qed.

Lemma heap_peek_None h : heap_peek h = None ↔ h = [].
Proof. by destruct h. Qed.

Lemma alarm_push_quiet d task h :
  (alarm_push d task h).1 = false → ∃ it, it ∈ h ∧ it.1 ≤ d.
Proof.
  unfold alarm_push. simpl. destruct (heap_peek h) as [it|] eqn:Hp; [|done].
  intros Hlt. apply Z.ltb_ge in Hlt. apply heap_peek_min in Hp as [? _]. eauto.
Qed.

(** ** Not oversleeping *)

(** The invariant: a sleeping alarm task has a listener, and is armed for the
    earliest deadline unless a notification is on its way. *)
Definition wake_coming (s : AlarmSys) : Prop :=
  ak_notified s = true ∨ (0 < ak_notifiers s)%nat.

Definition armed_for_earliest (s : AlarmSys) : Prop :=
  match ak_pc s with
  | AT_EmptyCheck | AT_ArmCheck _ => ak_listening s = true
  | AT_EmptyWait => ak_listening s = true ∧ (ak_heap s = [] ∨ wake_coming s)
  | AT_ArmWait d => ak_listening s = true
                    ∧ ((∀ it, it ∈ ak_heap s → d ≤ it.1) ∨ wake_coming s)
  | _ => True
  end.

Lemma turn_armed s s' : alarm_task s = Some s' → armed_for_earliest s → armed_for_earliest s'.
Proof.
  unfold armed_for_earliest, alarm_task. destruct s as [w h pc pe n li no].
  destruct pc; cbn; intros He Hl; simplify_eq/=; try done.
  - destruct (heap_peek h) as [e|]; [|done]. by destruct (e.1 <=? w).
  - case_bool_decide; cbn; [|done]. eauto.
  - by destruct no; simplify_eq/=.
  - destruct (heap_pop h) as [[it|] h']; simplify_eq/=; [|done]. by destruct (it.1 =? deadline).
  - destruct (heap_peek h) as [it|] eqn:Hp; cbn; [|done].
    destruct (Z.eqb_spec it.1 deadline) as [<-|]; cbn; [|done].
    split; [done|]. left. by apply heap_peek_min.
  - by destruct (no || _); simplify_eq/=.
Qed.

Lemma push_armed s l d task :
  armed_for_earliest s →
  armed_for_earliest
    (s <| ak_pending := l |> <| ak_heap := (alarm_push d task (ak_heap s)).2 |>
       <| ak_notifiers ::= λ n, if (alarm_push d task (ak_heap s)).1 then S n else n |>).
Proof.
  intros Ha. unfold armed_for_earliest, wake_coming in *.
  pose proof (alarm_push_quiet d task (ak_heap s)) as Hq.
  destruct (alarm_push d task (ak_heap s)) as [b h] eqn:Hp.
  assert (h = (d, task) :: ak_heap s) as -> by (by injection Hp).
  destruct s as [w h0 pc pe n li no]; cbn in *. destruct pc; try done; cbn in *.
  all: destruct Ha as [? Ha]; (split; [done|]).
  all: destruct b; [right; right; lia|]; destruct (Hq eq_refl) as (it & Hin & Hle).
  all: destruct Ha as [Hh|Hw]; [|by right].
  - subst. set_solver.
  - left. intros x Hx. set_unfold. destruct Hx as [->|Hx]; [|by apply Hh].
    simpl. specialize (Hh it Hin). lia.
Qed.

Lemma step_armed quiet s s' :
  alarm_step quiet s s' → armed_for_earliest s → armed_for_earliest s'.
Proof.
  intros Hs Ha. inversion Hs; subst.
  - by destruct s.
  - by destruct s.
  - by apply push_armed.
  - revert Ha. unfold armed_for_earliest, wake_coming.
    destruct s as [w h pc pe n' li no]; cbn. destruct pc; try done; cbn.
    + intros [-> _]. rewrite orb_true_r. auto.
    + intros [-> _]. rewrite orb_true_r. auto.
  - by eapply turn_armed.
Qed.

Lemma alarm_run_armed quiet wall s :
  alarm_run quiet (alarm_boot wall) s → armed_for_earliest s.
Proof. induction 1; [done|]. by eapply step_armed. Qed.

(** ** The assertion on the popped entry *)

Definition pop_will_match (s : AlarmSys) : Prop :=
  match ak_pc s with
  | AT_Poll d | AT_Pop d =>
      d ≤ ak_wall s ∧ (∃ it, it ∈ ak_heap s ∧ it.1 = d)
      ∧ (∀ it, it ∈ ak_heap s → d ≤ it.1) ∧ (∀ p, p ∈ ak_pending s → d ≤ p.1)
  | AT_Panic => False
  | _ => True
  end.

Lemma turn_pop_matches s s' :
  alarm_task s = Some s' → (ak_pc s = AT_Top → ak_pending s = []) →
  pop_will_match s → pop_will_match s'.
Proof.
  unfold pop_will_match, alarm_task. destruct s as [w h pc pe n li no].
  destruct pc; cbn; intros He Hq Hp; simplify_eq/=; try done.
  - destruct (heap_peek h) as [e|] eqn:Hpk; [|done].
    apply heap_peek_min in Hpk as [Hin Hmin].
    destruct (Z.leb_spec e.1 w); [|done]. rewrite Hq by done. cbn. set_solver.
  - by case_bool_decide.
  - by destruct no; simplify_eq/=.
  - destruct Hp as (Hw & (it & Hin & Hd) & Hmin & _). unfold heap_pop in He.
    destruct (heap_peek h) as [e|] eqn:Hpk; simplify_eq/=.
    + apply heap_peek_min in Hpk as [Hin' Hmin'].
      destruct (Z.eqb_spec e.1 it.1) as [|Hne]; cbn; [done|].
      specialize (Hmin e Hin'). specialize (Hmin' it Hin). lia.
    + apply heap_peek_None in Hpk. set_solver.
  - destruct (heap_peek h) as [it|]; [|done]. by destruct (it.1 =? deadline).
  - by destruct (no || _); simplify_eq/=.
Qed.

Lemma step_pop_matches s s' :
  alarm_step true s s' → pop_will_match s → pop_will_match s'.
Proof.
  intros Hs Hp. inversion Hs as [? w Hw|? r task Hr|? l1 l2 d task Hpe|? n Hn|? ? Ht Hq]; subst.
  - revert Hp. unfold pop_will_match. destruct s as [? ? [] ? ? ? ?]; cbn in *;
      intuition (try done); lia.
  - revert Hp. unfold pop_will_match. destruct s as [? ? [] ? ? ? ?]; cbn in *; try done;
      intros (Hw & Hin & Hmin & Hpe); (split_and!; [done..|]); intros p Hx; set_unfold;
      (destruct Hx as [->|Hx]; [simpl; lia|by apply Hpe]).
  - revert Hp. unfold pop_will_match. destruct s as [? ? [] ? ? ? ?]; cbn in *; try done; subst;
      intros (Hw & (it & Hin & Hd) & Hmin & Hp);
      (split_and!; [done|exists it; split; [by right|done]| |]).
    all: intros p Hx; try (apply Hp; set_solver).
    all: apply elem_of_cons in Hx as [->|Hx]; [apply (Hp (d, task)); set_solver|by apply Hmin].
  - revert Hp. unfold pop_will_match. by destruct s as [? ? [] ? ? ? ?].
  - eapply turn_pop_matches; eauto.
Qed.

Lemma quiet_run_pop_matches wall s :
  alarm_run true (alarm_boot wall) s → pop_will_match s.
Proof. induction 1; [done|]. by eapply step_pop_matches. Qed.

(** ** Main results *)

(** C19: the alarm task does not oversleep.  In every reachable state, whatever
    the interleaving of the threads that set timers, if an entry of the alarm
    list is due and no thread is still about to notify the alarm task, then
    the alarm task can take a turn: it is not blocked (unless it has
    panicked). *)
Theorem alarm_does_not_oversleep quiet wall s it :
  alarm_run quiet (alarm_boot wall) s →
  it ∈ ak_heap s → it.1 ≤ ak_wall s → ak_notifiers s = 0%nat → ak_pc s ≠ AT_Panic →
  is_Some (alarm_task s).
Proof.
  intros Hr Hin Hdue Hno Hpc. apply alarm_run_armed in Hr.
  unfold armed_for_earliest, wake_coming in Hr. unfold alarm_task.
  destruct (ak_pc s); try done; try (by eexists).
  - destruct Hr as [_ [Hh|[->|?]]]; [by rewrite Hh, elem_of_nil in Hin|by eexists|lia].
  - destruct (heap_pop _). by eexists.
  - destruct Hr as [_ [Hmin|[->|?]]]; [|by eexists|lia].
    specialize (Hmin it Hin). destruct (Z.leb_spec deadline (ak_wall s)); [|lia].
    rewrite orb_true_r. by eexists.
Qed.

(** A timer set for 5 ns later, and the alarm task asleep before it was set. *)
Definition alarm_demo : AlarmSys := mkAlarmSys 10 [(5, 1)] AT_EmptyWait [] 0 true true.

Lemma alarm_run_cons quiet s s1 s2 :
  alarm_step quiet s s1 → alarm_run quiet s1 s2 → alarm_run quiet s s2.
Proof.
  intros Hs. induction 1; [|by eapply alarm_run_step].
  eapply alarm_run_step; [apply alarm_run_refl|done].
Qed.

Ltac alarm_turn := eapply alarm_run_cons; [apply A_turn; [cbn; reflexivity|done]|]; cbn.
Tactic Notation "alarm_do" uconstr(step) :=
  eapply alarm_run_cons; [eapply step; done|]; cbn.

Lemma alarm_demo_run quiet : alarm_run quiet (alarm_boot 0) alarm_demo.
Proof.
  do 3 alarm_turn. alarm_do (A_compute quiet _ 5 1). alarm_do (A_push quiet _ [] [] 5 1).
  alarm_do (A_notify quiet _ 0). alarm_do (A_tick quiet _ 10). apply alarm_run_refl.
Qed.

Lemma alarm_does_not_oversleep_witness : is_Some (alarm_task alarm_demo).
Proof.
  apply (alarm_does_not_oversleep true 0 alarm_demo (5, 1));
    [apply alarm_demo_run|left|cbn; lia|done|done].
Defined.

(** the assertion of the alarm task holds when it runs undisturbed.  If
    the alarm task never looks at the list while another thread has computed
    a deadline and not pushed it yet, the entry it pops is always the one it
    handled, so it never panics. *)
Lemma alarm_assert_holds wall s :
  alarm_run true (alarm_boot wall) s → ak_pc s ≠ AT_Panic.
Proof.
  intros Hr%quiet_run_pop_matches Hpc. unfold pop_will_match in Hr. by rewrite Hpc in Hr.
Qed.

(** without that condition the assertion can fail.  A thread computes a
    deadline, another one computes and pushes a later one, the clock reaches
    both, the alarm task handles the later entry, the first thread pushes its
    earlier one, and [alarm_task] panics on popping it. *)
Lemma alarm_assert_race :
  ∃ s, alarm_run false (alarm_boot 0) s ∧ ak_pc s = AT_Panic.
Proof.
  eexists. split.
  - alarm_do (A_compute false (alarm_boot 0) 5 1). alarm_do (A_compute false _ 6 2).
    alarm_do (A_push false _ [] [(5, 1)] 6 2). alarm_do (A_tick false _ 7).
    do 2 alarm_turn. alarm_do (A_push false _ [] [] 5 1). alarm_turn. apply alarm_run_refl.
  - done.
Qed.
