(* ===== verification/TimeSys.v ===== *)
(** * Time, scheduling and resource system calls

    [api/src/syscall/time.rs], the sleeping, affinity and priority calls of
    [api/src/syscall/task/schedule.rs], and [core/src/resources.rs] with
    [api/src/syscall/resources.rs].  The readings of the clocks are arguments;
    the tasks and processes the calls look up are maps from ids. *)

From S2P Require Import Prelude Vm Time.

(** Values of the Linux ABI *)
Definition CLOCK_REALTIME : Z := 0.
Definition CLOCK_MONOTONIC : Z := 1.
Definition CLOCK_PROCESS_CPUTIME_ID : Z := 2.
Definition CLOCK_THREAD_CPUTIME_ID : Z := 3.
Definition CLOCK_MONOTONIC_RAW : Z := 4.
Definition CLOCK_REALTIME_COARSE : Z := 5.
Definition CLOCK_MONOTONIC_COARSE : Z := 6.
Definition CLOCK_BOOTTIME : Z := 7.
Definition TIMER_ABSTIME : Z := 1.
Definition RLIM_NLIMITS : Z := 16.
Definition RLIMIT_STACK : Z := 3.
Definition RLIMIT_NOFILE : Z := 7.
Definition RUSAGE_SELF : Z := 0.
Definition RUSAGE_CHILDREN : Z := -1.
Definition RUSAGE_THREAD : Z := 1.
Definition PRIO_PROCESS : Z := 0.
Definition PRIO_PGRP : Z := 1.
Definition PRIO_USER : Z := 2.
Definition SCHED_RR : Z := 2.

Record itimerval := mkItimerval { it_interval : timeval; it_value : timeval }.
Record Tms := mkTms { tms_utime : Z; tms_stime : Z; tms_cutime : Z; tms_cstime : Z }.

(** The time managers of the threads, the alarm list, user memory. *)
Record TimeSys (V : Type) := mkTimeSys {
  ty_threads : gmap Z TimeManager;
  ty_alarm : Alarm;
  ty_vm : V;
}.
Arguments mkTimeSys {_}.
Arguments ty_threads {_}.
Arguments ty_alarm {_}.
Arguments ty_vm {_}.
#[export] Instance eta_TimeSys {V} : Eta (TimeSys V) := λ s,
  mkTimeSys (ty_threads s) (ty_alarm s) (ty_vm s).

Section time.
Context {V : Type} `{VmPtr V timespec} `{VmPtr V timeval} `{VmPtr V itimerval} `{VmPtr V Tms}.
Abbreviation S := (TimeSys V).

Definition on_time_vm {A} (f : M V A) : M S A := λ s,
  let '(r, v) := f (ty_vm s) in (r, s <| ty_vm := v |>).
Definition read_time_vm {A} (f : V → res A) : M S A := λ s, (f (ty_vm s), s).
(** [current().as_thread().time.borrow()] *)
Definition current_time (cur : Z) : M S TimeManager := λ s,
  (unwrap (ty_threads s !! cur), s).
Definition on_time {A} (cur : Z) (f : TimeM A) : M S A := λ s,
  match ty_threads s !! cur with
  | Some t => let '(r, (t', a')) := f (t, ty_alarm s) in
              (r, s <| ty_threads ::= <[cur := t']> |> <| ty_alarm := a' |>)
  | None => (Panic, s)
  end.

Definition sys_clock_gettime (cur : Z) (wall_time monotonic_time : TimeValue)
    (clock_id ts : Z) : M S Z :=
  let id := as_u32 clock_id in
  now ← (if (id =? CLOCK_REALTIME) || (id =? CLOCK_REALTIME_COARSE) then mret wall_time
         else if (id =? CLOCK_MONOTONIC) || (id =? CLOCK_MONOTONIC_RAW)
                 || (id =? CLOCK_MONOTONIC_COARSE) || (id =? CLOCK_BOOTTIME)
         then mret monotonic_time
         else if (id =? CLOCK_PROCESS_CPUTIME_ID) || (id =? CLOCK_THREAD_CPUTIME_ID) then
           t ← current_time cur;
           let '(utime, stime) := tm_output t in liftR (tv_add utime stime)
         else mret wall_time);
  on_time_vm (vm_write ts (from_time_value (T := timespec) now));;
  mret 0.

Definition sys_gettimeofday (wall_time : TimeValue) (ts : Z) : M S Z :=
  on_time_vm (vm_write ts (from_time_value (T := timeval) wall_time));; mret 0.

Definition sys_clock_getres (clock_id ptr : Z) : M S Z :=
  when_not_null ptr (on_time_vm (vm_write ptr (from_time_value (T := timespec) 1000)));;
  mret 0.

Definition sys_times (cur monotonic_nanos : Z) (nanos_to_ticks : Z → Z) (tms : Z) : M S Z :=
  t ← current_time cur;
  let '(utime, stime) := tm_output t in
  let utime := as_u64 (as_micros utime) in
  let stime := as_u64 (as_micros stime) in
  on_time_vm (vm_write tms (mkTms utime stime utime stime));;
  mret (as_i64 (nanos_to_ticks monotonic_nanos)).

Definition timer_value (interval remained : TimeValue) : itimerval :=
  mkItimerval (from_time_value interval) (from_time_value remained).

Definition sys_getitimer (cur which value : Z) : M S Z :=
  ty ← liftR (ok_or InvalidInput (ITimerType_from_repr which));
  t ← current_time cur;
  let '(interval, remained) := get_itimer ty t in
  on_time_vm (vm_write value (timer_value interval remained));;
  mret 0.

Definition sys_setitimer (cur wall_time which new_value old_value : Z) : M S Z :=
  ty ← liftR (ok_or InvalidInput (ITimerType_from_repr which));
  new ← when_not_null new_value
    (v ← read_time_vm (λ m, vm_read (T := itimerval) m new_value);
     interval ← liftR (try_into_time_value (it_interval v));
     remained ← liftR (try_into_time_value (it_value v));
     mret (as_u64 (as_nanos interval), as_u64 (as_nanos remained)));
  let '(interval, remained) := default (0, 0) new in
  old ← on_time cur (set_itimer wall_time cur ty interval remained);
  when_not_null old_value
    (on_time_vm (vm_write old_value (timer_value old.1 old.2)));;
  mret 0.

(** ** Sleeping

    [start] and [finish] are the readings of the clock around the sleep. *)

Definition sleep_impl (start finish : TimeValue) : res TimeValue :=
  if start <=? finish then Ok (finish - start) else Panic.

(** The common end of the two calls: the time that was not slept. *)
Definition sleep_result (dur actual : TimeValue) (rem : Z) : M S Z :=
  match tv_checked_sub dur actual with
  | Some diff =>
      when_not_null rem (on_time_vm (vm_write rem (from_time_value (T := timespec) diff)));;
      failM Interrupted
  | None => mret 0
  end.

Definition sys_nanosleep (start finish : TimeValue) (req rem : Z) : M S Z :=
  ts ← read_time_vm (λ m, vm_read (T := timespec) m req);
  req ← liftR (try_into_time_value ts);
  actual ← liftR (sleep_impl start finish);
  sleep_result req actual rem.

Definition sys_clock_nanosleep (now start finish : TimeValue) (clock_id flags req rem : Z)
    : M S Z :=
  let id := as_u32 clock_id in
  if negb (id =? CLOCK_REALTIME) && negb (id =? CLOCK_MONOTONIC) then failM InvalidInput
  else
    ts ← read_time_vm (λ m, vm_read (T := timespec) m req);
    req ← liftR (try_into_time_value ts);
    let dur := if any_bit flags TIMER_ABSTIME then tv_saturating_sub req now else req in
    actual ← liftR (sleep_impl start finish);
    sleep_result dur actual rem.
End time.

(** ** CPU affinity and priorities *)

(** [AxCpuMask] of the scheduler crate. *)
Class CpuMask (K : Type) := {
  mask_new : K;
  mask_set : Z → K → K;
  mask_get : K → Z → bool;
  mask_as_bytes : K → list Z;
}.
Class CpuMaskOk (K : Type) `{CpuMask K} := {
  mask_get_new i : mask_get mask_new i = false;
  mask_get_set i j k : mask_get (mask_set i k) j = if j =? i then true else mask_get k j;
}.

Section affinity.
Context {V K : Type} `{VmPtr V (list Z)} `{CpuMask K}.

Definition sys_sched_getaffinity (cpu_num : Z) (mask : K) (pid cpusetsize user_mask : Z) : M V Z :=
  if as_u64 (cpusetsize * 8) <? cpu_num then failM InvalidInput
  else if negb (pid =? 0) then failM OperationNotPermitted
  else
    vm_write user_mask (mask_as_bytes mask);;
    mret (zlen (mask_as_bytes mask)).

Definition div_ceil (a b : Z) : Z := (a + b - 1) / b.

(** The loop over the CPUs [i, i + 1, ...]. *)
Fixpoint fill_mask (user_mask : list Z) (cpus : list Z) (k : K) : res K :=
  match cpus with
  | [] => Ok k
  | i :: rest =>
      b ← unwrap (user_mask !! Z.to_nat (i / 8));
      fill_mask user_mask rest
        (if negb (Z.land b (Z.shiftl 1 (i mod 8)) =? 0) then mask_set i k else k)
  end.

(** Returns the mask handed to [set_current_affinity]; [vm_load] is the load of
    a slice from user memory. *)
Definition sys_sched_setaffinity (cpu_num : Z) (vm_load : V → Z → Z → res (list Z))
    (cpusetsize user_mask : Z) (v : V) : res K :=
  let size := cpusetsize `min` div_ceil cpu_num 8 in
  bytes ← vm_load v user_mask size;
  fill_mask bytes (seqZ 0 ((size * 8) `min` cpu_num)) mask_new.
End affinity.

Definition sys_sched_getscheduler (pid : Z) : res Z := Ok SCHED_RR.

(** [has_process], [has_group]: whether [get_process_data], [get_process_group]
    find the id. *)
Definition sys_getpriority (has_process has_group : Z → bool) (which who : Z) : res Z :=
  if which =? PRIO_PROCESS then
    if negb (who =? 0) && negb (has_process who) then Err NoSuchProcess else Ok 20
  else if which =? PRIO_PGRP then
    if negb (who =? 0) && negb (has_group who) then Err NoSuchProcess else Ok 20
  else if which =? PRIO_USER then
    if who =? 0 then Ok 20 else Err NoSuchProcess
  else Err InvalidInput.

(** ** Resource limits and usage *)

Definition AX_FILE_LIMIT : Z := 1024.
Definition USER_STACK_SIZE : Z := 0x80000.

Record Rlimit := mkRlimit { rl_current : Z; rl_max : Z }.
#[export] Instance eta_Rlimit : Eta Rlimit := λ r, mkRlimit (rl_current r) (rl_max r).
Record rlimit64 := mkRlimit64 { rlim_cur : Z; rlim_max : Z }.

Definition Rlimit_from (value : Z) : Rlimit := mkRlimit value value.

(** [Rlimits]: one entry per resource, indexed by its number. *)
Abbreviation Rlimits := (list Rlimit).
Definition Rlimits_default : Rlimits :=
  <[Z.to_nat RLIMIT_NOFILE := Rlimit_from AX_FILE_LIMIT]>
    (<[Z.to_nat RLIMIT_STACK := Rlimit_from USER_STACK_SIZE]>
       (replicate (Z.to_nat RLIM_NLIMITS) (mkRlimit 0 0))).

(** The limits of each process, and user memory. *)
Record RlimSys (V : Type) := mkRlimSys { rs_rlim : gmap Z Rlimits; rs_vm : V }.
Arguments mkRlimSys {_}.
Arguments rs_rlim {_}.
Arguments rs_vm {_}.
#[export] Instance eta_RlimSys {V} : Eta (RlimSys V) := λ s, mkRlimSys (rs_rlim s) (rs_vm s).

Section rlimits.
Context {V : Type} `{VmPtr V rlimit64}.
Abbreviation S := (RlimSys V).

Definition on_rlim_vm {A} (f : M V A) : M S A := λ s,
  let '(r, v) := f (rs_vm s) in (r, s <| rs_vm := v |>).

(** [get_process_data(pid)] and the index of the resource; [cur] is the
    current process. *)
Definition get_process_data (cur pid : Z) : M S Z := λ s,
  (if pid =? 0 then Ok cur
   else match rs_rlim s !! pid with Some _ => Ok pid | None => Err NoSuchProcess end, s).
Definition get_limit (pid resource : Z) : M S Rlimit := λ s,
  (l ← unwrap (rs_rlim s !! pid); unwrap (l !! Z.to_nat resource), s).
Definition set_limit (pid resource : Z) (l : Rlimit) : M S unit :=
  modifyM (λ s, s <| rs_rlim ::= alter <[Z.to_nat resource := l]> pid |>).

(** The second half of the call: [new_limit] is not null. *)
Definition install_limit (pid resource new_limit : Z) : M S Z :=
  s ← getM;
  new ← liftR (vm_read (T := rlimit64) (rs_vm s) new_limit);
  if rlim_max new <? rlim_cur new then failM InvalidInput
  else
    limit ← get_limit pid resource;
    if rlim_max new <=? rl_max limit then
      set_limit pid resource (mkRlimit (rlim_cur new) (rlim_max new));; mret 0
    else mret 0.

Definition sys_prlimit64 (cur pid resource new_limit old_limit : Z) : M S Z :=
  if RLIM_NLIMITS <=? resource then failM InvalidInput
  else
    pid ← get_process_data cur pid;
    when_not_null old_limit
      (limit ← get_limit pid resource;
       on_rlim_vm (vm_write old_limit (mkRlimit64 (rl_current limit) (rl_max limit))));;
    if new_limit =? 0 then mret 0 else install_limit pid resource new_limit.
End rlimits.

(** [struct Rusage]; [collate] adds the times, which panics on overflow. *)
Record Rusage := mkRusage { ru_utime : TimeValue; ru_stime : TimeValue }.
Definition Rusage_default : Rusage := mkRusage 0 0.
Definition Rusage_from_thread (t : TimeManager) : Rusage :=
  let '(utime, stime) := tm_output t in mkRusage utime stime.
Definition collate (x y : Rusage) : res Rusage :=
  utime ← tv_add (ru_utime x) (ru_utime y);
  stime ← tv_add (ru_stime x) (ru_stime y);
  Ok (mkRusage utime stime).

(** The fold over the thread ids of the process; [skip] drops threads. *)
Fixpoint collate_threads (threads : gmap Z TimeManager) (skip : Z → bool)
    (tids : list Z) (acc : Rusage) : res Rusage :=
  match tids with
  | [] => Ok acc
  | tid :: rest =>
      acc' ← (match threads !! tid with
              | Some t => if skip tid then Ok acc else collate acc (Rusage_from_thread t)
              | None => Ok acc
              end);
      collate_threads threads skip rest acc'
  end.

(** The usage [sys_getrusage] writes; [tids] are the threads of the process. *)
Definition rusage_of (cur : Z) (tids : list Z) (threads : gmap Z TimeManager) (who : Z)
    : res Rusage :=
  if who =? RUSAGE_SELF then collate_threads threads (λ _, false) tids Rusage_default
  else if who =? RUSAGE_CHILDREN then
    collate_threads threads (λ tid, tid =? cur) tids Rusage_default
  else if who =? RUSAGE_THREAD then
    t ← unwrap (threads !! cur); Ok (Rusage_from_thread t)
  else Err InvalidInput.

Section rusage.
Context {V : Type} `{VmPtr V (timeval * timeval)}.

(** The user time and system time fields of the C structure; the others are 0. *)
Definition sys_getrusage (cur : Z) (tids : list Z) (threads : gmap Z TimeManager)
    (who usage : Z) : M V Z :=
  r ← liftR (rusage_of cur tids threads who);
  vm_write usage (from_time_value (T := timeval) (ru_utime r),
                  from_time_value (T := timeval) (ru_stime r));;
  mret 0.
End rusage.

(** ** Lemmas *)

Lemma from_into_timeval t tv :
  tv_sec t < 2 ^ 63 → try_into_time_value t = Ok tv → from_time_value (T := timeval) tv = t.
Proof.
  intros Hs. destruct t as [s u]; cbn in *.
  destruct (Z.ltb_spec u 0), (Z.ltb_spec 999999 u), (Z.ltb_spec s 0); cbn; try done.
  rewrite as_u64_small, !as_u32_small by (unfold in_u64, in_u32; rewrite ?as_u32_small; unfold in_u32; lia).
  intros [= <-]. unfold subsec_micros.
  destruct (tv_split s (u * 1000)) as [-> ->]; [unfold NANOS_PER_SEC; lia|].
  by rewrite as_i64_small, Z.div_mul by lia.
Qed.

Lemma set_itimer_spec wall cur ty interval remained t a :
  in_u64 wall → in_u64 interval → in_u64 remained →
  ∃ a', set_itimer wall cur ty interval remained (t, a)
    = (Ok (get_itimer ty t), (set_itimer_of ty (mkITimer interval remained) t, a')).
Proof.
  intros Hw Hi Hr. unfold set_itimer, ITimer_new. unfold_m.
  destruct (renew_timer_spec wall cur (mkITimer interval remained) a) as [a' ->]; [done..|].
  by exists a'.
Qed.

Lemma itimer_of_set ty i t : itimer_of ty (set_itimer_of ty i t) = i.
Proof. by destruct ty. Qed.

#[local] Arguments try_into_time_value : simpl never.
#[local] Arguments from_time_value : simpl never.
#[local] Arguments set_itimer : simpl never.

Section itimer_lemmas.
Context {V : Type} `{VmPtr V timespec} `{VmPtr V timeval} `{VmPtr V itimerval} `{VmPtr V Tms}.
Implicit Types s : TimeSys V.

(** A call that ends with one write to user memory. *)
Definition then_write {T} `{VmPtr V T} (p : Z) (x : T) : M (TimeSys V) Z :=
  on_time_vm (vm_write p x);; mret 0.

Lemma then_write_run {T} `{VmPtr V T} p (x : T) s :
  (then_write p x s).1 = ((_ ← vm_write p x; mret 0) (ty_vm s)).1
  ∧ ty_vm (then_write p x s).2 = (vm_write p x (ty_vm s)).2.
Proof.
  unfold then_write, on_time_vm. unfold_m. by destruct (vm_write p x (ty_vm s)) as [[] ?].
Qed.

Lemma getitimer_run s cur which ty t p :
  ITimerType_from_repr which = Some ty → ty_threads s !! cur = Some t →
  sys_getitimer cur which p s
  = then_write p (timer_value (get_itimer ty t).1 (get_itimer ty t).2) s.
Proof.
  intros Hty Ht. unfold sys_getitimer, then_write, current_time. unfold_m.
  rewrite Hty. cbn. by rewrite Ht.
Qed.

Lemma setitimer_run s cur wall which ty t v new i r :
  ITimerType_from_repr which = Some ty → ty_threads s !! cur = Some t →
  in_u64 wall → new ≠ 0 → vm_read (ty_vm s) new = Ok v →
  try_into_time_value (it_interval v) = Ok i → try_into_time_value (it_value v) = Ok r →
  in_u64 i → in_u64 r →
  ∃ a', let s' := s <| ty_threads ::= <[cur := set_itimer_of ty (mkITimer i r) t]> |>
                    <| ty_alarm := a' |> in
    ∀ old, sys_setitimer cur wall which new old s =
      if old =? 0 then (Ok 0, s')
      else then_write old (timer_value (get_itimer ty t).1 (get_itimer ty t).2) s'.
Proof.
  intros Hty Ht Hw Hnew Hv Hi Hr Hui Hur.
  destruct (set_itimer_spec wall cur ty i r t (ty_alarm s) Hw Hui Hur) as [a' Hset].
  exists a'. intros s' old.
  unfold sys_setitimer, when_not_null, read_time_vm, on_time, then_write. unfold_m. cbn.
  rewrite Hty. cbn. rewrite (proj2 (Z.eqb_neq new 0)) by done. rewrite Hv, Hi, Hr. cbn.
  unfold as_nanos. rewrite Ht, !as_u64_small, Hset by done. cbn.
  destruct (old =? 0); [done|].
  by destruct (on_time_vm _ _) as [[] ?].
Qed.
End itimer_lemmas.

Section rlim_lemmas.
Context {V : Type} `{VmPtrOk V rlimit64}.
Implicit Types s : RlimSys V.

(** Every process has its limits, the soft one within the hard one. *)
Definition rlim_ok (l : Rlimits) : Prop :=
  length l = Z.to_nat RLIM_NLIMITS ∧ ∀ i r, l !! i = Some r → rl_current r ≤ rl_max r.
Definition rlims_ok s : Prop := map_Forall (λ _, rlim_ok) (rs_rlim s).

(** [hard s pid i] is the hard limit of a process. *)
Definition hard s (pid : Z) (i : nat) : option Z := rs_rlim s !! pid ≫= λ l, rl_max <$> l !! i.

Lemma default_rlims_ok : rlim_ok Rlimits_default.
Proof.
  split; [done|]. intros i r Hi.
  do 16 (destruct i as [|i]; [cbn in Hi; injection Hi as <-; done|]). done.
Qed.

Lemma set_limit_ok s pid l i old new :
  rlims_ok s → rs_rlim s !! pid = Some l → l !! i = Some old →
  rl_current new ≤ rl_max new → rl_max new ≤ rl_max old →
  map_Forall (λ _, rlim_ok) (alter <[i := new]> pid (rs_rlim s))
  ∧ ∀ p j h', alter <[i := new]> pid (rs_rlim s) !! p ≫= (λ l, rl_max <$> l !! j) = Some h' →
      ∃ h, hard s p j = Some h ∧ h' ≤ h.
Proof.
  intros Hs Hl Hi Hc Hm. destruct (Hs _ _ Hl) as [Hlen Hall]. split.
  - intros p l'. cbn. rewrite lookup_alter_Some.
    intros [(-> & l0 & Hl0 & ->)|[_ Hp]]; [|by apply (Hs p)].
    assert (l0 = l) as -> by congruence. split; [by rewrite length_insert|].
    intros j r Hj. apply list_lookup_insert_Some in Hj as [(<- & <- & _)|[_ Hj]]; [done|].
    by eapply Hall.
  - intros p j h'. unfold hard. cbn. destruct (decide (p = pid)) as [->|Hne].
    + rewrite lookup_alter_eq, Hl. cbn. destruct (decide (i = j)) as [<-|Hij].
      * rewrite list_lookup_insert_eq by (by eapply lookup_lt_Some). intros [= <-].
        rewrite Hi. cbn. eauto.
      * rewrite list_lookup_insert_ne by done. eauto with lia.
    + rewrite lookup_alter_ne by done. intros He. exists h'. eauto with lia.
Qed.

Lemma get_limit_ok s pid resource :
  rlims_ok s → is_Some (rs_rlim s !! pid) → 0 ≤ resource < RLIM_NLIMITS →
  ∃ l r, rs_rlim s !! pid = Some l ∧ l !! Z.to_nat resource = Some r
    ∧ get_limit pid resource s = (Ok r, s).
Proof.
  intros Hs [l Hl] Hres. destruct (Hs _ _ Hl) as [Hlen _].
  destruct (lookup_lt_is_Some_2 l (Z.to_nat resource)) as [r Hr]; [rewrite Hlen; lia|].
  exists l, r. split_and!; try done. unfold get_limit. unfold_m. rewrite Hl. cbn. by rewrite Hr.
Qed.

(** What a call does to the limits: nothing, or one limit is replaced by a
    consistent one that is not higher. *)
Definition limit_lowered s s' : Prop :=
  rs_rlim s' = rs_rlim s
  ∨ ∃ pid l i old new, rs_rlim s !! pid = Some l ∧ l !! i = Some old
      ∧ rl_current new ≤ rl_max new ∧ rl_max new ≤ rl_max old
      ∧ rs_rlim s' = alter <[i := new]> pid (rs_rlim s).

Lemma limit_lowered_ok s s' : limit_lowered s s' → rlims_ok s →
  rlims_ok s' ∧ ∀ p j h', hard s' p j = Some h' → ∃ h, hard s p j = Some h ∧ h' ≤ h.
Proof.
  intros [He|(pid & l & i & old & new & Hl & Hi & Hc & Hm & He)] Hs.
  - unfold rlims_ok, hard. rewrite He. split; [done|]. eauto with lia.
  - unfold rlims_ok, hard. rewrite He. by eapply set_limit_ok.
Qed.

(** Writing the old limits changes only user memory. *)
Lemma write_old_limit s pid resource p :
  rlims_ok s → is_Some (rs_rlim s !! pid) → 0 ≤ resource < RLIM_NLIMITS →
  let '(r, s') := when_not_null p
    (limit ← get_limit pid resource;
     on_rlim_vm (vm_write p (mkRlimit64 (rl_current limit) (rl_max limit)))) s in
  r ≠ Panic ∧ rs_rlim s' = rs_rlim s.
Proof.
  intros Hs Hp Hres. unfold when_not_null. destruct (p =? 0); [by unfold_m|].
  destruct (get_limit_ok s pid resource Hs Hp Hres) as (l & lim & _ & _ & He).
  unfold_m. rewrite He. unfold on_rlim_vm.
  destruct (vm_write _ _ _) as [[] v] eqn:Hw; [done..|]. absurd_panic vm_write_no_panic.
Qed.

#[local] Arguments get_limit : simpl never.

Lemma install_limit_effect s pid resource new :
  rlims_ok s → is_Some (rs_rlim s !! pid) → 0 ≤ resource < RLIM_NLIMITS →
  let '(r, s') := install_limit pid resource new s in
  r ≠ Panic ∧ limit_lowered s s'
  ∧ ∀ x h, vm_read (rs_vm s) new = Ok x → hard s pid (Z.to_nat resource) = Some h →
      rlim_cur x ≤ rlim_max x → h < rlim_max x → r = Ok 0 ∧ s' = s.
Proof.
  intros Hs Hp Hres. unfold install_limit. unfold_m. cbn.
  destruct (vm_read (rs_vm s) new) as [x|e|] eqn:Hx; cbn;
    [|split_and!; [done|by left|done]|by apply vm_read_no_panic in Hx].
  destruct (Z.ltb_spec (rlim_max x) (rlim_cur x)).
  { split_and!; [done|by left|]. intros x' h [= ->]. lia. }
  destruct (get_limit_ok s pid resource Hs Hp Hres) as (l & lim & Hl & Hi & ->).
  destruct (Z.leb_spec (rlim_max x) (rl_max lim)); cbn.
  - split_and!; [done| |].
    + right. by exists pid, l, (Z.to_nat resource), lim, (mkRlimit (rlim_cur x) (rlim_max x)).
    + intros x' h [= ->] Hh. unfold hard in Hh. rewrite Hl in Hh. cbn in Hh.
      rewrite Hi in Hh. cbn in Hh. simplify_eq. lia.
  - by split_and!; [|left|].
Qed.

Lemma get_process_data_spec s cur pid :
  is_Some (rs_rlim s !! cur) →
  let who := if pid =? 0 then cur else pid in
  get_process_data cur pid s
  = (if decide (is_Some (rs_rlim s !! who)) then Ok who else Err NoSuchProcess, s).
Proof.
  intros Hc. unfold get_process_data. destruct (pid =? 0); cbn.
  - by rewrite decide_True.
  - destruct (rs_rlim s !! pid) eqn:He; [by rewrite decide_True by eauto|].
    rewrite decide_False; [done|]. by intros [? ?].
Qed.
End rlim_lemmas.

(** *** CPU masks *)

Lemma land_shiftl_testbit b i : 0 ≤ i → Z.land b (Z.shiftl 1 i) ≠ 0 ↔ Z.testbit b i = true.
Proof.
  intros Hi. rewrite Z.shiftl_1_l. pose proof (any_bit_pow2 b i Hi) as Ha.
  unfold any_bit in Ha. rewrite <- Ha. rewrite negb_true_iff, Z.eqb_neq. done.
Qed.

Lemma fill_mask_spec {K} `{CpuMaskOk K} bytes cpus : ∀ k,
  (∀ i, i ∈ cpus → (Z.to_nat (i / 8) < length bytes)%nat) →
  ∃ k', fill_mask bytes cpus k = Ok k'
    ∧ ∀ j, mask_get k' j = true ↔ mask_get k j = true
        ∨ j ∈ cpus ∧ ∃ b, bytes !! Z.to_nat (j / 8) = Some b
                         ∧ Z.land b (Z.shiftl 1 (j mod 8)) ≠ 0.
Proof.
  induction cpus as [|i cpus IH]; intros k Hb; simpl; [eexists; split; [done|set_solver]|].
  destruct (lookup_lt_is_Some_2 bytes (Z.to_nat (i / 8))) as [b Hi]; [apply Hb; left|].
  rewrite Hi. cbn.
  edestruct (IH (if negb (Z.land b (Z.shiftl 1 (i mod 8)) =? 0) then mask_set i k else k))
    as (k' & He & Hk'); [intros j Hj; apply Hb; by right|].
  exists k'. split; [done|]. intros j. rewrite Hk', elem_of_cons.
  clear IH Hb Hk' He. destruct (decide (j = i)) as [->|Hne].
  - assert ((∃ b', bytes !! Z.to_nat (i / 8) = Some b' ∧ Z.land b' (Z.shiftl 1 (i mod 8)) ≠ 0)
      ↔ Z.land b (Z.shiftl 1 (i mod 8)) ≠ 0) as -> by (rewrite Hi; naive_solver).
    destruct (Z.eqb_spec (Z.land b (Z.shiftl 1 (i mod 8))) 0); cbn; [tauto|].
    rewrite mask_get_set, Z.eqb_refl. tauto.
  - assert (mask_get (if negb (Z.land b (Z.shiftl 1 (i mod 8)) =? 0) then mask_set i k else k) j
      = mask_get k j) as ->; [|tauto].
    destruct (negb _); [|done]. by rewrite mask_get_set, (proj2 (Z.eqb_neq j i)).
Qed.

(** ** Main results *)

(** [setitimer] and [getitimer] agree.  Setting a timer of the calling
    thread to a valid value succeeds and hands the previous value to
    [old_value]; a [getitimer] right after it delivers the value that was set,
    to the microsecond. *)
Lemma setitimer_getitimer {V} `{VmPtr V timespec} `{VmPtr V timeval}
    `{VmPtr V itimerval} `{VmPtr V Tms} (s : TimeSys V) cur wall which ty t v new p i r :
  ITimerType_from_repr which = Some ty → ty_threads s !! cur = Some t →
  in_u64 wall → new ≠ 0 → vm_read (ty_vm s) new = Ok v →
  tv_sec (it_interval v) < 2 ^ 63 → tv_sec (it_value v) < 2 ^ 63 →
  try_into_time_value (it_interval v) = Ok i → try_into_time_value (it_value v) = Ok r →
  in_u64 i → in_u64 r →
  ∃ s', sys_setitimer cur wall which new 0 s = (Ok 0, s')
    ∧ ty_vm s' = ty_vm s
    ∧ (∀ old, old ≠ 0 → (sys_setitimer cur wall which new old s).1
         = ((_ ← vm_write old (timer_value (get_itimer ty t).1 (get_itimer ty t).2); mret 0)
              (ty_vm s)).1)
    ∧ (sys_getitimer cur which p s').1 = ((_ ← vm_write p v; mret 0) (ty_vm s)).1
    ∧ ty_vm (sys_getitimer cur which p s').2 = (vm_write p v (ty_vm s)).2.
Proof.
  intros Hty Ht Hw Hnew Hv Hs1 Hs2 Hi Hr Hui Hur.
  destruct (setitimer_run s cur wall which ty t v new i r) as [a' Hrun]; [done..|].
  set (s' := s <| ty_threads ::= _ |> <| ty_alarm := _ |>) in Hrun.
  exists s'. split_and!; [by rewrite Hrun|done|..].
  { intros old Hold. rewrite Hrun, (proj2 (Z.eqb_neq old 0)) by done.
    change (ty_vm s) with (ty_vm s'). by apply then_write_run. }
  all: rewrite (getitimer_run s' cur which ty (set_itimer_of ty (mkITimer i r) t));
    [|done|apply lookup_insert_eq]; unfold get_itimer; rewrite itimer_of_set; cbn;
    rewrite !time_value_from_nanos_id by done; unfold timer_value;
    rewrite (from_into_timeval _ _ Hs1 Hi), (from_into_timeval _ _ Hs2 Hr);
    replace (mkItimerval (it_interval v) (it_value v)) with v by (by destruct v);
    destruct (then_write_run p v s') as [Hw1 Hw2]; assumption.
Qed.

Inductive time_cell := Cts (x : timespec) | Ctv (x : timeval) | Cit (x : itimerval) | Ctms (x : Tms).
#[export] Instance tc_ts : VmPtr (cells time_cell) timespec := {|
  vm_read v p := match v !! p with Some (Cts x) => Ok x | _ => Err BadAddress end;
  vm_write p x := λ v, (Ok tt, <[p := Cts x]> v) |}.
#[export] Instance tc_tv : VmPtr (cells time_cell) timeval := {|
  vm_read v p := match v !! p with Some (Ctv x) => Ok x | _ => Err BadAddress end;
  vm_write p x := λ v, (Ok tt, <[p := Ctv x]> v) |}.
#[export] Instance tc_it : VmPtr (cells time_cell) itimerval := {|
  vm_read v p := match v !! p with Some (Cit x) => Ok x | _ => Err BadAddress end;
  vm_write p x := λ v, (Ok tt, <[p := Cit x]> v) |}.
#[export] Instance tc_tms : VmPtr (cells time_cell) Tms := {|
  vm_read v p := match v !! p with Some (Ctms x) => Ok x | _ => Err BadAddress end;
  vm_write p x := λ v, (Ok tt, <[p := Ctms x]> v) |}.

(** what a sleep returns.  For a valid request [nanosleep] succeeds
    exactly when strictly more time than requested has passed; otherwise it
    reports an interruption, also when the thread slept for exactly the
    requested time. *)
Lemma nanosleep_result {V} `{VmPtr V timespec} `{VmPtr V timeval}
    `{VmPtr V itimerval} `{VmPtr V Tms} (s : TimeSys V) start finish req (ts : timespec) tv :
  vm_read (ty_vm s) req = Ok ts → try_into_time_value ts = Ok tv → start ≤ finish →
  sys_nanosleep start finish req 0 s
  = (if decide (tv < finish - start) then Ok 0 else Err Interrupted, s).
Proof.
  intros Hts Htv Hle. unfold sys_nanosleep, read_time_vm, sleep_impl, sleep_result. unfold_m.
  cbn. rewrite Hts, Htv,  (proj2 (Z.leb_le start finish)) by done.
  unfold tv_checked_sub, when_not_null. unfold_m. cbn.
  destruct (Z.leb_spec (finish - start) tv); case_decide; done || lia.
Qed.

(** resource limits.  [prlimit64] by an existing process never panics,
    keeps the soft limit of every resource within the hard one and never
    raises a hard limit; it changes nothing when the new hard limit is above
    the old one, although it then reports success. *)
Lemma prlimit_limits {V} `{VmPtrOk V rlimit64} (s : RlimSys V) cur pid resource new old :
  rlims_ok s → is_Some (rs_rlim s !! cur) → 0 ≤ resource →
  let '(r, s') := sys_prlimit64 cur pid resource new old s in
  r ≠ Panic ∧ rlims_ok s'
  ∧ (∀ p j h', hard s' p j = Some h' → ∃ h, hard s p j = Some h ∧ h' ≤ h)
  ∧ (∀ x h, old = 0 → new ≠ 0 → resource < RLIM_NLIMITS → vm_read (rs_vm s) new = Ok x →
       hard s (if pid =? 0 then cur else pid) (Z.to_nat resource) = Some h →
       rlim_cur x ≤ rlim_max x → h < rlim_max x → r = Ok 0 ∧ s' = s).
Proof.
  intros Hs Hcur Hres. unfold sys_prlimit64.
  destruct (Z.leb_spec RLIM_NLIMITS resource) as [|Hlt].
  { unfold_m. split_and!; [done|done|eauto with lia|lia]. }
  unfold_m. rewrite get_process_data_spec by done.
  set (who := if pid =? 0 then cur else pid). case_decide as Hin; cbn.
  2:{ split_and!; [done|done|eauto with lia|]. intros x h _ _ _ _ Hh. unfold hard in Hh.
      destruct (rs_rlim s !! who); [|done]. destruct Hin. eauto. }
  pose proof (write_old_limit s who resource old Hs Hin ltac:(lia)) as Hold.
  unfold_m. destruct (when_not_null old _ s) as [r0 s1] eqn:Hw. destruct Hold as [Hnp Hr1].
  assert (old = 0 → s1 = s ∧ r0 = Ok None) as Hold0.
  { intros ->. unfold when_not_null in Hw. unfold_m. cbn in Hw. by injection Hw as <- <-. }
  assert (limit_lowered s s1) as Hl1 by (by left).
  destruct r0 as [r0|e|]; [| |done].
  2:{ destruct (limit_lowered_ok s s1 Hl1 Hs). split_and!; try done.
      intros x h Hz. by destruct (Hold0 Hz). }
  destruct (Z.eqb_spec new 0) as [->|Hnew].
  { destruct (limit_lowered_ok s s1 Hl1 Hs). split_and!; [done..|]. by intros x h _ ?. }
  pose proof (limit_lowered_ok s s1 Hl1 Hs) as [Hs1 _].
  rewrite <- Hr1 in Hin.
  pose proof (install_limit_effect s1 who resource new Hs1 Hin ltac:(lia)) as Hi.
  destruct (install_limit who resource new s1) as [r s']. destruct Hi as (Hnp' & Hl & Hq).
  unfold limit_lowered in Hl. rewrite Hr1 in Hl.
  destruct (limit_lowered_ok s s' Hl Hs) as [Hs' Hh]. split_and!; [done..|].
  intros x h Hz _ _ Hx. destruct (Hold0 Hz) as [-> _]. by apply Hq.
Qed.

(** [sched_setaffinity] builds the mask the caller described: when the
    mask can be loaded, the CPUs below [CPU_NUM] whose bit is set in it, and
    no others; the loop never indexes outside the loaded bytes. *)
Lemma setaffinity_mask {V K} `{VmPtr V (list Z)} `{CpuMaskOk K} cpu_num
    (vm_load : V → Z → Z → res (list Z)) cpusetsize ptr v bytes :
  0 ≤ cpu_num → 0 ≤ cpusetsize →
  vm_load v ptr (cpusetsize `min` div_ceil cpu_num 8) = Ok bytes →
  zlen bytes = cpusetsize `min` div_ceil cpu_num 8 →
  ∃ k : K, sys_sched_setaffinity cpu_num vm_load cpusetsize ptr v = Ok k
    ∧ ∀ j, mask_get k j = true ↔ 0 ≤ j < cpu_num
        ∧ ∃ b, 0 ≤ j ∧ bytes !! Z.to_nat (j / 8) = Some b ∧ Z.testbit b (j mod 8) = true.
Proof.
  intros Hc Hs Hload Hlen. unfold sys_sched_setaffinity. rewrite Hload. cbn.
  destruct (fill_mask_spec (K := K) bytes
    (seqZ 0 (((cpusetsize `min` div_ceil cpu_num 8) * 8) `min` cpu_num)) mask_new)
    as (k & He & Hk).
  { intros i Hi%elem_of_seqZ. unfold zlen in Hlen.
    assert (i / 8 < cpusetsize `min` div_ceil cpu_num 8) by (apply Z.div_lt_upper_bound; lia).
    pose proof (Z.div_pos i 8). lia. }
  exists k. split; [done|]. intros j. rewrite Hk, mask_get_new, elem_of_seqZ. split.
  - intros [|[Hj (b & Hb & Hbit)]]; [done|]. split; [lia|]. exists b.
    rewrite land_shiftl_testbit in Hbit by (apply Z.mod_pos_bound; lia). naive_solver lia.
  - intros [Hj (b & _ & Hb & Hbit)]. right. split.
    + apply lookup_lt_Some in Hb. unfold zlen in Hlen.
      pose proof (Z.div_mod j 8). pose proof (Z.mod_pos_bound j 8). lia.
    + exists b. rewrite land_shiftl_testbit by (apply Z.mod_pos_bound; lia). done.
Qed.

#[export] Instance toy_mask : CpuMask (gset Z) := {|
  mask_new := ∅; mask_set i k := {[i]} ∪ k; mask_get k i := bool_decide (i ∈ k);
  mask_as_bytes k := [] |}.
#[export] Instance toy_mask_ok : CpuMaskOk (gset Z).
Proof.
  split; cbn.
  - intros i. by rewrite bool_decide_false by set_solver.
  - intros i j k. destruct (Z.eqb_spec j i); [rewrite bool_decide_true by set_solver; done|].
    apply bool_decide_ext. set_solver.
Qed.
