(* ===== verification/Futex.v ===== *)
(** * Futexes

    [core/src/futex.rs] (wait queues, keys, tables and their guards),
    [futex_table_for] and [FutexTables] of [core/src/task.rs], the [futex]
    system call of [api/src/syscall/sync/futex.rs], and the futex work of an
    exiting thread ([handle_futex_death], [exit_robust_list] and the start of
    [do_exit] in [api/src/task.rs]).

    A call runs atomically up to the point where it blocks or drops the guard of
    its futex; a blocked call is an entry of [fx_waiting], which holds the
    guard, and continues by [futex_resume].  The drop of a guard is not atomic:
    it is an entry of [fx_drops] and makes its steps ([drop_step]) among those of
    other threads.  [FutexRace] shows what happens when somebody takes the futex
    between them. *)

From S2P Require Import Prelude Vm Time.

(** ** [WaitQueue]

    A queue of wakers with their bitsets.  A waker is the id of the blocked
    wait it belongs to. *)

Abbreviation WaitQueue := (list (Z * Z)).

(** The first poll of [wait_if]: [None] when the condition does not hold. *)
Definition wait_if (waker bitset : Z) (condition : bool) (q : WaitQueue) : option WaitQueue :=
  if negb condition then None else Some (q ++ [(waker, bitset)]).

(** The [retain] loop of [wake]; returns the wakers called, their number and
    the queue that is left. *)
Fixpoint wake_retain (count mask woke : Z) (q : WaitQueue) : list Z * Z * WaitQueue :=
  match q with
  | [] => ([], woke, [])
  | (waker, bitset) :: rest =>
      if (count <=? woke) || (Z.land bitset mask =? 0) then
        let '(called, n, kept) := wake_retain count mask woke rest in
        (called, n, (waker, bitset) :: kept)
      else
        let '(called, n, kept) := wake_retain count mask (woke + 1) rest in
        (waker :: called, n, kept)
  end.
Definition wake (count mask : Z) (q : WaitQueue) : list Z * Z * WaitQueue :=
  wake_retain count mask 0 q.

(** Returns the number moved, the source and the target queue. *)
Definition requeue (count : Z) (q target : WaitQueue) : Z * WaitQueue * WaitQueue :=
  let count := count `min` zlen q in
  let tasks := take (Z.to_nat count) q in
  let q' := drop (Z.to_nat count) q in
  (count, q', if bool_decide (tasks = []) then target else target ++ tasks).

(** ** Keys and tables *)

(** [FutexKey]; a region is the address of the shared pages or of the file's
    futex handle. *)
Inductive FutexKey :=
| Private (address : Z)
| Shared (offset region : Z).

(** [find_area] is [AddrSpace::find_area]: the start of the area an address
    lies in, and the region when its backend is shared memory or a file. *)
Definition FutexKey_new (find_area : Z → option (Z * option Z)) (address : Z) : FutexKey :=
  match find_area address with
  | Some (start, Some region) => Shared (address - start) region
  | _ => Private address
  end.

Definition as_usize (key : FutexKey) : Z :=
  match key with Private address => address | Shared offset _ => offset end.

(** A futex table is that of a process or that of a region. *)
Inductive TableId := ProcTable (pid : Z) | RegionTable (region : Z).

Definition futex_table_for (pid : Z) (key : FutexKey) : TableId :=
  match key with Private _ => ProcTable pid | Shared _ region => RegionTable region end.

#[export] Instance TableId_eq_dec : EqDecision TableId.
Proof. solve_decision. Defined.
#[export] Instance TableId_countable : Countable TableId.
Proof.
  refine (inj_countable' (λ t, match t with ProcTable p => inl p | RegionTable r => inr r end)
    (λ x, match x with inl p => ProcTable p | inr r => RegionTable r end) _).
  by intros [].
Defined.

(** [FutexTables]: the tables of the regions; [in_use] says that somebody else
    holds the table or that it is not empty. *)
Record FutexTables := mkFutexTables { ft_map : gset Z; ft_operations : Z }.
#[export] Instance eta_FutexTables : Eta FutexTables := λ t,
  mkFutexTables (ft_map t) (ft_operations t).

Definition tables_get_or_insert (in_use : Z → bool) (key : Z) (t : FutexTables) : FutexTables :=
  let t := t <| ft_operations ::= λ n, add_u64 n 1 |> in
  let t := if ft_operations t =? 100
           then t <| ft_operations := 0 |> <| ft_map ::= filter (λ r, in_use r = true) |>
           else t in
  t <| ft_map ::= λ m, {[key]} ∪ m |>.

(** [FutexEntry] *)
Record FutexEntry := mkFutexEntry { wq : WaitQueue; owner_dead : bool }.
#[export] Instance eta_FutexEntry : Eta FutexEntry := λ e, mkFutexEntry (wq e) (owner_dead e).
Definition FutexEntry_new : FutexEntry := mkFutexEntry [] false.

(** An address in a table. *)
Abbreviation slot := (TableId * Z)%type.

(** A blocked wait: the guard it holds (slot and entry), whether its waker has
    been called. *)
Record Waiting := mkWaiting { w_slot : slot; w_entry : Z; w_woken : bool }.
#[export] Instance eta_Waiting : Eta Waiting := λ w, mkWaiting (w_slot w) (w_entry w) (w_woken w).

(** A guard in its [drop], and where it is: before it reads the count, before it
    looks into the queue, before it removes the entry from the table, and
    before its reference is gone. *)
Inductive DropPc := D_Count | D_Empty | D_Remove | D_Release.
Record Drop := mkDrop { d_slot : slot; d_entry : Z; d_pc : DropPc }.
#[export] Instance eta_Drop : Eta Drop := λ d, mkDrop (d_slot d) (d_entry d) (d_pc d).

(** All tables as one map from slots; entries are shared objects ([Arc]), so
    they have ids of their own. *)
Record FutexSys := mkFutexSys {
  fx_table : gmap slot Z;
  fx_entries : gmap Z FutexEntry;
  fx_next : Z;                     (* the next id of an entry, wait or drop *)
  fx_waiting : gmap Z Waiting;
  fx_drops : gmap Z Drop;
}.
#[export] Instance eta_FutexSys : Eta FutexSys := λ s,
  mkFutexSys (fx_table s) (fx_entries s) (fx_next s) (fx_waiting s) (fx_drops s).

Definition entry_of (s : FutexSys) (e : Z) : FutexEntry :=
  default FutexEntry_new (fx_entries s !! e).

Definition table_get (k : slot) : M FutexSys (option Z) := λ s, (Ok (fx_table s !! k), s).

Definition table_get_or_insert (k : slot) : M FutexSys Z := λ s,
  match fx_table s !! k with
  | Some e => (Ok e, s)
  | None =>
      let e := fx_next s in
      (Ok e, s <| fx_table ::= <[k := e]> |> <| fx_entries ::= <[e := FutexEntry_new]> |>
               <| fx_next := e + 1 |>)
  end.

(** [Arc::strong_count]: the table, the blocked waits and the guards being
    dropped, those whose reference is still there included *)
Definition strong_count (s : FutexSys) (e : Z) : Z :=
  Z.of_nat (size (filter (λ kv, kv.2 = e) (fx_table s)))
  + Z.of_nat (size (filter (λ kv, w_entry kv.2 = e) (fx_waiting s)))
  + Z.of_nat (size (filter (λ kv, d_entry kv.2 = e) (fx_drops s))).

(** A guard goes out of scope: its [drop] begins, *)
Definition guard_drop (k : slot) (e : Z) : M FutexSys unit :=
  modifyM (λ s, s <| fx_drops ::= <[fx_next s := mkDrop k e D_Count]> |> <| fx_next ::= λ n, n + 1 |>).

(** and this is one step of [FutexGuard::drop]. *)
Definition drop_step (id : Z) (s : FutexSys) : FutexSys :=
  match fx_drops s !! id with
  | None => s
  | Some d =>
      let goto pc (s : FutexSys) := s <| fx_drops ::= <[id := d <| d_pc := pc |>]> |> in
      match d_pc d with
      | D_Count => goto (if strong_count s (d_entry d) <=? 2 then D_Empty else D_Release) s
      | D_Empty => goto (if bool_decide (wq (entry_of s (d_entry d)) = []) then D_Remove else D_Release) s
      | D_Remove => goto D_Release (s <| fx_table ::= delete (d_slot d) |>)
      | D_Release => s <| fx_drops ::= delete id |>
      end
  end.

Definition on_entry {A} (e : Z) (f : M FutexEntry A) : M FutexSys A := λ s,
  let '(r, en) := f (entry_of s e) in (r, s <| fx_entries ::= <[e := en]> |>).

(** Calls the wakers: the waits they belong to continue, if they still exist. *)
Definition call_wakers (ws : list Z) (m : gmap Z Waiting) : gmap Z Waiting :=
  foldr (λ w, alter (λ x, x <| w_woken := true |>) w) m ws.

Definition entry_wake (e count mask : Z) : M FutexSys Z := λ s,
  let '(called, n, kept) := wake count mask (wq (entry_of s e)) in
  (Ok n, s <| fx_entries ::= <[e := (entry_of s e) <| wq := kept |>]> |>
           <| fx_waiting ::= call_wakers called |>).

Definition entry_requeue (e target count : Z) : M FutexSys Z := λ s,
  if decide (e = target) then
    (* the drained wakers go back to the end of the same queue *)
    let '(n, kept, _) := requeue count (wq (entry_of s e)) [] in
    let moved := take (Z.to_nat n) (wq (entry_of s e)) in
    (Ok n, s <| fx_entries ::= <[e := (entry_of s e) <| wq := kept ++ moved |>]> |>)
  else
    let '(n, kept, target') := requeue count (wq (entry_of s e)) (wq (entry_of s target)) in
    (Ok n, s <| fx_entries ::= <[e := (entry_of s e) <| wq := kept |>]> |>
             <| fx_entries ::= <[target := (entry_of s target) <| wq := target' |>]> |>).

(** ** The system call *)

(** Values of the Linux ABI *)
Definition FUTEX_WAIT : Z := 0.
Definition FUTEX_WAKE : Z := 1.
Definition FUTEX_REQUEUE : Z := 3.
Definition FUTEX_CMP_REQUEUE : Z := 4.
Definition FUTEX_WAIT_BITSET : Z := 9.
Definition FUTEX_WAKE_BITSET : Z := 10.
Definition FUTEX_CMD_MASK : Z := 0xFFFFFE7F.

Definition assert_unsigned (value : Z) : res Z :=
  if as_i32 value <? 0 then Err InvalidInput else Ok value.

(** A call returns a number, or blocks in a wait with an optional timeout. *)
Inductive futex_outcome :=
| Returns (n : Z)
| Blocks (w : Z) (timeout : option TimeValue).

Section call.
Context {V : Type} `{VmPtr V Z} `{VmPtr V timespec}.

(** [pid] is the calling process, [v] its memory, [find_area] its areas. *)
Definition slot_of (find_area : Z → option (Z * option Z)) (pid uaddr : Z) : slot :=
  let key := FutexKey_new find_area uaddr in (futex_table_for pid key, as_usize key).

(** The optional timeout argument. *)
Definition read_timeout (v : V) (timeout : Z) : res (option TimeValue) :=
  if timeout =? 0 then Ok None
  else ts ← vm_read (T := timespec) v timeout;
       t ← try_into_time_value ts; Ok (Some t).

Definition futex_wait (v : V) (k : slot) (uaddr value bitset timeout : Z)
    : M FutexSys futex_outcome :=
  word ← liftR (vm_read (T := Z) v uaddr);
  if negb (word =? value) then failM WouldBlock
  else
    timeout ← liftR (read_timeout v timeout);
    e ← table_get_or_insert k;
    s ← getM;
    let condition := match vm_read (T := Z) v uaddr with Ok x => x =? value | _ => false end in
    match wait_if (fx_next s) bitset condition (wq (entry_of s e)) with
    | Some q =>
        modifyM (λ s, s <| fx_entries ::= <[e := (entry_of s e) <| wq := q |>]> |>
          <| fx_waiting ::= <[fx_next s := mkWaiting k e false]> |>
          <| fx_next ::= λ n, n + 1 |>);;
        mret (Blocks (fx_next s) timeout)
    | None => guard_drop k e;; failM WouldBlock
    end.

Definition futex_wake (k : slot) (value bitset : Z) : M FutexSys futex_outcome :=
  futex ← table_get k;
  count ← (match futex with
           | Some e => n ← entry_wake e value bitset; guard_drop k e;; mret n
           | None => mret 0
           end);
  mret (Returns count).

(** [k2] is the slot of [uaddr2], [value2] the number passed as timeout. *)
Definition futex_requeue (v : V) (k k2 : slot) (cmp : bool) (uaddr value value2 value3 : Z)
    : M FutexSys futex_outcome :=
  liftR (assert_unsigned value);;
  (if cmp then
     word ← liftR (vm_read (T := Z) v uaddr);
     if negb (word =? value3) then failM WouldBlock else mret tt
   else mret tt);;
  value2 ← liftR (assert_unsigned (as_u32 value2));
  futex ← table_get k;
  e2 ← table_get_or_insert k2;
  count ← (match futex with
           | Some e =>
               n ← entry_wake e value u32_max;
               n' ← (if n =? value then m ← entry_requeue e e2 value2; mret (n + m) else mret n);
               guard_drop k e;;
               mret n'
           | None => mret 0
           end);
  guard_drop k2 e2;;
  mret (Returns count).

Definition sys_futex (find_area : Z → option (Z * option Z)) (pid : Z) (v : V)
    (uaddr futex_op value timeout uaddr2 value3 : Z) : M FutexSys futex_outcome :=
  let k := slot_of find_area pid uaddr in
  let command := Z.land futex_op FUTEX_CMD_MASK in
  if (command =? FUTEX_WAIT) || (command =? FUTEX_WAIT_BITSET) then
    futex_wait v k uaddr value
      (if command =? FUTEX_WAIT_BITSET then value3 else u32_max) timeout
  else if (command =? FUTEX_WAKE) || (command =? FUTEX_WAKE_BITSET) then
    futex_wake k value (if command =? FUTEX_WAKE_BITSET then value3 else u32_max)
  else if (command =? FUTEX_REQUEUE) || (command =? FUTEX_CMP_REQUEUE) then
    futex_requeue v k (slot_of find_area pid uaddr2) (command =? FUTEX_CMP_REQUEUE)
      uaddr value timeout value3
  else failM Unsupported.
End call.

(** How a blocked wait ends: its waker was called, its timeout passed, or the
    thread was interrupted. *)
Inductive wait_end := Woken | TimeoutPassed | WasInterrupted.

(** The rest of a wait: the result of [wait_if], then [owner_dead], and the
    drop of the guard. *)
Definition futex_resume (w : Z) (why : wait_end) : M FutexSys Z := λ s,
  match fx_waiting s !! w with
  | None => (Panic, s)
  | Some x =>
      let e := w_entry x in
      let s := s <| fx_waiting ::= delete w |> in
      match why with
      | Woken =>
          let dead := owner_dead (entry_of s e) in
          let s := s <| fx_entries ::= <[e := (entry_of s e) <| owner_dead := false |>]> |> in
          (if dead then Err (Linux EOWNERDEAD) else Ok 0, (guard_drop (w_slot x) e s).2)
      | TimeoutPassed => (Err TimedOut, (guard_drop (w_slot x) e s).2)
      | WasInterrupted => (Err Interrupted, (guard_drop (w_slot x) e s).2)
      end
  end.

(** ** Exiting threads *)

Definition ROBUST_LIST_LIMIT : Z := 2048.

Section exit.
Context {V : Type} `{VmPtr V Z}.
Context (find_area : Z → option (Z * option Z)) (pid : Z) (v : V).

Definition handle_futex_death (entry offset : Z) : M FutexSys unit :=
  let address := entry + offset in
  if negb ((0 <=? address) && (address <=? u64_max)) then failM InvalidInput
  else
    let k := slot_of find_area pid address in
    futex ← table_get k;
    match futex with
    | None => mret tt
    | Some e =>
        on_entry e (modifyM (λ en, en <| owner_dead := true |>));;
        entry_wake e 1 u32_max;;
        guard_drop k e
    end.

(** The walk over the list; [limit] turns are left ([next] is the first word of
    a list entry). *)
Fixpoint walk_robust_list (limit : nat) (end_ptr pending offset entry : Z) : M FutexSys unit :=
  match limit with
  | O => failM FilesystemLoop
  | S limit =>
      if entry =? end_ptr then mret tt
      else
        next ← liftR (vm_read (T := Z) v entry);
        (if negb (entry =? pending) then handle_futex_death entry offset else mret tt);;
        match limit with
        | O => failM FilesystemLoop
        | S _ => walk_robust_list limit end_ptr pending offset next
        end
  end.

(** The head is three words: the first entry, the offset, the pending entry. *)
Definition exit_robust_list (head : Z) : M FutexSys unit :=
  first ← liftR (vm_read (T := Z) v head);
  offset ← liftR (vm_read (T := Z) v (head + 8));
  pending ← liftR (vm_read (T := Z) v (head + 16));
  walk_robust_list (Z.to_nat ROBUST_LIST_LIMIT) head pending (as_i64 offset) first.

(** The wake on [clear_child_tid] in [do_exit], after 0 was stored there. *)
Definition exit_clear_child_tid (clear_child_tid : Z) : M FutexSys unit :=
  let k := slot_of find_area pid clear_child_tid in
  futex ← table_get k;
  match futex with
  | Some e => entry_wake e 1 u32_max;; guard_drop k e
  | None => mret tt
  end.
End exit.

(** [get_robust_list] and [set_robust_list]: the head each thread of the task
    table has registered, and user memory *)
Section robust.
Context {V : Type} `{VmPtr V Z}.
Abbreviation St := (gmap Z Z * V)%type.
Definition ROBUST_HEAD_SIZE : Z := 24.

Definition put_word (p x : Z) : M St unit := λ '(heads, v), let '(r, v) := vm_write p x v in (r, (heads, v)).
Definition sys_get_robust_list (cur tid head size : Z) : M St Z :=
  s ← getM;
  h ← liftR (ok_or NoSuchProcess (s.1 !! (if tid =? 0 then cur else tid)));
  put_word head h;;
  put_word size ROBUST_HEAD_SIZE;;
  mret 0.
Definition sys_set_robust_list (cur head size : Z) : M St Z :=
  if negb (size =? ROBUST_HEAD_SIZE) then failM InvalidInput
  else modifyM (λ '(heads, v), (<[cur := head]> heads, v));; mret 0.

(** What a thread has set is what it gets, when the two places do not
    overlap. *)
Lemma robust_list_roundtrip `{!VmPtrOk V Z} cur head p q heads v s1 s2 :
  (∀ x v1 v2, vm_write q x v1 = (Ok tt, v2) → vm_read (T := Z) v2 p = vm_read v1 p) →
  sys_set_robust_list cur head ROBUST_HEAD_SIZE (heads, v) = (Ok 0, s1) → sys_get_robust_list cur 0 p q s1 = (Ok 0, s2) →
  vm_read s2.2 p = Ok head ∧ vm_read s2.2 q = Ok ROBUST_HEAD_SIZE ∧ s2.1 = <[cur := head]> heads.
Proof.
  intros Hq. unfold sys_set_robust_list, sys_get_robust_list, put_word. unfold_m. cbn. intros [= <-].
  cbn [fst]. rewrite lookup_insert_eq. cbn. destruct (vm_write p head v) as [[[]|e|] v1] eqn:E1; [|done..].
  destruct (vm_write q ROBUST_HEAD_SIZE v1) as [[[]|e|] v2] eqn:E2; [|done..]. intros [= <-]. cbn.
  split; [|split; [by eapply vm_read_write|done]]. rewrite (Hq _ _ _ E2). by eapply vm_read_write.
Qed.
End robust.

(** ** Queues *)

Definition matching (mask : Z) (x : Z * Z) : Prop := Z.land x.2 mask ≠ 0.
#[export] Instance matching_dec mask x : Decision (matching mask x).
Proof. unfold matching. apply _. Defined.

Lemma wake_retain_spec count mask q : ∀ woke, woke ≤ count →
  let '(called, n, kept) := wake_retain count mask woke q in
  called = (take (Z.to_nat (count - woke)) (filter (matching mask) q)).*1
  ∧ n = woke + zlen called ∧ n ≤ count
  ∧ filter (matching mask) kept = drop (Z.to_nat (count - woke)) (filter (matching mask) q)
  ∧ filter (λ x, ¬ matching mask x) kept = filter (λ x, ¬ matching mask x) q
  ∧ kept `sublist_of` q.
Proof.
  induction q as [|[w b] q IH]; intros woke Hle; simpl.
  { rewrite !filter_nil, take_nil, drop_nil, zlen_nil. split_and!; try done; lia. }
  destruct (Z.leb_spec count woke) as [Hge|Hlt]; simpl.
  { specialize (IH woke Hle). destruct (wake_retain count mask woke q) as [[called n] kept].
    destruct IH as (-> & -> & ? & Hm & Hn & Hs).
    replace (Z.to_nat (count - woke)) with 0%nat in * by lia. simpl in *.
    rewrite !filter_cons, Hm, Hn. split_and!; try done; by constructor. }
  destruct (Z.eqb_spec (Z.land b mask) 0) as [H0|Hm].
  - specialize (IH woke Hle). destruct (wake_retain count mask woke q) as [[called n] kept].
    destruct IH as (-> & -> & ? & Hm & Hn & Hs).
    rewrite !filter_cons_False by (unfold matching; simpl; tauto).
    rewrite !filter_cons_True by (unfold matching; simpl; tauto). rewrite Hm, Hn.
    split_and!; try done. by constructor.
  - specialize (IH (woke + 1) ltac:(lia)).
    destruct (wake_retain count mask (woke + 1) q) as [[called n] kept].
    destruct IH as (-> & -> & ? & Hk & Hn & Hs).
    replace (Z.to_nat (count - woke)) with (S (Z.to_nat (count - (woke + 1)))) by lia.
    rewrite (filter_cons_True (matching mask)) by done.
    rewrite (filter_cons_False (λ x, ¬ matching mask x)) by (unfold matching; simpl; tauto).
    rewrite Hk, Hn. simpl. rewrite zlen_cons. split_and!; try done; [lia|]. by constructor.
Qed.

(** What is not called stays. *)
Lemma wake_keeps count mask q called n kept w :
  0 ≤ count → wake count mask q = (called, n, kept) →
  w ∈ q.*1 → w ∈ called ∨ w ∈ kept.*1.
Proof.
  intros Hc Hw Hin. pose proof (wake_retain_spec count mask q 0 Hc) as Hs.
  unfold wake in Hw. rewrite Hw in Hs. destruct Hs as (-> & _ & _ & Hm & Hn & _).
  apply list_elem_of_fmap in Hin as ([w' b] & -> & Hin). simpl.
  destruct (decide (matching mask (w', b))) as [Hmt|Hmt].
  - assert ((w', b) ∈ filter (matching mask) q) as Hf by (by apply list_elem_of_filter).
    rewrite <- (take_drop (Z.to_nat (count - 0)) (filter (matching mask) q)) in Hf.
    apply elem_of_app in Hf as [Hf|Hf].
    + left. apply list_elem_of_fmap. by exists (w', b).
    + right. rewrite <- Hm in Hf. apply list_elem_of_filter in Hf as [_ Hf].
      apply list_elem_of_fmap. by exists (w', b).
  - assert ((w', b) ∈ filter (λ x, ¬ matching mask x) q) as Hf by (by apply list_elem_of_filter).
    rewrite <- Hn in Hf. apply list_elem_of_filter in Hf as [_ Hf].
    right. apply list_elem_of_fmap. by exists (w', b).
Qed.

(** A wake with room for everybody calls every matching waker. *)
Lemma wake_all count mask q called n kept w b :
  zlen q ≤ count → wake count mask q = (called, n, kept) →
  (w, b) ∈ q → Z.land b mask ≠ 0 → w ∈ called.
Proof.
  intros Hc Hw Hin Hb. pose proof (zlen_nonneg q).
  pose proof (wake_retain_spec count mask q 0 ltac:(lia)) as Hs.
  unfold wake in Hw. rewrite Hw in Hs. destruct Hs as (-> & _).
  rewrite take_ge.
  - apply list_elem_of_fmap. exists (w, b). split; [done|]. by apply list_elem_of_filter.
  - pose proof (length_filter (matching mask) q). unfold zlen in *. lia.
Qed.

Lemma requeue_spec count q target n q' target' :
  0 ≤ count → requeue count q target = (n, q', target') →
  n = count `min` zlen q
  ∧ q = take (Z.to_nat n) q ++ q' ∧ target' = target ++ take (Z.to_nat n) q.
Proof.
  intros Hc. unfold requeue. intros [= <- <- <-].
  split_and!; [done|by rewrite take_drop|].
  case_bool_decide as He; [|done]. by rewrite He, app_nil_r.
Qed.

(** ** The tables *)

(** A drop that has found nobody else at its futex and has not removed it yet:
    who takes the futex now takes one that is about to go. *)
Definition in_window (pc : DropPc) : bool := match pc with D_Empty | D_Remove => true | _ => false end.
Definition no_race (s : FutexSys) (k : slot) : Prop :=
  ∀ id d, fx_drops s !! id = Some d → d_slot d = k → in_window (d_pc d) = false.

(** Only the drop [id] refers to [e]. *)
Definition alone (s : FutexSys) (id e : Z) : Prop :=
  (∀ w x, fx_waiting s !! w = Some x → w_entry x ≠ e)
  ∧ (∀ id' d', fx_drops s !! id' = Some d' → d_entry d' = e → id' = id).
Definition drop_ok (s : FutexSys) (id : Z) (d : Drop) : Prop :=
  match d_pc d with
  | D_Count => fx_table s !! d_slot d = Some (d_entry d)
  | D_Empty => fx_table s !! d_slot d = Some (d_entry d) ∧ alone s id (d_entry d)
  | D_Remove => fx_table s !! d_slot d = Some (d_entry d) ∧ alone s id (d_entry d) ∧ wq (entry_of s (d_entry d)) = []
  | D_Release => True
  end.

Record futex_inv (s : FutexSys) : Prop := {
  fi_inj k k' e : fx_table s !! k = Some e → fx_table s !! k' = Some e → k = k';
  fi_table_fresh k e : fx_table s !! k = Some e → e < fx_next s;
  fi_wait_fresh w x : fx_waiting s !! w = Some x → w < fx_next s;
  fi_drop_fresh id d : fx_drops s !! id = Some d → id < fx_next s;
  fi_held w x : fx_waiting s !! w = Some x → fx_table s !! w_slot x = Some (w_entry x);
  fi_queued w x : fx_waiting s !! w = Some x → w_woken x = false →
    ∃ k e, fx_table s !! k = Some e ∧ w ∈ (wq (entry_of s e)).*1;
  fi_drop id d : fx_drops s !! id = Some d → drop_ok s id d;
}.

Lemma window_table s id d : futex_inv s → fx_drops s !! id = Some d → in_window (d_pc d) = true →
  fx_table s !! d_slot d = Some (d_entry d) ∧ alone s id (d_entry d).
Proof. intros I Hd Hw. pose proof (fi_drop s I id d Hd) as Ho. unfold drop_ok in Ho. destruct (d_pc d); naive_solver. Qed.
(** A futex that was taken without a race is not about to go. *)
Lemma window_other s k e id d : futex_inv s → fx_table s !! k = Some e → no_race s k →
  fx_drops s !! id = Some d → in_window (d_pc d) = true → d_entry d ≠ e.
Proof.
  intros I Hk Hr Hd Hw He. destruct (window_table s id d I Hd Hw) as [Ht _]. rewrite He in Ht.
  pose proof (fi_inj s I _ _ _ Ht Hk) as Hs. by rewrite (Hr id d Hd Hs) in Hw.
Qed.

(** The drops that remain true when the table keeps its entries and nobody new
    refers to an entry in a window *)
Lemma drop_ok_keep s s' id d : drop_ok s id d →
  (in_window (d_pc d) = true ∨ d_pc d = D_Count → fx_table s !! d_slot d = Some (d_entry d) →
     fx_table s' !! d_slot d = Some (d_entry d)) →
  (in_window (d_pc d) = true → alone s id (d_entry d) → alone s' id (d_entry d)) →
  (in_window (d_pc d) = true → wq (entry_of s (d_entry d)) = [] → wq (entry_of s' (d_entry d)) = []) → drop_ok s' id d.
Proof. unfold drop_ok. intros Ho Ht Ha Hq. destruct (d_pc d); cbn in *; naive_solver. Qed.

Lemma entry_of_insert t en n w ds e en' e' :
  entry_of (mkFutexSys t (<[e := en']> en) n w ds) e'
  = if decide (e' = e) then en' else entry_of (mkFutexSys t en n w ds) e'.
Proof.
  unfold entry_of; simpl. case_decide as Heq.
  - subst. by rewrite lookup_insert_eq.
  - by rewrite lookup_insert_ne.
Qed.

(** ** The drop of a guard *)

Lemma guard_drop_inv s k e : futex_inv s → fx_table s !! k = Some e → no_race s k → futex_inv (guard_drop k e s).2.
Proof.
  intros I Hk Hr. pose proof (window_other s k e) as Hother. split; cbn; try apply I.
  - intros k' e' Hk'. pose proof (fi_table_fresh s I _ _ Hk'). lia.
  - intros w x Hw. pose proof (fi_wait_fresh s I _ _ Hw). lia.
  - intros id d [[<- <-]|[_ Hd]]%lookup_insert_Some; [lia|]. pose proof (fi_drop_fresh s I _ _ Hd). lia.
  - intros id d [[<- <-]|[_ Hd]]%lookup_insert_Some; [done|].
    apply (drop_ok_keep s); [by apply (fi_drop s I)|done| |done]. intros Hw [Ha1 Ha2]. split; [done|]. cbn.
    intros id' d' [[<- <-]|[_ Hd']]%lookup_insert_Some He; [|by eapply Ha2]. by destruct (Hother id d I Hk Hr Hd Hw).
Qed.
Lemma guard_drop_no_race k' k e s : no_race s k' → no_race (guard_drop k e s).2 k'.
Proof. intros Hr id d. cbn. intros [[<- <-]|[_ Hd]]%lookup_insert_Some; [done|]. by eapply Hr. Qed.

(** With the table injective, a count of at most two says that nobody else
    refers to the entry. *)
Lemma strong_count_alone s id d : futex_inv s → fx_drops s !! id = Some d → fx_table s !! d_slot d = Some (d_entry d) →
  strong_count s (d_entry d) ≤ 2 → alone s id (d_entry d).
Proof.
  intros I Hd Hk. unfold strong_count. set (e := d_entry d) in *.
  set (mt := filter _ (fx_table s)). set (mw := filter _ (fx_waiting s)). set (md := filter _ (fx_drops s)).
  assert (mt !! d_slot d = Some e) as Ht by (by apply map_lookup_filter_Some).
  assert (md !! id = Some d) as Hi by (by apply map_lookup_filter_Some).
  assert (size mt ≠ 0%nat) by (rewrite map_size_non_empty_iff; intros E; by rewrite E, lookup_empty in Ht).
  rewrite <- (insert_delete_id md id d Hi), map_size_insert_None by apply lookup_delete_eq. intros Hle. split.
  - intros w x Hw He. assert (mw !! w = Some x) as Hm by (by apply map_lookup_filter_Some).
    assert (size mw ≠ 0%nat) by (rewrite map_size_non_empty_iff; intros E; by rewrite E, lookup_empty in Hm). lia.
  - intros id' d' Hd' He. destruct (decide (id' = id)) as [|Hne]; [done|exfalso].
    assert (delete id md !! id' = Some d') as Hm by (rewrite lookup_delete_ne by done; by apply map_lookup_filter_Some).
    assert (size (delete id md) ≠ 0%nat) by (rewrite map_size_non_empty_iff; intros E; by rewrite E, lookup_empty in Hm). lia.
Qed.

(** A drop moves on: the others are as they were. *)
Lemma drop_goto_inv s s' id d pc : futex_inv s → fx_drops s !! id = Some d →
  s' = s <| fx_drops ::= <[id := d <| d_pc := pc |>]> |> → drop_ok s id (d <| d_pc := pc |>) → futex_inv s'.
Proof.
  intros I Hd -> Hpc. split; cbn; try apply I.
  - intros id' d' [[<- _]|[_ Hd']]%lookup_insert_Some; by eapply (fi_drop_fresh s I).
  - assert (∀ x e, alone s x e → alone (s <| fx_drops ::= <[id := d <| d_pc := pc |>]> |>) x e) as Hal.
    { intros x e [Ha1 Ha2]. split; [done|]. cbn. intros id' d' [[<- <-]|[_ Hd']]%lookup_insert_Some He; by eapply Ha2. }
    intros id' d' [[<- <-]|[_ Hd']]%lookup_insert_Some; [by apply (drop_ok_keep s); auto|].
    apply (drop_ok_keep s); auto. by apply (fi_drop s I).
Qed.

Lemma drop_step_inv id s : futex_inv s → futex_inv (drop_step id s).
Proof.
  intros I. unfold drop_step. destruct (fx_drops s !! id) as [d|] eqn:Hd; [|done].
  pose proof (fi_drop s I id d Hd) as Hok. destruct (d_pc d) eqn:Hpc; unfold drop_ok in Hok; rewrite Hpc in Hok.
  - eapply (drop_goto_inv s); [done|done|reflexivity|]. destruct (Z.leb_spec (strong_count s (d_entry d)) 2); [|done].
    split; [done|]. by apply (strong_count_alone s id d).
  - eapply (drop_goto_inv s); [done|done|reflexivity|]. case_bool_decide; [|done]. destruct Hok. by split; [|split].
  - destruct Hok as (Hk & [Ha1 Ha2] & Hq).
    assert (∀ k e, fx_table s !! k = Some e → e ≠ d_entry d → delete (d_slot d) (fx_table s) !! k = Some e) as Hkeep.
    { intros k e Hke Hne. apply lookup_delete_Some. split; [congruence|done]. }
    assert (futex_inv (s <| fx_drops ::= <[id := d <| d_pc := D_Release |>]> |>)) as I0 by (by eapply (drop_goto_inv s); [done|done|reflexivity|]).
    split; cbn; try apply I0.
    + intros k k' e [_ H1]%lookup_delete_Some [_ H2]%lookup_delete_Some. by eapply (fi_inj s I).
    + intros k e [_ H1]%lookup_delete_Some. by eapply (fi_table_fresh s I).
    + intros w x Hw. apply Hkeep; [by eapply (fi_held s I)|by eapply Ha1].
    + intros w x Hw Hf. destruct (fi_queued s I w x Hw Hf) as (k & e & Hke & Hin). exists k, e. split; [|done].
      apply Hkeep; [done|]. intros ->. rewrite Hq in Hin. by apply elem_of_nil in Hin.
    + intros id' d' Hd'. pose proof (fi_drop _ I0 id' d' Hd') as Hok'. apply (drop_ok_keep _ _ _ _ Hok'); [|done..]. cbn.
      intros Hw Hke. apply Hkeep; [done|]. intros He. apply lookup_insert_Some in Hd' as [[<- <-]|[Hne Hd']]; [naive_solver|].
      apply Hne. symmetry. by eapply Ha2.
  - split; cbn; try apply I.
    + intros id' d' [_ Hd']%lookup_delete_Some. by eapply (fi_drop_fresh s I).
    + intros id' d' [_ Hd']%lookup_delete_Some. apply (drop_ok_keep s); auto; [by apply (fi_drop s I)|].
      intros _ [Ha1 Ha2]. split; [done|]. cbn. intros x dx [_ Hx]%lookup_delete_Some. by apply Ha2.
Qed.

(** ** Looking up *)

Lemma get_or_insert_inv s k :
  futex_inv s →
  ∃ e s', table_get_or_insert k s = (Ok e, s') ∧ futex_inv s' ∧ fx_drops s' = fx_drops s
    ∧ fx_table s' !! k = Some e ∧ fx_waiting s' = fx_waiting s
    ∧ (∀ k' e', fx_table s !! k' = Some e' →
         fx_table s' !! k' = Some e' ∧ entry_of s' e' = entry_of s e').
Proof.
  intros Hinv. unfold table_get_or_insert. destruct (fx_table s !! k) as [e|] eqn:Hk.
  { exists e, s. by split_and!. }
  set (e := fx_next s). eexists e, _. split; [done|].
  pose proof Hinv as [Hinj Htf Hwf Hdf Hheld Hqu Hdr].
  assert (∀ k' e', fx_table s !! k' = Some e' → k' ≠ k ∧ e' ≠ e) as Hold.
  { intros k' e' Hk'. split; [congruence|]. specialize (Htf _ _ Hk'). unfold e. lia. }
  set (s1 := s <| fx_table ::= <[k := e]> |> <| fx_entries ::= <[e := FutexEntry_new]> |> <| fx_next := e + 1 |>).
  assert (∀ k' e', fx_table s !! k' = Some e' → fx_table s1 !! k' = Some e' ∧ entry_of s1 e' = entry_of s e') as Heo.
  { intros k' e' Hk'. destruct (Hold k' e' Hk'). unfold s1. cbn. rewrite entry_of_insert, decide_False, lookup_insert_ne by done.
    split; [done|by destruct s]. }
  split_and!; [|done|cbn; by rewrite lookup_insert_eq|done|exact Heo]. split.
  - intros k1 k2 e1. cbn. rewrite !lookup_insert_Some. intros [[]|[]] [[]|[]]; subst; try done;
      [by edestruct Hold..|]. by eapply Hinj.
  - intros k1 e1. cbn. rewrite lookup_insert_Some. intros [[? <-]|[_ Hk1]]; [lia|].
    specialize (Htf _ _ Hk1). unfold e. lia.
  - intros w x Hw. specialize (Hwf _ _ Hw). cbn. unfold e. lia.
  - intros id d Hd. specialize (Hdf _ _ Hd). cbn. unfold e. lia.
  - intros w x Hw. eapply Heo. by eapply Hheld.
  - intros w x Hw Hwk. destruct (Hqu w x Hw Hwk) as (k1 & e1 & Hk1 & Hin). destruct (Heo _ _ Hk1) as [Hk1' He1].
    exists k1, e1. by rewrite He1.
  - intros id d Hd. apply (drop_ok_keep s); [by apply Hdr|intros _; apply Heo|done|].
    intros Hw. destruct (window_table s id d Hinv Hd Hw) as [Ht _]. by destruct (Heo _ _ Ht) as [_ ->].
Qed.

Lemma call_wakers_lookup ws m w :
  call_wakers ws m !! w
  = (λ x, if decide (w ∈ ws) then x <| w_woken := true |> else x) <$> m !! w.
Proof.
  induction ws as [|w' ws IH]; simpl.
  { by destruct (m !! w). }
  destruct (decide (w = w')) as [->|Hne].
  - rewrite lookup_alter_eq, IH. destruct (m !! w') as [x|]; simpl; [|done].
    rewrite (decide_True (P := w' ∈ w' :: ws)) by set_solver. by case_decide.
  - rewrite lookup_alter_ne, IH by done. destruct (m !! w); simpl; [|done].
    destruct (decide (w ∈ ws)); [rewrite decide_True by set_solver|rewrite decide_False by set_solver]; done.
Qed.

Lemma call_wakers_inv ws m w x' :
  call_wakers ws m !! w = Some x' →
  ∃ x, m !! w = Some x ∧ w_slot x' = w_slot x ∧ w_entry x' = w_entry x
    ∧ (w_woken x' = false → w_woken x = false ∧ w ∉ ws).
Proof.
  rewrite call_wakers_lookup. intros (x & -> & Hx)%fmap_Some. exists x. subst.
  case_decide; simpl; naive_solver.
Qed.

Lemma call_wakers_gone ws m : (∀ w, w ∈ ws → m !! w = None) → call_wakers ws m = m.
Proof.
  intros Hg. apply map_eq. intros w. rewrite call_wakers_lookup.
  destruct (m !! w) as [x|] eqn:Hx; [|done]. simpl. case_decide as Hin; [|done].
  by rewrite Hg in Hx.
Qed.

(** Replacing the queues of entries that no drop is about to remove: every
    waiter that is still to be woken stays in some queue. *)
Lemma queues_inv s s' ws :
  futex_inv s → fx_table s' = fx_table s → fx_next s' = fx_next s → fx_drops s' = fx_drops s →
  fx_waiting s' = call_wakers ws (fx_waiting s) →
  (∀ id d, fx_drops s !! id = Some d → in_window (d_pc d) = true → entry_of s' (d_entry d) = entry_of s (d_entry d)) →
  (∀ k e w, fx_table s !! k = Some e → w ∈ (wq (entry_of s e)).*1 → w ∉ ws →
     ∃ k' e', fx_table s !! k' = Some e' ∧ w ∈ (wq (entry_of s' e')).*1) →
  futex_inv s'.
Proof.
  intros I Ht Hn Hd Hw He Hq. split; rewrite ?Ht, ?Hn, ?Hd; try apply I.
  - intros w x. rewrite Hw. intros (y & Hy & _)%call_wakers_inv. by eapply (fi_wait_fresh s I).
  - intros w x. rewrite Hw. intros (y & Hy & -> & -> & _)%call_wakers_inv. by eapply (fi_held s I).
  - intros w x. rewrite Hw. intros (y & Hy & _ & _ & Hwk)%call_wakers_inv Hf.
    destruct (Hwk Hf) as [Hyw Hnin]. destruct (fi_queued s I w y Hy Hyw) as (k & e & Hk & Hin). eauto.
  - intros id d Hid. apply (drop_ok_keep s); [by apply (fi_drop s I)|by rewrite Ht| |by intros ?; rewrite (He id d)].
    intros _ [Ha1 Ha2]. split; [|by rewrite Hd]. intros w x. rewrite Hw.
    intros (y & Hy & _ & -> & _)%call_wakers_inv. by eapply Ha1.
Qed.

Lemma entry_wake_inv s k e count mask :
  0 ≤ count → futex_inv s → fx_table s !! k = Some e → no_race s k →
  ∃ n s', entry_wake e count mask s = (Ok n, s') ∧ 0 ≤ n ≤ count
    ∧ futex_inv s' ∧ fx_table s' = fx_table s ∧ fx_drops s' = fx_drops s.
Proof.
  intros Hc Hinv Hk Hr. unfold entry_wake.
  destruct (wake count mask (wq (entry_of s e))) as [[called n] kept] eqn:Hw.
  eexists n, _. split; [done|]. split_and!; cbn; [| | |done|done].
  - pose proof (wake_retain_spec count mask (wq (entry_of s e)) 0 Hc) as Hs.
    unfold wake in Hw. rewrite Hw in Hs. destruct Hs as (_ & -> & _).
    pose proof (zlen_nonneg called). lia.
  - pose proof (wake_retain_spec count mask (wq (entry_of s e)) 0 Hc) as Hs.
    unfold wake in Hw. rewrite Hw in Hs. apply Hs.
  - eapply (queues_inv s _ called); try done; cbn.
    + intros id d Hd Hwin. pose proof (window_other s k e id d Hinv Hk Hr Hd Hwin).
      rewrite entry_of_insert, decide_False by done. by destruct s.
    + intros k1 e1 w Hk1 Hin Hnin. exists k1, e1. split; [done|].
      rewrite entry_of_insert. case_decide as He; [subst|by destruct s].
      cbn. by edestruct (wake_keeps count mask).
Qed.

Lemma entry_requeue_inv s k e k2 e2 count :
  0 ≤ count → futex_inv s → fx_table s !! k = Some e → fx_table s !! k2 = Some e2 → no_race s k → no_race s k2 →
  ∃ n s', entry_requeue e e2 count s = (Ok n, s')
    ∧ futex_inv s' ∧ fx_table s' = fx_table s ∧ fx_drops s' = fx_drops s.
Proof.
  intros Hc Hinv Hk Hk2 Hr1 Hr2. unfold entry_requeue. case_decide as Heq.
  - subst e2. destruct (requeue count (wq (entry_of s e)) []) as [[n kept] t'] eqn:Hr.
    apply requeue_spec in Hr as (_ & Hq & _); [|done].
    eexists n, _. split; [done|]. split; [|done].
    eapply (queues_inv s _ []); try done; cbn.
    + intros id d Hd Hwin. pose proof (window_other s k e id d Hinv Hk Hr1 Hd Hwin).
      rewrite entry_of_insert, decide_False by done. by destruct s.
    + intros k1 e1 w Hk1 Hin _. exists k1, e1. split; [done|].
      rewrite entry_of_insert. case_decide; [subst|by destruct s]. cbn.
      rewrite Hq in Hin. rewrite fmap_app in Hin |- *. set_solver.
  - destruct (requeue count _ _) as [[n kept] t'] eqn:Hr.
    apply requeue_spec in Hr as (_ & Hq & ->); [|done].
    eexists n, _. split; [done|]. split; [|done].
    eapply (queues_inv s _ []); try done; cbn.
    + intros id d Hd Hwin. pose proof (window_other s k e id d Hinv Hk Hr1 Hd Hwin).
      pose proof (window_other s k2 e2 id d Hinv Hk2 Hr2 Hd Hwin).
      rewrite !entry_of_insert, !decide_False by done. by destruct s.
    + intros k1 e1 w Hk1 Hin _.
      destruct (decide (e1 = e)) as [->|Hne1].
      * rewrite Hq, fmap_app, elem_of_app in Hin. destruct Hin as [Hin|Hin].
        -- exists k2, e2. rewrite !entry_of_insert, decide_True by done. cbn.
           rewrite fmap_app. set_solver.
        -- exists k, e. rewrite !entry_of_insert, decide_False, decide_True by done. done.
      * destruct (decide (e1 = e2)) as [->|Hne2].
        -- exists k2, e2. rewrite !entry_of_insert, decide_True by done. cbn.
           rewrite fmap_app. set_solver.
        -- exists k1, e1. rewrite !entry_of_insert, !decide_False by done. by destruct s.
Qed.

#[local] Arguments entry_wake : simpl never.
#[local] Arguments entry_requeue : simpl never.
#[local] Arguments guard_drop : simpl never.
#[local] Arguments table_get_or_insert : simpl never.

Lemma no_race_drops s s' k : fx_drops s' = fx_drops s → no_race s k → no_race s' k.
Proof. unfold no_race. by intros ->. Qed.

(** Waking through a guard that is dropped afterwards. *)
Lemma wake_and_drop_inv s k e count mask :
  0 ≤ count → futex_inv s → fx_table s !! k = Some e → no_race s k →
  ∃ n s', (n ← entry_wake e count mask; guard_drop k e;; mret n) s = (Ok n, s')
    ∧ futex_inv s' ∧ (∀ k', no_race s k' → no_race s' k').
Proof.
  intros Hc Hinv Hk Hr.
  destruct (entry_wake_inv s k e count mask Hc Hinv Hk Hr) as (n & s1 & He & _ & Hinv1 & Ht & Hd).
  exists n, (guard_drop k e s1).2. split_and!; [by rewrite (bind_ok _ _ _ _ _ He)| |].
  - apply guard_drop_inv; [done|by rewrite Ht|by apply (no_race_drops s)].
  - intros k' Hk'. apply guard_drop_no_race. by apply (no_race_drops s).
Qed.

Section calls_inv.
Context {V : Type} `{VmPtr V Z} `{VmPtr V timespec}.

Lemma futex_wake_inv s k count mask :
  0 ≤ count → futex_inv s → no_race s k →
  ∃ n s', futex_wake k count mask s = (Ok (Returns n), s') ∧ futex_inv s'.
Proof.
  intros Hc Hinv Hr. unfold futex_wake, table_get. unfold_m.
  destruct (fx_table s !! k) as [e|] eqn:Hk; cbn; [|by exists 0, s].
  destruct (wake_and_drop_inv s k e count mask Hc Hinv Hk Hr) as (n & s' & He & Hinv' & _).
  exists n, s'. split; [unfold_m; by rewrite He|done].
Qed.

(** A wake with room for the whole queue wakes the waiters whose bitset it
    meets, whatever else is going on. *)
Lemma futex_wake_wakes s k e count mask w b x :
  fx_table s !! k = Some e → (w, b) ∈ wq (entry_of s e) → zlen (wq (entry_of s e)) ≤ count → Z.land b mask ≠ 0 →
  fx_waiting s !! w = Some x →
  ∃ n s', futex_wake k count mask s = (Ok (Returns n), s') ∧ ∃ x', fx_waiting s' !! w = Some x' ∧ w_woken x' = true.
Proof.
  intros Hk Hin Hlen Hb Hx. unfold futex_wake, table_get, entry_wake. unfold_m. rewrite Hk.
  destruct (wake count mask (wq (entry_of s e))) as [[called n] kept] eqn:Hw. eexists n, _. split; [done|].
  unfold guard_drop. cbn. rewrite call_wakers_lookup, Hx. simpl. eexists. split; [done|].
  by rewrite decide_True by (by eapply wake_all).
Qed.

Lemma block_inv s k e q b :
  futex_inv s → fx_table s !! k = Some e → no_race s k →
  wait_if (fx_next s) b true (wq (entry_of s e)) = Some q →
  futex_inv (s <| fx_entries ::= <[e := (entry_of s e) <| wq := q |>]> |>
               <| fx_waiting ::= <[fx_next s := mkWaiting k e false]> |>
               <| fx_next ::= λ n, n + 1 |>).
Proof.
  intros I Hk Hr [= <-]. split; cbn; try apply I.
  - intros k' e' Hk'. pose proof (fi_table_fresh s I _ _ Hk'). lia.
  - intros w x. rewrite lookup_insert_Some. intros [[<- _]|[_ Hw]]; [lia|].
    pose proof (fi_wait_fresh s I _ _ Hw). lia.
  - intros id d Hd. pose proof (fi_drop_fresh s I _ _ Hd). lia.
  - intros w x. rewrite lookup_insert_Some. intros [[_ <-]|[_ Hw]]; [done|by eapply (fi_held s I)].
  - intros w x. rewrite lookup_insert_Some. intros [[<- <-]|[_ Hw]] Hf.
    + exists k, e. rewrite entry_of_insert, decide_True by done. cbn.
      rewrite fmap_app. set_solver.
    + destruct (fi_queued s I w x Hw Hf) as (k' & e' & Hk' & Hin). exists k', e'. split; [done|].
      rewrite entry_of_insert. case_decide; [subst|by destruct s]. cbn.
      rewrite fmap_app. set_solver.
  - intros id d Hd. pose proof (window_other s k e id d I Hk Hr Hd) as Hne.
    apply (drop_ok_keep s); [by apply (fi_drop s I)|done| |].
    + intros Hw [Ha1 Ha2]. split; [|done]. cbn. intros w x [[_ <-]|[_ Hwx]]%lookup_insert_Some; [by apply not_eq_sym, Hne|by eapply Ha1].
    + intros Hw Hq. cbn. rewrite entry_of_insert, decide_False by auto. by destruct s.
Qed.

Lemma read_timeout_no_panic `{!VmPtrOk V timespec} v p : read_timeout v p ≠ Panic.
Proof.
  unfold read_timeout. destruct (p =? 0); [done|]. unfold_m.
  destruct (vm_read v p) as [ts| |] eqn:Hr; [|done|by apply vm_read_no_panic in Hr].
  cbn. by destruct (_ || _).
Qed.

Lemma futex_wait_inv `{!VmPtrOk V Z} `{!VmPtrOk V timespec} v s k uaddr value b timeout :
  futex_inv s → no_race s k →
  let '(r, s') := futex_wait v k uaddr value b timeout s in
  r ≠ Panic ∧ futex_inv s'
  ∧ (∀ o, r = Ok o → vm_read v uaddr = Ok value ∧ ∃ t, o = Blocks (fx_next s' - 1) t
       ∧ fx_waiting s' !! (fx_next s' - 1)
         = Some (mkWaiting k (default 0 (fx_table s' !! k)) false))
  ∧ (∀ e, r = Err e → s' = s).
Proof.
  intros Hinv Hrace. unfold futex_wait. unfold_m.
  destruct (vm_read v uaddr) as [word|e|] eqn:Hw; [| |by apply vm_read_no_panic in Hw];
    [|done].
  destruct (Z.eqb_spec word value) as [->|]; simpl; [|done].
  destruct (read_timeout v timeout) as [t|e|] eqn:Ht; [|done|by apply read_timeout_no_panic in Ht].
  destruct (get_or_insert_inv s k Hinv) as (e & s1 & He & Hinv1 & Hd & Hk & _ & _).
  rewrite He. cbn.
  split_and!; [done| | |done].
  - eapply block_inv; [done|done|by apply (no_race_drops s)|done].
  - intros o [= <-]. split; [done|]. exists t. rewrite Hk. simpl.
    replace (fx_next s1 + 1 - 1) with (fx_next s1) by lia. by rewrite lookup_insert_eq.
Qed.

Lemma assert_unsigned_ok x : 0 ≤ x → match assert_unsigned x with Ok y => y = x | Err _ => True | Panic => False end.
Proof. intros. unfold assert_unsigned. by destruct (as_i32 x <? 0). Qed.

(** The part of a requeue in which both guards are held. *)
Lemma requeue_guarded_inv s k e k2 e2 value value2 :
  0 ≤ value → 0 ≤ value2 → futex_inv s →
  fx_table s !! k = Some e → fx_table s !! k2 = Some e2 → no_race s k → no_race s k2 →
  ∃ n s', (n ← entry_wake e value u32_max;
           n' ← (if n =? value then m ← entry_requeue e e2 value2; mret (n + m) else mret n);
           guard_drop k e;; mret n') s = (Ok n, s')
    ∧ futex_inv s' ∧ fx_table s' !! k2 = Some e2 ∧ no_race s' k2.
Proof.
  intros Hv Hv2 Hinv Hk Hk2 Hr Hr2.
  destruct (entry_wake_inv s k e value u32_max Hv Hinv Hk Hr) as (n & s1 & He & _ & Hinv1 & Ht & Hd).
  rewrite (bind_ok _ _ _ _ _ He).
  assert (∃ m s2, (if n =? value then m ← entry_requeue e e2 value2; mret (n + m)
                   else mret n) s1 = (Ok m, s2)
    ∧ futex_inv s2 ∧ fx_table s2 = fx_table s ∧ fx_drops s2 = fx_drops s) as (m & s2 & Hm & Hinv2 & Ht2 & Hd2).
  { destruct (n =? value); [|by exists n, s1].
    destruct (entry_requeue_inv s1 k e k2 e2 value2 Hv2 Hinv1) as (m & s2 & Hrq & Hi & Ht2 & Hd2);
      [by rewrite Ht|by rewrite Ht|by apply (no_race_drops s)|by apply (no_race_drops s)|].
    exists (n + m), s2. rewrite (bind_ok _ _ _ _ _ Hrq). split_and!; [done|done|congruence..]. }
  rewrite (bind_ok _ _ _ _ _ Hm). exists m, (guard_drop k e s2).2. split_and!; [done| |change (fx_table s2 !! k2 = Some e2); by rewrite Ht2|].
  - apply guard_drop_inv; [done|by rewrite Ht2|by apply (no_race_drops s)].
  - apply guard_drop_no_race. by apply (no_race_drops s).
Qed.

Lemma futex_requeue_inv `{!VmPtrOk V Z} v s k k2 cmp uaddr value value2 value3 :
  0 ≤ value → futex_inv s → no_race s k → no_race s k2 →
  let '(r, s') := futex_requeue v k k2 cmp uaddr value value2 value3 s in
  r ≠ Panic ∧ futex_inv s'.
Proof.
  intros Hv Hinv Hrc Hrc2. unfold futex_requeue. unfold_m.
  pose proof (assert_unsigned_ok value Hv) as Ha. destruct (assert_unsigned value); [|done..].
  destruct (if cmp then _ else _) as [[[]|e|] s0] eqn:Hc.
  3:{ destruct cmp; [|done]. destruct (vm_read v uaddr) eqn:Hr; [|done|by apply vm_read_no_panic in Hr].
      by destruct (negb _). }
  2:{ assert (s0 = s) as ->; [|done]. destruct cmp; [|done].
      destruct (vm_read v uaddr); [destruct (negb _)|..]; by simplify_eq. }
  assert (s0 = s) as ->.
  { destruct cmp; [|by simplify_eq]. destruct (vm_read v uaddr); [destruct (negb _)|..]; by simplify_eq. }
  pose proof (assert_unsigned_ok (as_u32 value2)) as Ha2.
  destruct (assert_unsigned (as_u32 value2)) as [x|e|]; [|done|destruct Ha2; apply as_u32_in].
  assert (0 ≤ x) as Hx by (rewrite Ha2 by apply as_u32_in; apply as_u32_in).
  unfold table_get. cbn.
  destruct (get_or_insert_inv s k2 Hinv) as (e2 & s1 & -> & Hinv1 & Hd1 & Hk2 & _ & Hold).
  apply (no_race_drops s s1) in Hrc; [|done]. apply (no_race_drops s s1) in Hrc2; [|done].
  destruct (fx_table s !! k) as [e|] eqn:Hk; [|split; [done|by apply guard_drop_inv]].
  destruct (requeue_guarded_inv s1 k e k2 e2 value x Hv Hx Hinv1) as (n & s2 & He & Hinv2 & Ht2 & Hr2);
    [by apply Hold|done..|].
  unfold_m. rewrite He. cbn. split; [done|]. by apply guard_drop_inv.
Qed.
End calls_inv.

Lemma owner_dead_inv s e b :
  futex_inv s → futex_inv (s <| fx_entries ::= <[e := (entry_of s e) <| owner_dead := b |>]> |>).
Proof.
  intros I. set (s' := s <| fx_entries ::= _ |>).
  assert (∀ e', wq (entry_of s' e') = wq (entry_of s e')) as Hq.
  { intros e'. unfold s'. cbn. rewrite entry_of_insert. case_decide; [by subst|by destruct s]. }
  split; try apply I.
  - intros w x Hw Hf. destruct (fi_queued s I w x Hw Hf) as (k & e' & Hk & Hin). exists k, e'. by rewrite Hq.
  - intros id d Hd. apply (drop_ok_keep s); auto; [by apply (fi_drop s I)|]. intros _. by rewrite Hq.
Qed.

(** A wait that ends: its guard is dropped. *)
Lemma unwait_inv s w x : futex_inv s → fx_waiting s !! w = Some x →
  let s' := s <| fx_waiting ::= delete w |> in futex_inv s' ∧ no_race s' (w_slot x).
Proof.
  intros I Hw. split.
  - split; cbn; try apply I.
    + intros w' x' [_ ?]%lookup_delete_Some. by eapply (fi_wait_fresh s I).
    + intros w' x' [_ ?]%lookup_delete_Some. by eapply (fi_held s I).
    + intros w' x' [_ Hw']%lookup_delete_Some Hf. by eapply (fi_queued s I).
    + intros id d Hd. apply (drop_ok_keep s); auto; [by apply (fi_drop s I)|]. intros _ [Ha1 Ha2].
      split; [|done]. cbn. intros w' x' [_ Hw']%lookup_delete_Some. by eapply Ha1.
  - intros id d Hd Hs. destruct (in_window (d_pc d)) eqn:Hwin; [|done]. exfalso.
    destruct (window_table s id d I Hd Hwin) as [Ht [Ha _]]. apply (Ha w x Hw).
    pose proof (fi_held s I w x Hw) as Hh. rewrite <- Hs in Hh. congruence.
Qed.

Lemma futex_resume_inv s w x why :
  futex_inv s → fx_waiting s !! w = Some x →
  let '(r, s') := futex_resume w why s in
  r ≠ Panic ∧ futex_inv s' ∧ fx_waiting s' = delete w (fx_waiting s).
Proof.
  intros I Hw. destruct (unwait_inv s w x I Hw) as [Hu Hr]. pose proof (fi_held s I w x Hw) as Hk.
  unfold futex_resume. rewrite Hw. destruct why; split_and!; try done; try by apply guard_drop_inv.
  - cbn. by destruct (owner_dead _).
  - apply guard_drop_inv; [by apply owner_dead_inv|done|done].
Qed.

Section exit_inv.
Context {V : Type} `{VmPtrOk V Z}.
Context (find_area : Z → option (Z * option Z)) (pid : Z) (v : V).

(** No futex of the process is about to go. *)
Definition no_races (s : FutexSys) : Prop := ∀ a, no_race s (slot_of find_area pid a).

Lemma handle_futex_death_inv s entry offset :
  futex_inv s → no_race s (slot_of find_area pid (entry + offset)) →
  let '(r, s') := handle_futex_death find_area pid entry offset s in
  r ≠ Panic ∧ futex_inv s' ∧ (∀ k, no_race s k → no_race s' k).
Proof.
  intros Hinv Hr. unfold handle_futex_death, table_get. destruct (negb _); [done|].
  set (k := slot_of find_area pid (entry + offset)) in *. unfold_m. cbn.
  destruct (fx_table s !! k) as [e|] eqn:Hk; [|done].
  pose proof (owner_dead_inv s e true Hinv) as Hinv1.
  destruct (wake_and_drop_inv _ k e 1 u32_max ltac:(lia) Hinv1 Hk Hr) as (n & s' & He & Hinv' & Hr').
  unfold_m. cbn in He. unfold on_entry. cbn.
  destruct (entry_wake e 1 u32_max _) as [[m| |] s1]; [|done..].
  destruct (guard_drop k e s1) as [[[]| |] s2]; [|done..]. simplify_eq. by split.
Qed.

Lemma walk_robust_list_inv limit end_ptr pending offset : ∀ entry s,
  futex_inv s → no_races s →
  let '(r, s') := walk_robust_list find_area pid v limit end_ptr pending offset entry s in
  r ≠ Panic ∧ futex_inv s'.
Proof.
  induction limit as [|limit IH]; intros entry s Hinv Hnr; simpl; [done|].
  destruct (entry =? end_ptr); [done|]. unfold_m.
  destruct (vm_read v entry) as [next| |] eqn:Hr; [|done|by apply vm_read_no_panic in Hr].
  assert (∃ r s1, (if negb (entry =? pending) then handle_futex_death find_area pid entry offset
    else λ s0, (Ok tt, s0)) s = (r, s1) ∧ r ≠ Panic ∧ futex_inv s1 ∧ no_races s1) as (r & s1 & -> & Hnp & Hinv1 & Hnr1).
  { destruct (negb _); [|eauto 6].
    pose proof (handle_futex_death_inv s entry offset Hinv (Hnr _)) as Hd.
    destruct (handle_futex_death _ _ _ _ s) as [r s1]. destruct Hd as (? & ? & Hk). exists r, s1. split_and!; try done.
    intros a. apply Hk, Hnr. }
  destruct r; [|done..]. destruct limit; [done|]. by apply IH.
Qed.

Lemma exit_robust_list_inv s head :
  futex_inv s → no_races s →
  let '(r, s') := exit_robust_list find_area pid v head s in r ≠ Panic ∧ futex_inv s'.
Proof.
  intros Hinv Hnr. unfold exit_robust_list. unfold_m.
  do 3 (match goal with |- context [vm_read v ?p] =>
    destruct (vm_read v p) eqn:Hr; [clear Hr|done|by apply vm_read_no_panic in Hr] end).
  by apply walk_robust_list_inv.
Qed.

Lemma exit_clear_child_tid_inv s p :
  futex_inv s → no_race s (slot_of find_area pid p) →
  let '(r, s') := exit_clear_child_tid find_area pid p s in r ≠ Panic ∧ futex_inv s'.
Proof.
  intros Hinv Hr. unfold exit_clear_child_tid, table_get.
  set (k := slot_of find_area pid p) in *. unfold_m. cbn.
  destruct (fx_table s !! k) as [e|] eqn:Hk; [|done].
  destruct (wake_and_drop_inv s k e 1 u32_max ltac:(lia) Hinv Hk Hr) as (n & s' & He & Hinv' & _).
  unfold_m. destruct (entry_wake e 1 u32_max s) as [[m| |] s1]; [|done..].
  destruct (guard_drop k e s1) as [[[]| |] s2]; [|done..]. by simplify_eq.
Qed.
End exit_inv.

(** ** Runs *)

(** The futexes that a call looks up *)
Definition call_slots (find_area : Z → option (Z * option Z)) (pid uaddr futex_op uaddr2 : Z) : list slot :=
  let command := Z.land futex_op FUTEX_CMD_MASK in
  slot_of find_area pid uaddr
  :: (if (command =? FUTEX_REQUEUE) || (command =? FUTEX_CMP_REQUEUE) then [slot_of find_area pid uaddr2] else []).

Section runs.
Context {V : Type} `{VmPtrOk V Z} `{VmPtrOk V timespec}.

(** Calls, ends of waits, exiting threads and the steps of drops, in any order;
    but nobody looks up a futex that a drop is about to remove. *)
Inductive futex_step : FutexSys → FutexSys → Prop :=
| F_call s fa pid v uaddr op value timeout uaddr2 value3 r s' :
    0 ≤ value → Forall (no_race s) (call_slots fa pid uaddr op uaddr2) →
    sys_futex (V := V) fa pid v uaddr op value timeout uaddr2 value3 s = (r, s') →
    futex_step s s'
| F_resume s w x why r s' :
    fx_waiting s !! w = Some x → (why = Woken → w_woken x = true) →
    futex_resume w why s = (r, s') → futex_step s s'
| F_drop s id : futex_step s (drop_step id s)
| F_robust s fa pid v head r s' :
    no_races fa pid s → exit_robust_list (V := V) fa pid v head s = (r, s') → futex_step s s'
| F_death s fa pid entry offset r s' :
    no_race s (slot_of fa pid (entry + offset)) → handle_futex_death fa pid entry offset s = (r, s') → futex_step s s'
| F_clear_tid s fa pid p r s' :
    no_race s (slot_of fa pid p) → exit_clear_child_tid fa pid p s = (r, s') → futex_step s s'.

Definition futex_boot : FutexSys := mkFutexSys ∅ ∅ 0 ∅ ∅.

Inductive futex_run : FutexSys → Prop :=
| futex_run_boot : futex_run futex_boot
| futex_run_step s s' : futex_run s → futex_step s s' → futex_run s'.

Lemma futex_boot_inv : futex_inv futex_boot.
Proof. split; cbn; intros *; by rewrite lookup_empty. Qed.

Lemma sys_futex_inv s fa pid (v : V) uaddr op value timeout uaddr2 value3 :
  0 ≤ value → futex_inv s → Forall (no_race s) (call_slots fa pid uaddr op uaddr2) →
  let '(r, s') := sys_futex fa pid v uaddr op value timeout uaddr2 value3 s in
  r ≠ Panic ∧ futex_inv s'.
Proof.
  intros Hv Hinv Hr. unfold sys_futex. apply Forall_cons in Hr as [Hr Hr2]. set (k := slot_of fa pid uaddr) in *.
  set (k2 := slot_of fa pid uaddr2) in *.
  destruct ((Z.land op FUTEX_CMD_MASK =? FUTEX_WAIT) || _).
  { pose proof (futex_wait_inv v s k uaddr value
      (if Z.land op FUTEX_CMD_MASK =? FUTEX_WAIT_BITSET then value3 else u32_max) timeout Hinv Hr) as Hw.
    destruct (futex_wait _ _ _ _ _ _ s). naive_solver. }
  destruct ((Z.land op FUTEX_CMD_MASK =? FUTEX_WAKE) || _).
  { edestruct (futex_wake_inv s k value) as (n & s' & -> & Hinv'); done. }
  destruct ((Z.land op FUTEX_CMD_MASK =? FUTEX_REQUEUE) || _); [|done].
  apply Forall_cons in Hr2 as [Hr2 _]. by apply futex_requeue_inv.
Qed.

Lemma futex_run_inv s : futex_run s → futex_inv s.
Proof.
  induction 1 as [|s s' _ IH Hstep]; [apply futex_boot_inv|].
  destruct Hstep as [s fa pid v ua op val to ua2 v3 r s' Hv Hr Hc|s w x why r s' Hw _ Hc|s id
    |s fa pid v h r s' Hr Hc|s fa pid en off r s' Hr Hc|s fa pid p r s' Hr Hc].
  - pose proof (sys_futex_inv s fa pid v ua op val to ua2 v3 Hv IH Hr) as Hx. rewrite Hc in Hx. apply Hx.
  - pose proof (futex_resume_inv s w x why IH Hw) as Hx. rewrite Hc in Hx. apply Hx.
  - by apply drop_step_inv.
  - pose proof (exit_robust_list_inv fa pid v s h IH Hr) as Hx. rewrite Hc in Hx. apply Hx.
  - pose proof (handle_futex_death_inv fa pid s en off IH Hr) as Hx. rewrite Hc in Hx. apply Hx.
  - pose proof (exit_clear_child_tid_inv fa pid s p IH Hr) as Hx. rewrite Hc in Hx. apply Hx.
Qed.

(** Whatever the state, a call does not panic. *)
Lemma sys_futex_no_panic s fa pid (v : V) uaddr op value timeout uaddr2 value3 :
  (sys_futex fa pid v uaddr op value timeout uaddr2 value3 s).1 ≠ Panic.
Proof.
  unfold sys_futex, futex_wait, futex_wake, futex_requeue, table_get, table_get_or_insert, entry_wake, entry_requeue,
    guard_drop, assert_unsigned. unfold_m.
  pose proof (vm_read_no_panic (T := Z) v uaddr). pose proof (read_timeout_no_panic v timeout).
  repeat (case_match; simplify_eq/=; try done).
Qed.
End runs.

(** ** Main results *)

(** C3: no waiter gets lost, but in a race.  In every state reached by futex
    calls, ends of waits, exiting threads and the steps of the drops of their
    guards, in any order, as long as nobody looks up a futex while a drop that
    has found it unused has yet to remove it ([FutexRace] shows that such a
    look-up can lose a waiter): the futex a waiter holds is in its table; a
    waiter that has not been woken sits in the queue of a futex that is in its
    table, and a wake on that futex with room for the whole queue and an
    intersecting bitset wakes it.  No call panics, in a race or not. *)
Theorem futex_waiters_wakeable {V} `{VmPtrOk V Z} `{VmPtrOk V timespec} s :
  (futex_run (V := V) s → ∀ w x, fx_waiting s !! w = Some x →
     fx_table s !! w_slot x = Some (w_entry x)
     ∧ (w_woken x = false → ∃ k e b, fx_table s !! k = Some e ∧ (w, b) ∈ wq (entry_of s e)
          ∧ ∀ count mask, zlen (wq (entry_of s e)) ≤ count → Z.land b mask ≠ 0 →
              ∃ n s', futex_wake k count mask s = (Ok (Returns n), s')
                ∧ ∃ x', fx_waiting s' !! w = Some x' ∧ w_woken x' = true))
  ∧ (∀ fa pid (v : V) uaddr op value timeout uaddr2 value3,
       (sys_futex fa pid v uaddr op value timeout uaddr2 value3 s).1 ≠ Panic).
Proof.
  split; [|intros; apply sys_futex_no_panic]. intros Hr%futex_run_inv w x Hw. split; [by apply (fi_held s Hr w)|].
  intros Hf. destruct (fi_queued s Hr w x Hw Hf) as (k & e & Hk & Hin).
  apply list_elem_of_fmap in Hin as ([w' b] & -> & Hin).
  exists k, e, b. split_and!; [done|done|]. intros count mask Hc Hb. by eapply futex_wake_wakes.
Qed.

(** A memory of words and time values for the witnesses. *)
Inductive futex_cell := FWord (x : Z) | FTime (x : timespec).
#[export] Instance fcell_word : VmPtr (cells futex_cell) Z := {|
  vm_read v p := match v !! p with Some (FWord x) => Ok x | _ => Err BadAddress end;
  vm_write p x := λ v, (Ok tt, <[p := FWord x]> v) |}.
#[export] Instance fcell_time : VmPtr (cells futex_cell) timespec := {|
  vm_read v p := match v !! p with Some (FTime x) => Ok x | _ => Err BadAddress end;
  vm_write p x := λ v, (Ok tt, <[p := FTime x]> v) |}.
#[export] Instance fcell_word_ok : VmPtrOk (cells futex_cell) Z.
Proof.
  split; cbn; [intros v p; by destruct (v !! p) as [[]|]|done|].
  intros v v' p x [= <-]. by rewrite lookup_insert_eq.
Qed.
#[export] Instance fcell_time_ok : VmPtrOk (cells futex_cell) timespec.
Proof.
  split; cbn; [intros v p; by destruct (v !! p) as [[]|]|done|].
  intros v v' p x [= <-]. by rewrite lookup_insert_eq.
Qed.

(** Process 1 waits on the word 5 at 0x100, twice; the first wait times out. *)
Definition futex_mem : cells futex_cell := {[0x100 := FWord 5]}.
Definition futex_one : FutexSys :=
  (sys_futex (λ _, None) 1 futex_mem 0x100 FUTEX_WAIT 5 0 0 0 futex_boot).2.
Definition futex_timed_out : FutexSys := (futex_resume 1 TimeoutPassed futex_one).2.
Definition futex_stale : FutexSys :=
  (sys_futex (λ _, None) 1 futex_mem 0x100 FUTEX_WAIT 5 0 0 0 futex_timed_out).2.

Lemma futex_one_run : futex_run (V := cells futex_cell) futex_one.
Proof.
  eapply futex_run_step; [apply futex_run_boot|].
  eapply (F_call _ (λ _, None) 1 futex_mem 0x100 FUTEX_WAIT 5 0 0 0); [lia| |apply surjective_pairing].
  repeat constructor. by intros id d [=].
Qed.

Lemma futex_waiters_wakeable_witness :
  ∃ k n s', futex_wake k 10 u32_max futex_one = (Ok (Returns n), s')
    ∧ ∃ x', fx_waiting s' !! 1 = Some x' ∧ w_woken x' = true.
Proof.
  destruct (futex_waiters_wakeable (V := cells futex_cell) futex_one) as (Hw & _).
  destruct (Hw futex_one_run 1 (mkWaiting (ProcTable 1, 0x100) 0 false)) as (_ & Hq); [by vm_compute|].
  destruct (Hq eq_refl) as (k & e & b & Hk & Hin & Hwk).
  exists k.
  assert (fx_table futex_one = {[(ProcTable 1, 0x100) := 0]}) as Ht
    by (apply (bool_decide_unpack _); by vm_compute).
  rewrite Ht in Hk. apply lookup_singleton_Some in Hk as [<- <-].
  destruct (Hwk 10 u32_max) as (n & s' & He & Hx); [by vm_compute| |].
  - vm_compute in Hin. inversion Hin as [|? ? ? Hn]; subst; [done|by inversion Hn].
  - exists n, s'. split; [exact He|exact Hx].
Defined.

(** a stale waiter swallows a wake-up.  A wait that timed out or was
    interrupted leaves its waker in the queue; when it is first in line, a
    wake for one waiter reports one waiter woken and wakes nobody. *)
Lemma stale_waiter_swallows_wake s k e w b rest mask :
  fx_table s !! k = Some e → wq (entry_of s e) = (w, b) :: rest →
  fx_waiting s !! w = None → Z.land b mask ≠ 0 →
  ∃ s', futex_wake k 1 mask s = (Ok (Returns 1), s') ∧ fx_waiting s' = fx_waiting s.
Proof.
  intros Hk Hq Hw Hb. unfold futex_wake, table_get, entry_wake. unfold_m. rewrite Hk, Hq.
  unfold wake. cbn. rewrite (proj2 (Z.eqb_neq (Z.land b mask) 0) Hb). cbn. change (0 + 1) with 1.
  pose proof (wake_retain_spec 1 mask rest 1 ltac:(lia)) as Hs.
  destruct (wake_retain 1 mask 1 rest) as [[called n] kept].
  destruct Hs as (-> & -> & _). cbn. unfold guard_drop. cbn.
  eexists. split; [reflexivity|]. cbn [fx_waiting]. apply (call_wakers_gone [w]); set_solver.
Qed.

Example stale_waiter_swallows_wake_instance :
  (∃ x, fx_waiting futex_stale !! 3 = Some x ∧ w_woken x = false)
  ∧ ∃ s', futex_wake (ProcTable 1, 0x100) 1 u32_max futex_stale = (Ok (Returns 1), s')
    ∧ fx_waiting s' = fx_waiting futex_stale.
Proof.
  split; [eexists; split; vm_compute; reflexivity|].
  apply (stale_waiter_swallows_wake _ _ 0 1 u32_max [(3, u32_max)]); by vm_compute.
Qed.

(** Two waiters are woken and drop their guards at the same time as the waker:
    each sees the references of the others, none removes the futex, and it stays
    in the table with nobody referring to it. *)
Example concurrent_drops_leak :
  let two := (sys_futex (λ _, None) 1 futex_mem 0x100 FUTEX_WAIT 5 0 0 0 futex_one).2 in
  let woken := (sys_futex (λ _, None) 1 futex_mem 0x100 FUTEX_WAKE 2 0 0 0 two).2 in
  let s := (futex_resume 2 Woken (futex_resume 1 Woken woken).2).2 in
  let s' := foldr drop_step s [3; 4; 5; 3; 4; 5] in
  fx_table s' = {[(ProcTable 1, 0x100) := 0]} ∧ fx_waiting s' = ∅ ∧ fx_drops s' = ∅.
Proof. split_and!; apply (bool_decide_unpack _); by vm_compute. Qed.

(** [wake] and [requeue] respect the queue order.  [wake] calls the
    wakers of the first [count] entries whose bitset intersects the mask, in
    queue order, reports their number and keeps all other entries in order;
    [requeue] moves the first [count] entries to the end of the target queue,
    reports their number, and neither loses nor duplicates an entry. *)
Lemma wake_and_requeue_fifo count mask q target :
  0 ≤ count →
  (let '(called, n, kept) := wake count mask q in
   called = (take (Z.to_nat count) (filter (matching mask) q)).*1
   ∧ n = zlen called ∧ n = count `min` zlen (filter (matching mask) q)
   ∧ filter (matching mask) kept = drop (Z.to_nat count) (filter (matching mask) q)
   ∧ filter (λ x, ¬ matching mask x) kept = filter (λ x, ¬ matching mask x) q
   ∧ kept `sublist_of` q)
  ∧ (let '(n, kept, target') := requeue count q target in
     n = count `min` zlen q ∧ q = take (Z.to_nat n) q ++ kept
     ∧ target' = target ++ take (Z.to_nat n) q).
Proof.
  intros Hc. split.
  - unfold wake. pose proof (wake_retain_spec count mask q 0 Hc) as Hs.
    destruct (wake_retain count mask 0 q) as [[called n] kept].
    rewrite Z.sub_0_r in Hs. destruct Hs as (-> & -> & ? & ? & ? & ?).
    split_and!; try done. unfold zlen. rewrite length_fmap, length_take. lia.
  - destruct (requeue count q target) as [[n kept] t'] eqn:Hr. by apply requeue_spec.
Qed.

(** what [FUTEX_WAIT] does.  It blocks only when the futex word has the
    expected value; the waiter then holds the futex of its slot, is registered
    as not woken, and stands at the end of that queue.  In every other case the
    call fails and changes nothing. *)
Lemma futex_wait_outcome {V} `{VmPtrOk V Z} `{VmPtrOk V timespec} (v : V) s k uaddr value b timeout :
  futex_inv s →
  let '(r, s') := futex_wait v k uaddr value b timeout s in
  match r with
  | Ok (Blocks w _) =>
      vm_read v uaddr = Ok value ∧ fx_waiting s !! w = None
      ∧ ∃ e q, fx_table s' !! k = Some e ∧ fx_waiting s' !! w = Some (mkWaiting k e false)
          ∧ wq (entry_of s' e) = q ++ [(w, b)]
  | Ok (Returns _) => False
  | Err _ => s' = s
  | Panic => False
  end.
Proof.
  intros Hinv. unfold futex_wait. unfold_m.
  destruct (vm_read v uaddr) as [word|e|] eqn:Hw; [|done|by apply vm_read_no_panic in Hw].
  destruct (Z.eqb_spec word value) as [->|]; simpl; [|done].
  destruct (read_timeout v timeout) as [t|e|] eqn:Ht; [|done|by apply read_timeout_no_panic in Ht].
  destruct (get_or_insert_inv s k Hinv) as (e & s1 & He & Hinv1 & _ & Hk & Hwt & _).
  rewrite He. cbn. split_and!; [done| |].
  - rewrite <- Hwt. destruct (fx_waiting s1 !! fx_next s1) eqn:Hx; [|done].
    apply (fi_wait_fresh _ Hinv1) in Hx. lia.
  - exists e, (wq (entry_of s1 e)). split_and!; [done|by rewrite lookup_insert_eq|].
    by rewrite entry_of_insert, decide_True.
Qed.

