(* ===== verification/FutexRace.v ===== *)
(** * The drop of a futex guard, step by step

    [FutexGuard::drop] ([core/src/futex.rs]) reads the reference count, then
    looks into the queue under the queue's lock, and then removes the entry
    under the table's lock.  Other threads run between these steps, and the
    theorem on waiters of [Futex] leaves out one thing they may do there: look
    up the same futex.  Here is what that does.  The model is one slot of a futex table and any number of threads that wait on it,
    wake it, and drop their guards. *)

From S2P Require Import Prelude Futex.

(** Where a thread is; [e] is the entry its guard holds. *)
Inductive guard_pc :=
| G_Idle
| G_Wait (e : Z)     (* got the guard in [FUTEX_WAIT], before [wait_if] *)
| G_Asleep (e : Z)
| G_Wake (e : Z)     (* got the guard in [FUTEX_WAKE], before [wake] *)
| G_Count (e : Z)    (* in [drop]: before reading [strong_count] *)
| G_Empty (e : Z)    (* before [wq.is_empty()] *)
| G_Remove (e : Z).  (* before locking the table *)

#[export] Instance guard_pc_eq_dec : EqDecision guard_pc.
Proof. solve_decision. Defined.

Definition guard_of (pc : guard_pc) : option Z :=
  match pc with
  | G_Idle => None
  | G_Wait e | G_Asleep e | G_Wake e | G_Count e | G_Empty e | G_Remove e => Some e
  end.

Record SlotSys := mkSlotSys {
  sl_table : option Z;          (* the entry in the table *)
  sl_queue : gmap Z WaitQueue;  (* the queues of all entries ever made *)
  sl_next : Z;
  sl_pc : gmap Z guard_pc;      (* the threads *)
}.
#[export] Instance eta_SlotSys : Eta SlotSys := λ s,
  mkSlotSys (sl_table s) (sl_queue s) (sl_next s) (sl_pc s).

Definition queue_of (s : SlotSys) (e : Z) : WaitQueue := default [] (sl_queue s !! e).
Definition set_pc (t : Z) (pc : guard_pc) (s : SlotSys) : SlotSys :=
  s <| sl_pc ::= <[t := pc]> |>.
Definition slot_strong_count (s : SlotSys) (e : Z) : Z :=
  (if decide (sl_table s = Some e) then 1 else 0)
  + Z.of_nat (size (filter (λ kv, guard_of kv.2 = Some e) (sl_pc s))).

(** The three steps of [FutexGuard::drop]. *)
Definition drop_count (t e : Z) (s : SlotSys) : SlotSys :=
  set_pc t (if slot_strong_count s e <=? 2 then G_Empty e else G_Idle) s.
Definition drop_empty (t e : Z) (s : SlotSys) : SlotSys :=
  set_pc t (if bool_decide (queue_of s e = []) then G_Remove e else G_Idle) s.
Definition drop_remove (t : Z) (s : SlotSys) : SlotSys :=
  set_pc t G_Idle (s <| sl_table := None |>).

Inductive slot_step : SlotSys → SlotSys → Prop :=
| Sl_get_or_insert s t e : sl_pc s !! t = Some G_Idle → sl_table s = Some e →
    slot_step s (set_pc t (G_Wait e) s)
| Sl_insert s t : sl_pc s !! t = Some G_Idle → sl_table s = None →
    slot_step s (set_pc t (G_Wait (sl_next s))
      (s <| sl_table := Some (sl_next s) |> <| sl_next ::= λ n, n + 1 |>))
| Sl_block s t e b q : sl_pc s !! t = Some (G_Wait e) →
    wait_if t b true (queue_of s e) = Some q →
    slot_step s (set_pc t (G_Asleep e) (s <| sl_queue ::= <[e := q]> |>))
| Sl_no_block s t e : sl_pc s !! t = Some (G_Wait e) →
    wait_if t 0 false (queue_of s e) = None → slot_step s (set_pc t (G_Count e) s)
| Sl_get s t e : sl_pc s !! t = Some G_Idle → sl_table s = Some e →
    slot_step s (set_pc t (G_Wake e) s)
| Sl_wake s t e count mask called n kept : sl_pc s !! t = Some (G_Wake e) → 0 ≤ count →
    wake count mask (queue_of s e) = (called, n, kept) →
    slot_step s (set_pc t (G_Count e) (s <| sl_queue ::= <[e := kept]> |>))
| Sl_wakes_up s t e : sl_pc s !! t = Some (G_Asleep e) → t ∉ (queue_of s e).*1 →
    slot_step s (set_pc t (G_Count e) s)
| Sl_drop_count s t e : sl_pc s !! t = Some (G_Count e) → slot_step s (drop_count t e s)
| Sl_drop_empty s t e : sl_pc s !! t = Some (G_Empty e) → slot_step s (drop_empty t e s)
| Sl_drop_remove s t e : sl_pc s !! t = Some (G_Remove e) → slot_step s (drop_remove t s).

Inductive slot_run (s : SlotSys) : SlotSys → Prop :=
| slot_run_refl : slot_run s s
| slot_run_step s1 s2 : slot_run s s1 → slot_step s1 s2 → slot_run s s2.

(** Two threads and an empty table. *)
Definition slot_boot : SlotSys := mkSlotSys None ∅ 0 {[1 := G_Idle; 2 := G_Idle]}.

(** ** A waiter nobody can reach *)

(** Thread [t] sleeps in the queue of [e], which is not in the table, and no
    other thread has a guard on it. *)
Record unreachable (t e : Z) (s : SlotSys) : Prop := {
  un_asleep : sl_pc s !! t = Some (G_Asleep e);
  un_queued : t ∈ (queue_of s e).*1;
  un_gone : sl_table s ≠ Some e;
  un_old : e < sl_next s;
  un_alone u pc : sl_pc s !! u = Some pc → u ≠ t → guard_of pc ≠ Some e;
}.

Lemma unreachable_set_pc t e s s' u pc :
  unreachable t e s → u ≠ t → guard_of pc ≠ Some e →
  sl_table s' ≠ Some e → sl_next s ≤ sl_next s' → queue_of s' e = queue_of s e →
  sl_pc s' = sl_pc s → unreachable t e (set_pc u pc s').
Proof.
  intros [Ha Hq Hg Ho Hal] Hne Hpc Ht Hn Hq' Hp. split; cbn.
  - by rewrite Hp, lookup_insert_ne.
  - change (t ∈ (queue_of s' e).*1). by rewrite Hq'.
  - done.
  - lia.
  - intros v pc' Hv Hvt. rewrite Hp in Hv.
    apply lookup_insert_Some in Hv as [[_ <-]|[_ Hv]]; [done|]. by eapply Hal.
Qed.

Lemma queue_of_insert s e q e' :
  e ≠ e' → queue_of (s <| sl_queue ::= <[e := q]> |>) e' = queue_of s e'.
Proof. intros Hne. unfold queue_of. cbn. by rewrite lookup_insert_ne. Qed.

Lemma unreachable_step t e s s' : slot_step s s' → unreachable t e s → unreachable t e s'.
Proof.
  intros Hs Hu. pose proof Hu as [Ha Hq Hg Ho Hal].
  assert (∀ u pc, sl_pc s !! u = Some pc → pc ≠ G_Asleep e → u ≠ t ∧ guard_of pc ≠ Some e)
    as Hother.
  { intros u pc Hpc Hn. assert (u ≠ t) by (intros ->; congruence). split; [done|].
    by eapply Hal. }
  inversion Hs as [? u e0 Hpc Ht|? u Hpc Ht|? u e0 b q Hpc Hw|? u e0 Hpc Hw|? u e0 Hpc Ht
    |? u e0 c m called n kept Hpc Hc Hw|? u e0 Hpc Hnq|? u e0 Hpc|? u e0 Hpc|? u e0 Hpc]; subst.
  7:{ destruct (decide (u = t)) as [->|Hne]; [congruence|].
      apply (unreachable_set_pc _ _ s); try done. cbn. by eapply (Hal u (G_Asleep e0)). }
  all: destruct (Hother u _ Hpc ltac:(done)) as [Hne Hge]; cbn in Hge.
  - apply (unreachable_set_pc _ _ s); try done; cbn; congruence.
  - apply (unreachable_set_pc _ _ s); try done; cbn; try lia; intros [= He]; lia.
  - apply (unreachable_set_pc _ _ s); try done. apply queue_of_insert. congruence.
  - by apply (unreachable_set_pc _ _ s).
  - apply (unreachable_set_pc _ _ s); try done; cbn; congruence.
  - apply (unreachable_set_pc _ _ s); try done. apply queue_of_insert. congruence.
  - unfold drop_count. apply (unreachable_set_pc _ _ s); try done. by destruct (_ <=? _).
  - unfold drop_empty. apply (unreachable_set_pc _ _ s); try done. by case_bool_decide.
  - by apply (unreachable_set_pc _ _ s).
Qed.

Lemma slot_run_cons s s1 s2 : slot_step s s1 → slot_run s1 s2 → slot_run s s2.
Proof.
  intros Hs. induction 1; [|by eapply slot_run_step].
  eapply slot_run_step; [apply slot_run_refl|done].
Qed.

Tactic Notation "slot_do" uconstr(step) :=
  eapply slot_run_cons; [eapply step; by vm_compute|].

(** the drop of a guard can lose a waiter for ever.  Thread 1 has decided
    to remove the futex from the table; before it does, thread 2 finds the
    same futex there and goes to sleep in its queue; then thread 1 removes it.
    From then on, whatever the threads do, thread 2 stays asleep: no wake can
    reach its queue. *)
Lemma guard_drop_loses_waiter :
  ∃ s, slot_run slot_boot s ∧ sl_table s = None
    ∧ ∀ s', slot_run s s' → sl_pc s' !! 2 = Some (G_Asleep 0) ∧ 2 ∈ (queue_of s' 0).*1.
Proof.
  eexists. split; [|split].
  - slot_do (Sl_insert _ 1). slot_do (Sl_no_block _ 1 0). slot_do (Sl_drop_count _ 1 0).
    slot_do (Sl_drop_empty _ 1 0). slot_do (Sl_get_or_insert _ 2 0).
    slot_do (Sl_block _ 2 0 1 [(2, 1)]). slot_do (Sl_drop_remove _ 1 0). apply slot_run_refl.
  - by vm_compute.
  - intros s' Hr. assert (unreachable 2 0 s') as [Ha Hq _ _ _]; [|done].
    induction Hr as [|s1 s2 _ IH Hs]; [|by eapply unreachable_step].
    split; [by vm_compute|vm_compute; left|by vm_compute|by vm_compute|].
    intros u pc Hu Hne.
    match type of Hu with ?m !! u = _ =>
      replace m with ({[1 := G_Idle; 2 := G_Asleep 0]} : gmap Z guard_pc) in Hu
        by (apply (bool_decide_unpack _); by vm_compute) end.
    apply lookup_insert_Some in Hu as [[<- <-]|[_ [<- <-]%lookup_singleton_Some]]; done.
Qed.
