(* ===== verification/Epoll.v ===== *)
(** * Epoll

    [api/src/file/epoll.rs]: interests, the ready queue, and delivery of
    events, with the decoding of [sys_epoll_ctl]
    ([api/src/syscall/io_mpx/epoll.rs]).

    An interest is an object ([Arc<EpollInterest>]) that only the table of
    interests keeps alive; the ready queue and the wakers hold weak
    references, so they refer to it by id.  The files belong to other
    components: [env] says what [poll()] of each file returns, which files
    still exist, and which file a descriptor refers to.  [ep_reg] holds the
    wakers registered with files. *)

From S2P Require Import Prelude.

(** Values of the Linux ABI *)
Definition EPOLLET : Z := 0x80000000.
Definition EPOLLONESHOT : Z := 0x40000000.
Definition EPOLL_CTL_ADD : Z := 1.
Definition EPOLL_CTL_DEL : Z := 2.
Definition EPOLL_CTL_MOD : Z := 3.

Record EpollEvent := mkEpollEvent { ee_events : Z; ee_user_data : Z }.

Inductive TriggerMode := Level | Edge | OneShot (fired : bool).

Definition TriggerMode_from_flags (flags : Z) : TriggerMode :=
  if has_flag flags EPOLLONESHOT then OneShot false
  else if has_flag flags EPOLLET then Edge
  else Level.

Definition should_notify (m : TriggerMode) : bool * TriggerMode :=
  match m with
  | Level => (true, m)
  | Edge => (true, Edge)
  | OneShot fired => if fired then (false, m) else (true, OneShot true)
  end.

Definition mode_is_enabled (m : TriggerMode) : bool :=
  match m with OneShot fired => negb fired | _ => true end.

(** [EntryKey]: a descriptor and the file it referred to. *)
Abbreviation EntryKey := (Z * Z)%type.

Record EpollInterest := mkInterest {
  in_key : EntryKey;
  in_event : EpollEvent;
  in_mode : TriggerMode;
  in_ready_queue : bool;
}.
#[export] Instance eta_EpollInterest : Eta EpollInterest := λ i,
  mkInterest (in_key i) (in_event i) (in_mode i) (in_ready_queue i).

Definition EpollInterest_new (key : EntryKey) (event : EpollEvent) (flags : Z) : EpollInterest :=
  mkInterest key event (TriggerMode_from_flags flags) false.

Inductive ConsumeResult :=
| EventAndKeep (e : EpollEvent)
| EventAndRemove (e : EpollEvent)
| NoEvent.

(** [polled] is [file.poll()]; returns the interest with its new mode. *)
Definition consume (polled : Z) (i : EpollInterest) : ConsumeResult * EpollInterest :=
  let matched := Z.land polled (ee_events (in_event i)) in
  if matched =? 0 then (NoEvent, i)
  else
    let '(notify, mode) := should_notify (in_mode i) in
    let i' := i <| in_mode := mode |> in
    if negb notify then (NoEvent, i')
    else
      let event := mkEpollEvent matched (ee_user_data (in_event i)) in
      match mode with
      | Level => (EventAndKeep event, i')
      | Edge | OneShot _ => (EventAndRemove event, i')
      end.

(** ** The state *)

Record env := mkEnv {
  ev_poll : Z → Z;          (* file to events *)
  ev_alive : Z → bool;      (* the file still exists *)
  ev_fd : Z → option Z;     (* descriptor to file *)
}.

Record Epoll := mkEpoll {
  ep_objects : gmap Z EpollInterest;   (* all interests ever made *)
  ep_interests : gmap (Z * Z) Z;       (* the table: key to interest *)
  ep_ready : list Z;                   (* the ready queue *)
  ep_reg : gset (Z * Z);               (* registered wakers: file, interest *)
  ep_next : Z;
}.
#[export] Instance eta_Epoll : Eta Epoll := λ s,
  mkEpoll (ep_objects s) (ep_interests s) (ep_ready s) (ep_reg s) (ep_next s).

Definition Epoll_new : Epoll := mkEpoll ∅ ∅ [] ∅ 0.

(** [weak.upgrade()]: the interest, while the table holds it. *)
Definition upgrade (s : Epoll) (id : Z) : option EpollInterest :=
  i ← ep_objects s !! id;
  if decide (ep_interests s !! in_key i = Some id) then Some i else None.

Definition set_interest (id : Z) (i : EpollInterest) (s : Epoll) : Epoll :=
  s <| ep_objects ::= <[id := i]> |>.

(** [InterestWaker::wake_by_ref] *)
Definition interest_wake (id : Z) (s : Epoll) : Epoll :=
  match upgrade s id with
  | None => s
  | Some i =>
      if in_ready_queue i then s
      else set_interest id (i <| in_ready_queue := true |>) s <| ep_ready ::= λ q, q ++ [id] |>
  end.

Definition register (file id : Z) (s : Epoll) : Epoll :=
  s <| ep_reg ::= λ r, {[(file, id)]} ∪ r |>.

(** [get_file()] of the key of an interest *)
Definition key_file (e : env) (i : EpollInterest) : option Z :=
  if ev_alive e (in_key i).2 then Some (in_key i).2 else None.

Definition register_waker_only (e : env) (id : Z) (i : EpollInterest) (s : Epoll) : Epoll :=
  match key_file e i with
  | None => s
  | Some file => if negb (mode_is_enabled (in_mode i)) then s else register file id s
  end.

Definition check_and_register_waker (e : env) (id : Z) (i : EpollInterest) (s : Epoll) : Epoll :=
  match key_file e i with
  | None => s
  | Some file =>
      if negb (mode_is_enabled (in_mode i)) then s
      else if negb (Z.land (ev_poll e file) (ee_events (in_event i)) =? 0)
      then interest_wake id s
      else
        let s := register file id s in
        if negb (Z.land (ev_poll e file) (ee_events (in_event i)) =? 0)
        then interest_wake id s else s
  end.

(** ** Operations *)

(** [EntryKey::new] *)
Definition EntryKey_new (e : env) (fd : Z) : res EntryKey :=
  file ← ok_or BadFileDescriptor (ev_fd e fd); Ok (fd, file).

Definition ep_add (e : env) (fd : Z) (event : EpollEvent) (flags : Z) : M Epoll unit :=
  key ← liftR (EntryKey_new e fd);
  s ← getM;
  if bool_decide (is_Some (ep_interests s !! key)) then failM AlreadyExists
  else
    let id := ep_next s in
    let i := EpollInterest_new key event flags in
    modifyM (λ s, set_interest id i s <| ep_interests ::= <[key := id]> |>
                    <| ep_next ::= λ n, n + 1 |>);;
    modifyM (check_and_register_waker e id i).

Definition ep_modify (e : env) (fd : Z) (event : EpollEvent) (flags : Z) : M Epoll unit :=
  key ← liftR (EntryKey_new e fd);
  s ← getM;
  old ← liftR (ok_or NotFound (ep_interests s !! key));
  let id := ep_next s in
  let queued := match ep_objects s !! old with Some o => in_ready_queue o | None => false end in
  let i := (EpollInterest_new key event flags) <| in_ready_queue := queued |> in
  modifyM (λ s, set_interest id i s <| ep_interests ::= <[key := id]> |>
                  <| ep_next ::= λ n, n + 1 |>);;
  modifyM (check_and_register_waker e id i).

Definition ep_delete (e : env) (fd : Z) : M Epoll unit :=
  key ← liftR (EntryKey_new e fd);
  s ← getM;
  liftR (ok_or NotFound (ep_interests s !! key));;
  modifyM (λ s, s <| ep_interests ::= delete key |>).

(** One turn of the loop of [poll_events] for the entry [id] popped from the
    queue: the event written to [out], if any. *)
Definition poll_one (e : env) (id : Z) (s : Epoll) : option EpollEvent * Epoll :=
  match upgrade s id with
  | None => (None, s)
  | Some i =>
      match key_file e i with
      | None =>
          (None, set_interest id (i <| in_ready_queue := false |>)
                   (s <| ep_interests ::= delete (in_key i) |>))
      | Some file =>
          match consume (ev_poll e file) i with
          | (EventAndKeep event, i') =>
              (Some event, set_interest id i' s <| ep_ready ::= λ q, q ++ [id] |>)
          | (EventAndRemove event, i') =>
              (Some event, register_waker_only e id i'
                 (set_interest id (i' <| in_ready_queue := false |>) s))
          | (NoEvent, i') =>
              (None, register_waker_only e id i'
                 (set_interest id (i' <| in_ready_queue := false |>) s))
          end
      end
  end.

(** The loop, with the number of entries of [out] left; [None] when the fuel
    does not suffice. *)
Fixpoint poll_loop (fuel : nat) (e : env) (left : nat) (s : Epoll)
    : option (list EpollEvent * Epoll) :=
  match fuel with
  | O => None
  | S fuel =>
      match ep_ready s with
      | [] => Some ([], s)
      | id :: rest =>
          match left with
          | O => Some ([], s)
          | S left' =>
              match poll_one e id (s <| ep_ready := rest |>) with
              | (Some event, s') =>
                  '(evs, s'') ← poll_loop fuel e left' s'; Some (event :: evs, s'')
              | (None, s') => poll_loop fuel e left s'
              end
          end
      end
  end.

(** Enough turns for every queued entry and every event that fits. *)
Definition poll_fuel (left : nat) (s : Epoll) : nat := left + length (ep_ready s) + 1.

Definition poll_events (e : env) (out_len : nat) : M Epoll (list EpollEvent) := λ s,
  match poll_loop (poll_fuel out_len s) e out_len s with
  | Some ([], s') => (Err WouldBlock, s')
  | Some (evs, s') => (Ok evs, s')
  | None => (Panic, s)
  end.

(** [Pollable for Epoll] *)
Definition epoll_poll (s : Epoll) : bool := negb (bool_decide (ep_ready s = [])).

(** The file wakes the waker [r] registered with it, which it then forgets. *)
Definition wake_registered (r : Z * Z) (s : Epoll) : Epoll :=
  interest_wake r.2 (s <| ep_reg ::= λ regs, regs ∖ {[r]} |>).

(** The events and flags [sys_epoll_ctl] makes of the user's event mask;
    [known] are the bits of [IoEvents]. *)
Definition parse_event (known events data : Z) : res (EpollEvent * Z) :=
  let evs := Z.land events known in
  let flags := Z.ldiff events evs in
  if negb (Z.ldiff flags (Z.lor EPOLLET EPOLLONESHOT) =? 0) then Err InvalidInput
  else Ok (mkEpollEvent evs data, flags).

(** [from_fd] is the lookup of the epoll itself, [event] the user's
    structure if it can be read. *)
Definition sys_epoll_ctl (from_fd : res unit) (e : env) (known op fd : Z) (event : res (Z * Z))
    : M Epoll Z :=
  liftR from_fd;;
  if op =? EPOLL_CTL_ADD then
    '(events, data) ← liftR event;
    '(ev, flags) ← liftR (parse_event known events data);
    ep_add e fd ev flags;; mret 0
  else if op =? EPOLL_CTL_MOD then
    '(events, data) ← liftR event;
    '(ev, flags) ← liftR (parse_event known events data);
    ep_modify e fd ev flags;; mret 0
  else if op =? EPOLL_CTL_DEL then ep_delete e fd;; mret 0
  else failM InvalidInput.

(** ** Runs

    The environment may differ at each step; a descriptor that is open refers
    to a file that exists. *)
Definition env_ok (e : env) : Prop := ∀ fd file, ev_fd e fd = Some file → ev_alive e file = true.

(** The interest that [fd] selects is in the ready queue. *)
Definition fd_queued (e : env) (fd : Z) (s : Epoll) : bool :=
  match EntryKey_new e fd with
  | Ok key =>
      match ep_interests s !! key ≫= λ id, ep_objects s !! id with
      | Some i => in_ready_queue i
      | None => false
      end
  | _ => false
  end.

Inductive action :=
| AAdd (fd : Z) (event : EpollEvent) (flags : Z)
| AModify (fd : Z) (event : EpollEvent) (flags : Z)
| ADelete (fd : Z)
| APoll (out_len : nat)
| AWake (r : Z * Z).

Definition act (e : env) (a : action) (s : Epoll) : Epoll :=
  match a with
  | AAdd fd event flags => (ep_add e fd event flags s).2
  | AModify fd event flags => (ep_modify e fd event flags s).2
  | ADelete fd => (ep_delete e fd s).2
  | APoll n => (poll_events e n s).2
  | AWake r => if decide (r ∈ ep_reg s) then wake_registered r s else s
  end.

Definition runs (l : list (env * action)) (s : Epoll) : Epoll :=
  foldl (λ s ea, act ea.1 ea.2 s) s l.

(** The interest that takes the place of one that is marked as queued: it
    inherits the mark, but not the place in the queue. *)
Definition strands (e : env) (a : action) (s : Epoll) : gset Z :=
  match a with AModify fd _ _ => if fd_queued e fd s then {[ep_next s]} else ∅ | _ => ∅ end.

(** No interest is modified while it is in the ready queue. *)
Fixpoint quiet_modify (l : list (env * action)) (s : Epoll) : Prop :=
  match l with
  | [] => True
  | (e, a) :: l =>
      match a with AModify fd _ _ => fd_queued e fd s = false | _ => True end
      ∧ quiet_modify l (act e a s)
  end.

(** ** The invariant

    [L] are the interests that were made by a modification of a queued one. *)

Record ep_inv (L : gset Z) (s : Epoll) : Prop := {
  inv_table : ∀ k id, ep_interests s !! k = Some id →
    ∃ i, ep_objects s !! id = Some i ∧ in_key i = k;
  inv_next : ∀ id i, ep_objects s !! id = Some i → id < ep_next s;
  inv_ready : ∀ id, id ∈ ep_ready s → is_Some (ep_objects s !! id);
  inv_reg : ∀ f id, (f, id) ∈ ep_reg s → is_Some (ep_objects s !! id);
  inv_nodup : NoDup (ep_ready s);
  inv_queue : ∀ id i, upgrade s id = Some i →
    (id ∈ ep_ready s → in_ready_queue i = true) ∧ (in_ready_queue i = true → id ∈ ep_ready s ∨ id ∈ L);
  inv_watch : ∀ id i, upgrade s id = Some i → mode_is_enabled (in_mode i) = true →
    in_ready_queue i = true ∨ ((in_key i).2, id) ∈ ep_reg s;
}.

Lemma upgrade_spec s id i :
  upgrade s id = Some i ↔ ep_objects s !! id = Some i ∧ ep_interests s !! in_key i = Some id.
Proof.
  unfold upgrade. destruct (ep_objects s !! id) as [o|]; cbn; [|naive_solver].
  case_decide; naive_solver.
Qed.

Lemma inv_mono L L' s : L ⊆ L' → ep_inv L s → ep_inv L' s.
Proof. intros HL I. split; try apply I. intros id i Hu. destruct (inv_queue L s I id i Hu). set_solver. Qed.

Lemma epoll_new_inv L : ep_inv L Epoll_new.
Proof.
  split; cbn; try set_solver; try (intros *; rewrite lookup_empty; done); [constructor|..];
    intros id i (Ho & _)%upgrade_spec; cbn in Ho; by rewrite lookup_empty in Ho.
Qed.

(** What an interest may become, with the queue and the wakers. *)
Definition settled (L : gset Z) (i : EpollInterest) (id : Z) (q : list Z) (r : gset (Z * Z)) : Prop :=
  ((id ∈ q → in_ready_queue i = true) ∧ (in_ready_queue i = true → id ∈ q ∨ id ∈ L))
  ∧ (mode_is_enabled (in_mode i) = true → in_ready_queue i = true ∨ ((in_key i).2, id) ∈ r).

Lemma inv_change L s id i i' q r :
  ep_inv L s → ep_objects s !! id = Some i → in_key i' = in_key i → NoDup q →
  (∀ x, x ≠ id → x ∈ q ↔ x ∈ ep_ready s) →
  (∀ f x, x ≠ id → (f, x) ∈ r ↔ (f, x) ∈ ep_reg s) →
  (ep_interests s !! in_key i = Some id → settled L i' id q r) →
  ep_inv L (mkEpoll (<[id := i']> (ep_objects s)) (ep_interests s) q r (ep_next s)).
Proof.
  intros I Ho Hk Hnd Hq Hr Hs. split; cbn; [..|done| |].
  - intros k x (o & Hx & Hxk)%(inv_table L s I). destruct (decide (x = id)) as [->|].
    + exists i'. rewrite lookup_insert_eq. naive_solver congruence.
    + exists o. by rewrite lookup_insert_ne.
  - intros x o. destruct (decide (x = id)) as [->|].
    + intros _. by eapply (inv_next L).
    + rewrite lookup_insert_ne by done. by apply (inv_next L).
  - intros x Hx. destruct (decide (x = id)) as [->|]; [by rewrite lookup_insert_eq|].
    rewrite lookup_insert_ne by done. apply (inv_ready L); [done|]. by apply Hq.
  - intros f x Hx. destruct (decide (x = id)) as [->|]; [by rewrite lookup_insert_eq|].
    rewrite lookup_insert_ne by done. eapply (inv_reg L); [done|]. by apply Hr.
  - intros x o (Hx & Ht)%upgrade_spec; cbn in *. destruct (decide (x = id)) as [->|].
    + rewrite lookup_insert_eq in Hx. simplify_eq. rewrite Hk in Ht. by apply Hs.
    + rewrite lookup_insert_ne in Hx by done. rewrite Hq by done.
      apply (inv_queue L); [done|]. by apply upgrade_spec.
  - intros x o (Hx & Ht)%upgrade_spec; cbn in *. destruct (decide (x = id)) as [->|].
    + rewrite lookup_insert_eq in Hx. simplify_eq. rewrite Hk in Ht. by apply Hs.
    + rewrite lookup_insert_ne in Hx by done. rewrite Hr by done.
      apply (inv_watch L); [done|]. by apply upgrade_spec.
Qed.

(** The same for a change of the queue and the wakers alone. *)
Lemma inv_same L s id i q r :
  ep_inv L s → ep_objects s !! id = Some i → NoDup q →
  (∀ x, x ≠ id → x ∈ q ↔ x ∈ ep_ready s) →
  (∀ f x, x ≠ id → (f, x) ∈ r ↔ (f, x) ∈ ep_reg s) →
  (ep_interests s !! in_key i = Some id → settled L i id q r) →
  ep_inv L (mkEpoll (ep_objects s) (ep_interests s) q r (ep_next s)).
Proof.
  intros I Ho **. rewrite <- (insert_id (ep_objects s) id i Ho). by eapply inv_change.
Qed.

Lemma inv_fresh L s : ep_inv L s → ep_objects s !! ep_next s = None.
Proof.
  intros I. destruct (ep_objects s !! ep_next s) as [i|] eqn:E; [|done].
  apply (inv_next L) in E; [lia|done].
Qed.

Lemma inv_insert L s i q r :
  ep_inv L s → NoDup q →
  (∀ x, x ≠ ep_next s → x ∈ q ↔ x ∈ ep_ready s) →
  (∀ f x, x ≠ ep_next s → (f, x) ∈ r ↔ (f, x) ∈ ep_reg s) →
  settled L i (ep_next s) q r →
  ep_inv L (mkEpoll (<[ep_next s := i]> (ep_objects s))
    (<[in_key i := ep_next s]> (ep_interests s)) q r (ep_next s + 1)).
Proof.
  intros I Hnd Hq Hr Hs. pose proof (inv_fresh L s I) as Hf.
  assert (Hold : ∀ x o, x ≠ ep_next s → <[ep_next s := i]> (ep_objects s) !! x = Some o →
      <[in_key i := ep_next s]> (ep_interests s) !! in_key o = Some x → upgrade s x = Some o).
  { intros x o Hne Hx Ht. rewrite lookup_insert_ne in Hx by done.
    apply upgrade_spec. split; [done|].
    destruct (decide (in_key i = in_key o)) as [Hk|];
      [rewrite Hk, lookup_insert_eq in Ht; congruence|by rewrite lookup_insert_ne in Ht]. }
  split; cbn; [..|done| |].
  - intros k x. destruct (decide (in_key i = k)) as [<-|].
    + rewrite lookup_insert_eq. intros [= <-]. exists i. by rewrite lookup_insert_eq.
    + rewrite lookup_insert_ne by done. intros (o & Hx & Hk)%(inv_table L s I).
      exists o. rewrite lookup_insert_ne; [done|congruence].
  - intros x o. destruct (decide (x = ep_next s)) as [->|]; [lia|].
    rewrite lookup_insert_ne by done. intros ?%(inv_next L); [lia|done].
  - intros x Hx. destruct (decide (x = ep_next s)) as [->|]; [by rewrite lookup_insert_eq|].
    rewrite lookup_insert_ne by done. apply (inv_ready L); [done|]. by apply Hq.
  - intros f x Hx. destruct (decide (x = ep_next s)) as [->|]; [by rewrite lookup_insert_eq|].
    rewrite lookup_insert_ne by done. eapply (inv_reg L); [done|]. by apply Hr.
  - intros x o (Hx & Ht)%upgrade_spec; cbn in *. destruct (decide (x = ep_next s)) as [->|].
    + rewrite lookup_insert_eq in Hx. simplify_eq. apply Hs.
    + rewrite Hq by done. apply (inv_queue L); eauto.
  - intros x o (Hx & Ht)%upgrade_spec; cbn in *. destruct (decide (x = ep_next s)) as [->|].
    + rewrite lookup_insert_eq in Hx. simplify_eq. apply Hs.
    + rewrite Hr by done. apply (inv_watch L); eauto.
Qed.

Lemma inv_delete L s key : ep_inv L s → ep_inv L (s <| ep_interests ::= delete key |>).
Proof.
  intros I.
  assert (Hold : ∀ x o, upgrade (s <| ep_interests ::= delete key |>) x = Some o →
      upgrade s x = Some o).
  { intros x o (Hx & Ht)%upgrade_spec; cbn in *. apply upgrade_spec.
    by apply lookup_delete_Some in Ht as [_ Ht]. }
  split; cbn; try apply I.
  - intros k x [_ Ht]%lookup_delete_Some. by apply (inv_table L s I).
  - intros x o Hu%Hold. by apply (inv_queue L).
  - intros x o Hu%Hold. by apply (inv_watch L).
Qed.

(** ** Every operation keeps the invariant *)

Ltac elems := intros; cbn in *; set_solver.

Lemma wake_registered_inv L s r : ep_inv L s → r ∈ ep_reg s → ep_inv L (wake_registered r s).
Proof.
  intros I Hr. destruct r as [f id]. destruct (inv_reg L s I f id Hr) as [i Ho].
  unfold wake_registered, interest_wake. cbn.
  destruct (upgrade _ id) as [i'|] eqn:Hu.
  - pose proof Hu as [Ho' Ht]%upgrade_spec. cbn in *. simplify_eq.
    assert (Hu' : upgrade s id = Some i) by (by apply upgrade_spec).
    pose proof (inv_queue L s I id i Hu') as Hq. destruct (in_ready_queue i) eqn:E.
    + eapply (inv_same L s id i); eauto using inv_nodup; [set_solver|].
      intros _. split; [by rewrite E|]. by left.
    + eapply (inv_change L s id i); eauto; [|elems|set_solver|].
      * apply NoDup_app. split; [by apply I|]. split; [set_solver|apply NoDup_singleton].
      * intros _. split; cbn; [elems|by left].
  - eapply (inv_same L s id i); eauto using inv_nodup; [set_solver|].
    intros Ht. assert (Hn : upgrade s id = Some i) by (by apply upgrade_spec).
    unfold upgrade in Hu, Hn. cbn in *. congruence.
Qed.

(** The interest just put in the table is queued or watched. *)
Lemma check_new L s e i :
  ep_inv L s → key_file e i = Some (in_key i).2 → mode_is_enabled (in_mode i) = true →
  (in_ready_queue i = true → ep_next s ∈ L) →
  ep_inv L (check_and_register_waker e (ep_next s) i
    (set_interest (ep_next s) i s <| ep_interests ::= <[in_key i := ep_next s]> |>
       <| ep_next ::= λ n, n + 1 |>)).
Proof.
  intros I Hf He Hq.
  assert (Hnr : ep_next s ∉ ep_ready s).
  { intros [o Ho]%(inv_ready L s I). by rewrite (inv_fresh L) in Ho. }
  unfold check_and_register_waker. rewrite Hf, He. cbn [negb].
  destruct (Z.land _ _ =? 0); cbn [negb].
  - apply (inv_insert L s i); [done|apply I|done|elems|].
    split; [split; [done|auto]|]. right. set_solver.
  - unfold interest_wake.
    match goal with |- context [upgrade ?t ?n] => assert (Hu : upgrade t n = Some i) end.
    { apply upgrade_spec. cbn. by rewrite !lookup_insert_eq. }
    rewrite Hu. destruct (in_ready_queue i) eqn:Hqi.
    { apply (inv_insert L s i); [done|apply I|done|done|]. split; [split; [done|auto]|auto]. }
    unfold set_interest. cbn. rewrite insert_insert_eq.
    apply (inv_insert L s (mkInterest (in_key i) (in_event i) (in_mode i) true)); [done| |elems|done|].
    + apply NoDup_app. split; [by apply I|]. split; [set_solver|apply NoDup_singleton].
    + split; cbn; [elems|by left].
Qed.

Lemma new_enabled flags : mode_is_enabled (TriggerMode_from_flags flags) = true.
Proof. unfold TriggerMode_from_flags. by repeat case_match. Qed.

Lemma EntryKey_new_file e fd key i :
  env_ok e → EntryKey_new e fd = Ok key → in_key i = key → key_file e i = Some (in_key i).2.
Proof.
  intros He Hk <-. unfold EntryKey_new in Hk. destruct (ev_fd e fd) as [f|] eqn:E; [|done].
  cbn in Hk. injection Hk as Hk. unfold key_file. rewrite <- Hk. cbn. by rewrite (He fd f E).
Qed.

Lemma ep_add_inv L e fd event flags s :
  env_ok e → ep_inv L s → ep_inv L (ep_add e fd event flags s).2.
Proof.
  intros He I. unfold ep_add. unfold_m. destruct (EntryKey_new e fd) as [key| |] eqn:Hk; try done.
  case_bool_decide; [done|]. cbn.
  change key with (in_key (EpollInterest_new key event flags)) at 2.
  apply check_new; [done| |apply new_enabled|done]. by eapply EntryKey_new_file.
Qed.

Lemma ep_modify_inv L e fd event flags s :
  env_ok e → (fd_queued e fd s = true → ep_next s ∈ L) → ep_inv L s → ep_inv L (ep_modify e fd event flags s).2.
Proof.
  intros He Hq I. unfold fd_queued in Hq. unfold ep_modify. unfold_m.
  destruct (EntryKey_new e fd) as [key| |] eqn:Hk; try done.
  destruct (ep_interests s !! key) as [old|] eqn:Ht; [|done]. cbn in *.
  destruct (inv_table L s I key old Ht) as (o & Ho & _). rewrite Ho in Hq |- *.
  set (i := (EpollInterest_new key event flags) <| in_ready_queue := in_ready_queue o |>).
  change key with (in_key i) at 1.
  apply check_new; [done| |apply new_enabled|done]. by eapply EntryKey_new_file.
Qed.

Lemma ep_delete_inv L e fd s : ep_inv L s → ep_inv L (ep_delete e fd s).2.
Proof.
  intros I. unfold ep_delete. unfold_m. destruct (EntryKey_new e fd); try done.
  destruct (ep_interests s !! _); [|done]. by apply inv_delete.
Qed.

Lemma consume_key p i : in_key (consume p i).2 = in_key i.
Proof. unfold consume. by repeat case_match; simplify_eq. Qed.

Lemma consume_keep p i event i' :
  consume p i = (EventAndKeep event, i') → i' = i ∧ in_mode i = Level.
Proof.
  unfold consume, should_notify. destruct i as [k ev [| |[]] q]; cbn; case_match; cbn; naive_solver.
Qed.

Lemma poll_one_inv L e s id rest :
  ep_inv L s → ep_ready s = id :: rest → ep_inv L (poll_one e id (s <| ep_ready := rest |>)).2.
Proof.
  intros I Hr. pose proof (inv_nodup L s I) as Hnd. rewrite Hr in Hnd.
  apply NoDup_cons in Hnd as [Hni Hnd].
  destruct (inv_ready L s I id) as [i Ho]; [rewrite Hr; set_solver|].
  unfold poll_one. destruct (upgrade _ id) as [i'|] eqn:Hu.
  2:{ eapply (inv_same L s id i); eauto; [intros; rewrite Hr; elems|].
      intros Ht. cbn in *. assert (Hn : upgrade s id = Some i) by (by apply upgrade_spec).
      unfold upgrade in Hu, Hn. cbn in *. congruence. }
  apply upgrade_spec in Hu as [Ho' Ht]. cbn in *. simplify_eq.
  destruct (key_file e i) as [file|] eqn:Hf.
  2:{ pose proof (inv_change L _ id i (i <| in_ready_queue := false |>) rest (ep_reg s)
        (inv_delete L s (in_key i) I)) as Hd. cbn in Hd.
      apply Hd; try done; [intros; rewrite Hr; elems|by rewrite lookup_delete_eq]. }
  assert (file = (in_key i).2) as -> by (unfold key_file in Hf; by case_match; simplify_eq).
  assert (Hrm : ∀ i', in_key i' = in_key i →
    ep_inv L (register_waker_only e id i' (set_interest id (i' <| in_ready_queue := false |>)
      (s <| ep_ready := rest |>)))).
  { intros i' Hk. unfold register_waker_only.
    assert (key_file e i' = Some (in_key i).2) as -> by (unfold key_file in *; by rewrite Hk).
    unfold register, set_interest.
    destruct (mode_is_enabled (in_mode i')) eqn:He; cbn;
      (eapply (inv_change L s id i); eauto; [intros; rewrite Hr; elems|..]; try elems;
       intros _; split; cbn; [naive_solver|]).
    - right. rewrite Hk. set_solver.
    - congruence. }
  destruct (consume _ i) as [[ev|ev|] i'] eqn:Hc; cbn;
    [|apply Hrm; by rewrite <- (consume_key (ev_poll e (in_key i).2) i), Hc..].
  apply consume_keep in Hc as [-> Hm]. unfold set_interest; cbn.
  eapply (inv_change L s id i); eauto; [|intros; rewrite Hr; elems|].
  - apply NoDup_app. split; [done|]. split; [set_solver|apply NoDup_singleton].
  - intros _. assert (in_ready_queue i = true) as Hq.
    { apply (inv_queue L s I id); [by apply upgrade_spec|]. rewrite Hr. set_solver. }
    split; [rewrite Hq; elems|by left].
Qed.

(** ** The loop of [poll_events] *)

(** A turn that reports nothing shortens the queue. *)
Lemma poll_one_ready e id s :
  let '(o, s') := poll_one e id s in
  match o with
  | Some _ => ep_ready s' = ep_ready s ∨ ep_ready s' = ep_ready s ++ [id]
  | None => ep_ready s' = ep_ready s
  end.
Proof. unfold poll_one, register_waker_only, register, set_interest. repeat case_match; naive_solver. Qed.

Lemma poll_loop_total e : ∀ fuel left s,
  (left + length (ep_ready s) < fuel)%nat →
  ∃ evs s', poll_loop fuel e left s = Some (evs, s') ∧ (length evs ≤ left)%nat.
Proof.
  induction fuel as [|fuel IH]; intros left s Hf; [lia|]. cbn.
  destruct (ep_ready s) as [|id rest] eqn:Hr; [eexists _, _; split; [done|cbn; lia]|].
  destruct left as [|left]; [by eexists _, _|].
  pose proof (poll_one_ready e id (s <| ep_ready := rest |>)) as Hq.
  destruct (poll_one _ _ _) as [[ev|] s']; cbn in *.
  - destruct (IH left s') as (evs & s'' & -> & Hl).
    { destruct Hq as [-> | ->]; rewrite ?length_app; cbn; lia. }
    cbn. eexists _, _. split; [done|]. cbn. lia.
  - destruct (IH (S left) s') as (evs & s'' & -> & Hl); [rewrite Hq; lia|].
    by eexists _, _.
Qed.

Lemma poll_loop_inv L e : ∀ fuel left s evs s',
  poll_loop fuel e left s = Some (evs, s') → ep_inv L s → ep_inv L s'.
Proof.
  induction fuel as [|fuel IH]; intros left s evs s' H I; [done|]. cbn in H.
  destruct (ep_ready s) as [|id rest] eqn:Hr; [by simplify_eq|].
  destruct left as [|left]; [by simplify_eq|].
  pose proof (poll_one_inv L e s id rest I Hr) as I1.
  destruct (poll_one _ _ _) as [[ev|] s1]; cbn in *; [|eauto].
  destruct (poll_loop fuel e left s1) as [[evs1 s2]|] eqn:E; cbn in H; simplify_eq. eauto.
Qed.

Lemma poll_events_inv L e n s : ep_inv L s → ep_inv L (poll_events e n s).2.
Proof.
  intros I. unfold poll_events. destruct (poll_loop _ _ _ _) as [[[|ev evs] s']|] eqn:E;
    cbn; eauto using poll_loop_inv.
Qed.

Lemma act_inv L e a s : env_ok e → ep_inv L s → ep_inv (L ∪ strands e a s) (act e a s).
Proof.
  intros He I. apply (inv_mono L (L ∪ strands e a s)) in I; [|set_solver]. destruct a; cbn [act];
    eauto using ep_add_inv, ep_delete_inv, poll_events_inv.
  - apply ep_modify_inv; [done| |done]. cbn. intros ->. set_solver.
  - case_decide; eauto using wake_registered_inv.
Qed.

Lemma runs_inv l : ∀ s,
  Forall (λ ea, env_ok ea.1) l → quiet_modify l s → ep_inv ∅ s → ep_inv ∅ (runs l s).
Proof.
  induction l as [|[e a] l IH]; intros s He Hq I; [done|]. cbn in *.
  apply Forall_cons in He as [He Hl]. destruct Hq as [Hq Hl']. apply IH; [done..|].
  apply (act_inv _ e a) in I; [|done]. assert (strands e a s = ∅) as E by (destruct a; cbn in *; by rewrite ?Hq).
  by rewrite E, union_empty_l_L in I.
Qed.

(** ** A ready interest is reported *)

(** Processing one entry leaves the other interests alone. *)
Lemma poll_one_other e s id x i :
  x ≠ id → upgrade s x = Some i →
  upgrade (poll_one e id s).2 x = Some i.
Proof.
  intros Hne Hx. unfold poll_one.
  destruct (upgrade s id) as [j|] eqn:Hu; [|done].
  apply upgrade_spec in Hu as [Ho Ht], Hx as [Hox Htx].
  unfold register_waker_only, register, set_interest.
  repeat case_match; simplify_eq; apply upgrade_spec; cbn; rewrite lookup_insert_ne by done;
    (split; [done|]); try done.
  rewrite lookup_delete_ne; [done|congruence].
Qed.

(** The event [epoll_wait] reports for [i] *)
Definition due_event (e : env) (i : EpollInterest) : EpollEvent :=
  mkEpollEvent (Z.land (ev_poll e (in_key i).2) (ee_events (in_event i))) (ee_user_data (in_event i)).

Definition is_due (e : env) (i : EpollInterest) : Prop :=
  ev_alive e (in_key i).2 = true ∧ mode_is_enabled (in_mode i) = true
  ∧ Z.land (ev_poll e (in_key i).2) (ee_events (in_event i)) ≠ 0.

Lemma poll_one_due e s id i :
  upgrade s id = Some i → is_due e i → (poll_one e id s).1 = Some (due_event e i).
Proof.
  intros Hu (Ha & Hen & Hm). unfold poll_one, key_file. rewrite Hu, Ha. unfold consume.
  apply Z.eqb_neq in Hm. rewrite Hm.
  destruct (in_mode i) as [| |[]] eqn:E; cbn in *; try done.
Qed.

Lemma poll_loop_reports L e : ∀ fuel left s pre id post i evs s',
  poll_loop fuel e left s = Some (evs, s') → ep_inv L s →
  ep_ready s = pre ++ id :: post → (length pre < left)%nat →
  upgrade s id = Some i → is_due e i → due_event e i ∈ evs.
Proof.
  induction fuel as [|fuel IH]; intros left s pre id post i evs s' H I Hr Hl Hu Hd; [done|].
  cbn in H. destruct left as [|left]; [lia|].
  pose proof (inv_nodup L s I) as Hnd. rewrite Hr in Hnd.
  destruct pre as [|x pre]; rewrite Hr in H; cbn in H, Hr.
  - assert (Hone : (poll_one e id (s <| ep_ready := post |>)).1 = Some (due_event e i)).
    { by apply poll_one_due. }
    destruct (poll_one _ _ _) as [[ev|] s1]; cbn in Hone; simplify_eq.
    destruct (poll_loop fuel e left s1) as [[evs1 s2]|]; cbn in H; simplify_eq. set_solver.
  - assert (Hx : id ≠ x).
    { intros ->. apply NoDup_cons in Hnd as [Hn _]. set_solver. }
    pose proof (poll_one_inv L e s x _ I Hr) as I1.
    pose proof (poll_one_ready e x (s <| ep_ready := pre ++ id :: post |>)) as Hq.
    assert (Hu1 : upgrade (poll_one e x (s <| ep_ready := pre ++ id :: post |>)).2 id = Some i)
      by (by apply poll_one_other).
    destruct (poll_one _ _ _) as [[ev|] s1]; cbn in *.
    + destruct (poll_loop fuel e left s1) as [[evs1 s2]|] eqn:E; cbn in H; simplify_eq.
      apply list_elem_of_further.
      destruct Hq as [Hq|Hq]; [|rewrite <- app_assoc in Hq; cbn in Hq];
        (eapply IH; [exact E|done|exact Hq|lia|exact Hu1|done]).
    + eapply IH; [exact H|done|exact Hq|lia|done|done].
Qed.

(** After any sequence of additions, deletions, waits, wake-ups by files
    and modifications of interests that are not queued, an interest is marked
    as queued exactly when the ready queue holds it, the queue holds no
    interest twice, and an enabled interest is queued or has its waker
    registered with its file. *)
Lemma epoll_interest_watched (l : list (env * action)) :
  Forall (λ ea, env_ok ea.1) l → quiet_modify l Epoll_new →
  let s := runs l Epoll_new in
  NoDup (ep_ready s)
  ∧ ∀ id i, upgrade s id = Some i →
      (in_ready_queue i = true ↔ id ∈ ep_ready s)
      ∧ (mode_is_enabled (in_mode i) = true →
           id ∈ ep_ready s ∨ ((in_key i).2, id) ∈ ep_reg s).
Proof.
  intros He Hq s. assert (I : ep_inv ∅ s) by (apply runs_inv; auto using epoll_new_inv).
  split; [apply I|]. intros id i Hu. destruct (inv_queue ∅ s I id i Hu) as [Hq1 Hq2].
  assert (in_ready_queue i = true → id ∈ ep_ready s) as Hq3 by set_solver.
  split; [done|]. intros Hen. destruct (inv_watch ∅ s I id i Hu Hen); auto.
Qed.

(** [poll_events] ends, reports at most [out.len()] events, and reports
    [WouldBlock] rather than no event; an interest among the first [out.len()]
    entries of the queue whose file is ready is reported with the events that
    match and its user data. *)
Lemma epoll_reports_ready (l : list (env * action)) (e : env) (n : nat) :
  Forall (λ ea, env_ok ea.1) l → quiet_modify l Epoll_new →
  let s := runs l Epoll_new in
  match (poll_events e n s).1 with
  | Ok evs => evs ≠ [] ∧ (length evs ≤ n)%nat
  | Err err => err = WouldBlock
  | Panic => False
  end
  ∧ ∀ k id i, ep_ready s !! k = Some id → (k < n)%nat → upgrade s id = Some i → is_due e i →
      ∃ evs, (poll_events e n s).1 = Ok evs ∧ due_event e i ∈ evs.
Proof.
  intros He Hq s. assert (I : ep_inv ∅ s) by (apply runs_inv; auto using epoll_new_inv).
  destruct (poll_loop_total e (poll_fuel n s) n s) as (evs & s' & Hl & Hlen);
    [unfold poll_fuel; lia|].
  unfold poll_events. rewrite Hl. split; [by destruct evs|].
  intros k id i Hk Hn Hu Hd.
  assert (Hin : due_event e i ∈ evs).
  { apply list_elem_of_split_length in Hk as (pre & post & Hr & ->).
    eapply poll_loop_reports; eauto. }
  destruct evs as [|ev evs]; [set_solver|]. by eexists.
Qed.

(** ** Two flaws *)

Lemma poll_one_level e s id i :
  upgrade s id = Some i → is_due e i → in_mode i = Level →
  poll_one e id s = (Some (due_event e i), set_interest id i s <| ep_ready ::= λ q, q ++ [id] |>).
Proof.
  intros Hu (Ha & _ & Hn%Z.eqb_neq) Hm. unfold poll_one, key_file. rewrite Hu, Ha.
  unfold consume. rewrite Hn, Hm. cbn. destruct i; cbn in *; by subst.
Qed.

(** An entry that stays level-triggered and ready is taken again. *)
Lemma poll_loop_level e id i : is_due e i → in_mode i = Level → ∀ fuel left s,
  (left < fuel)%nat → upgrade s id = Some i → ep_ready s = [id] →
  ∃ s', poll_loop fuel e left s = Some (replicate left (due_event e i), s').
Proof.
  intros Hd Hm. induction fuel as [|fuel IH]; intros left s Hf Hu Hr; [lia|]. cbn. rewrite Hr.
  destruct left as [|left]; [by eexists|].
  rewrite (poll_one_level e _ id i) by done.
  edestruct (IH left) as [s' Hs']; [lia| | |by rewrite Hs'; eexists]; [|done].
  apply upgrade_spec in Hu as [Ho Ht]. apply upgrade_spec. cbn. by rewrite lookup_insert_eq.
Qed.

(** A level-triggered interest whose file is ready goes back to the queue
    within the loop that reports it: if it is the only one queued, one
    [epoll_wait] with room for [n] events reports it [n] times. *)
Lemma level_event_repeats e s id i n :
  upgrade s id = Some i → is_due e i → in_mode i = Level → ep_ready s = [id] → (0 < n)%nat →
  (poll_events e n s).1 = Ok (replicate n (due_event e i)).
Proof.
  intros Hu Hd Hm Hr Hn. unfold poll_events.
  destruct (poll_loop_level e id i Hd Hm (poll_fuel n s) n s) as [s' ->]; auto;
    [unfold poll_fuel; lia|].
  by destruct n; [lia|].
Qed.

(** An interest that is marked as queued and is not in the queue: no wake-up
    can queue it. *)
Definition stranded (key : EntryKey) (id : Z) (s : Epoll) : Prop :=
  id < ep_next s ∧ (id ∉ ep_ready s)
  ∧ ∃ i, upgrade s id = Some i ∧ in_key i = key ∧ in_ready_queue i = true.

(** [epoll_ctl] on the key itself, other than the addition it refuses *)
Definition touches (key : EntryKey) (e : env) (a : action) : Prop :=
  match a with
  | AModify fd _ _ | ADelete fd => EntryKey_new e fd = Ok key
  | _ => False
  end.

Lemma interest_wake_stranded key id x s : stranded key id s → stranded key id (interest_wake x s).
Proof.
  intros (Hn & Hr & i & Hu & Hk & Hq). unfold interest_wake.
  destruct (upgrade s x) as [j|] eqn:Hx; [|split; eauto]. destruct (in_ready_queue j) eqn:Hj; [split; eauto|].
  assert (x ≠ id) by congruence. split; [done|]. split; [cbn; set_solver|]. exists i. split; [|done].
  apply upgrade_spec in Hu as [Ho Ht]. apply upgrade_spec. cbn. by rewrite lookup_insert_ne.
Qed.

Lemma check_stranded key id e x j s :
  stranded key id s → stranded key id (check_and_register_waker e x j s).
Proof.
  intros Hs. unfold check_and_register_waker. repeat case_match; auto using interest_wake_stranded.
Qed.

(** A new interest under another key *)
Lemma insert_stranded key id k i s :
  k ≠ key → stranded key id s →
  stranded key id (set_interest (ep_next s) i s <| ep_interests ::= <[k := ep_next s]> |>
                     <| ep_next ::= λ n, n + 1 |>).
Proof.
  intros Hne (Hn & Hr & j & Hu & Hk & Hq). split; [cbn; lia|]. split; [done|]. exists j.
  split; [|done]. apply upgrade_spec in Hu as [Ho Ht]. apply upgrade_spec. cbn.
  rewrite !lookup_insert_ne; [done|congruence|lia].
Qed.

Lemma poll_one_stranded key id e x s :
  x ≠ id → stranded key id s → stranded key id (poll_one e x s).2.
Proof.
  intros Hx (Hn & Hr & i & Hu & Hk). pose proof (poll_one_ready e x s) as Hq.
  assert (Hnx : ep_next (poll_one e x s).2 = ep_next s).
  { unfold poll_one, register_waker_only, register, set_interest. by repeat case_match. }
  split; [by rewrite Hnx|]. split; [|exists i; split; [by apply poll_one_other|done]].
  destruct (poll_one e x s) as [[ev|] s']; cbn in *; [destruct Hq as [-> | ->]|rewrite Hq];
    set_solver.
Qed.

Lemma poll_loop_stranded key id e : ∀ fuel left s evs s',
  poll_loop fuel e left s = Some (evs, s') → stranded key id s → stranded key id s'.
Proof.
  induction fuel as [|fuel IH]; intros left s evs s' H Hs; [done|]. cbn in H.
  destruct (ep_ready s) as [|x rest] eqn:Hr; [by simplify_eq|].
  destruct left as [|left]; [by simplify_eq|].
  assert (Hs0 : stranded key id (poll_one e x (s <| ep_ready := rest |>)).2).
  { destruct Hs as (Hn & Hni & Hi). rewrite Hr in Hni.
    apply poll_one_stranded; [set_solver|]. split; [done|]. split; [cbn; set_solver|done]. }
  destruct (poll_one _ _ _) as [[ev|] s1]; cbn in *; [|eauto].
  destruct (poll_loop fuel e left s1) as [[evs1 s2]|] eqn:E; cbn in H; simplify_eq. eauto.
Qed.

Lemma act_stranded key id e a s :
  ¬ touches key e a → stranded key id s → stranded key id (act e a s).
Proof.
  intros Ht Hs. destruct a as [fd ev fl|fd ev fl|fd|n|r]; cbn in *.
  - unfold ep_add. unfold_m. destruct (EntryKey_new e fd) as [k| |] eqn:Hk; try done.
    case_bool_decide as Hin; [done|]. cbn. apply check_stranded, insert_stranded; [|done].
    intros ->. destruct Hs as (_ & _ & i & [_ Hi]%upgrade_spec & Hik & _).
    apply Hin. rewrite <- Hik. by eexists.
  - unfold ep_modify. unfold_m. destruct (EntryKey_new e fd) as [k| |]; try done.
    destruct (ep_interests s !! k); [|done]. cbn.
    apply check_stranded, insert_stranded; [congruence|done].
  - unfold ep_delete. unfold_m. destruct (EntryKey_new e fd) as [k| |]; try done.
    destruct (ep_interests s !! k); [|done]. cbn.
    destruct Hs as (Hn & Hr & i & [Ho Hi]%upgrade_spec & Hik & Hq).
    split; [done|]. split; [done|]. exists i. split; [|done]. apply upgrade_spec. cbn.
    rewrite lookup_delete_ne; [done|congruence].
  - unfold poll_events. destruct (poll_loop _ _ _ _) as [[[|ev evs] s']|] eqn:E;
      cbn; eauto using poll_loop_stranded.
  - case_decide; [|done]. by apply interest_wake_stranded.
Qed.

Lemma runs_stranded key id l : ∀ s,
  Forall (λ ea, ¬ touches key ea.1 ea.2) l → stranded key id s → stranded key id (runs l s).
Proof.
  induction l as [|[e a] l IH]; intros s Hl Hs; [done|].
  apply Forall_cons in Hl as [Ha Hl]. apply IH; [done|]. by apply act_stranded.
Qed.

Lemma modify_stranded e fd event flags key s :
  ep_inv ∅ s → EntryKey_new e fd = Ok key → fd_queued e fd s = true →
  stranded key (ep_next s) (ep_modify e fd event flags s).2.
Proof.
  intros I Hk Hq. unfold fd_queued in Hq. unfold ep_modify. unfold_m. rewrite Hk in Hq |- *. cbn in *.
  destruct (ep_interests s !! key) as [old|] eqn:Ht; [|done]. cbn in *.
  destruct (ep_objects s !! old) as [o|] eqn:Ho; [|done]. rewrite Hq.
  apply check_stranded. split; [cbn; lia|]. split.
  - intros [o' Ho']%(inv_ready ∅ s I). by rewrite (inv_fresh ∅) in Ho'.
  - exists ((EpollInterest_new key event flags) <| in_ready_queue := true |>).
    split; [|done]. apply upgrade_spec. cbn. by rewrite !lookup_insert_eq.
Qed.

Lemma poll_one_dead e x s : upgrade s x = None → poll_one e x s = (None, s).
Proof. unfold poll_one. by intros ->. Qed.

(** Entries of interests that are gone are dropped. *)
Lemma poll_loop_dead e : ∀ fuel left s evs s',
  poll_loop fuel e left s = Some (evs, s') →
  Forall (λ x, upgrade s x = None) (ep_ready s) → evs = [].
Proof.
  induction fuel as [|fuel IH]; intros left s evs s' H Hd; [done|]. cbn in H.
  destruct (ep_ready s) as [|x rest] eqn:Hr; [by simplify_eq|].
  destruct left as [|left]; [by simplify_eq|]. apply Forall_cons in Hd as [Hx Hd].
  rewrite poll_one_dead in H by done. eapply IH; [exact H|done].
Qed.

(** [EPOLL_CTL_MOD] on an interest that is in the ready queue replaces it
    by one that is marked as queued while the queue refers to the old one.
    Until the next [epoll_ctl] on that descriptor the new interest is never
    queued again, whatever its file does, and if it is the only one every
    wait finds nothing, even with the file ready. *)
Lemma modify_queued_loses_events l e fd event flags key l' :
  Forall (λ ea, env_ok ea.1) l → quiet_modify l Epoll_new →
  let s := runs l Epoll_new in
  EntryKey_new e fd = Ok key → fd_queued e fd s = true →
  Forall (λ ea, ¬ touches key ea.1 ea.2) l' →
  let s' := runs l' (ep_modify e fd event flags s).2 in
  (∃ i, upgrade s' (ep_next s) = Some i ∧ in_key i = key)
  ∧ (ep_next s ∉ ep_ready s')
  ∧ (ep_interests s' = {[key := ep_next s]} →
     ∀ e' n, (poll_events e' n s').1 = Err WouldBlock).
Proof.
  intros He Hq s Hk Hqd Hl s'.
  assert (I : ep_inv ∅ s) by (apply runs_inv; auto using epoll_new_inv).
  destruct (runs_stranded key (ep_next s) l' (ep_modify e fd event flags s).2) as
    (_ & Hr & i & Hu & Hi & _); [done|by apply modify_stranded|].
  fold s' in Hr, Hu. split; [by eexists|]. split; [done|]. intros Ht e' n.
  destruct (poll_loop_total e' (poll_fuel n s') n s') as (evs & s'' & E & _);
    [unfold poll_fuel; lia|].
  unfold poll_events. rewrite E. apply poll_loop_dead in E as ->; [done|].
  apply Forall_forall. intros x Hx. destruct (upgrade s' x) as [j|] eqn:Hj; [|done].
  apply upgrade_spec in Hj as [_ Hj]. rewrite Ht in Hj.
  apply lookup_singleton_Some in Hj as [_ Hj]. by subst x.
Qed.

(** ** Witnesses *)

Definition ready_env : env :=
  mkEnv (λ _, 1) (λ _, true) (λ fd, if fd =? 3 then Some 7 else None).

Definition level_in : list (env * action) := [(ready_env, AAdd 3 (mkEpollEvent 1 42) 0)].

Lemma ready_env_ok : env_ok ready_env.
Proof. by intros fd file. Qed.

Lemma level_in_ok : Forall (λ ea, env_ok ea.1) level_in ∧ quiet_modify level_in Epoll_new.
Proof. split; [repeat constructor; apply ready_env_ok|done]. Qed.

Example epoll_interest_watched_instance : ep_ready (runs level_in Epoll_new) = [0]
  ∧ NoDup (ep_ready (runs level_in Epoll_new)).
Proof. split; [done|]. apply (epoll_interest_watched level_in); apply level_in_ok. Qed.

Example level_event_repeats_instance :
  (poll_events ready_env 4 (runs level_in Epoll_new)).1 = Ok (replicate 4 (mkEpollEvent 1 42)).
Proof.
  apply (level_event_repeats ready_env (runs level_in Epoll_new) 0
    (mkInterest (3, 7) (mkEpollEvent 1 42) Level true)); [done| |done|done|lia].
  split; [done|]. by split.
Qed.

Example modify_queued_loses_events_instance :
  (poll_events ready_env 4
     (ep_modify ready_env 3 (mkEpollEvent 1 43) 0 (runs level_in Epoll_new)).2).1 = Err WouldBlock.
Proof.
  apply (proj2 (proj2 (modify_queued_loses_events level_in ready_env 3 (mkEpollEvent 1 43) 0 (3, 7)
    [] (proj1 level_in_ok) (proj2 level_in_ok) eq_refl eq_refl (Forall_nil_2 _)))).
  apply (bool_decide_unpack _). by vm_compute.
Qed.
