(* ===== verification/EventFd.v ===== *)
(** * EventFd

    [api/src/file/event.rs]: a 64-bit counter that [read] takes from and
    [write] adds to.  A blocking call repeats its attempt ([poll_io]) until it
    no longer answers [WouldBlock]; the model has the attempts, and the
    theorems relate them to what [poll] announces. *)

From S2P Require Import Prelude.

Definition u64_max : Z := 2 ^ 64 - 1.
#[local] Arguments u64_max : simpl never.
#[local] Arguments Z.eqb : simpl never.

Record EventFd := mkEventFd {
  ef_count : Z;
  ef_semaphore : bool;
  ef_non_blocking : bool;
}.
#[export] Instance eta_EventFd : Eta EventFd := λ s,
  mkEventFd (ef_count s) (ef_semaphore s) (ef_non_blocking s).

Definition EventFd_new (initval : Z) (semaphore : bool) : EventFd :=
  mkEventFd initval semaphore false.

Record IoEvents := mkIoEvents { ev_in : bool; ev_out : bool }.

(** The update passed to [fetch_update] by [read] *)
Definition read_update (semaphore : bool) (count : Z) : option Z :=
  if count >? 0 then
    let dec := if semaphore then 1 else count in
    Some (count - dec)
  else None.

(** [u64::MAX - count] does not wrap: a count is at most [u64::MAX]. *)
Definition write_update (value count : Z) : option Z :=
  if u64_max - count >? value then Some (count + value) else None.

(** One attempt of [read]: [remaining] is the room of the destination and
    [put] the result of writing to it.  The result is the value written. *)
Definition eventfd_read (remaining : Z) (put : Z → res unit) : M EventFd Z :=
  if remaining <? 8 then failM InvalidInput
  else
    s ← getM;
    match read_update (ef_semaphore s) (ef_count s) with
    | Some count' =>
        modifyM (λ s, s <| ef_count := count' |>);;
        liftR (put (ef_count s));;
        mret (ef_count s)
    | None => failM WouldBlock
    end.

(** One attempt of [write]: [value] is the result of reading the source. *)
Definition eventfd_write (remaining : Z) (value : res Z) : M EventFd Z :=
  if remaining <? 8 then failM InvalidInput
  else
    value ← liftR value;
    if value =? u64_max then failM InvalidInput
    else
      s ← getM;
      match write_update value (ef_count s) with
      | Some count' => modifyM (λ s, s <| ef_count := count' |>);; mret 8
      | None => failM WouldBlock
      end.

Definition eventfd_poll (s : EventFd) : IoEvents :=
  mkIoEvents (ef_count s >? 0) (u64_max - 1 >? ef_count s).

Definition set_nonblocking (b : bool) (s : EventFd) : EventFd := s <| ef_non_blocking := b |>.

(** ** Runs *)

Inductive event_op :=
| ERead (remaining : Z)
| EWrite (remaining value : Z)
| ESetNonblocking (b : bool).

(** The state after an operation, and how much it took from or added to the
    counter, as the caller sees it: what was read, and what was accepted. *)
Definition event_run_op (o : event_op) (s : EventFd) : (Z * Z) * EventFd :=
  match o with
  | ERead remaining =>
      match eventfd_read remaining (λ _, Ok tt) s with
      | (Ok v, s') => ((v, 0), s')
      | (_, s') => ((0, 0), s')
      end
  | EWrite remaining value =>
      match eventfd_write remaining (Ok value) s with
      | (Ok _, s') => ((0, value), s')
      | (_, s') => ((0, 0), s')
      end
  | ESetNonblocking b => ((0, 0), set_nonblocking b s)
  end.

Fixpoint event_run (l : list event_op) (s : EventFd) : (Z * Z) * EventFd :=
  match l with
  | [] => ((0, 0), s)
  | o :: l =>
      let '((r, w), s') := event_run_op o s in
      let '((rs, ws), s'') := event_run l s' in
      ((r + rs, w + ws), s'')
  end.

(** A value a user can pass in eight bytes *)
Definition op_ok (o : event_op) : Prop :=
  match o with EWrite _ v => 0 ≤ v ≤ u64_max | _ => True end.

Definition count_ok (s : EventFd) : Prop := 0 ≤ ef_count s < u64_max.

Ltac event_cases :=
  unfold event_run_op, eventfd_read, eventfd_write, read_update, write_update; unfold_m; cbn.

Lemma event_run_op_ok o s :
  count_ok s → op_ok o →
  let '((r, w), s') := event_run_op o s in
  count_ok s' ∧ ef_semaphore s' = ef_semaphore s
  ∧ (ef_semaphore s = false → r + ef_count s' = ef_count s + w).
Proof.
  unfold count_ok, op_ok. intros Hc Ho. destruct o as [n|n v|b]; event_cases.
  - destruct (n <? 8); cbn; [split_and!; try done; lia|].
    destruct (ef_count s >? 0) eqn:E; cbn; [|split_and!; try done; lia].
    destruct (ef_semaphore s); cbn; split_and!; try done; lia.
  - destruct (n <? 8); cbn; [split_and!; try done; lia|].
    destruct (v =? u64_max); cbn; [split_and!; try done; lia|].
    destruct (u64_max - ef_count s >? v) eqn:E; cbn; split_and!; try done; lia.
  - split_and!; try done; lia.
Qed.

Lemma event_run_ok l : ∀ s,
  count_ok s → Forall op_ok l →
  let '((r, w), s') := event_run l s in
  count_ok s' ∧ (ef_semaphore s = false → r + ef_count s' = ef_count s + w).
Proof.
  induction l as [|o l IH]; intros s Hc Hl; cbn; [split; [done|lia]|].
  apply Forall_cons in Hl as [Ho Hl]. pose proof (event_run_op_ok o s Hc Ho) as H1.
  destruct (event_run_op o s) as [[r w] s1]. destruct H1 as (Hc1 & Hs1 & He1).
  specialize (IH s1 Hc1 Hl). destruct (event_run l s1) as [[rs ws] s2].
  destruct IH as [Hc2 He2]. split; [done|]. intros Hs. specialize (He1 Hs).
  rewrite Hs1 in He2. specialize (He2 Hs). lia.
Qed.

(** The counter of an eventfd never reaches [u64::MAX], whatever is read
    and written, and outside semaphore mode nothing is lost: the values read
    and the final count add up to the initial count and the values accepted. *)
Lemma eventfd_conserves initval semaphore l :
  0 ≤ initval < 2 ^ 32 → Forall op_ok l →
  let '((r, w), s) := event_run l (EventFd_new initval semaphore) in
  0 ≤ ef_count s ≤ u64_max - 1 ∧ (semaphore = false → r + ef_count s = initval + w).
Proof.
  intros Hi Hl. pose proof (event_run_ok l (EventFd_new initval semaphore)) as H.
  unfold count_ok, u64_max in H. cbn in H. specialize (H ltac:(lia) Hl).
  destruct (event_run _ _) as [[r w] s]. unfold u64_max. destruct H as [Hc He].
  split; [lia|done].
Qed.

(** [poll] announces input exactly when a read would not block, and output
    exactly when a write of 1 would not block. *)
Lemma eventfd_poll_agrees s :
  count_ok s →
  (ev_in (eventfd_poll s) = true ↔ (eventfd_read 8 (λ _, Ok tt) s).1 ≠ Err WouldBlock)
  ∧ (ev_out (eventfd_poll s) = true ↔ (eventfd_write 8 (Ok 1) s).1 ≠ Err WouldBlock).
Proof.
  unfold count_ok. intros Hc. unfold eventfd_poll. event_cases. split.
  - destruct (ef_count s >? 0); cbn; split; congruence.
  - change (1 =? u64_max) with false.
    destruct (u64_max - ef_count s >? 1) eqn:E1, (u64_max - 1 >? ef_count s) eqn:E2; cbn;
      try lia; rewrite ?E1; cbn; split; congruence.
Qed.

Lemma semaphore_read_op c b :
  0 < c → event_run_op (ERead 8) (mkEventFd c true b) = ((c, 0), mkEventFd (c - 1) true b).
Proof. intros Hc. event_cases. by replace (c >? 0) with true by lia. Qed.

(** In semaphore mode a read takes one from the counter and hands the
    caller the whole count, not 1, so [n] reads of a count of [n] return
    [n + (n - 1) + ... + 1] in total. *)
Lemma semaphore_read_returns_count (n : nat) b :
  event_run (replicate n (ERead 8)) (mkEventFd (Z.of_nat n) true b)
    = ((Z.of_nat (n * (n + 1) / 2), 0), mkEventFd 0 true b).
Proof.
  assert (Hsum : ∀ n : nat, (S n * (S n + 1) / 2 = S n + n * (n + 1) / 2)%nat).
  { intros k. replace (S k * (S k + 1))%nat with (k * (k + 1) + S k * 2)%nat by lia.
    rewrite Nat.div_add by lia. lia. }
  induction n as [|n IH]; [done|]. cbn [replicate event_run].
  rewrite semaphore_read_op by lia. replace (Z.of_nat (S n) - 1) with (Z.of_nat n) by lia.
  rewrite IH, Hsum. f_equal. f_equal; lia.
Qed.
