(* ===== verification/Pipe.v ===== *)
(** * Pipes

    [api/src/file/pipe.rs]: the two ends share a ring buffer.  The ring buffer
    (crate [ringbuf]) and the user's buffers (traits [IoDst] and [IoSrc]) are
    interfaces with the laws their documentation states; the theorems hold for
    all implementations, and [ring] and [user_buf] are concrete ones.

    A blocking call repeats its attempt ([poll_io]) while it answers
    [WouldBlock]; the model has the attempts. *)

From S2P Require Import Prelude.

(** [HeapRb<u8>]: [rb_slices] is [as_slices], [rb_vacant] the lengths of
    [vacant_slices_mut], [rb_commit l r] fills the beginning of the two vacant
    slices with [l] and [r] and advances the write index.  [HeapRb::new] panics
    when it cannot have the memory ([rb_alloc] is false) or the capacity is 0. *)
Class RingBuf (R : Type) := {
  rb_new : nat → R;
  rb_alloc : nat → bool;
  rb_capacity : R → nat;
  rb_slices : R → bytes * bytes;
  rb_vacant : R → nat * nat;
  rb_push_slice : bytes → R → R;
  rb_advance_read : nat → R → R;
  rb_commit : bytes → bytes → R → R;
}.

Definition rb_content `{RingBuf R} (r : R) : bytes := (rb_slices r).1 ++ (rb_slices r).2.
Definition rb_occupied_len `{RingBuf R} (r : R) : nat := length (rb_content r).
Definition rb_vacant_len `{RingBuf R} (r : R) : nat := ((rb_vacant r).1 + (rb_vacant r).2)%nat.

Class RingBufOk (R : Type) `{RingBuf R} := {
  rb_alloc_zero : rb_alloc 0 = false;
  rb_new_content n : rb_content (rb_new n) = [];
  rb_new_capacity n : rb_capacity (rb_new n) = n;
  rb_vacant_spec r : (rb_vacant_len r + rb_occupied_len r = rb_capacity r)%nat;
  rb_push_content l r : rb_content (rb_push_slice l r) = rb_content r ++ take (rb_vacant_len r) l;
  rb_push_capacity l r : rb_capacity (rb_push_slice l r) = rb_capacity r;
  rb_advance_content n r : (n ≤ rb_occupied_len r)%nat →
    rb_content (rb_advance_read n r) = drop n (rb_content r);
  rb_advance_capacity n r : rb_capacity (rb_advance_read n r) = rb_capacity r;
  rb_commit_content l l' r :
    (length l ≤ (rb_vacant r).1)%nat → (length l' ≤ (rb_vacant r).2)%nat →
    (l' = [] ∨ length l = (rb_vacant r).1) →
    rb_content (rb_commit l l' r) = rb_content r ++ l ++ l';
  rb_commit_capacity l l' r : rb_capacity (rb_commit l l' r) = rb_capacity r;
}.

(** [IoDst]: what it holds, and how much more it takes *)
Class IoDst (D : Type) := {
  dst_data : D → bytes;
  dst_room : D → nat;
  dst_write : bytes → D → res nat * D;
}.

(** A write takes as much as fits, or fails with a fault. *)
Class IoDstOk (D : Type) `{IoDst D} := {
  dst_write_ok l d n d' : dst_write l d = (Ok n, d') →
    n = (length l `min` dst_room d)%nat ∧ dst_data d' = dst_data d ++ take n l
    ∧ dst_room d' = (dst_room d - n)%nat;
  dst_write_err l d e d' : dst_write l d = (Err e, d') → e = BadAddress;
  dst_write_panic l d d' : dst_write l d ≠ (Panic, d');
}.

(** [IoSrc]: the bytes that remain to be read *)
Class IoSrc (S : Type) := {
  src_data : S → bytes;
  src_read : nat → S → res bytes * S;
}.

Class IoSrcOk (S : Type) `{IoSrc S} := {
  src_read_ok n s l s' : src_read n s = (Ok l, s') →
    l = take n (src_data s) ∧ src_data s' = drop n (src_data s);
  src_read_err n s e s' : src_read n s = (Err e, s') → e = BadAddress;
  src_read_panic n s s' : src_read n s ≠ (Panic, s');
}.

Definition RING_BUFFER_INIT_SIZE : nat := Z.to_nat 65536.
Definition PAGE_SIZE_4K : nat := Z.to_nat 4096.

(** One pipe: the shared buffer, and which of its two ends still exist, as
    the count of references to the shared part says. *)
Record Pipe (R : Type) := mkPipe {
  p_buffer : R;
  p_read_open : bool;
  p_write_open : bool;
}.
Arguments mkPipe {R}.
Arguments p_buffer {R}.
Arguments p_read_open {R}.
Arguments p_write_open {R}.
#[export] Instance eta_Pipe R : Eta (Pipe R) := λ p,
  mkPipe (p_buffer p) (p_read_open p) (p_write_open p).

Record PipeEvents := mkPipeEvents { pe_in : bool; pe_out : bool; pe_hup : bool }.

Section Pipe.
Context {R D S : Type} `{RingBufOk R} `{IoDstOk D} `{IoSrcOk S}.
Implicit Types p : Pipe R.

Definition Pipe_new : Pipe R := mkPipe (rb_new RING_BUFFER_INIT_SIZE) true true.

(** [closed()] of an end that exists: it holds the only reference. *)
Definition closed (read_side : bool) (p : Pipe R) : bool :=
  if read_side then negb (p_write_open p) else negb (p_read_open p).

(** [Drop for Pipe], apart from the wake-up *)
Definition pipe_drop (read_side : bool) (p : Pipe R) : Pipe R :=
  if read_side then p <| p_read_open := false |> else p <| p_write_open := false |>.

(** [new_size.div_ceil(PAGE_SIZE_4K).max(1) * PAGE_SIZE_4K] of a [usize]: the
    product wraps to 0 for the sizes in the last page. *)
Definition pipe_size (new_size : Z) : nat :=
  Z.to_nat (as_u64 (((new_size + 4095) / 4096) `max` 1 * 4096)).

Definition resize (new_size : Z) : M (Pipe R) unit :=
  let new_size := pipe_size new_size in
  p ← getM;
  if (new_size =? rb_capacity (p_buffer p))%nat then mret tt
  else if (new_size <? rb_occupied_len (p_buffer p))%nat then failM ResourceBusy
  else if negb (rb_alloc new_size) then panicM
  else
    let '(lft, rgt) := rb_slices (p_buffer p) in
    modifyM (λ p, p <| p_buffer := rb_push_slice rgt (rb_push_slice lft (rb_new new_size)) |>).

(** Moves bytes from the two slices to the destination; the count. *)
Definition copy_out (lft rgt : bytes) (d : D) : res nat * D :=
  match dst_write lft d with
  | (Ok count, d') =>
      if (length lft <=? count)%nat then
        match dst_write rgt d' with
        | (Ok n, d'') => (Ok (count + n)%nat, d'')
        | (r, d'') => (r, d'')
        end
      else (Ok count, d')
  | (r, d') => (r, d')
  end.

(** One attempt of [read] on the end [read_side] *)
Definition pipe_read (read_side : bool) (d : D) (p : Pipe R) : res nat * D * Pipe R :=
  if negb read_side then (Err BadFileDescriptor, d, p)
  else if (dst_room d =? 0)%nat then (Ok 0%nat, d, p)
  else
    let '(lft, rgt) := rb_slices (p_buffer p) in
    match copy_out lft rgt d with
    | (Ok count, d') =>
        let p' := p <| p_buffer ::= rb_advance_read count |> in
        if (0 <? count)%nat then (Ok count, d', p')
        else if closed true p' then (Ok 0%nat, d', p')
        else (Err WouldBlock, d', p')
    | (r, d') => (r, d', p)
    end.

(** Fills the two vacant slices from the source; what went in each. *)
Definition copy_in (vl vr : nat) (s : S) : res (bytes * bytes) * S :=
  match src_read vl s with
  | (Ok l, s') =>
      if (vl <=? length l)%nat then
        match src_read vr s' with
        | (Ok l', s'') => (Ok (l, l'), s'')
        | (Err e, s'') => (Err e, s'')
        | (Panic, s'') => (Panic, s'')
        end
      else (Ok (l, []), s')
  | (Err e, s') => (Err e, s')
  | (Panic, s') => (Panic, s')
  end.

(** The closure of [write]: [size] is what remained at the start, [total] what
    earlier attempts of the call wrote. *)
Definition pipe_write_attempt (nonblocking : bool) (size total : nat) (s : S) (p : Pipe R)
    : res nat * nat * S * Pipe R :=
  if closed false p then (Err BrokenPipe, total, s, p)
  else
    let '(vl, vr) := rb_vacant (p_buffer p) in
    match copy_in vl vr s with
    | (Ok (l, l'), s') =>
        let written := (length l + length l')%nat in
        let p' := p <| p_buffer ::= rb_commit l l' |> in
        if (0 <? written)%nat then
          let total := (total + written)%nat in
          if (total =? size)%nat || nonblocking then (Ok total, total, s', p')
          else (Err WouldBlock, total, s', p')
        else (Err WouldBlock, total, s', p')
    | (Err e, s') => (Err e, total, s', p)
    | (Panic, s') => (Panic, total, s', p)
    end.

(** The first attempt of [write] on the end [read_side] *)
Definition pipe_write (read_side nonblocking : bool) (s : S) (p : Pipe R)
    : res nat * nat * S * Pipe R :=
  if read_side then (Err BadFileDescriptor, 0%nat, s, p)
  else
    let size := length (src_data s) in
    if (size =? 0)%nat then (Ok 0%nat, 0%nat, s, p)
    else pipe_write_attempt nonblocking size 0 s p.

Definition pipe_poll (read_side : bool) (p : Pipe R) : PipeEvents :=
  if read_side then mkPipeEvents (0 <? rb_occupied_len (p_buffer p))%nat false (closed true p)
  else mkPipeEvents false (0 <? rb_vacant_len (p_buffer p))%nat false.

(** ** Runs

    [PWrite] is an attempt of a write of which [size] and [total] may be those
    of a call in progress. *)
Inductive pipe_op :=
| PRead (d : D)
| PWrite (nonblocking : bool) (size total : nat) (s : S)
| PResize (n : Z)
| PDrop (read_side : bool).

(** The bytes an operation delivers to its reader and accepts from its writer *)
Definition pipe_run_op (o : pipe_op) (p : Pipe R) : (bytes * bytes) * Pipe R :=
  match o with
  | PRead d =>
      match pipe_read true d p with
      | (Ok _, d', p') => ((drop (length (dst_data d)) (dst_data d'), []), p')
      | (_, _, p') => (([], []), p')
      end
  | PWrite nb size total s =>
      match pipe_write_attempt nb size total s p with
      | (_, total', _, p') => (([], take (total' - total) (src_data s)), p')
      end
  | PResize n => (([], []), (resize n p).2)
  | PDrop side => (([], []), pipe_drop side p)
  end.

Fixpoint pipe_run (l : list pipe_op) (p : Pipe R) : (bytes * bytes) * Pipe R :=
  match l with
  | [] => (([], []), p)
  | o :: l =>
      let '((r, w), p') := pipe_run_op o p in
      let '((rs, ws), p'') := pipe_run l p' in
      ((r ++ rs, w ++ ws), p'')
  end.

(** ** One operation *)

Lemma copy_out_ok lft rgt d n d' :
  copy_out lft rgt d = (Ok n, d') →
  n = (length (lft ++ rgt) `min` dst_room d)%nat
  ∧ dst_data d' = dst_data d ++ take n (lft ++ rgt).
Proof.
  unfold copy_out. destruct (dst_write lft d) as [[c|e|] d1] eqn:E1; try done.
  apply dst_write_ok in E1 as (Hc & Hd1 & Hr1).
  destruct (Nat.leb_spec (length lft) c) as [Hl|Hl].
  - destruct (dst_write rgt d1) as [[c2|e|] d2] eqn:E2; try done. intros [= <- <-].
    apply dst_write_ok in E2 as (Hc2 & Hd2 & Hr2). rewrite length_app.
    assert (c = length lft) as -> by lia. split; [lia|].
    rewrite Hd2, Hd1, <- app_assoc, firstn_app.
    replace (length lft + c2 - length lft)%nat with c2 by lia.
    by rewrite (take_ge lft (length lft)), (take_ge lft (length lft + c2)), app_assoc by lia.
  - intros [= <- <-]. rewrite length_app. split; [lia|]. rewrite Hd1, firstn_app.
    replace (c - length lft)%nat with 0%nat by lia. by rewrite app_nil_r.
Qed.

Lemma copy_in_ok vl vr s l l' s' :
  copy_in vl vr s = (Ok (l, l'), s') →
  l ++ l' = take (vl + vr) (src_data s) ∧ (length l ≤ vl)%nat ∧ (length l' ≤ vr)%nat
  ∧ (l' = [] ∨ length l = vl).
Proof.
  unfold copy_in. destruct (src_read vl s) as [[a|e|] s1] eqn:E1; try done.
  apply src_read_ok in E1 as [Ha Hs1].
  destruct (Nat.leb_spec vl (length a)) as [Hl|Hl].
  - destruct (src_read vr s1) as [[b|e|] s2] eqn:E2; try done. intros [= <- <- <-].
    apply src_read_ok in E2 as [Hb _]. rewrite Hs1 in Hb. subst a b.
    rewrite <- take_take_drop. rewrite !length_take in *. split; [done|]. lia.
  - intros [= <- <- <-]. subst a. rewrite length_take in *. rewrite app_nil_r.
    rewrite !take_ge by lia. split; [done|]. cbn. rewrite ?length_take. naive_solver lia.
Qed.

Lemma content_fits r : (length (rb_content r) ≤ rb_capacity r)%nat.
Proof. pose proof (rb_vacant_spec r). unfold rb_occupied_len in *. lia. Qed.

Definition paged (p : Pipe R) : Prop := ∃ k, rb_capacity (p_buffer p) = (k * PAGE_SIZE_4K)%nat ∧ (1 ≤ k)%nat.

Lemma resize_content n p :
  rb_content (p_buffer (resize n p).2) = rb_content (p_buffer p).
Proof.
  unfold resize. unfold_m. case_match; [done|]. case_match eqn:E; [done|]. case_match; [done|].
  apply Nat.ltb_ge in E. destruct (rb_slices (p_buffer p)) as [lft rgt] eqn:Hs. cbn.
  assert (Hc : rb_content (p_buffer p) = lft ++ rgt) by (unfold rb_content; by rewrite Hs).
  unfold rb_occupied_len in E. rewrite Hc, length_app in E. rewrite !rb_push_content, rb_new_content.
  match goal with |- context [rb_push_slice lft ?r] => set (r0 := r) end.
  assert (He : rb_content r0 = []) by apply rb_new_content.
  pose proof (rb_vacant_spec r0) as V0. pose proof (rb_vacant_spec (rb_push_slice lft r0)) as V1.
  unfold rb_occupied_len in V0, V1. rewrite rb_push_content, He in V1. rewrite He in V0.
  rewrite rb_push_capacity, app_nil_l, length_take in V1. cbn in V0.
  subst r0. rewrite rb_new_capacity in V0, V1. rewrite !take_ge by lia. by rewrite Hc.
Qed.

Lemma pipe_size_pages n : pipe_size n ≠ 0%nat → ∃ k, pipe_size n = (k * PAGE_SIZE_4K)%nat ∧ (1 ≤ k)%nat.
Proof.
  unfold pipe_size. set (m := ((n + 4095) / 4096) `max` 1). intros Hn.
  assert (as_u64 (m * 4096) = m mod 2 ^ 52 * 4096) as E.
  { unfold as_u64, wrapu. change (2 ^ 64) with (2 ^ 52 * 4096). apply Zmult_mod_distr_r. }
  rewrite E in *. pose proof (Z.mod_pos_bound m (2 ^ 52)). exists (Z.to_nat (m mod 2 ^ 52)).
  unfold PAGE_SIZE_4K. rewrite <- Z2Nat.inj_mul by lia. split; [done|]. lia.
Qed.
(** The size of a [usize] is the number rounded up to pages, at least one, or 0. *)
Lemma pipe_size_spec n : in_u64 n →
  Z.of_nat (pipe_size n) = if n <=? 2 ^ 64 - 4096 then ((n + 4095) / 4096) `max` 1 * 4096 else 0.
Proof.
  intros [H0' H1']. unfold pipe_size, as_u64, wrapu. destruct (Z.leb_spec n (2 ^ 64 - 4096)).
  - assert ((n + 4095) / 4096 ≤ 2 ^ 52 - 1) by (apply Z.lt_succ_r, Z.div_lt_upper_bound; lia).
    rewrite Z.mod_small by lia. apply Z2Nat.id. lia.
  - assert ((n + 4095) / 4096 = 2 ^ 52) as -> by (symmetry; apply (Z.div_unique_pos _ _ _ (n + 4095 - 2 ^ 64)); lia).
    done.
Qed.

(** What [resize] answers, and the capacity it leaves *)
Lemma resize_cases n p :
  let '(r, p') := resize n p in
  match r with
  | Ok _ => rb_capacity (p_buffer p') = pipe_size n
  | Err e => p' = p ∧ e = ResourceBusy ∧ (pipe_size n < rb_occupied_len (p_buffer p))%nat
  | Panic => p' = p ∧ rb_alloc (pipe_size n) = false ∧ (rb_occupied_len (p_buffer p) ≤ pipe_size n)%nat
  end.
Proof.
  unfold resize. unfold_m. destruct (Nat.eqb_spec (pipe_size n) (rb_capacity (p_buffer p))); [done|].
  destruct (Nat.ltb_spec (pipe_size n) (rb_occupied_len (p_buffer p))); [done|].
  destruct (rb_alloc (pipe_size n)) eqn:E; [|done]. destruct (rb_slices (p_buffer p)) as [lft rgt]. cbn.
  by rewrite !rb_push_capacity, rb_new_capacity.
Qed.

Lemma resize_paged n p : paged p → paged (resize n p).2.
Proof.
  intros Hp. unfold resize. unfold_m. case_match; [done|]. case_match; [done|]. case_match eqn:E; [done|].
  apply negb_false_iff in E. case_match. cbn. unfold paged. cbn. rewrite !rb_push_capacity, rb_new_capacity.
  apply pipe_size_pages. intros Hz. rewrite Hz in E. by rewrite rb_alloc_zero in E.
Qed.

Lemma pipe_run_op_stream o p :
  let '((r, w), p') := pipe_run_op o p in
  r ++ rb_content (p_buffer p') = rb_content (p_buffer p) ++ w ∧ (paged p → paged p').
Proof.
  destruct o as [d|nb size total s|n|side]; cbn [pipe_run_op].
  - unfold pipe_read. cbn [negb]. destruct (dst_room d =? 0)%nat; [by rewrite drop_all, app_nil_r|].
    destruct (rb_slices (p_buffer p)) as [lft rgt] eqn:Hs.
    destruct (copy_out lft rgt d) as [[c|e|] d'] eqn:Hc; [|by rewrite app_nil_r..].
    apply copy_out_ok in Hc as [Hn Hd].
    assert (Hrb : rb_content (p_buffer p) = lft ++ rgt) by (unfold rb_content; by rewrite Hs).
    assert (Hadv : rb_content (rb_advance_read c (p_buffer p)) = drop c (lft ++ rgt)).
    { rewrite rb_advance_content; [by rewrite Hrb|]. unfold rb_occupied_len. rewrite Hrb. lia. }
    assert (Hg : paged p → paged (p <| p_buffer ::= rb_advance_read c |>)).
    { unfold paged. cbn. by rewrite rb_advance_capacity. }
    assert (Hst : drop (length (dst_data d)) (dst_data d') ++ drop c (lft ++ rgt) = lft ++ rgt).
    { by rewrite Hd, drop_app_length, take_drop. }
    destruct (Nat.ltb_spec 0 c) as [Hlt|Hlt]; [|destruct (closed true _)];
      (split; [|by apply Hg]); cbn; rewrite Hadv, Hrb, app_nil_r; [done..|]. by replace c with 0%nat by lia.
  - unfold pipe_write_attempt. destruct (closed false p); [by rewrite Nat.sub_diag, app_nil_r|].
    destruct (rb_vacant (p_buffer p)) as [vl vr] eqn:Hv.
    destruct (copy_in vl vr s) as [[[l l']|e|] s'] eqn:Hc; [|by rewrite Nat.sub_diag, app_nil_r..].
    apply copy_in_ok in Hc as (Hl & Hll & Hlr & Hor).
    assert (Hrb : rb_content (rb_commit l l' (p_buffer p)) = rb_content (p_buffer p) ++ l ++ l').
    { apply rb_commit_content; by rewrite Hv. }
    assert (Hg : paged p → paged (p <| p_buffer ::= rb_commit l l' |>)).
    { unfold paged. cbn. by rewrite rb_commit_capacity. }
    assert (Hw : take (length l + length l') (src_data s) = l ++ l').
    { rewrite <- length_app, Hl, length_take.
      destruct (Nat.min_spec (vl + vr) (length (src_data s))) as [[? ->]|[? ->]]; [done|].
      by rewrite !take_ge by lia. }
    destruct (Nat.ltb_spec 0 (length l + length l')) as [Hlt|Hlt].
    + destruct (_ || nb); cbn; (split; [|done]);
        replace (total + (length l + length l') - total)%nat with (length l + length l')%nat by lia;
        by rewrite Hrb, Hw.
    + cbn. split; [|done]. rewrite Nat.sub_diag, Hrb. destruct l, l'; cbn in *; try lia. done.
  - split; [by rewrite resize_content, app_nil_r|apply resize_paged].
  - destruct side; cbn; (split; [by rewrite app_nil_r|done]).
Qed.

Lemma pipe_run_stream l : ∀ p,
  let '((r, w), p') := pipe_run l p in
  r ++ rb_content (p_buffer p') = rb_content (p_buffer p) ++ w ∧ (paged p → paged p').
Proof.
  induction l as [|o l IH]; intros p; cbn; [by rewrite app_nil_r|].
  pose proof (pipe_run_op_stream o p) as H1'. destruct (pipe_run_op o p) as [[r w] p1].
  specialize (IH p1). destruct (pipe_run l p1) as [[rs ws] p2].
  destruct H1' as [Ho Hp1], IH as [Hl Hp2]. split; [|tauto].
  by rewrite <- app_assoc, Hl, app_assoc, Ho, <- app_assoc.
Qed.

(** C10: A pipe is a stream: after any sequence of reads, write attempts,
    resizes and closings of ends, the bytes accepted from writers are exactly
    the bytes delivered to readers, in order, followed by the buffer's
    content; the content fits the capacity, which is a positive number of
    pages.  A resize leaves the size rounded up to pages, fails when that is too
    small for the content, and else panics when the memory is not there; a size
    in the last page of the address space counts as 0, so it fails, or panics
    when the pipe is empty. *)
Theorem pipe_is_fifo (l : list pipe_op) :
  let '((r, w), p) := pipe_run l Pipe_new in
  w = r ++ rb_content (p_buffer p)
  ∧ (length (rb_content (p_buffer p)) ≤ rb_capacity (p_buffer p))%nat
  ∧ (∃ k, rb_capacity (p_buffer p) = (k * PAGE_SIZE_4K)%nat ∧ (1 ≤ k)%nat)
  ∧ ∀ n, in_u64 n →
      let size := if n <=? 2 ^ 64 - 4096 then ((n + 4095) / 4096) `max` 1 * 4096 else 0 in
      let len := Z.of_nat (length (rb_content (p_buffer p))) in
      let '(r, p') := resize n p in
      rb_content (p_buffer p') = rb_content (p_buffer p)
      ∧ match r with
        | Ok _ => Z.of_nat (rb_capacity (p_buffer p')) = size ∧ 0 < size
        | Err e => p' = p ∧ e = ResourceBusy ∧ size < len
        | Panic => p' = p ∧ len ≤ size ∧ rb_alloc (R := R) (Z.to_nat size) = false
        end.
Proof.
  pose proof (pipe_run_stream l Pipe_new) as Hr. destruct (pipe_run l Pipe_new) as [[r w] p].
  destruct Hr as [Hs Hp]. cbn in Hs. rewrite rb_new_content in Hs. split; [done|].
  split; [apply content_fits|].
  assert (paged p) as Hpg.
  { apply Hp. exists 16%nat. cbn [p_buffer Pipe_new]. rewrite rb_new_capacity. unfold RING_BUFFER_INIT_SIZE, PAGE_SIZE_4K. lia. }
  split; [done|]. intros n Hn. cbv zeta. rewrite <- (pipe_size_spec n Hn), Nat2Z.id.
  pose proof (resize_cases n p) as Hc. pose proof (resize_content n p) as Hcon. pose proof (resize_paged n p Hpg) as (k & Hk & Hk1).
  destruct (resize n p) as [[[]|e|] p']; cbn [snd] in *; (split; [done|]); unfold rb_occupied_len in Hc.
  - rewrite <- Hc, Hk. unfold PAGE_SIZE_4K. lia.
  - destruct Hc as (? & ? & ?). split_and!; [done..|lia].
  - destruct Hc as (? & ? & ?). split_and!; [done|lia|done].
Qed.

(** The result of a read that does not fault *)
Lemma pipe_read_cases d p r d' p' :
  pipe_read true d p = (r, d', p') → dst_room d ≠ 0%nat → r ≠ Err BadAddress →
  match rb_content (p_buffer p) with
  | [] => r = if closed true p then Ok 0%nat else Err WouldBlock
  | c => r = Ok (length c `min` dst_room d)%nat
  end.
Proof.
  intros Hrd Hroom Hf. unfold pipe_read in Hrd. cbn [negb] in Hrd.
  apply Nat.eqb_neq in Hroom as Hz. rewrite Hz in Hrd. unfold rb_content.
  destruct (rb_slices (p_buffer p)) as [lft rgt]. cbn [fst snd].
  destruct (copy_out lft rgt d) as [[c|e|] d1] eqn:Hc.
  - apply copy_out_ok in Hc as [Hn _]. destruct (lft ++ rgt) as [|x xs]; cbn [length] in Hn.
    + subst c. cbn in Hrd. by destruct (closed true p) eqn:E; cbn in E; rewrite E in Hrd; simplify_eq.
    + assert (0 < c)%nat as Hlt by lia. apply Nat.ltb_lt in Hlt. rewrite Hlt in Hrd. by simplify_eq.
  - exfalso. unfold copy_out in Hc. destruct (dst_write lft d) as [[?|?|] ?] eqn:E1.
    + case_match; [|done]. destruct (dst_write rgt _) as [[?|?|] ?] eqn:E2; try done.
      simplify_eq. apply dst_write_err in E2 as ->. done.
    + simplify_eq. apply dst_write_err in E1 as ->. done.
    + done.
  - exfalso. unfold copy_out in Hc. destruct (dst_write lft d) as [[?|?|] ?] eqn:E1.
    + case_match; [|done]. destruct (dst_write rgt _) as [[?|?|] ?] eqn:E2; try done.
      by eapply dst_write_panic.
    + done.
    + by eapply dst_write_panic.
Qed.

(** The result of a first attempt to write something, when a reader is left
    and the source does not fault *)
Lemma pipe_write_cases nb s p r t s' p' :
  pipe_write_attempt nb (length (src_data s)) 0 s p = (r, t, s', p') →
  closed false p = false → src_data s ≠ [] → r ≠ Err BadAddress →
  let n := (rb_vacant_len (p_buffer p) `min` length (src_data s))%nat in
  t = n ∧ r = if (0 <? n)%nat && ((n =? length (src_data s))%nat || nb) then Ok n else Err WouldBlock.
Proof.
  intros Hw Hcl Hne Hf n. unfold pipe_write_attempt in Hw. rewrite Hcl in Hw.
  subst n. unfold rb_vacant_len. destruct (rb_vacant (p_buffer p)) as [vl vr]. cbn [fst snd].
  destruct (copy_in vl vr s) as [[[l l']|e|] s1] eqn:Hc.
  - apply copy_in_ok in Hc as (Hl & _). apply (f_equal length) in Hl.
    rewrite length_app, length_take in Hl. rewrite Hl in Hw.
    destruct (0 <? (vl + vr) `min` length (src_data s))%nat eqn:E; cbn [andb].
    + rewrite Nat.add_0_l in Hw. by destruct (_ || nb); simplify_eq.
    + apply Nat.ltb_ge in E. simplify_eq. split; [lia|done].
  - exfalso. unfold copy_in in Hc. destruct (src_read vl s) as [[?|?|] ?] eqn:E1.
    + case_match; [|done]. destruct (src_read vr _) as [[?|?|] ?] eqn:E2; try done.
      simplify_eq. apply src_read_err in E2 as ->. done.
    + simplify_eq. apply src_read_err in E1 as ->. done.
    + done.
  - exfalso. unfold copy_in in Hc. destruct (src_read vl s) as [[?|?|] ?] eqn:E1.
    + case_match; [|done]. destruct (src_read vr _) as [[?|?|] ?] eqn:E2; try done.
      by eapply src_read_panic.
    + done.
    + by eapply src_read_panic.
Qed.

(** A read that does not fault takes what is there up to its room, ends
    the stream when the buffer is empty and no writer is left, and waits
    otherwise; [poll] of the read end announces input or hang-up exactly when
    a read does not wait, and of the write end, while a reader is left, output
    exactly when a non-blocking write does not wait. *)
Lemma pipe_poll_agrees d s p r d' p' rw t s' p'' :
  pipe_read true d p = (r, d', p') → dst_room d ≠ 0%nat → r ≠ Err BadAddress →
  pipe_write false true s p = (rw, t, s', p'') → closed false p = false →
  src_data s ≠ [] → rw ≠ Err BadAddress →
  match rb_content (p_buffer p) with
  | [] => r = if closed true p then Ok 0%nat else Err WouldBlock
  | c => r = Ok (length c `min` dst_room d)%nat
  end
  ∧ (pe_in (pipe_poll true p) || pe_hup (pipe_poll true p) = true ↔ r ≠ Err WouldBlock)
  ∧ (pe_out (pipe_poll false p) = true ↔ rw ≠ Err WouldBlock).
Proof.
  intros Hrd Hroom Hf Hw Hcl Hne Hfw. pose proof (pipe_read_cases _ _ _ _ _ Hrd Hroom Hf) as Hr.
  split; [done|]. split.
  - cbn. unfold rb_occupied_len. destruct (rb_content (p_buffer p)) as [|x xs]; subst r; cbn.
    + destruct (p_write_open p); cbn; split; congruence.
    + split; congruence.
  - unfold pipe_write in Hw. destruct (Nat.eqb_spec (length (src_data s)) 0) as [Hz|Hz].
    { by apply nil_length_inv in Hz. }
    apply pipe_write_cases in Hw as [_ ->]; [|done..]. cbn [pipe_poll pe_out].
    rewrite orb_true_r, andb_true_r.
    destruct (Nat.ltb_spec 0 (rb_vacant_len (p_buffer p))), (Nat.ltb_spec 0 (rb_vacant_len (p_buffer p) `min` length (src_data s)));
      try lia; split; congruence.
Qed.

(** With the buffer full and no reader left, [poll] of the write end
    announces nothing, although a write does not wait but fails with
    [BrokenPipe]. *)
Lemma poll_misses_broken_pipe nb s p :
  closed false p = true → rb_vacant_len (p_buffer p) = 0%nat → src_data s ≠ [] →
  pipe_poll false p = mkPipeEvents false false false
  ∧ (pipe_write false nb s p).1.1.1 = Err BrokenPipe.
Proof.
  intros Hcl Hv Hne. unfold pipe_poll, pipe_write, pipe_write_attempt. rewrite Hv, Hcl.
  split; [done|]. destruct (Nat.eqb_spec (length (src_data s)) 0) as [Hz|Hz]; [|done].
  by apply nil_length_inv in Hz.
Qed.
End Pipe.

(** ** Concrete buffers *)

(** A ring as its content, the room left and where the slices split *)
Record ring := mkRing { ring_room : nat; ring_split : nat; ring_data : bytes }.

#[export] Instance ring_buf : RingBuf ring := {
  rb_new n := mkRing n 0 [];
  rb_alloc n := negb (n =? 0)%nat;
  rb_capacity r := (ring_room r + length (ring_data r))%nat;
  rb_slices r := (take (ring_split r) (ring_data r), drop (ring_split r) (ring_data r));
  rb_vacant r := (ring_room r `min` ring_split r, ring_room r - ring_room r `min` ring_split r)%nat;
  rb_push_slice l r := mkRing (ring_room r - length l) (ring_split r)
    (ring_data r ++ take (ring_room r) l);
  rb_advance_read n r := mkRing (ring_room r + n `min` length (ring_data r)) (ring_split r - n)
    (drop n (ring_data r));
  rb_commit l l' r := mkRing (ring_room r - length (l ++ l')) (ring_split r)
    (ring_data r ++ take (ring_room r) (l ++ l'));
}.

Lemma ring_content r : rb_content r = ring_data r.
Proof. unfold rb_content. cbn. apply take_drop. Qed.

#[export] Instance ring_buf_ok : RingBufOk ring.
Proof.
  split; intros; unfold rb_vacant_len, rb_occupied_len in *; rewrite ?ring_content in *; cbn in *;
    rewrite ?length_app, ?length_take, ?length_drop in *; try done; try lia.
  - f_equal. f_equal. lia.
  - rewrite take_ge; [done|]. rewrite length_app. lia.
  - rewrite length_app. lia.
Qed.

Record user_buf := mkUserBuf { ub_room : nat; ub_data : bytes }.

#[export] Instance user_dst : IoDst user_buf := {
  dst_data := ub_data;
  dst_room := ub_room;
  dst_write l d :=
    let n := (length l `min` ub_room d)%nat in
    (Ok n, mkUserBuf (ub_room d - n) (ub_data d ++ take n l));
}.

#[export] Instance user_dst_ok : IoDstOk user_buf.
Proof. by split; intros; cbn in *; simplify_eq. Qed.

#[export] Instance user_src : IoSrc bytes := {
  src_data l := l;
  src_read n l := (Ok (take n l), drop n l);
}.

#[export] Instance user_src_ok : IoSrcOk bytes.
Proof. by split; intros; cbn in *; simplify_eq. Qed.

(** ** Witnesses *)

Definition some_ops : list (@pipe_op user_buf bytes) :=
  [PWrite true 3 0 [1; 2; 3]; PRead (mkUserBuf 2 []); PResize 0; PDrop false].

Lemma pipe_is_fifo_witness :
  let '((r, w), p) := pipe_run (R := ring) some_ops Pipe_new in
  w = r ++ rb_content (p_buffer p)
  ∧ (length (rb_content (p_buffer p)) ≤ rb_capacity (p_buffer p))%nat
  ∧ ∃ k, rb_capacity (p_buffer p) = (k * PAGE_SIZE_4K)%nat ∧ (1 ≤ k)%nat.
Proof.
  pose proof (pipe_is_fifo (R := ring) some_ops) as Hf. destruct (pipe_run some_ops Pipe_new) as [[r w] p].
  destruct Hf as (? & ? & ? & _). by split.
Defined.

(** [F_SETPIPE_SZ] with the largest number, on an empty pipe *)
Example resize_wraps : (resize (R := ring) (2 ^ 64 - 1) Pipe_new).1 = Panic.
Proof. vm_compute. reflexivity. Qed.

