(* ===== verification/FdTable.v ===== *)
(** * File descriptors

    The descriptor table of [api/src/file/mod.rs] and the calls on it in
    [api/src/syscall/fs/fd_ops.rs], with the closing of close-on-exec
    descriptors by [execve].

    The table itself (crate [flatten_objects]) and the files it refers to are
    interfaces; files are named by ids.  Descriptors are [c_int]s, converted
    with [as usize] where the code indexes the table. *)

From S2P Require Import Prelude.

Definition AX_FILE_LIMIT : Z := 1024.

(** Values of the Linux ABI *)
Definition O_CLOEXEC : Z := 0x80000.
Definition O_NONBLOCK : Z := 0x800.
Definition O_WRONLY : Z := 1.
Definition O_RDWR : Z := 2.
Definition FD_CLOEXEC : Z := 1.
Definition F_DUPFD : Z := 0.
Definition F_GETFD : Z := 1.
Definition F_SETFD : Z := 2.
Definition F_GETFL : Z := 3.
Definition F_SETFL : Z := 4.
Definition F_GETLK : Z := 5.
Definition F_SETLK : Z := 6.
Definition F_SETLKW : Z := 7.
Definition F_OFD_GETLK : Z := 36.
Definition F_OFD_SETLK : Z := 37.
Definition F_OFD_SETLKW : Z := 38.
Definition F_DUPFD_CLOEXEC : Z := 1030.
Definition F_SETPIPE_SZ : Z := 1031.
Definition F_GETPIPE_SZ : Z := 1032.
Definition OWNER_WRITE : Z := 0x80.
Definition OWNER_READ : Z := 0x100.
Definition CLOSE_RANGE_UNSHARE : Z := 2.
Definition CLOSE_RANGE_CLOEXEC : Z := 4.

Record FileDescriptor := mkFd { fd_inner : Z; fd_cloexec : bool }.
#[export] Instance eta_FileDescriptor : Eta FileDescriptor := λ f, mkFd (fd_inner f) (fd_cloexec f).
#[export] Instance FileDescriptor_eq_dec : EqDecision FileDescriptor.
Proof. solve_decision. Defined.

(** [FlattenObjects<FileDescriptor, AX_FILE_LIMIT>]; [fo_update] is
    [get_mut] followed by an assignment. *)
Class FlattenObjects (F : Type) := {
  fo_empty : F;
  fo_get : Z → F → option FileDescriptor;
  fo_add : FileDescriptor → F → option Z * F;
  fo_add_at : Z → FileDescriptor → F → bool * F;
  fo_remove : Z → F → option FileDescriptor * F;
  fo_update : Z → (FileDescriptor → FileDescriptor) → F → F;
  fo_count : F → Z;
  fo_ids : F → list Z;
}.

(** The table as a finite map, and what the crate documents: [add] takes the
    smallest free id, [add_at] needs a free id below the capacity, [ids] are
    the ids in use in increasing order. *)
Class FlattenObjectsOk (F : Type) `{FlattenObjects F} := {
  fo_view : F → gmap Z FileDescriptor;
  fo_view_range f i d : fo_view f !! i = Some d → 0 ≤ i < AX_FILE_LIMIT;
  fo_get_view i f : fo_get i f = fo_view f !! i;
  fo_add_some d f i f' : fo_add d f = (Some i, f') →
    fo_view f !! i = None ∧ (∀ j, 0 ≤ j < i → is_Some (fo_view f !! j))
    ∧ fo_view f' = <[i := d]> (fo_view f);
  fo_add_none d f f' : fo_add d f = (None, f') →
    fo_view f' = fo_view f ∧ ∀ j, 0 ≤ j < AX_FILE_LIMIT → is_Some (fo_view f !! j);
  fo_add_at_view i d f :
    let ok := bool_decide (0 ≤ i < AX_FILE_LIMIT ∧ fo_view f !! i = None) in
    (fo_add_at i d f).1 = ok
    ∧ fo_view (fo_add_at i d f).2 = if ok then <[i := d]> (fo_view f) else fo_view f;
  fo_remove_view i f :
    (fo_remove i f).1 = fo_view f !! i ∧ fo_view (fo_remove i f).2 = delete i (fo_view f);
  fo_update_view i g f : fo_view (fo_update i g f) = alter g i (fo_view f);
  fo_count_view f : fo_count f = Z.of_nat (size (fo_view f));
  fo_ids_view f i : i ∈ fo_ids f ↔ is_Some (fo_view f !! i);
  fo_ids_sorted f : StronglySorted Z.lt (fo_ids f);
}.

(** The files: [fl_mode] is [stat()?.mode], the pipe operations fail for a
    file that is not a pipe. *)
Class Files (Fl : Type) := {
  fl_nonblocking : Z → Fl → bool;
  fl_set_nonblocking : Z → bool → M Fl unit;
  fl_mode : Z → Fl → res Z;
  fl_pipe_capacity : Z → Fl → res Z;
  fl_pipe_resize : Z → Z → M Fl unit;
  fl_write_unlck : Z → M Fl unit;
}.

Record FdState (F Fl : Type) := mkFdState { fs_table : F; fs_files : Fl }.
Arguments mkFdState {F Fl}.
Arguments fs_table {F Fl}.
Arguments fs_files {F Fl}.
#[export] Instance eta_FdState F Fl : Eta (FdState F Fl) := λ s, mkFdState (fs_table s) (fs_files s).

(** A spin lock with readers and a writer, as the thread that takes it sees
    it: [None] when it would spin on a guard that is held. *)
Record rwlock := mkRw { rw_readers : nat; rw_writer : bool }.
Definition rw_write (l : rwlock) : option rwlock :=
  if rw_writer l || negb (rw_readers l =? 0)%nat then None else Some (mkRw 0 true).
Definition rw_read (l : rwlock) : option rwlock :=
  if rw_writer l then None else Some (mkRw (S (rw_readers l)) false).

(** What a call that may spin for ever does *)
Inductive outcome (A : Type) := Returns (a : A) | Hangs.
Arguments Returns {A}.
Arguments Hangs {A}.

Section FdTable.
Context {F Fl : Type} `{FlattenObjects F} `{Files Fl}.
Abbreviation St := (FdState F Fl).

Definition on_table {A} (f : F → A * F) : M St A := λ s,
  let '(a, t) := f (fs_table s) in (Ok a, s <| fs_table := t |>).

Definition on_files {A} (f : M Fl A) : M St A := λ s,
  let '(a, fl) := f (fs_files s) in (a, s <| fs_files := fl |>).

Definition get_file_like (fd : Z) : M St Z :=
  s ← getM;
  liftR (ok_or BadFileDescriptor (fd_inner <$> fo_get (as_u64 fd) (fs_table s))).

(** [max_nofile] is the soft [RLIMIT_NOFILE]. *)
Definition add_file_like (max_nofile f : Z) (cloexec : bool) : M St Z :=
  s ← getM;
  if fo_count (fs_table s) >=? max_nofile then failM TooManyOpenFiles
  else
    r ← on_table (fo_add (mkFd f cloexec));
    i ← liftR (ok_or TooManyOpenFiles r);
    mret (as_i32 i).

Definition close_file_like (fd : Z) : M St unit :=
  r ← on_table (fo_remove (as_u64 fd));
  liftR (ok_or BadFileDescriptor r);; mret tt.

Definition sys_close (fd : Z) : M St Z := close_file_like fd;; mret 0.

Definition dup_fd (max_nofile old_fd : Z) (cloexec : bool) : M St Z :=
  f ← get_file_like old_fd;
  add_file_like max_nofile f cloexec.

Definition sys_dup (max_nofile old_fd : Z) : M St Z := dup_fd max_nofile old_fd false.

Definition sys_dup3 (old_fd new_fd flags : Z) : M St Z :=
  if negb (Z.ldiff (as_u32 flags) O_CLOEXEC =? 0) then failM InvalidInput
  else if old_fd =? new_fd then failM InvalidInput
  else
    s ← getM;
    f ← liftR (ok_or BadFileDescriptor (fo_get (as_u64 old_fd) (fs_table s)));
    let f := f <| fd_cloexec := has_flag flags O_CLOEXEC |> in
    on_table (fo_remove (as_u64 new_fd));;
    added ← on_table (fo_add_at (as_u64 new_fd) f);
    if negb added then failM BadFileDescriptor else mret new_fd.

Definition sys_dup2 (old_fd new_fd : Z) : M St Z :=
  if old_fd =? new_fd then get_file_like new_fd;; mret new_fd
  else sys_dup3 old_fd new_fd 0.

(** The statement that copies the table under both guards of its lock *)
Definition unshare_copy : option rwlock := l ← rw_write (mkRw 0 false); rw_read l.

Definition close_one (cloexec : bool) (t : F) (fd : Z) : F :=
  if cloexec then fo_update (as_u64 fd) (λ f, f <| fd_cloexec := true |>) t
  else (fo_remove (as_u64 fd) t).2.

Definition close_range_loop (cloexec : bool) (first last : Z) (t : F) : F :=
  match List.last (Some <$> fo_ids t) None with
  | Some max_index =>
      let hi := Z.min last (as_i32 max_index) in
      foldl (close_one cloexec) t (seqZ first (hi - first + 1))
  | None => t
  end.

Definition sys_close_range (first last flags : Z) (s : St) : outcome (res Z * St) :=
  if (first <? 0) || (last <? first) then Returns (Err InvalidInput, s)
  else if negb (Z.ldiff flags (Z.lor CLOSE_RANGE_UNSHARE CLOSE_RANGE_CLOEXEC) =? 0)
  then Returns (Err InvalidInput, s)
  else if has_flag flags CLOSE_RANGE_UNSHARE && bool_decide (unshare_copy = None) then Hangs
  else
    Returns (Ok 0, s <| fs_table ::= close_range_loop (has_flag flags CLOSE_RANGE_CLOEXEC) first last |>).

(** The part of [sys_execve] that closes descriptors *)
Definition close_cloexec_fds (t : F) : F :=
  let cloexec_fds := filter (λ i, (fd_cloexec <$> fo_get i t) = Some true) (fo_ids t) in
  foldl (λ t fd, (fo_remove fd t).2) t cloexec_fds.

Definition sys_fcntl (max_nofile fd cmd arg : Z) : M St Z :=
  let cmd := as_u32 cmd in
  if cmd =? F_DUPFD then dup_fd max_nofile fd false
  else if cmd =? F_DUPFD_CLOEXEC then dup_fd max_nofile fd true
  else if (cmd =? F_SETLK) || (cmd =? F_SETLKW) then mret 0
  else if (cmd =? F_OFD_SETLK) || (cmd =? F_OFD_SETLKW) then mret 0
  else if (cmd =? F_GETLK) || (cmd =? F_OFD_GETLK) then
    on_files (fl_write_unlck arg);; mret 0
  else if cmd =? F_SETFL then
    f ← get_file_like fd;
    on_files (fl_set_nonblocking f (Z.land arg O_NONBLOCK >? 0));; mret 0
  else if cmd =? F_GETFL then
    f ← get_file_like fd;
    s ← getM;
    let ret := if fl_nonblocking f (fs_files s) then O_NONBLOCK else 0 in
    perm ← liftR (fl_mode f (fs_files s));
    mret (if has_flag perm OWNER_WRITE
          then if has_flag perm OWNER_READ then Z.lor ret O_RDWR else Z.lor ret O_WRONLY
          else ret)
  else if cmd =? F_GETFD then
    s ← getM;
    f ← liftR (ok_or BadFileDescriptor (fo_get (as_u64 fd) (fs_table s)));
    mret (if fd_cloexec f then FD_CLOEXEC else 0)
  else if cmd =? F_SETFD then
    let cloexec := negb (Z.land arg FD_CLOEXEC =? 0) in
    s ← getM;
    liftR (ok_or BadFileDescriptor (fo_get (as_u64 fd) (fs_table s)));;
    modifyM (λ s : St, s <| fs_table ::= fo_update (as_u64 fd) (λ f, f <| fd_cloexec := cloexec |>) |>);;
    mret 0
  else if cmd =? F_GETPIPE_SZ then
    f ← get_file_like fd;
    s ← getM;
    liftR (fl_pipe_capacity f (fs_files s))
  else if cmd =? F_SETPIPE_SZ then
    f ← get_file_like fd;
    on_files (fl_pipe_resize f arg);; mret 0
  else mret 0.

(** ** The table as a map *)

Context {Hok : FlattenObjectsOk F}.
Definition view (s : St) : gmap Z FileDescriptor := fo_view (fs_table s).

Lemma as_u64_nat i : 0 ≤ i < 2 ^ 63 → as_u64 i = i.
Proof. intros. apply as_u64_small. unfold in_u64. lia. Qed.

Lemma view_fd t i : - 2 ^ 31 ≤ i < 2 ^ 31 → fo_view t !! as_u64 i = fo_view t !! i.
Proof.
  intros Hi. destruct (decide (0 ≤ i)); [by rewrite as_u64_nat by lia|].
  assert (Hn : ∀ j, ¬ 0 ≤ j < AX_FILE_LIMIT → fo_view t !! j = None).
  { intros j Hj. destruct (fo_view t !! j) eqn:E; [|done]. by apply fo_view_range in E. }
  assert (as_u64 i = i + 2 ^ 64) as ->.
  { unfold as_u64, wrapu. rewrite <- (Z.mod_add i 1) by lia. apply Z.mod_small. lia. }
  unfold AX_FILE_LIMIT in *. rewrite !Hn; [done|lia..].
Qed.

(** Where a new descriptor goes: the smallest that is not in use *)
Definition lowest_free (m : gmap Z FileDescriptor) (i : Z) : Prop :=
  0 ≤ i < AX_FILE_LIMIT ∧ m !! i = None ∧ ∀ j, 0 ≤ j < i → is_Some (m !! j).

Definition table_full (m : gmap Z FileDescriptor) : Prop := ∀ j, 0 ≤ j < AX_FILE_LIMIT → is_Some (m !! j).

Definition fd_int (fd : Z) : Prop := - 2 ^ 31 ≤ fd < 2 ^ 31.

Lemma get_file_like_spec fd s :
  fd_int fd →
  get_file_like fd s = (ok_or BadFileDescriptor (fd_inner <$> view s !! fd), s).
Proof. intros Hf. unfold get_file_like. unfold_m. by rewrite fo_get_view, view_fd. Qed.

Lemma add_file_like_spec max f c s r s' :
  add_file_like max f c s = (r, s') →
  fs_files s' = fs_files s
  ∧ match r with
    | Ok i => lowest_free (view s) i ∧ view s' = <[i := mkFd f c]> (view s)
              ∧ Z.of_nat (size (view s)) < max
    | Err e => e = TooManyOpenFiles ∧ view s' = view s
               ∧ (max ≤ Z.of_nat (size (view s)) ∨ table_full (view s))
    | Panic => False
    end.
Proof.
  unfold add_file_like, on_table, view. unfold_m. rewrite fo_count_view, Z.geb_leb.
  destruct (Z.leb_spec max (Z.of_nat (size (fo_view (fs_table s))))).
  { intros [= <- <-]. split_and!; auto. }
  destruct (fo_add _ _) as [[i|] t] eqn:E; cbn.
  - pose proof E as (Hn & Hlow & Hv)%fo_add_some.
    assert (Hi : 0 ≤ i < AX_FILE_LIMIT).
    { apply (fo_view_range t i (mkFd f c)). by rewrite Hv, lookup_insert_eq. }
    rewrite as_i32_small by (unfold in_i32, AX_FILE_LIMIT in *; lia). intros [= <- <-]. by split_and!.
  - apply fo_add_none in E as [Hv Hfull]. intros [= <- <-]. auto.
Qed.

Lemma dup_fd_spec max fd c s r s' :
  fd_int fd → dup_fd max fd c s = (r, s') →
  match r with
  | Ok i => ∃ f, view s !! fd = Some f ∧ Z.of_nat (size (view s)) < max ∧ lowest_free (view s) i
                 ∧ view s' = <[i := mkFd (fd_inner f) c]> (view s)
  | Err e => view s' = view s
             ∧ (e = BadFileDescriptor ∧ view s !! fd = None
                ∨ e = TooManyOpenFiles ∧ is_Some (view s !! fd)
                  ∧ (max ≤ Z.of_nat (size (view s)) ∨ table_full (view s)))
  | Panic => False
  end.
Proof.
  intros Hf. unfold dup_fd. unfold_m. rewrite get_file_like_spec by done.
  destruct (view s !! fd) as [f|] eqn:E; cbn; [|intros [= <- <-]; auto].
  intros Ha. apply add_file_like_spec in Ha as (_ & Ha). destruct r as [i|e|]; [exists f; tauto| |done].
  destruct Ha as (-> & Ha & Hl). eauto 6.
Qed.

(** The arguments that [dup3] takes: no flag but [O_CLOEXEC], two descriptors *)
Definition dup3_args (old new flags : Z) : Prop := Z.ldiff (as_u32 flags) O_CLOEXEC = 0 ∧ old ≠ new.

Lemma dup3_spec old new flags s r s' :
  fd_int old → fd_int new → sys_dup3 old new flags s = (r, s') →
  match r with
  | Ok fd => fd = new ∧ dup3_args old new flags ∧ 0 ≤ new < AX_FILE_LIMIT
             ∧ ∃ f, view s !! old = Some f
                    ∧ view s' = <[new := mkFd (fd_inner f) (has_flag flags O_CLOEXEC)]> (view s)
  | Err e => view s' = view s
             ∧ (e = InvalidInput ∧ ¬ dup3_args old new flags
                ∨ e = BadFileDescriptor ∧ dup3_args old new flags
                  ∧ (view s !! old = None ∨ ¬ 0 ≤ new < AX_FILE_LIMIT))
  | Panic => False
  end.
Proof.
  intros Ho Hn. unfold sys_dup3, dup3_args, on_table, view. unfold_m.
  destruct (Z.eqb_spec (Z.ldiff (as_u32 flags) O_CLOEXEC) 0) as [Hfl|Hfl]; cbn [negb];
    [|intros [= <- <-]; naive_solver].
  destruct (Z.eqb_spec old new) as [Heq|Hne]; [intros [= <- <-]; naive_solver|].
  rewrite fo_get_view, view_fd by done.
  destruct (fo_view (fs_table s) !! old) as [f|] eqn:Hf; cbn [ok_or];
    [|intros [= <- <-]; naive_solver].
  pose proof (fo_remove_view (as_u64 new) (fs_table s)) as [_ Hrm].
  destruct (fo_remove (as_u64 new) (fs_table s)) as [x t1]. cbn in Hrm |- *.
  match goal with |- context [fo_add_at _ ?g t1] =>
    pose proof (fo_add_at_view (as_u64 new) g t1) as [Hok1 Hv1];
    destruct (fo_add_at (as_u64 new) g t1) as [ok t2] end. cbn in Hok1, Hv1 |- *.
  destruct (decide (0 ≤ new < AX_FILE_LIMIT)) as [Hr|Hr].
  - assert (Hu : as_u64 new = new) by (apply as_u64_nat; unfold AX_FILE_LIMIT in *; lia).
    rewrite Hu in *. rewrite bool_decide_eq_true_2 in Hok1, Hv1
      by (split; [done|]; by rewrite Hrm, lookup_delete_eq).
    subst ok. intros [= <- <-]. split; [done|]. split; [done|]. split; [done|]. exists f. split; [done|]. cbn.
    by rewrite Hv1, Hrm, insert_delete_eq.
  - assert (Hu : ¬ 0 ≤ as_u64 new < AX_FILE_LIMIT).
    { destruct (decide (0 ≤ new)); [by rewrite as_u64_nat by (unfold fd_int in Hn; lia)|].
      unfold fd_int, as_u64, wrapu, AX_FILE_LIMIT in *.
      rewrite <- (Z.mod_add new 1), Z.mod_small by lia. lia. }
    rewrite bool_decide_eq_false_2 in Hok1, Hv1 by tauto. subst ok. intros [= <- <-]. cbn.
    split; [|auto 6]. rewrite Hv1, Hrm. apply delete_id.
    destruct (fo_view (fs_table s) !! as_u64 new) eqn:E; [|done]. by apply fo_view_range in E.
Qed.

Lemma close_spec fd s :
  fd_int fd →
  let '(r, s') := sys_close fd s in
  r = (if bool_decide (is_Some (view s !! fd)) then Ok 0 else Err BadFileDescriptor) ∧ view s' = delete fd (view s).
Proof.
  intros Hf. unfold sys_close, close_file_like, on_table, view. unfold_m.
  pose proof (fo_remove_view (as_u64 fd) (fs_table s)) as [Hr Hv].
  destruct (fo_remove _ _) as [x t]. cbn in *. subst x. rewrite view_fd by done.
  assert (Hd : fo_view t = delete fd (fo_view (fs_table s))).
  { rewrite Hv. destruct (decide (0 ≤ fd)); [by rewrite as_u64_nat by (unfold fd_int in *; lia)|].
    assert (Hnone : fo_view (fs_table s) !! fd = None).
    { destruct (fo_view (fs_table s) !! fd) eqn:E; [|done]. apply fo_view_range in E. lia. }
    rewrite !delete_id; [done|done|by rewrite view_fd]. }
  destruct (fo_view (fs_table s) !! fd); cbn; done.
Qed.

(** ** Ranges *)

(** What closing, or marking, makes of one slot *)
Definition closed_slot (cloexec : bool) (o : option FileDescriptor) : option FileDescriptor :=
  if cloexec then (λ f, mkFd (fd_inner f) true) <$> o else None.

Lemma close_one_view c t i j :
  0 ≤ i < 2 ^ 31 →
  fo_view (close_one c t i) !! j =
    if decide (j = i) then closed_slot c (fo_view t !! j) else fo_view t !! j.
Proof.
  intros Hi. unfold close_one. rewrite as_u64_nat by lia. destruct c; cbn.
  - rewrite fo_update_view. case_decide as Hj; [subst; apply lookup_alter_eq|by apply lookup_alter_ne].
  - rewrite (proj2 (fo_remove_view i t)). case_decide as Hj; [subst; apply lookup_delete_eq|].
    by apply lookup_delete_ne.
Qed.

Lemma close_fold_view c l : ∀ t j,
  Forall (λ i, 0 ≤ i < 2 ^ 31) l →
  fo_view (foldl (close_one c) t l) !! j =
    if decide (j ∈ l) then closed_slot c (fo_view t !! j) else fo_view t !! j.
Proof.
  induction l as [|i l IH]; intros t j Hl; cbn; [done|].
  apply Forall_cons in Hl as [Hi Hl]. rewrite IH, close_one_view by done.
  assert (Hid : closed_slot c (closed_slot c (fo_view t !! j)) = closed_slot c (fo_view t !! j)).
  { destruct c; [|done]. cbn. by destruct (fo_view t !! j). }
  repeat case_decide; set_solver.
Qed.

Lemma sorted_last (l : list Z) d i :
  StronglySorted Z.lt l → i ∈ l → ∃ m, List.last (Some <$> l) d = Some m ∧ i ≤ m ∧ m ∈ l.
Proof.
  revert d i. induction l as [|x l IH]; intros d i Hs Hi; [set_solver|].
  apply StronglySorted_inv in Hs as [Hs Hx]. destruct l as [|y l].
  - exists x. cbn. set_solver by lia.
  - destruct (IH d y Hs) as (m & Hm & Hym & Hin); [set_solver|].
    exists m. split; [exact Hm|]. split; [|set_solver].
    apply elem_of_cons in Hi as [->|Hi].
    + rewrite Forall_forall in Hx. specialize (Hx m Hin). lia.
    + destruct (IH d i Hs Hi) as (m' & Hm' & ? & _). congruence.
Qed.

Lemma close_range_view c first last t i :
  0 ≤ first → last < 2 ^ 31 →
  fo_view (close_range_loop c first last t) !! i =
    if decide (first ≤ i ≤ last) then closed_slot c (fo_view t !! i) else fo_view t !! i.
Proof.
  intros Hf Hl. unfold close_range_loop.
  assert (Hnone : ∀ j, fo_view t !! j = None → closed_slot c (fo_view t !! j) = None).
  { intros j ->. by destruct c. }
  destruct (List.last (Some <$> fo_ids t) None) as [m|] eqn:Em.
  - assert (Hm : is_Some (fo_view t !! m)).
    { apply fo_ids_view. destruct (fo_ids t) as [|x l] eqn:E; [done|].
      destruct (sorted_last (x :: l) None x) as (m' & Hm' & _ & Hin);
        [rewrite <- E; apply fo_ids_sorted|set_solver|congruence]. }
    destruct Hm as [dm Hm]. apply fo_view_range in Hm. unfold AX_FILE_LIMIT in Hm.
    rewrite as_i32_small by (unfold in_i32; lia). rewrite close_fold_view.
    2:{ apply Forall_forall. intros j Hj%elem_of_seqZ. lia. }
    destruct (decide (i ∈ seqZ first _)) as [Hi|Hi]; rewrite elem_of_seqZ in Hi.
    + rewrite decide_True by lia. done.
    + case_decide; [|done]. assert (m < i) by lia. rewrite Hnone; [|].
      all: destruct (fo_view t !! i) as [d|] eqn:Ei; try done; exfalso;
        destruct (sorted_last (fo_ids t) None i) as (m' & Hm' & ? & _);
        [apply fo_ids_sorted|by apply fo_ids_view|]; rewrite Em in Hm'; simplify_eq; lia.
  - case_decide; [|done]. destruct (fo_view t !! i) eqn:Ei; [|by destruct c].
    exfalso. destruct (sorted_last (fo_ids t) None i) as (m' & Hm' & _);
      [apply fo_ids_sorted|by apply fo_ids_view|congruence].
Qed.

Lemma remove_fold_view l : ∀ t j,
  fo_view (foldl (λ t fd, (fo_remove fd t).2) t l) !! j =
    if decide (j ∈ l) then None else fo_view t !! j.
Proof.
  induction l as [|i l IH]; intros t j; cbn; [done|]. rewrite IH.
  rewrite (proj2 (fo_remove_view i t)). destruct (decide (j = i)) as [->|].
  - rewrite lookup_delete_eq. repeat case_decide; set_solver.
  - rewrite lookup_delete_ne by done. repeat case_decide; set_solver.
Qed.

(** C11: The descriptor table is a map: [dup] puts the file under the lowest
    free descriptor, it fails with [BadFileDescriptor] exactly when the
    descriptor is not open and with [TooManyOpenFiles] exactly when it is and
    the soft limit is reached or the table is full; [dup3] redirects the new
    descriptor to the file whatever it referred to, it fails with
    [InvalidInput] exactly for unknown flags or equal descriptors and with
    [BadFileDescriptor] exactly when otherwise the old one is not open or the new
    one is no slot of the table; a failing call leaves the table alone; [close]
    removes exactly its descriptor. *)
Theorem fd_table_is_map max old new flags c s :
  fd_int old → fd_int new →
  (let '(r, s') := dup_fd max old c s in
   match r with
   | Ok i => ∃ f, view s !! old = Some f ∧ Z.of_nat (size (view s)) < max ∧ lowest_free (view s) i
                  ∧ view s' = <[i := mkFd (fd_inner f) c]> (view s)
   | Err e => view s' = view s
              ∧ (e = BadFileDescriptor ∧ view s !! old = None
                 ∨ e = TooManyOpenFiles ∧ is_Some (view s !! old)
                   ∧ (max ≤ Z.of_nat (size (view s)) ∨ table_full (view s)))
   | Panic => False
   end)
  ∧ (let '(r, s') := sys_dup3 old new flags s in
     match r with
     | Ok fd => fd = new ∧ dup3_args old new flags ∧ 0 ≤ new < AX_FILE_LIMIT
         ∧ ∃ f, view s !! old = Some f
                ∧ view s' = <[new := mkFd (fd_inner f) (has_flag flags O_CLOEXEC)]> (view s)
     | Err e => view s' = view s
         ∧ (e = InvalidInput ∧ ¬ dup3_args old new flags
            ∨ e = BadFileDescriptor ∧ dup3_args old new flags
              ∧ (view s !! old = None ∨ ¬ 0 ≤ new < AX_FILE_LIMIT))
     | Panic => False
     end)
  ∧ (let '(r, s') := sys_close old s in
     r = (if bool_decide (is_Some (view s !! old)) then Ok 0 else Err BadFileDescriptor)
     ∧ view s' = delete old (view s)).
Proof.
  intros Ho Hn. split; [|split; [|by apply close_spec]].
  - destruct (dup_fd max old c s) as [r s'] eqn:E. by apply dup_fd_spec in E.
  - destruct (sys_dup3 old new flags s) as [r s'] eqn:E. by apply dup3_spec in E.
Qed.

Lemma close_cloexec_view t i : fo_view (close_cloexec_fds t) !! i =
  if bool_decide ((fd_cloexec <$> fo_view t !! i) = Some true) then None else fo_view t !! i.
Proof.
  unfold close_cloexec_fds. rewrite remove_fold_view.
  destruct (decide _) as [Hi|Hi]; rewrite list_elem_of_filter, fo_get_view, fo_ids_view in Hi.
  - by rewrite bool_decide_eq_true_2 by apply Hi.
  - case_bool_decide as Hc; [|done]. destruct (fo_view t !! i) as [f|]; [|done]. destruct Hi. split; [done|by exists f].
Qed.

(** [close_range] closes, or marks close-on-exec, exactly the open
    descriptors in the range and returns 0; with [CLOSE_RANGE_UNSHARE] it never
    returns, because it asks for a read guard of a lock while it holds the
    write guard; [execve] then closes exactly the marked descriptors. *)
Lemma close_range_exact first last flags s :
  0 ≤ first ≤ last → last < 2 ^ 31 →
  Z.ldiff flags (Z.lor CLOSE_RANGE_UNSHARE CLOSE_RANGE_CLOEXEC) = 0 →
  (if has_flag flags CLOSE_RANGE_UNSHARE then sys_close_range first last flags s = Hangs
   else ∃ s', sys_close_range first last flags s = Returns (Ok 0, s')
     ∧ fs_files s' = fs_files s
     ∧ ∀ i, view s' !! i =
         if decide (first ≤ i ≤ last)
         then closed_slot (has_flag flags CLOSE_RANGE_CLOEXEC) (view s !! i) else view s !! i)
  ∧ ∀ i, fo_view (close_cloexec_fds (fs_table s)) !! i =
      if bool_decide ((fd_cloexec <$> view s !! i) = Some true) then None else view s !! i.
Proof.
  intros Hf Hl Hfl. split.
  - unfold sys_close_range. replace (first <? 0) with false by lia.
    replace (last <? first) with false by lia. rewrite Hfl. cbn [orb negb Z.eqb].
    destruct (has_flag flags CLOSE_RANGE_UNSHARE); [by rewrite bool_decide_eq_true_2|].
    eexists. split; [done|]. split; [done|]. intros i. cbn. apply close_range_view; lia.
  - intros i. apply close_cloexec_view.
Qed.

End FdTable.

(** ** A concrete table *)

Definition fds : list Z := seqZ 0 AX_FILE_LIMIT.
Definition free_fd (m : gmap Z FileDescriptor) : option Z :=
  head (filter (λ i, m !! i = None) fds).

(** A map of which the ids below the capacity count *)
Abbreviation table := (gmap Z FileDescriptor).
Definition in_limit (t : table) : table := filter (λ p, 0 ≤ p.1 < AX_FILE_LIMIT) t.

#[export] Instance table_objects : FlattenObjects table := {
  fo_empty := ∅;
  fo_get i t := in_limit t !! i;
  fo_add d t := match free_fd t with Some i => (Some i, <[i := d]> t) | None => (None, t) end;
  fo_add_at i d t :=
    if bool_decide (0 ≤ i < AX_FILE_LIMIT ∧ in_limit t !! i = None)
    then (true, <[i := d]> t) else (false, t);
  fo_remove i t := (in_limit t !! i, delete i t);
  fo_update i g t := alter g i t;
  fo_count t := Z.of_nat (size (in_limit t));
  fo_ids t := filter (λ i, is_Some (in_limit t !! i)) fds;
}.

Lemma in_limit_lookup t i :
  in_limit t !! i = if decide (0 ≤ i < AX_FILE_LIMIT) then t !! i else None.
Proof.
  unfold in_limit. apply option_eq. intros d. rewrite map_lookup_filter_Some. cbn.
  case_decide; naive_solver.
Qed.

Lemma StronglySorted_filter {A} (R : relation A) (P : A → Prop) `{∀ x, Decision (P x)} l :
  StronglySorted R l → StronglySorted R (filter P l).
Proof.
  induction 1 as [|x l Hl IH Hx]; [constructor|]. rewrite filter_cons. case_decide; [|done].
  constructor; [done|]. rewrite Forall_forall in Hx |- *. intros y [_ Hy]%list_elem_of_filter. auto.
Qed.

Lemma seqZ_sorted (n : nat) : ∀ m, StronglySorted Z.lt (seqZ m (Z.of_nat n)).
Proof.
  induction n as [|n IH]; intros m; [constructor|]. rewrite seqZ_cons by lia.
  replace (Z.pred (Z.of_nat (S n))) with (Z.of_nat n) by lia. constructor; [done|].
  apply Forall_forall. intros x Hx%elem_of_seqZ. lia.
Qed.

Lemma fds_in i : i ∈ fds ↔ 0 ≤ i < AX_FILE_LIMIT.
Proof. unfold fds. rewrite elem_of_seqZ. lia. Qed.

(** The head of a filtered sorted list is its least element. *)
Lemma free_fd_some t i :
  free_fd t = Some i →
  0 ≤ i < AX_FILE_LIMIT ∧ t !! i = None ∧ ∀ j, 0 ≤ j < i → is_Some (t !! j).
Proof.
  unfold free_fd. intros Hh.
  assert (Hs : StronglySorted Z.lt (filter (λ i, t !! i = None) fds)).
  { apply StronglySorted_filter. apply (seqZ_sorted 1024). }
  destruct (filter _ fds) as [|x l] eqn:E; cbn in Hh; simplify_eq.
  assert (Hi : i ∈ filter (λ i, t !! i = None) fds) by (rewrite E; set_solver).
  apply list_elem_of_filter in Hi as [Hn Hi%fds_in]. split; [done|]. split; [done|].
  intros j Hj. destruct (t !! j) eqn:Et; [done|]. exfalso.
  assert (Hin : j ∈ i :: l).
  { rewrite <- E. apply list_elem_of_filter. split; [done|]. apply fds_in. lia. }
  apply StronglySorted_inv in Hs as [_ Hl]. rewrite Forall_forall in Hl.
  apply elem_of_cons in Hin as [->|Hin]; [lia|]. specialize (Hl j Hin). lia.
Qed.

Lemma free_fd_none t j : free_fd t = None → 0 ≤ j < AX_FILE_LIMIT → is_Some (t !! j).
Proof.
  unfold free_fd. intros Hh Hj. destruct (t !! j) eqn:Et; [done|]. exfalso.
  assert (Hin : j ∈ filter (λ i, t !! i = None) fds).
  { apply list_elem_of_filter. by rewrite fds_in. }
  destruct (filter _ fds); [set_solver|done].
Qed.

#[export] Instance table_objects_ok : FlattenObjectsOk table.
Proof.
  refine {| fo_view := in_limit |}; intros.
  - rewrite in_limit_lookup in *. by case_decide.
  - done.
  - cbn in *. destruct (free_fd f) as [k|] eqn:E; simplify_eq.
    apply free_fd_some in E as (Hi & Hn & Hl). split_and!.
    + rewrite in_limit_lookup. by case_decide.
    + intros j Hj. rewrite in_limit_lookup, decide_True by lia. by apply Hl.
    + unfold in_limit. by rewrite map_filter_insert_True.
  - cbn in *. destruct (free_fd f) as [k|] eqn:E; simplify_eq. split; [done|].
    intros j Hj. rewrite in_limit_lookup, decide_True by done. by apply free_fd_none.
  - cbn. case_bool_decide as Hb; cbn; [|done]. split; [done|]. unfold in_limit.
    by rewrite map_filter_insert_True by (cbn; tauto).
  - cbn. split; [done|]. unfold in_limit. apply map_filter_delete.
  - cbn. apply map_eq. intros j. rewrite in_limit_lookup. destruct (decide (j = i)) as [->|].
    + rewrite !lookup_alter_eq, in_limit_lookup. by case_decide.
    + by rewrite !lookup_alter_ne, in_limit_lookup.
  - done.
  - cbn. rewrite list_elem_of_filter, fds_in, in_limit_lookup. split; [tauto|].
    intros Hi. split; [done|]. case_decide; [done|]. by destruct Hi.
  - cbn. apply StronglySorted_filter. apply (seqZ_sorted 1024).
Defined.

(** Files of which none is a pipe: the set of those in non-blocking mode *)
#[export] Instance plain_files : Files (gset Z) := {
  fl_nonblocking f s := bool_decide (f ∈ s);
  fl_set_nonblocking f b := modifyM (λ s, if b then {[f]} ∪ s else s ∖ {[f]});
  fl_mode _ _ := Ok 0;
  fl_pipe_capacity _ _ := Err InvalidInput;
  fl_pipe_resize _ _ := failM InvalidInput;
  fl_write_unlck _ := mret tt;
}.

(** ** Witnesses *)

Definition std_fds : FdState table (gset Z) :=
  mkFdState {[0 := mkFd 10 false; 1 := mkFd 11 false; 5 := mkFd 15 true]} ∅.

Lemma fd_table_is_map_witness :
  (dup_fd 1024 5 false std_fds).1 = Ok 2
  ∧ (let '(r, s') := sys_close 5 std_fds in
     r = (if bool_decide (is_Some (view std_fds !! 5)) then Ok 0 else Err BadFileDescriptor)
     ∧ view s' = delete 5 (view std_fds)).
Proof. split; [by vm_compute|]. by apply (fd_table_is_map 1024 5 1 0 false std_fds). Defined.

