(* ===== verification/IoVec.v ===== *)
(** * Vectors of user buffers

    [api/src/io.rs]: [IoVectorBuf] checks the array of buffers that [readv] and
    its relatives pass, and [IoVectorBufIo] is a cursor that reads from or
    writes to the buffers one after the other.

    The array stays in user memory and is read again at each use: [iov i] is
    the entry the read gives, or its fault.  A transfer to or from one buffer
    is [vm_read_slice] or [vm_write_slice] of [starry_vm]. *)

From S2P Require Import Prelude.

(** [IoVec]: base address and length, an [isize] *)
Record IoVec := mkIoVec { iov_base : Z; iov_len : Z }.

(** [IoVectorBuf], apart from the address of the array *)
Record IoVectorBuf := mkVecBuf { vb_iovcnt : nat; vb_len : Z }.

(** The cursor [IoVectorBufIo]; [cu_len] is [inner.len]. *)
Record IoVectorBufIo := mkCursor {
  cu_iovcnt : nat;
  cu_start : nat;
  cu_offset : Z;
  cu_len : Z;
}.
#[export] Instance eta_IoVectorBufIo : Eta IoVectorBufIo := λ c,
  mkCursor (cu_iovcnt c) (cu_start c) (cu_offset c) (cu_len c).

Section IoVec.
Context (iov : nat → res IoVec).

(** The loop of [new] over the entries from [i] on *)
Fixpoint sum_lens (n i : nat) (len : Z) : res Z :=
  match n with
  | O => Ok len
  | S n =>
      v ← iov i;
      if iov_len v <? 0 then Err InvalidInput else sum_lens n (S i) (add_u64 len (iov_len v))
  end.

Definition IoVectorBuf_new (iovcnt : nat) : res IoVectorBuf :=
  if (1024 <? iovcnt)%nat then Err InvalidInput
  else len ← sum_lens iovcnt 0 0; Ok (mkVecBuf iovcnt len).

(** The loops of [read_with] and [fill_with], which differ only in the type of
    the pointer they pass to [f] *)
Fixpoint each_iov {S} (f : Z → Z → M S Z) (n i : nat) (count : Z) : M S Z :=
  match n with
  | O => mret count
  | Datatypes.S n =>
      v ← liftR (iov i);
      if iov_len v =? 0 then each_iov f n (Datatypes.S i) count
      else
        read ← f (iov_base v) (as_u64 (iov_len v));
        if read =? 0 then mret count else each_iov f n (Datatypes.S i) (add_u64 count read)
  end.

Definition read_with {S} (b : IoVectorBuf) (f : Z → Z → M S Z) : M S Z :=
  each_iov f (vb_iovcnt b) 0 0.
Definition fill_with {S} (b : IoVectorBuf) (f : Z → Z → M S Z) : M S Z :=
  each_iov f (vb_iovcnt b) 0 0.

Definition into_io (b : IoVectorBuf) : IoVectorBufIo := mkCursor (vb_iovcnt b) 0 0 (vb_len b).

(** [n] bounds the entries left. *)
Fixpoint skip_loop (n : nat) (c : IoVectorBufIo) : res unit * IoVectorBufIo :=
  match n with
  | O => (Ok tt, c)
  | S n =>
      match iov (cu_start c) with
      | Ok v =>
          if as_u64 (iov_len v) >? cu_offset c then (Ok tt, c)
          else skip_loop n (c <| cu_offset := 0 |> <| cu_start ::= S |>)
      | Err e => (Err e, c)
      | Panic => (Panic, c)
      end
  end.

Definition skip_empty : M IoVectorBufIo unit := λ c, skip_loop (cu_iovcnt c - cu_start c) c.

(** The loops of [read] and [write]: [xfer addr count len] moves [len] bytes
    between the user's memory at [addr] and position [count] of the caller's
    buffer of [size] bytes. *)
Fixpoint io_loop {X} (xfer : Z → Z → Z → M X unit) (fuel : nat) (size count : Z)
    (c : IoVectorBufIo) (x : X) : option (res Z * IoVectorBufIo * X) :=
  match fuel with
  | O => None
  | S fuel =>
      match skip_empty c with
      | (Ok _, c) =>
          if (cu_iovcnt c <=? cu_start c)%nat then Some (Ok count, c, x)
          else
            match iov (cu_start c) with
            | Ok v =>
                let len := Z.min (sub_u64 (as_u64 (iov_len v)) (cu_offset c)) (size - count) in
                if len =? 0 then Some (Ok count, c, x)
                else
                  match xfer (add_u64 (iov_base v) (cu_offset c)) count len x with
                  | (Ok _, x) =>
                      io_loop xfer fuel size (count + len)
                        (c <| cu_offset ::= λ o, add_u64 o len |> <| cu_len ::= λ l, sub_u64 l len |>) x
                  | (Err e, x) => Some (Err e, c, x)
                  | (Panic, x) => Some (Panic, c, x)
                  end
            | Err e => Some (Err e, c, x)
            | Panic => Some (Panic, c, x)
            end
      | (Err e, c) => Some (Err e, c, x)
      | (Panic, c) => Some (Panic, c, x)
      end
  end.

(** Each turn but the last finishes an entry. *)
Definition io_fuel (c : IoVectorBufIo) : nat := cu_iovcnt c - cu_start c + 2.

Definition io_run {X} (xfer : Z → Z → Z → M X unit) (size : Z) (c : IoVectorBufIo) (x : X)
    : res Z * IoVectorBufIo * X :=
  match io_loop xfer (io_fuel c) size 0 c x with Some r => r | None => (Panic, c, x) end.

(** [read] into a buffer of [size] bytes: what has been read is the buffer's
    beginning. *)
Definition vec_read (vm_read_slice : Z → Z → res (list Z)) (size : Z) (c : IoVectorBufIo)
    : res Z * IoVectorBufIo * list Z :=
  io_run (λ addr _ len, bs ← liftR (vm_read_slice addr len); modifyM (λ buf, buf ++ bs)) size c [].

Definition vec_write {V} (vm_write_slice : Z → list Z → M V unit) (buf : list Z)
    (c : IoVectorBufIo) (v : V) : res Z * IoVectorBufIo * V :=
  io_run (λ addr count len,
    vm_write_slice addr (take (Z.to_nat len) (drop (Z.to_nat count) buf))) (zlen buf) c v.

(** [IoBuf::remaining] and [IoBufMut::remaining_mut] *)
Definition remaining (c : IoVectorBufIo) : Z := cu_len c.

(** ** The bytes of the vector, by their addresses *)

Definition range (addr len : Z) : list Z := (λ i, add_u64 addr i) <$> seqZ 0 len.

(** The addresses of the entries from [i] on *)
Fixpoint addrs (vs : list IoVec) : list Z :=
  match vs with [] => [] | v :: vs => range (iov_base v) (iov_len v) ++ addrs vs end.

(** What is left to transfer *)
Definition left_addrs (vs : list IoVec) (c : IoVectorBufIo) : list Z :=
  drop (Z.to_nat (cu_offset c)) (addrs (drop (cu_start c) vs)).

(** The array in user memory is [vs]. *)
Definition is_array (vs : list IoVec) : Prop :=
  (∀ i v, vs !! i = Some v → iov i = Ok v)
  ∧ Forall (λ v, 0 ≤ iov_base v < 2 ^ 64 ∧ 0 ≤ iov_len v < 2 ^ 63) vs
  ∧ zlen (addrs vs) < 2 ^ 64.

Definition cursor_ok (vs : list IoVec) (c : IoVectorBufIo) : Prop :=
  cu_iovcnt c = length vs ∧ (cu_start c ≤ length vs)%nat
  ∧ 0 ≤ cu_offset c
  ∧ (∀ v, vs !! cu_start c = Some v → cu_offset c ≤ iov_len v)
  ∧ (vs !! cu_start c = None → cu_offset c = 0)
  ∧ cu_len c = zlen (left_addrs vs c).

Lemma length_range a n : length (range a n) = Z.to_nat n.
Proof. unfold range. by rewrite length_fmap, length_seqZ. Qed.

Lemma take_range a n k : 0 ≤ k ≤ n → take (Z.to_nat k) (range a n) = range a k.
Proof.
  intros Hk. unfold range. rewrite <- fmap_take. f_equal.
  replace n with (k + (n - k)) by lia. rewrite seqZ_app by lia.
  rewrite take_app_length'; [done|]. by rewrite length_seqZ.
Qed.

Lemma drop_range a n k : 0 ≤ k ≤ n → drop (Z.to_nat k) (range a n) = range (add_u64 a k) (n - k).
Proof.
  intros Hk. unfold range. rewrite <- fmap_drop. replace n with (k + (n - k)) at 1 by lia.
  rewrite seqZ_app, drop_app_length' by (rewrite ?length_seqZ; lia). rewrite Z.add_0_l.
  rewrite <- (Z.add_0_r k) at 1. rewrite <- fmap_add_seqZ, <- list_fmap_compose.
  apply list_fmap_ext. intros i x _. cbn. unfold add_u64.
  rewrite as_u64_add_l. f_equal. lia.
Qed.

Lemma zlen_drop {T} (l : list T) n : zlen (drop n l) = Z.max 0 (zlen l - Z.of_nat n).
Proof. unfold zlen. rewrite length_drop. lia. Qed.

Context {vs : list IoVec} (Harr : is_array vs).

Lemma array_entry i v :
  vs !! i = Some v → iov i = Ok v ∧ as_u64 (iov_len v) = iov_len v ∧ 0 ≤ iov_len v < 2 ^ 63.
Proof.
  intros Hi. destruct Harr as (Hr & Hf & _). split; [by apply Hr|].
  apply (Forall_lookup_1 _ _ _ _ Hf) in Hi as [_ Hl]. split; [|done].
  apply as_u64_small. unfold in_u64. lia.
Qed.

(** The addresses left at an entry that is not finished *)
Lemma left_addrs_at c v :
  vs !! cu_start c = Some v → 0 ≤ cu_offset c ≤ iov_len v →
  left_addrs vs c = range (add_u64 (iov_base v) (cu_offset c)) (iov_len v - cu_offset c)
                    ++ addrs (drop (S (cu_start c)) vs).
Proof.
  intros Hv Ho. unfold left_addrs. rewrite (drop_S _ _ _ Hv). cbn [addrs].
  rewrite drop_app_le by (rewrite length_range; lia). by rewrite drop_range by lia.
Qed.

Lemma left_addrs_end c : vs !! cu_start c = None → left_addrs vs c = [].
Proof.
  intros Hn%lookup_ge_None. unfold left_addrs. rewrite (drop_ge vs) by done. apply drop_nil.
Qed.

(** The cursor after the empty entries *)
Lemma skip_loop_spec : ∀ n c,
  cursor_ok vs c → (n = length vs - cu_start c)%nat →
  ∃ c', skip_loop n c = (Ok tt, c') ∧ cursor_ok vs c' ∧ left_addrs vs c' = left_addrs vs c
    ∧ (cu_start c ≤ cu_start c')%nat
    ∧ match vs !! cu_start c' with Some v => cu_offset c' < iov_len v | None => True end
    ∧ (∀ v, vs !! cu_start c = Some v → cu_offset c = iov_len v → (cu_start c < cu_start c')%nat).
Proof.
  induction n as [|n IH]; intros c Hc Hn; cbn.
  - exists c. destruct (vs !! cu_start c) as [v|] eqn:Hv; [apply lookup_lt_Some in Hv; lia|].
    split_and!; try done.
  - destruct (lookup_lt_is_Some_2 vs (cu_start c)) as [v Hv]; [lia|].
    destruct (array_entry _ _ Hv) as (-> & -> & Hl). rewrite Z.gtb_ltb.
    pose proof Hc as (Hcnt & Hst & Ho & Hle & Hnone & Hlen).
    destruct (Z.ltb_spec (cu_offset c) (iov_len v)) as [Hlt|Hge].
    { exists c. rewrite Hv. split_and!; try done. intros ? [= <-]. lia. }
    specialize (Hle v Hv). assert (Heq : cu_offset c = iov_len v) by lia.
    set (c1 := c <| cu_offset := 0 |> <| cu_start ::= S |>).
    assert (Hleft : left_addrs vs c1 = left_addrs vs c).
    { rewrite (left_addrs_at c v Hv) by lia. rewrite Heq, Z.sub_diag. done. }
    destruct (IH c1) as (c' & Hs & Hok' & Hl' & Hst' & Hend & _).
    { unfold cursor_ok. rewrite Hleft. apply lookup_lt_Some in Hv. cbn. split_and!; try done; try lia.
      intros w Hw. by apply array_entry in Hw as (_ & _ & ?); lia. }
    { cbn. lia. }
    exists c'. cbn in Hst'. split_and!; [exact Hs|done|congruence|lia|done|]. intros; lia.
Qed.

Lemma skip_empty_spec c :
  cursor_ok vs c →
  ∃ c', skip_empty c = (Ok tt, c') ∧ cursor_ok vs c' ∧ left_addrs vs c' = left_addrs vs c
    ∧ (cu_start c ≤ cu_start c')%nat
    ∧ match vs !! cu_start c' with Some v => cu_offset c' < iov_len v | None => True end
    ∧ (∀ v, vs !! cu_start c = Some v → cu_offset c = iov_len v → (cu_start c < cu_start c')%nat).
Proof. intros Hc. apply skip_loop_spec; [done|]. by destruct Hc as [-> _]. Qed.

(** A transfer of [len] bytes at the current entry *)
Lemma advance_spec c v len :
  cursor_ok vs c → vs !! cu_start c = Some v → 0 ≤ len ≤ iov_len v - cu_offset c →
  let c' := c <| cu_offset ::= λ o, add_u64 o len |> <| cu_len ::= λ l, sub_u64 l len |> in
  cursor_ok vs c' ∧ cu_offset c' = cu_offset c + len
  ∧ left_addrs vs c' = drop (Z.to_nat len) (left_addrs vs c)
  ∧ range (add_u64 (iov_base v) (cu_offset c)) len = take (Z.to_nat len) (left_addrs vs c).
Proof.
  intros (Hcnt & Hst & Ho & Hle & Hnone & Hlen) Hv Hr c'.
  destruct (array_entry _ _ Hv) as (_ & _ & Hl). pose proof (left_addrs_at c v Hv ltac:(lia)) as Hat.
  assert (Hoff : cu_offset c' = cu_offset c + len).
  { cbn. unfold add_u64. apply as_u64_small. unfold in_u64. lia. }
  assert (Hleft : left_addrs vs c' = drop (Z.to_nat len) (left_addrs vs c)).
  { unfold left_addrs. rewrite Hoff, drop_drop. f_equal. lia. }
  assert (Hbound : len ≤ zlen (left_addrs vs c) < 2 ^ 64).
  { split.
    - rewrite Hat. unfold zlen. rewrite length_app, length_range. lia.
    - destruct Harr as (_ & _ & Htot). eapply Z.le_lt_trans; [|exact Htot].
      unfold left_addrs. rewrite zlen_drop.
      assert (Hd : ∀ k (l : list IoVec), zlen (addrs (drop k l)) ≤ zlen (addrs l)).
      { intros k l. revert k. induction l as [|w l IH]; intros [|k]; cbn; try lia.
        rewrite zlen_app. pose proof (zlen_nonneg (range (iov_base w) (iov_len w))).
        specialize (IH k). lia. }
      specialize (Hd (cu_start c) vs). pose proof (zlen_nonneg (addrs vs)). lia. }
  split; [|split; [done|split; [done|]]].
  - unfold cursor_ok. rewrite Hleft, Hoff, zlen_drop. cbn. split_and!; try done; try lia.
    + intros w Hw. simplify_eq. lia.
    + rewrite Hv. done.
    + rewrite Hlen. unfold sub_u64. rewrite as_u64_small; [lia|]. unfold in_u64. lia.
  - rewrite Hat, take_app_le by (rewrite length_range; lia). by rewrite take_range by lia.
Qed.

Section Loop.
Context {X : Type} (xfer : Z → Z → Z → M X unit) (size : Z) (P : list Z → X → Prop).
(** [P t x]: the bytes at the addresses [t] have been transferred. *)
Hypothesis xfer_ok : ∀ t x addr len, P t x → 0 < len → zlen t + len ≤ size →
  ∃ x', xfer addr (zlen t) len x = (Ok tt, x') ∧ P (t ++ range addr len) x'.

Lemma io_loop_spec : ∀ fuel t c x,
  P t x → cursor_ok vs c → zlen t ≤ size → (0 < fuel)%nat →
  (zlen t < size → (length vs - cu_start (skip_empty c).2 < fuel)%nat) →
  let n := Z.to_nat (size - zlen t) in
  ∃ c' x', io_loop xfer fuel size (zlen t) c x
             = Some (Ok (zlen (t ++ take n (left_addrs vs c))), c', x')
    ∧ P (t ++ take n (left_addrs vs c)) x' ∧ cursor_ok vs c'
    ∧ left_addrs vs c' = drop n (left_addrs vs c).
Proof.
  induction fuel as [|fuel IH]; intros t c x HP Hc Ht Hf Hfuel n; [lia|]. cbn [io_loop].
  destruct (skip_empty_spec c Hc) as (c1 & Hs & Hc1 & Hleft & Hst & Hend & _).
  rewrite Hs in Hfuel |- *. cbn [snd] in Hfuel. rewrite <- Hleft. clear Hleft Hs Hc Hst c.
  pose proof Hc1 as (-> & Hst & Ho & Hle & _).
  destruct (vs !! cu_start c1) as [v|] eqn:Hv.
  2:{ apply lookup_ge_None in Hv as Hge. replace (length vs <=? cu_start c1)%nat with true
        by (symmetry; by apply Nat.leb_le).
      rewrite left_addrs_end, take_nil, drop_nil, app_nil_r by done. exists c1, x.
      split_and!; try done. by rewrite left_addrs_end. }
  apply lookup_lt_Some in Hv as Hlt.
  replace (length vs <=? cu_start c1)%nat with false by (symmetry; by apply Nat.leb_gt).
  destruct (array_entry _ _ Hv) as (-> & -> & Hl).
  assert (Hsub : sub_u64 (iov_len v) (cu_offset c1) = iov_len v - cu_offset c1).
  { unfold sub_u64. apply as_u64_small. unfold in_u64. lia. }
  rewrite Hsub. set (len := Z.min (iov_len v - cu_offset c1) (size - zlen t)).
  destruct (Z.eqb_spec len 0) as [Hz|Hz].
  { assert (n = 0%nat) as -> by lia. rewrite take_0, drop_0, app_nil_r. by exists c1, x. }
  destruct (xfer_ok t x (add_u64 (iov_base v) (cu_offset c1)) len HP) as (x1 & -> & HP1); [lia|lia|].
  destruct (advance_spec c1 v len Hc1 Hv ltac:(lia)) as (Hc2 & Ho2 & Hl2 & Hrange).
  set (c2 := c1 <| cu_offset ::= λ o, add_u64 o len |> <| cu_len ::= λ l, sub_u64 l len |>) in *.
  assert (Hzt : zlen (t ++ range (add_u64 (iov_base v) (cu_offset c1)) len) = zlen t + len).
  { rewrite zlen_app. unfold zlen at 2. rewrite length_range. lia. }
  destruct (IH _ c2 x1 HP1 Hc2) as (c' & x' & Hrun & HP' & Hc' & Hl'); [lia|lia| |].
  { rewrite Hzt. intros Hlt'. destruct (skip_empty_spec c2 Hc2) as (c3 & Hs3 & _ & _ & _ & _ & Hfin).
    rewrite Hs3. cbn [snd]. specialize (Hfin v Hv ltac:(lia)). cbn in Hfin. lia. }
  rewrite Hzt in Hrun, HP', Hl'. rewrite Hrange in Hrun, HP'. rewrite Hl2 in Hrun, HP', Hl'.
  assert (Hn : n = (Z.to_nat len + Z.to_nat (size - (zlen t + len)))%nat) by lia.
  rewrite <- app_assoc, take_take_drop, <- Hn in Hrun, HP'. rewrite drop_drop, <- Hn in Hl'.
  by exists c', x'.
Qed.

Lemma io_run_spec c x :
  P [] x → cursor_ok vs c → 0 ≤ size →
  let n := Z.to_nat size in
  ∃ c' x', io_run xfer size c x = (Ok (zlen (take n (left_addrs vs c))), c', x')
    ∧ P (take n (left_addrs vs c)) x' ∧ cursor_ok vs c'
    ∧ left_addrs vs c' = drop n (left_addrs vs c).
Proof.
  intros HP Hc Hs n. unfold io_run.
  destruct (io_loop_spec (io_fuel c) [] c x HP Hc) as (c' & x' & Hr & HP' & Hc' & Hl).
  - done.
  - unfold io_fuel. lia.
  - intros _. destruct (skip_empty_spec c Hc) as (c1 & -> & Hc1 & _ & Hst & _). cbn [snd].
    unfold io_fuel. destruct Hc as [-> _]. lia.
  - cbn [app zlen length] in *. rewrite zlen_nil, Z.sub_0_r in *. rewrite Hr. by exists c', x'.
Qed.
End Loop.

Lemma sum_lens_spec : ∀ n i acc,
  (n = length vs - i)%nat → 0 ≤ acc → acc + zlen (addrs (drop i vs)) < 2 ^ 64 →
  sum_lens n i acc = Ok (acc + zlen (addrs (drop i vs))).
Proof.
  induction n as [|n IH]; intros i acc Hn Ha Hb; cbn.
  - rewrite drop_ge by lia. by rewrite Z.add_0_r.
  - destruct (lookup_lt_is_Some_2 vs i) as [v Hv]; [lia|].
    destruct (array_entry _ _ Hv) as (-> & _ & Hl). cbn. rewrite (proj2 (Z.ltb_ge _ _)) by lia.
    rewrite (drop_S _ _ _ Hv) in Hb |- *. cbn [addrs] in Hb |- *. rewrite zlen_app in Hb |- *.
    assert (Hr : zlen (range (iov_base v) (iov_len v)) = iov_len v).
    { unfold zlen. rewrite length_range. lia. }
    rewrite Hr in Hb |- *. pose proof (zlen_nonneg (addrs (drop (S i) vs))).
    assert (Hadd : add_u64 acc (iov_len v) = acc + iov_len v).
    { unfold add_u64. apply as_u64_small. unfold in_u64. lia. }
    rewrite Hadd, IH by lia. f_equal. lia.
Qed.

Lemma new_spec :
  (length vs ≤ 1024)%nat →
  IoVectorBuf_new (length vs) = Ok (mkVecBuf (length vs) (zlen (addrs vs))).
Proof.
  intros Hn. unfold IoVectorBuf_new. rewrite (proj2 (Nat.ltb_ge _ _)) by done.
  destruct Harr as (_ & _ & Ht). rewrite (sum_lens_spec _ 0 0); [done|lia|lia|done].
Qed.

Lemma into_io_ok : cursor_ok vs (into_io (mkVecBuf (length vs) (zlen (addrs vs)))).
Proof.
  unfold cursor_ok, left_addrs. cbn. split_and!; try done; try lia.
  intros v Hv. by apply array_entry in Hv as (_ & _ & ?); lia.
Qed.

(** ** Reads and writes *)

Section Transfer.
Context {V : Type} (load : Z → Z) (vm_read_slice : Z → Z → res (list Z)).
Context (store : Z → Z → V → V) (vm_write_slice : Z → list Z → M V unit).
Hypothesis read_ok : ∀ addr len, vm_read_slice addr len = Ok (load <$> range addr len).

(** Bytes stored one after the other *)
Definition store_all (ts bs : list Z) (v : V) : V :=
  foldl (λ v p, store p.1 p.2 v) v (zip ts bs).
Hypothesis write_ok : ∀ addr bs v,
  vm_write_slice addr bs v = (Ok tt, store_all (range addr (zlen bs)) bs v).

Lemma vec_read_spec size c :
  cursor_ok vs c → 0 ≤ size →
  let n := Z.to_nat size in
  ∃ c', vec_read vm_read_slice size c
        = (Ok (zlen (take n (left_addrs vs c))), c', load <$> take n (left_addrs vs c))
    ∧ cursor_ok vs c' ∧ left_addrs vs c' = drop n (left_addrs vs c).
Proof.
  intros Hc Hs n. unfold vec_read.
  edestruct (io_run_spec (λ addr _ len, bs ← liftR (vm_read_slice addr len);
      modifyM (λ buf, buf ++ bs)) size (λ t buf, buf = load <$> t))
    as (c' & x' & Hr & -> & Hc' & Hl); [|done|done|done|by exists c'].
  intros t x addr len -> Hlen Hle. eexists. unfold_m. rewrite read_ok. split; [done|].
  by rewrite fmap_app.
Qed.

Lemma vec_write_spec buf c v :
  cursor_ok vs c →
  let n := length buf in
  ∃ c', vec_write vm_write_slice buf c v
        = (Ok (zlen (take n (left_addrs vs c))), c', store_all (take n (left_addrs vs c)) buf v)
    ∧ cursor_ok vs c' ∧ left_addrs vs c' = drop n (left_addrs vs c).
Proof.
  intros Hc n. unfold vec_write.
  edestruct (io_run_spec (λ addr count len, vm_write_slice addr
      (take (Z.to_nat len) (drop (Z.to_nat count) buf))) (zlen buf)
      (λ t x, x = store_all t buf v))
    as (c' & x' & Hr & HP & Hc' & Hl); [|done|done|apply zlen_nonneg|].
  - intros t x addr len -> Hlen Hle. eexists. split; [apply write_ok|].
    unfold zlen in *. rewrite !length_take, length_drop, Nat2Z.id.
    replace (Z.of_nat (Z.to_nat len `min` (length buf - length t))) with len by lia.
    unfold store_all. rewrite zip_with_app_l, foldl_app, zip_with_take_r.
    by rewrite (zip_with_take_r' _ (Z.to_nat len)) by (rewrite length_range; lia).
  - unfold zlen in Hr, HP, Hl. rewrite Nat2Z.id in Hr, HP, Hl. subst x'. by exists c'.
Qed.

(** A cursor over a vector of at most 1024 user buffers, none of which
    faults, moves bytes in order: it starts with the sum of the lengths
    remaining; a read then fetches, and a write stores, as many bytes as the
    caller's buffer and the vector have, at consecutive places of the vector;
    and after any sequence of reads the bytes fetched are a prefix of the
    vector and [remaining] counts the rest. *)
Lemma vector_moves_in_order sizes (buf : list Z) v :
  (length vs ≤ 1024)%nat → Forall (λ n, 0 ≤ n) sizes →
  ∃ b, IoVectorBuf_new (length vs) = Ok b
  ∧ let '(got, c) := foldl (λ gc size,
        let '(r, c', bs) := vec_read vm_read_slice size gc.2 in (gc.1 ++ bs, c'))
      ([], into_io b) sizes in
    let n := Z.to_nat (foldr Z.add 0 sizes) in
    got = load <$> take n (addrs vs)
    ∧ remaining c = zlen (drop n (addrs vs))
    ∧ ∃ c', vec_write vm_write_slice buf c v
        = (Ok (zlen (take (length buf) (drop n (addrs vs)))), c',
           store_all (take (length buf) (drop n (addrs vs))) buf v)
      ∧ remaining c' = zlen (drop (n + length buf) (addrs vs)).
Proof.
  intros Hn Hs. eexists. split; [by apply new_spec|].
  pose proof into_io_ok as Hc. set (c0 := into_io _) in *.
  assert (Hl0 : left_addrs vs c0 = addrs vs) by done.
  enough (Hg : ∀ got c, cursor_ok vs c →
    let '(got', c') := foldl (λ gc size,
        let '(r, c', bs) := vec_read vm_read_slice size gc.2 in (gc.1 ++ bs, c')) (got, c) sizes in
    let n := Z.to_nat (foldr Z.add 0 sizes) in
    got' = got ++ (load <$> take n (left_addrs vs c)) ∧ cursor_ok vs c'
    ∧ left_addrs vs c' = drop n (left_addrs vs c)).
  { specialize (Hg [] c0 Hc). destruct (foldl _ _ sizes) as [got c]. rewrite Hl0 in Hg.
    destruct Hg as (-> & Hc' & Hl). split; [done|].
    assert (Hrem : ∀ c, cursor_ok vs c → remaining c = zlen (left_addrs vs c)).
    { intros c1 (_ & _ & _ & _ & _ & H1). exact H1. }
    rewrite (Hrem c Hc'), Hl. split; [done|].
    destruct (vec_write_spec buf c v Hc') as (c' & Hw & Hcw & Hlw). rewrite Hl in Hw, Hlw.
    exists c'. split; [done|]. by rewrite (Hrem c' Hcw), Hlw, drop_drop. }
  clear Hc Hl0 c0. induction sizes as [|size sizes IH]; intros got c Hc; cbn [foldl foldr].
  - by rewrite take_0, drop_0, app_nil_r.
  - apply Forall_cons in Hs as [H1 Hs]. destruct (vec_read_spec size c Hc H1) as (c1 & Hr & Hc1 & Hl1).
    cbn [fst snd]. rewrite Hr. specialize (IH Hs (got ++ (load <$> take (Z.to_nat size) (left_addrs vs c))) c1 Hc1).
    destruct (foldl _ _ sizes) as [got' c']. destruct IH as (-> & Hc' & Hl). split; [|split; [done|]].
    + assert (Hsum : 0 ≤ foldr Z.add 0 sizes) by (clear -Hs; induction Hs; cbn; lia).
      rewrite <- app_assoc, Hl1, <- fmap_app, take_take_drop. do 3 f_equal. lia.
    + assert (Hsum : 0 ≤ foldr Z.add 0 sizes) by (clear -Hs; induction Hs; cbn; lia).
      rewrite Hl, Hl1, drop_drop. f_equal. lia.
Qed.
End Transfer.
End IoVec.

(** ** Witness *)

Definition two_bufs : list IoVec := [mkIoVec 0x100 2; mkIoVec 0x200 0; mkIoVec 0x300 3].
Definition two_iov (i : nat) : res IoVec := ok_or BadAddress (two_bufs !! i).

Lemma two_bufs_array : is_array two_iov two_bufs.
Proof.
  split; [|split].
  - intros i v Hi. unfold two_iov. by rewrite Hi.
  - repeat constructor; cbn; lia.
  - by vm_compute.
Qed.

