(* ===== verification/Tty.v ===== *)
(** * The line discipline of terminals

    [api/src/terminal/termios.rs] and [api/src/terminal/ldisc.rs]: the
    settings of a terminal and the processing of its input, with line editing
    in canonical mode.

    The processed bytes go through the ring buffer of [Pipe], here of 80
    bytes.  What the device delivers, the echoed bytes and the signals sent
    are explicit in the state. *)

From S2P Require Import Prelude Pipe.

(** Values of the Linux ABI *)
Definition IGNCR : Z := 0x80.
Definition ICRNL : Z := 0x100.
Definition IXON : Z := 0x400.
Definition OPOST : Z := 0x1.
Definition ONLCR : Z := 0x4.
Definition B38400 : Z := 0xf.
Definition CS8 : Z := 0x30.
Definition CREAD : Z := 0x80.
Definition ISIG : Z := 0x1.
Definition ICANON : Z := 0x2.
Definition ECHO : Z := 0x8.
Definition ECHOE : Z := 0x10.
Definition ECHOK : Z := 0x20.
Definition ECHOCTL : Z := 0x200.
Definition ECHOKE : Z := 0x800.
Definition IEXTEN : Z := 0x8000.
Definition VINTR : nat := 0.
Definition VQUIT : nat := 1.
Definition VERASE : nat := 2.
Definition VKILL : nat := 3.
Definition VEOF : nat := 4.
Definition VTIME : nat := 5.
Definition VMIN : nat := 6.
Definition VEOL : nat := 11.
Definition VREPRINT : nat := 12.
Definition VDISCARD : nat := 13.
Definition VWERASE : nat := 14.
Definition VLNEXT : nat := 15.
Definition VEOL2 : nat := 16.
Definition SIGINT : Z := 2.
Definition SIGQUIT : Z := 3.

Definition chr_nl : Z := 10.
Definition chr_cr : Z := 13.
Definition chr_space : Z := 32.
Definition is_ascii_graphic (ch : Z) : bool := (0x21 <=? ch) && (ch <=? 0x7e).
Definition is_ascii_control (ch : Z) : bool := ((0 <=? ch) && (ch <=? 0x1f)) || (ch =? 0x7f).

Record Termios := mkTermios {
  c_iflag : Z;
  c_oflag : Z;
  c_cflag : Z;
  c_lflag : Z;
  c_line : Z;
  c_cc : list Z;
}.

Definition ctl (ch : Z) : Z := ch - 0x40.

Definition Termios_default : Termios :=
  mkTermios (Z.lor ICRNL IXON) (Z.lor OPOST ONLCR) (Z.lor B38400 (Z.lor CS8 CREAD))
    (foldr Z.lor 0 [ICANON; ECHO; ISIG; ECHOE; ECHOK; ECHOCTL; ECHOKE; IEXTEN]) 0
    (foldl (λ cc p, <[p.1 := p.2]> cc) (replicate 19 0)
      [(VINTR, ctl 67); (VQUIT, ctl 92); (VERASE, 0x7f); (VKILL, ctl 85); (VEOF, ctl 68);
       (VEOL, 0); (VREPRINT, ctl 82); (VDISCARD, ctl 79); (VWERASE, ctl 87);
       (VLNEXT, ctl 86); (VEOL2, 0)]).

(** The indices used are below the length 19 of [c_cc]. *)
Definition special_char (t : Termios) (index : nat) : Z := nth index (c_cc t) 0.
Definition has_iflag (t : Termios) (flag : Z) : bool := negb (Z.land (c_iflag t) flag =? 0).
Definition has_lflag (t : Termios) (flag : Z) : bool := negb (Z.land (c_lflag t) flag =? 0).
Definition echo (t : Termios) : bool := has_lflag t ECHO.
Definition canonical (t : Termios) : bool := has_lflag t ICANON.
Definition contains_iexten (t : Termios) : bool := has_lflag t IEXTEN.

Definition is_eol (t : Termios) (ch : Z) : bool :=
  if (ch =? chr_nl) || (ch =? special_char t VEOL) then true
  else contains_iexten t && (ch =? special_char t VEOL2).

Definition signo_for (t : Termios) (ch : Z) : option Z :=
  if ch =? special_char t VINTR then Some SIGINT
  else if ch =? special_char t VQUIT then Some SIGQUIT
  else None.

(** ** The input reader *)

Definition BUF_SIZE : nat := 80.

(** [ir_pending] is [read_buf[read_range]]; [ir_foreground] is the foreground
    process group; [ir_echoed] and [ir_signals] record effects. *)
Record InputReader (R : Type) := mkReader {
  ir_buf : R;
  ir_pending : bytes;
  ir_line : bytes;
  ir_line_read : option nat;
  ir_clear : bool;
  ir_foreground : option Z;
  ir_echoed : bytes;
  ir_signals : list (Z * Z);
}.
Arguments mkReader {R}.
Arguments ir_buf {R}.
Arguments ir_pending {R}.
Arguments ir_line {R}.
Arguments ir_line_read {R}.
Arguments ir_clear {R}.
Arguments ir_foreground {R}.
Arguments ir_echoed {R}.
Arguments ir_signals {R}.
#[export] Instance eta_InputReader R : Eta (InputReader R) := λ s,
  mkReader (ir_buf s) (ir_pending s) (ir_line s) (ir_line_read s) (ir_clear s)
    (ir_foreground s) (ir_echoed s) (ir_signals s).

(** What [output_char] writes *)
Definition output_char (t : Termios) (ch : Z) : bytes :=
  if ch =? chr_nl then [chr_nl]
  else if ch =? chr_cr then [chr_cr; chr_nl]
  else if ch =? special_char t VERASE then [8; chr_space; 8]
  else if (ch =? chr_space) || is_ascii_graphic ch then [ch]
  else if is_ascii_control ch && has_lflag t ECHOCTL then [94; ch + 0x40]
  else [].

Section Tty.
Context {R : Type} `{RingBuf R}.
Abbreviation S := (InputReader R).

Definition reader_new (foreground : option Z) : S :=
  mkReader (rb_new BUF_SIZE) [] [] None false foreground [] [].

Definition rb_is_full (r : R) : bool := (rb_vacant_len r =? 0)%nat.

(** The signals [check_send_signal] sends *)
Definition check_send_signal (t : Termios) (ch : Z) (s : S) : S :=
  if negb (canonical t) || negb (has_lflag t ISIG) then s
  else
    match signo_for t ch, ir_foreground s with
    | Some signo, Some pg => s <| ir_signals ::= λ l, l ++ [(pg, signo)] |>
    | _, _ => s
    end.

(** The character after the handling of carriage returns; [None] to skip it *)
Definition map_cr (t : Termios) (ch : Z) : option Z :=
  if ch =? chr_cr then
    if has_iflag t IGNCR then None
    else if has_iflag t ICRNL then Some chr_nl else Some ch
  else Some ch.

(** Canonical mode: the line after one character *)
Definition edit_line (t : Termios) (ch : Z) (s : S) : S :=
  if has_lflag t ECHOK && (ch =? special_char t VKILL) then s <| ir_line := [] |>
  else if ch =? special_char t VERASE then s <| ir_line ::= λ l, removelast l |>
  else if is_eol t ch || (ch =? special_char t VEOF) then
    let line := if negb (ch =? special_char t VEOF) then ir_line s ++ [ch] else ir_line s in
    s <| ir_line := line |>
      <| ir_line_read ::= λ o, if bool_decide (line = []) then o else Some 0%nat |>
  else if is_ascii_graphic ch then s <| ir_line ::= λ l, l ++ [ch] |>
  else s.

(** The signal and the echo of a character *)
Definition char_effects (t : Termios) (ch : Z) (s : S) : S :=
  let s := check_send_signal t ch s in
  if echo t then s <| ir_echoed ::= λ o, o ++ output_char t ch |> else s.

(** One character taken from the device *)
Definition process_char (t : Termios) (ch : Z) (s : S) : S :=
  match map_cr t ch with
  | None => s
  | Some ch =>
      let s := char_effects t ch s in
      if negb (canonical t) then s <| ir_buf ::= rb_push_slice [ch] |>
      else edit_line t ch s
  end.

(** One turn of the loop: [Ok None] leaves it. *)
Definition poll_turn (t : Termios) (s : S) : res (option S) :=
  match ir_line_read s with
  | Some offset =>
      if (length (ir_line s) <? offset)%nat then Panic  (* line_buf[offset..] *)
      else
        let rest := drop offset (ir_line s) in
        let read := (length rest `min` rb_vacant_len (ir_buf s))%nat in
        if (read =? 0)%nat then Ok None
        else
          let s := s <| ir_buf ::= rb_push_slice rest |> in
          let offset := (offset + read)%nat in
          if (offset =? length (ir_line s))%nat
          then Ok (Some (s <| ir_line_read := None |> <| ir_line := [] |>))
          else Ok (Some (s <| ir_line_read := Some offset |>))
  | None =>
      match rb_is_full (ir_buf s), ir_pending s with
      | true, _ | _, [] => Ok None
      | false, ch :: rest => Ok (Some (process_char t ch (s <| ir_pending := rest |>)))
      end
  end.

(** The loop; [None] when the fuel does not suffice. *)
Fixpoint poll_turns (fuel : nat) (t : Termios) (s : S) : option (res unit * S) :=
  match fuel with
  | O => None
  | Datatypes.S fuel =>
      match poll_turn t s with
      | Ok (Some s') => poll_turns fuel t s'
      | Ok None => Some (Ok tt, s)
      | Err e => Some (Err e, s)
      | Panic => Some (Panic, s)
      end
  end.

(** Enough turns for every character and every byte of room. *)
Definition turns_fuel (s : S) : nat :=
  (length (ir_pending s) + rb_vacant_len (ir_buf s) + 1)%nat.

(** The part of [poll] before the loop; [input] is what the device delivers if
    it is asked. *)
Definition poll_start (input : bytes) (s : S) : S :=
  let s := if ir_clear s then s <| ir_clear := false |> <| ir_line := [] |> else s in
  match ir_pending s with
  | [] => s <| ir_pending := take BUF_SIZE input |>
  | _ => s
  end.

(** [InputReader::poll]; it answers whether bytes were sent to the buffer,
    which the loop only fills. *)
Definition tty_poll (t : Termios) (input : bytes) (s : S) : res bool * S :=
  let s := poll_start input s in
  match poll_turns (turns_fuel s) t s with
  | Some (Ok _, s') => (Ok (rb_occupied_len (ir_buf s) <? rb_occupied_len (ir_buf s'))%nat, s')
  | Some (Err e, s') => (Err e, s')
  | Some (Panic, s') => (Panic, s')
  | None => (Panic, s)
  end.

(** ** Reading *)

Definition drain_input (s : S) : S :=
  s <| ir_buf ::= λ b, rb_advance_read (rb_occupied_len b) b |> <| ir_clear := true |>.

(** [pop_slice] *)
Definition pop (n : nat) (s : S) : bytes * S :=
  let k := (n `min` rb_occupied_len (ir_buf s))%nat in
  (take k (rb_content (ir_buf s)), s <| ir_buf ::= rb_advance_read k |>).

(** The attempt of [LineDiscipline::read] with a buffer of [len] bytes of which
    [total_read] are filled, for a terminal that processes its input *)
Definition tty_read (t : Termios) (len total_read : nat) (s : S) : res nat * bytes * S :=
  if (len =? 0)%nat then (Ok 0%nat, [], s)
  else if negb (canonical t) && (special_char t VTIME >? 0) then (Panic, [], s) (* todo!() *)
  else
    let vmin := if canonical t then 1%nat else Z.to_nat (special_char t VMIN) in
    if (len <? vmin)%nat then (Err WouldBlock, [], s)
    else
      let '(got, s') := pop (len - total_read) s in
      let total := (total_read + length got)%nat in
      if (vmin <=? total)%nat then (Ok total, got, s') else (Err WouldBlock, got, s').

(** ** The specification

    What the program sees of a sequence of characters: the completed output
    and the line being edited. *)
Definition spec_char (t : Termios) (st : bytes * bytes) (ch : Z) : bytes * bytes :=
  let '(out, line) := st in
  match map_cr t ch with
  | None => (out, line)
  | Some ch =>
      if negb (canonical t) then (out ++ [ch], line)
      else if has_lflag t ECHOK && (ch =? special_char t VKILL) then (out, [])
      else if ch =? special_char t VERASE then (out, removelast line)
      else if ch =? special_char t VEOF then (out ++ line, [])
      else if is_eol t ch then (out ++ line ++ [ch], [])
      else if is_ascii_graphic ch then (out, line ++ [ch])
      else (out, line)
  end.

Definition spec_input (t : Termios) (input : bytes) : bytes * bytes :=
  foldl (spec_char t) ([], []) input.

(** ** Runs: the device is polled, the program reads *)

Inductive tty_op := TPoll (input : bytes) | TRead (len : nat).

(** The characters taken from the device and the bytes read *)
Definition tty_run_op (t : Termios) (o : tty_op) (s : S) : (bytes * bytes) * S :=
  match o with
  | TPoll input =>
      let s0 := poll_start input s in
      let '(_, s') := tty_poll t input s in
      ((take (length (ir_pending s0) - length (ir_pending s')) (ir_pending s0), []), s')
  | TRead n => let '(got, s') := pop n s in (([], got), s')
  end.

Fixpoint tty_run (t : Termios) (l : list tty_op) (s : S) : (bytes * bytes) * S :=
  match l with
  | [] => (([], []), s)
  | o :: l =>
      let '((c, r), s') := tty_run_op t o s in
      let '((cs, rs), s'') := tty_run t l s' in
      ((c ++ cs, r ++ rs), s'')
  end.

(** ** The loop implements the specification *)

Context {Hok : RingBufOk R}.

Definition reader_ok (s : S) : Prop :=
  ir_clear s = false ∧
  match ir_line_read s with Some off => (off < length (ir_line s))%nat | None => True end.

(** What a state stands for, after [pre] has been read from the buffer *)
Definition abs (pre : bytes) (s : S) : bytes * bytes :=
  match ir_line_read s with
  | None => (pre ++ rb_content (ir_buf s), ir_line s)
  | Some off => (pre ++ rb_content (ir_buf s) ++ drop off (ir_line s), [])
  end.

Definition room (s : S) : nat := rb_vacant_len (ir_buf s).

Lemma push_room l r :
  rb_vacant_len (rb_push_slice l r) = (rb_vacant_len r - length l)%nat.
Proof.
  pose proof (rb_vacant_spec r) as H1. pose proof (rb_vacant_spec (rb_push_slice l r)) as H2.
  unfold rb_occupied_len in *. rewrite rb_push_capacity, rb_push_content, length_app, length_take in H2.
  lia.
Qed.

(** Signals and echo touch neither the line nor the buffer. *)
Lemma char_effects_frame t ch s :
  let s' := char_effects t ch s in
  ir_buf s' = ir_buf s ∧ ir_pending s' = ir_pending s ∧ ir_line s' = ir_line s
  ∧ ir_line_read s' = ir_line_read s ∧ ir_clear s' = ir_clear s.
Proof. unfold char_effects, check_send_signal. by repeat case_match. Qed.

Lemma edit_line_spec t ch s pre :
  canonical t = true → map_cr t ch = Some ch → ir_line_read s = None →
  abs pre (edit_line t ch s) = spec_char t (abs pre s) ch.
Proof.
  intros Hc Hm Hl. unfold spec_char, edit_line, abs. rewrite Hl, Hm, Hc. cbn [negb].
  destruct (has_lflag t ECHOK && _); cbn; [by rewrite Hl|].
  destruct (ch =? special_char t VERASE); cbn; [by rewrite Hl|].
  destruct (ch =? special_char t VEOF); cbn.
  - rewrite orb_true_r. cbn. rewrite Hl. case_bool_decide as Hn; cbn; [|by rewrite app_assoc].
    by rewrite Hn, app_nil_r.
  - rewrite orb_false_r. destruct (is_eol t ch); cbn.
    + rewrite bool_decide_eq_false_2 by (by destruct (ir_line s)). by rewrite app_assoc.
    + by destruct (is_ascii_graphic ch); cbn; rewrite Hl.
Qed.

Lemma edit_line_frame t ch s :
  ir_line_read s = None → ir_clear s = false →
  let s' := edit_line t ch s in
  reader_ok s' ∧ ir_pending s' = ir_pending s ∧ ir_buf s' = ir_buf s.
Proof.
  intros Hl Hc. unfold edit_line, reader_ok.
  destruct (has_lflag t ECHOK && _); cbn; [by rewrite Hl|].
  destruct (ch =? special_char t VERASE); cbn; [by rewrite Hl|].
  destruct (is_eol t ch || _); cbn.
  - rewrite Hl. split; [|done]. split; [done|]. case_bool_decide as Hn; [done|].
    destruct (if negb _ then _ else _); [done|]. cbn. lia.
  - destruct (is_ascii_graphic ch); cbn; by rewrite Hl.
Qed.

Lemma map_cr_idem t ch c : map_cr t ch = Some c → map_cr t c = Some c.
Proof.
  unfold map_cr. destruct (ch =? chr_cr) eqn:E; [|intros [= <-]; by rewrite E].
  destruct (has_iflag t IGNCR) eqn:Ei; [done|]. destruct (has_iflag t ICRNL) eqn:Ec;
    intros [= <-]; [done|by rewrite E].
Qed.

Lemma spec_char_cr t st ch c : map_cr t ch = Some c → spec_char t st ch = spec_char t st c.
Proof. intros Hm. unfold spec_char. by rewrite Hm, (map_cr_idem t ch c Hm). Qed.

Lemma process_char_spec t ch s :
  reader_ok s → ir_line_read s = None → rb_is_full (ir_buf s) = false →
  let s' := process_char t ch s in
  reader_ok s' ∧ ir_pending s' = ir_pending s ∧ (room s' ≤ room s)%nat
  ∧ ∀ pre, abs pre s' = spec_char t (abs pre s) ch.
Proof.
  intros [Hc _] Hl Hf. unfold process_char. destruct (map_cr t ch) as [c|] eqn:Hm.
  2:{ split; [split; [done|by rewrite Hl]|]. split; [done|]. split; [done|]. intros pre. unfold spec_char.
      rewrite Hm. by destruct (abs pre s). }
  pose proof (char_effects_frame t c s) as Hfr. cbn in Hfr.
  destruct Hfr as (Hb & Hp & Hln & Hlr & Hcl). set (s0 := char_effects t c s) in *.
  assert (Habs : ∀ pre, abs pre s = abs pre s0).
  { intros pre. unfold abs. by rewrite Hb, Hln, Hlr. }
  rewrite Hl in Hlr. rewrite Hc in Hcl.
  destruct (canonical t) eqn:Hcan; cbn [negb].
  - pose proof (edit_line_frame t c s0 Hlr Hcl) as (Hok' & Hp' & Hb').
    split; [done|]. split; [congruence|]. split; [unfold room; rewrite Hb', Hb; lia|].
    intros pre. rewrite (spec_char_cr t _ ch c Hm), Habs.
    apply edit_line_spec; eauto using map_cr_idem.
  - unfold reader_ok, abs, room. cbn. rewrite Hlr. split_and!; try done.
    + rewrite push_room, Hb. lia.
    + intros pre. unfold spec_char. rewrite Hl, Hm, Hcan. cbn [negb]. rewrite rb_push_content.
      apply Nat.eqb_neq in Hf. rewrite Hb, take_ge by (cbn; lia). by rewrite Hln, app_assoc.
Qed.

(** One turn: a piece of the line moves to the buffer, or a character is
    processed. *)
Lemma poll_turn_spec t s :
  reader_ok s →
  match poll_turn t s with
  | Ok None => room s = 0%nat ∨ (ir_pending s = [] ∧ ir_line_read s = None)
  | Ok (Some s') =>
      reader_ok s' ∧
      ((ir_pending s' = ir_pending s ∧ (room s' < room s)%nat ∧ ∀ pre, abs pre s' = abs pre s)
       ∨ ∃ ch, ir_pending s = ch :: ir_pending s' ∧ (room s' ≤ room s)%nat
               ∧ ∀ pre, abs pre s' = spec_char t (abs pre s) ch)
  | _ => False
  end.
Proof.
  intros Hs. pose proof Hs as [Hc Ho]. unfold poll_turn.
  destruct (ir_line_read s) as [off|] eqn:Hl.
  - destruct (Nat.ltb_spec (length (ir_line s)) off); [lia|].
    rewrite length_drop. fold (room s).
    destruct (Nat.eqb_spec ((length (ir_line s) - off) `min` room s) 0); [left; lia|].
    assert (Hroom : (rb_vacant_len (rb_push_slice (drop off (ir_line s)) (ir_buf s)) < room s)%nat).
    { rewrite push_room, length_drop. unfold room in *. lia. }
    assert (Hcont : rb_content (rb_push_slice (drop off (ir_line s)) (ir_buf s)) =
      rb_content (ir_buf s) ++ take (room s) (drop off (ir_line s))) by apply rb_push_content.
    cbn. destruct (Nat.eqb_spec (off + (length (ir_line s) - off) `min` room s) (length (ir_line s))).
    + split; [done|]. left. split; [done|]. split; [done|]. intros pre. unfold abs. cbn.
      rewrite Hl, Hcont, take_ge by (rewrite length_drop; lia). done.
    + split; [split; [done|cbn; lia]|]. left. split; [done|]. split; [done|]. intros pre.
      unfold abs. cbn. rewrite Hl, Hcont. f_equal. f_equal. rewrite <- app_assoc. f_equal.
      replace ((length (ir_line s) - off) `min` room s)%nat with (room s) by lia.
      by rewrite <- drop_drop, take_drop.
  - destruct (rb_is_full (ir_buf s)) eqn:Hf; [left; by apply Nat.eqb_eq in Hf|].
    destruct (ir_pending s) as [|ch rest] eqn:Hp; [by right|].
    destruct (process_char_spec t ch (s <| ir_pending := rest |>)) as (Hok' & Hp' & Hr & Ha);
      [done|done|done|].
    split; [done|]. right. exists ch. split; [f_equal; symmetry; exact Hp'|]. split; [exact Hr|]. exact Ha.
Qed.

Lemma poll_turns_spec t : ∀ fuel s,
  (length (ir_pending s) + room s < fuel)%nat → reader_ok s →
  ∃ s' cs, poll_turns fuel t s = Some (Ok tt, s') ∧ reader_ok s'
    ∧ ir_pending s = cs ++ ir_pending s'
    ∧ (room s' = 0%nat ∨ (ir_pending s' = [] ∧ ir_line_read s' = None))
    ∧ ∀ pre, abs pre s' = foldl (spec_char t) (abs pre s) cs.
Proof.
  induction fuel as [|fuel IH]; intros s Hf Hs; [lia|]. cbn.
  pose proof (poll_turn_spec t s Hs) as Ht. destruct (poll_turn t s) as [[s1|]|e|]; try done.
  2:{ by exists s, []. }
  destruct Ht as (Hs1 & [(Hp & Hr & Ha)|(ch & Hp & Hr & Ha)]).
  - destruct (IH s1) as (s' & cs & Hrun & Hok' & Hcs & Hend & Habs); [rewrite Hp; lia|done|].
    exists s', cs. split_and!; [done|done|congruence|done|]. intros pre. by rewrite Habs, Ha.
  - destruct (IH s1) as (s' & cs & Hrun & Hok' & Hcs & Hend & Habs).
    { rewrite Hp in Hf. cbn in Hf. lia. }
    { done. }
    exists s', (ch :: cs). split_and!; [done|done|by rewrite Hp, Hcs|done|].
    intros pre. cbn. by rewrite Habs, Ha.
Qed.

Lemma poll_start_spec input s :
  reader_ok s → reader_ok (poll_start input s) ∧ ∀ pre, abs pre (poll_start input s) = abs pre s.
Proof.
  intros [Hc Ho]. unfold poll_start. rewrite Hc. cbn.
  destruct (ir_pending s); (split; [by split|done]).
Qed.

Lemma tty_poll_spec t input s :
  reader_ok s →
  ∃ b s' cs, tty_poll t input s = (Ok b, s') ∧ reader_ok s'
    ∧ ir_pending (poll_start input s) = cs ++ ir_pending s'
    ∧ (room s' = 0%nat ∨ (ir_pending s' = [] ∧ ir_line_read s' = None))
    ∧ ∀ pre, abs pre s' = foldl (spec_char t) (abs pre s) cs.
Proof.
  intros Hs. destruct (poll_start_spec input s Hs) as [Hs0 Ha0]. unfold tty_poll.
  destruct (poll_turns_spec t (turns_fuel (poll_start input s)) (poll_start input s))
    as (s' & cs & -> & Hok' & Hcs & Hend & Habs); [unfold turns_fuel, room; lia|done|].
  eexists _, s', cs. split_and!; try done. intros pre. by rewrite Habs, Ha0.
Qed.

Lemma pop_spec n s :
  reader_ok s → let '(got, s') := pop n s in
  reader_ok s' ∧ ∀ pre, abs (pre ++ got) s' = abs pre s.
Proof.
  intros Hs. unfold pop. split; [done|]. intros pre. unfold abs. cbn.
  rewrite rb_advance_content by lia.
  assert (He : ∀ k (l : bytes), (pre ++ take k l) ++ drop k l = pre ++ l).
  { intros k l. by rewrite <- app_assoc, take_drop. }
  destruct (ir_line_read s); [|by rewrite He]. by rewrite app_assoc, He, <- app_assoc.
Qed.

Lemma tty_run_spec t l : ∀ pre s,
  reader_ok s →
  let '((cs, rs), s') := tty_run t l s in
  reader_ok s' ∧ abs (pre ++ rs) s' = foldl (spec_char t) (abs pre s) cs.
Proof.
  induction l as [|o l IH]; intros pre s Hs; cbn; [by rewrite app_nil_r|].
  destruct o as [input|n]; cbn [tty_run_op].
  - destruct (tty_poll_spec t input s Hs) as (b & s1 & cs1 & -> & Hs1 & Hcs & _ & Ha).
    cbn. specialize (IH pre s1 Hs1). destruct (tty_run t l s1) as [[cs rs] s2].
    destruct IH as [Hs2 IH]. split; [done|]. cbn. rewrite IH, Ha, Hcs, length_app, foldl_app.
    replace (length cs1 + length (ir_pending s1) - length (ir_pending s1))%nat
      with (length cs1) by lia. by rewrite take_app_length.
  - pose proof (pop_spec n s Hs) as Hp. destruct (pop n s) as [got s1]. destruct Hp as [Hs1 Ha].
    specialize (IH (pre ++ got) s1 Hs1). destruct (tty_run t l s1) as [[cs rs] s2].
    destruct IH as [Hs2 IH]. split; [done|]. cbn. by rewrite app_assoc, IH, Ha.
Qed.

(** C4: The line discipline implements its specification: for fixed settings,
    after any interleaving of input and reads, what was read, what the buffer
    holds and the rest of a completed line are the output that the
    specification gives for the characters taken from the device, in order,
    and the line being edited is the specification's; polling never panics
    and stops only when the buffer is full or the input is used up. *)
Theorem tty_implements_spec t l fg input :
  let '((cs, rs), s) := tty_run t l (reader_new fg) in
  spec_input t cs =
    match ir_line_read s with
    | None => (rs ++ rb_content (ir_buf s), ir_line s)
    | Some off => (rs ++ rb_content (ir_buf s) ++ drop off (ir_line s), [])
    end
  ∧ ∃ b s', tty_poll t input s = (Ok b, s')
     ∧ (rb_vacant_len (ir_buf s') = 0%nat ∨ ir_pending s' = []).
Proof.
  pose proof (tty_run_spec t l [] (reader_new fg)) as Hr.
  destruct (tty_run t l (reader_new fg)) as [[cs rs] s]. destruct Hr as [Hs Ha]; [done|].
  split.
  - unfold spec_input. unfold abs in Ha at 2. cbn in Ha. rewrite rb_new_content in Ha.
    symmetry. exact Ha.
  - destruct (tty_poll_spec t input s Hs) as (b & s' & cs' & Hp & _ & _ & Hend & _).
    exists b, s'. split; [done|]. destruct Hend as [|[]]; auto.
Qed.

(** ** A line of text with the default settings *)

Definition printable (ch : Z) : Prop := 0x20 ≤ ch ≤ 0x7e.

Lemma spec_char_printable out line ch :
  printable ch →
  spec_char Termios_default (out, line) ch =
    (out, if is_ascii_graphic ch then line ++ [ch] else line).
Proof.
  unfold printable. intros Hp. unfold spec_char.
  assert (map_cr Termios_default ch = Some ch) as ->.
  { unfold map_cr, chr_cr. by replace (ch =? 13) with false by lia. }
  change (canonical Termios_default) with true. change (has_lflag Termios_default ECHOK) with true.
  change (special_char Termios_default VKILL) with 21.
  change (special_char Termios_default VERASE) with 127.
  change (special_char Termios_default VEOF) with 4.
  assert (is_eol Termios_default ch = false) as ->.
  { unfold is_eol, chr_nl. change (special_char Termios_default VEOL) with 0.
    change (special_char Termios_default VEOL2) with 0.
    replace (ch =? 10) with false by lia. replace (ch =? 0) with false by lia.
    by rewrite andb_false_r. }
  replace (ch =? 21) with false by lia. replace (ch =? 127) with false by lia.
  replace (ch =? 4) with false by lia. cbn. by destruct (is_ascii_graphic ch).
Qed.

Lemma spec_text text : ∀ out line,
  Forall printable text →
  foldl (spec_char Termios_default) (out, line) text =
    (out, line ++ filter (λ ch, is_ascii_graphic ch = true) text).
Proof.
  induction text as [|ch text IH]; intros out line Ht; cbn [foldl]; [by rewrite app_nil_r|].
  apply Forall_cons in Ht as [Hc Ht]. rewrite spec_char_printable, IH by done.
  rewrite filter_cons. destruct (is_ascii_graphic ch); cbn; [|done]. by rewrite <- app_assoc.
Qed.

Lemma length_removelast_le (l : bytes) : (length (removelast l) ≤ length l)%nat.
Proof. induction l as [|x [|y l] IH]; cbn in *; lia. Qed.

(** The specification does not invent characters. *)
Lemma spec_length t cs : ∀ st,
  let '(out, line) := foldl (spec_char t) st cs in
  (length out + length line ≤ length st.1 + length st.2 + length cs)%nat.
Proof.
  induction cs as [|ch cs IH]; intros [out line]; cbn [foldl fst snd]; [cbn; lia|].
  specialize (IH (spec_char t (out, line) ch)).
  destruct (foldl _ _ cs) as [out' line'].
  cbn [length].
  enough (length (spec_char t (out, line) ch).1 + length (spec_char t (out, line) ch).2
          ≤ length out + length line + 1)%nat by lia.
  unfold spec_char. pose proof (length_removelast_le line).
  repeat case_match; cbn; rewrite ?length_app; cbn; lia.
Qed.

Lemma process_char_capacity t ch s :
  rb_capacity (ir_buf (process_char t ch s)) = rb_capacity (ir_buf s).
Proof.
  unfold process_char. destruct (map_cr t ch) as [c|]; [|done].
  pose proof (char_effects_frame t c s) as [Hb _]. cbn in Hb.
  case_match; cbn; [by rewrite rb_push_capacity, Hb|].
  unfold edit_line. repeat case_match; cbn; by rewrite Hb.
Qed.

Lemma poll_turns_capacity t : ∀ fuel s r s',
  poll_turns fuel t s = Some (r, s') → rb_capacity (ir_buf s') = rb_capacity (ir_buf s).
Proof.
  induction fuel as [|fuel IH]; intros s r s' Hp; [done|]. cbn in Hp.
  destruct (poll_turn t s) as [[s1|]|e|] eqn:Ht; simplify_eq; try done.
  rewrite (IH _ _ _ Hp). clear IH Hp. unfold poll_turn in Ht.
  repeat case_match; simplify_eq; cbn; rewrite ?rb_push_capacity; try done.
  by rewrite process_char_capacity.
Qed.

(** With the default settings a typed line of printable characters shorter
    than the buffer reaches the program without its spaces: the reader gets
    exactly the graphic characters and the newline. *)
Lemma canonical_line_loses_spaces fg text :
  Forall printable text → (length text < 79)%nat →
  let '(r, s) := tty_poll Termios_default (text ++ [chr_nl]) (reader_new fg) in
  r = Ok true ∧ ir_line s = [] ∧
  rb_content (ir_buf s) = filter (λ ch, is_ascii_graphic ch = true) text ++ [chr_nl].
Proof.
  intros Ht Hlen.
  destruct (tty_poll_spec Termios_default (text ++ [chr_nl]) (reader_new fg))
    as (b & s & cs & Hrun & _ & Hcs & Hend & Habs); [done|]. rewrite Hrun.
  specialize (Habs []). unfold abs in Habs at 2. cbn in Habs. rewrite rb_new_content in Habs.
  assert (Hin : cs ++ ir_pending s = text ++ [chr_nl]).
  { rewrite <- Hcs. cbn. apply take_ge. rewrite length_app. cbn. lia. }
  assert (Hcap : rb_capacity (ir_buf s) = 80%nat).
  { unfold tty_poll in Hrun. destruct (poll_turns _ _ _) as [[[u|e|] s1]|] eqn:E; try done.
    apply poll_turns_capacity in E. injection Hrun as _ ->. rewrite E. cbn. apply rb_new_capacity. }
  pose proof (spec_length Termios_default cs ([], [])) as Hsl. rewrite <- Habs in Hsl.
  apply (f_equal length) in Hin as Hlin. rewrite !length_app in Hlin. cbn in Hlin.
  pose proof (rb_vacant_spec (ir_buf s)) as Hv. unfold rb_occupied_len in Hv. rewrite Hcap in Hv.
  unfold abs in Hsl, Habs. destruct Hend as [Hroom|[Hp Hl]].
  - exfalso. unfold room in Hroom. destruct (ir_line_read s); cbn [fst snd length app] in Hsl;
      rewrite ?length_app in Hsl; lia.
  - rewrite Hl in Habs. rewrite Hp, app_nil_r in Hin. subst cs.
    rewrite foldl_app, spec_text in Habs by done. injection Habs as Hc Hln. split; [|auto].
    unfold tty_poll in Hrun. destruct (poll_turns _ _ _) as [[[u|e|] s1]|]; try done.
    injection Hrun as Hb ->. subst b. unfold rb_occupied_len. cbn [poll_start reader_new ir_clear ir_pending].
    rewrite Hc. cbn [ir_buf]. rewrite rb_new_content, length_app. f_equal. apply Nat.ltb_lt. cbn. lia.
Qed.

(** ** Discarding input while a line is being handed over *)

(** [drain_input] while a completed line is only partly in the buffer makes
    the next poll panic: the line is cleared and the position in it is not. *)
Lemma drain_pending_line_panics t input s off :
  ir_line_read s = Some off → (0 < off)%nat →
  (tty_poll t input (drain_input s)).1 = Panic.
Proof.
  intros Hl Ho. unfold tty_poll, turns_fuel. rewrite Nat.add_1_r. cbn [poll_turns].
  assert (Hs : ir_line_read (poll_start input (drain_input s)) = Some off
    ∧ ir_line (poll_start input (drain_input s)) = []).
  { unfold poll_start. cbn. by case_match. }
  destruct Hs as [Hlr Hle]. unfold poll_turn. rewrite Hlr, Hle. cbn.
  by destruct off; [lia|].
Qed.
End Tty.

(** ** Witnesses *)

(** 99 letters and a newline, typed in two pieces *)
Definition long_line : list tty_op :=
  [TPoll (replicate 80 97); TPoll (replicate 19 97 ++ [chr_nl])].
Definition half_sent : InputReader ring := (tty_run Termios_default long_line (reader_new None)).2.

Lemma tty_implements_spec_witness :
  let '((cs, rs), s) := tty_run (R := ring) Termios_default long_line (reader_new None) in
  spec_input Termios_default cs =
    match ir_line_read s with
    | None => (rs ++ rb_content (ir_buf s), ir_line s)
    | Some off => (rs ++ rb_content (ir_buf s) ++ drop off (ir_line s), [])
    end
  ∧ ∃ b s', tty_poll Termios_default [] s = (Ok b, s')
     ∧ (rb_vacant_len (ir_buf s') = 0%nat ∨ ir_pending s' = []).
Proof. apply (tty_implements_spec (R := ring) Termios_default long_line None []). Defined.

Example canonical_line_loses_spaces_instance :
  let '(r, s) := tty_poll (R := ring) Termios_default ([97; 32; 98] ++ [chr_nl]) (reader_new None) in
  r = Ok true ∧ ir_line s = [] ∧
  rb_content (ir_buf s) = filter (λ ch, is_ascii_graphic ch = true) [97; 32; 98] ++ [chr_nl].
Proof.
  apply (canonical_line_loses_spaces (R := ring) None [97; 32; 98]); [|cbn; lia].
  repeat constructor; cbn; lia.
Qed.

Example drain_pending_line_panics_instance :
  ir_line_read half_sent = Some 80%nat
  ∧ (tty_poll Termios_default [] (drain_input half_sent)).1 = Panic.
Proof.
  split; [by vm_compute|].
  apply (drain_pending_line_panics Termios_default [] half_sent 80); [by vm_compute|lia].
Qed.
