(* ===== verification/TtyTask.v ===== *)
(** * The task that reads a terminal

    [LineDiscipline::new] of [api/src/terminal/ldisc.rs] with
    [ProcessMode::External]: a task of its own ([tty-reader]) moves input from
    the device through the line discipline ([Tty]) to the buffer processes read
    from.  It sleeps when there is nothing to do; its waker is registered with
    the interrupt of the device and with [poll_tx], which a read wakes.  The
    steps of the task are interleaved with input and reads. *)

From S2P Require Import Prelude Pipe Tty.

(** Where the closure of [poll_fn] is: in its first loop, at the registrations,
    in its second loop, or done *)
Inductive TaskPc := T_loop1 | T_register | T_loop2 | T_pending.

(** [ts_dev] is what the device holds, [ts_tx] and [ts_irq] whether the task's
    waker is registered, [ts_woken] whether it has been woken; [ts_typed] is all
    input there ever was and [ts_got] all that was read. *)
Record TtySys (R : Type) := mkTtySys {
  ts_dev : bytes;
  ts_reader : InputReader R;
  ts_pc : TaskPc;
  ts_tx : bool;
  ts_irq : bool;
  ts_woken : bool;
  ts_rx_wakes : nat;                        (* [poll_rx.wake()] *)
  ts_typed : bytes;
  ts_got : bytes;
}.
Arguments mkTtySys {R}.
Arguments ts_dev {R}.
Arguments ts_reader {R}.
Arguments ts_pc {R}.
Arguments ts_tx {R}.
Arguments ts_irq {R}.
Arguments ts_woken {R}.
Arguments ts_rx_wakes {R}.
Arguments ts_typed {R}.
Arguments ts_got {R}.
#[export] Instance eta_TtySys R : Eta (TtySys R) := λ s,
  mkTtySys (ts_dev s) (ts_reader s) (ts_pc s) (ts_tx s) (ts_irq s) (ts_woken s) (ts_rx_wakes s) (ts_typed s) (ts_got s).

Section Task.
Context {R : Type} `{RingBufOk R}.
Abbreviation S := (TtySys R).
Abbreviation Ir := (InputReader R).
Implicit Types (t : Termios) (s : S) (r : Ir).

(** [TtyRead::read] into a buffer of [BUF_SIZE] bytes: the number of bytes it
    takes, of those the device has *)
Context (dev_read : bytes → nat).
Context (dev_read_some : ∀ d, (dev_read d ≤ length d)%nat ∧ (dev_read d ≤ BUF_SIZE)%nat ∧ (dev_read d = 0%nat → d = [])).

(** [LineDiscipline::new]: the task has not run yet. *)
Definition task_new (foreground : option Z) : S := mkTtySys [] (reader_new foreground) T_loop1 false false false 0 [] [].

(** [reader.poll()]; the device is only asked when nothing is left of what it
    gave before. *)
Definition reader_poll t s : res bool * S :=
  let d := ts_dev s in
  let '(b, r) := tty_poll t (take (dev_read d) d) (ts_reader s) in
  (b, s <| ts_reader := r |>
        <| ts_dev := match ir_pending (ts_reader s) with [] => drop (dev_read d) d | _ => d end |>).

(** A step of the task; [None] when it sleeps *)
Definition task_step t s : option (res unit * S) :=
  let loop next :=
    match reader_poll t s with
    | (Ok true, s) => (Ok tt, s <| ts_rx_wakes ::= Datatypes.S |>)
    | (Ok false, s) => (Ok tt, s <| ts_pc := next |>)
    | (Err e, s) => (Err e, s)
    | (Panic, s) => (Panic, s)
    end in
  match ts_pc s with
  | T_loop1 => Some (loop T_register)
  | T_register => Some (Ok tt, s <| ts_tx := true |> <| ts_irq := true |> <| ts_pc := T_loop2 |>)
  | T_loop2 => Some (loop T_pending)
  | T_pending => if ts_woken s then Some (Ok tt, s <| ts_woken := false |> <| ts_pc := T_loop1 |>) else None
  end.

(** Input arrives, with an interrupt. *)
Definition input (l : bytes) s : S :=
  s <| ts_dev ::= λ d, d ++ l |> <| ts_typed ::= λ d, d ++ l |>
    <| ts_woken ::= λ w, w || ts_irq s |> <| ts_irq := false |>.
(** An attempt of [LineDiscipline::read] takes up to [n] bytes and wakes
    [poll_tx]. *)
Definition take_bytes (n : nat) s : S :=
  let '(got, r) := pop n (ts_reader s) in
  s <| ts_reader := r |> <| ts_got ::= λ g, g ++ got |> <| ts_woken ::= λ w, w || ts_tx s |> <| ts_tx := false |>.

Inductive tty_step t : S → S → Prop :=
| step_task s s' : task_step t s = Some (Ok tt, s') → tty_step t s s'
| step_input l s : tty_step t s (input l s)
| step_take n s : tty_step t s (take_bytes n s).

(** ** One poll of the reader *)

Definition raw t : Prop := canonical t = false ∧ has_iflag t IGNCR = false.
(** There is something to do, and room for it. *)
Definition busy r : Prop := (0 < room r)%nat ∧ (ir_pending r ≠ [] ∨ ir_line_read r ≠ None).

Lemma poll_turn_room t r : raw t → reader_ok r → busy r → ∃ r', poll_turn t r = Ok (Some r') ∧ (room r' < room r)%nat.
Proof.
  intros [Hc Hi] [_ Hl] [Hr Hb]. unfold poll_turn. destruct (ir_line_read r) as [off|] eqn:Hlr.
  - destruct (Nat.ltb_spec (length (ir_line r)) off); [lia|]. rewrite length_drop.
    unfold room in *. destruct (Nat.eqb_spec ((length (ir_line r) - off) `min` rb_vacant_len (ir_buf r)) 0); [lia|].
    case_match; eexists; (split; [done|]); cbn; rewrite push_room, length_drop; lia.
  - destruct Hb as [Hb|]; [|done]. destruct (ir_pending r) as [|ch rest] eqn:Hp; [done|].
    unfold rb_is_full. unfold room in Hr. destruct (Nat.eqb_spec (rb_vacant_len (ir_buf r)) 0); [lia|].
    eexists. split; [done|]. assert (∃ c, map_cr t ch = Some c) as [c Hm] by (unfold map_cr; rewrite Hi; repeat case_match; eauto).
    unfold process_char. rewrite Hm, Hc. cbn [negb]. unfold room. cbn.
    destruct (char_effects_frame t c (r <| ir_pending := rest |>)) as [E _]. cbn in E. rewrite push_room, E. cbn. lia.
Qed.

Lemma poll_turns_room t fuel : ∀ r x r', reader_ok r → poll_turns fuel t r = Some (x, r') → (room r' ≤ room r)%nat.
Proof.
  induction fuel as [|fuel IH]; intros r x r' Hr Hp; [done|]. cbn in Hp. pose proof (poll_turn_spec t r Hr) as Ht.
  destruct (poll_turn t r) as [[r1|]|e|]; [|by simplify_eq..]. destruct Ht as [Hr1 Ht].
  pose proof (IH r1 x r' Hr1 Hp). destruct Ht as [(_ & ? & _)|(ch & _ & ? & _)]; lia.
Qed.

Lemma occupied_room r1 r2 : rb_capacity (ir_buf r1) = rb_capacity (ir_buf r2) →
  (rb_occupied_len (ir_buf r1) <? rb_occupied_len (ir_buf r2))%nat = (room r2 <? room r1)%nat.
Proof.
  intros Hc. pose proof (rb_vacant_spec (ir_buf r1)). pose proof (rb_vacant_spec (ir_buf r2)). unfold room.
  destruct (Nat.ltb_spec (rb_occupied_len (ir_buf r1)) (rb_occupied_len (ir_buf r2))),
    (Nat.ltb_spec (rb_vacant_len (ir_buf r2)) (rb_vacant_len (ir_buf r1))); done || lia.
Qed.

(** A poll answers whether it made the room smaller; when it did not, in raw
    mode, there was nothing to do or no room. *)
Lemma tty_poll_answer t l r b r' : reader_ok r → tty_poll t l r = (Ok b, r') →
  rb_capacity (ir_buf r') = rb_capacity (ir_buf r)
  ∧ (if b then (room r' < room r)%nat else room r' = room r) ∧ (raw t → b = false → ¬ busy (poll_start l r)).
Proof.
  intros Hr. destruct (poll_start_spec l r Hr) as [Hr0 _]. assert (ir_buf (poll_start l r) = ir_buf r) as Hb.
  { unfold poll_start. by repeat case_match. }
  unfold tty_poll. set (r0 := poll_start l r) in *.
  destruct (poll_turns (turns_fuel r0) t r0) as [[[[]|e|] r1]|] eqn:E; try done. intros [= <- <-].
  pose proof (poll_turns_capacity _ _ _ _ _ E) as Hcap. pose proof (poll_turns_room _ _ _ _ _ Hr0 E) as Hroom.
  rewrite occupied_room by done. split; [by rewrite Hcap, Hb|]. assert (room r0 = room r) as Hrr by (unfold room; by rewrite Hb).
  destruct (Nat.ltb_spec (room r1) (room r0)) as [Hlt|Hge]; [split; [lia|done]|]. split; [lia|]. intros Hraw _ Hbusy.
  destruct (poll_turn_room t r0 Hraw Hr0 Hbusy) as (r2 & E2 & Hlt).
  unfold turns_fuel in E. rewrite Nat.add_1_r in E. cbn [poll_turns] in E. rewrite E2 in E.
  pose proof (poll_turn_spec t r0 Hr0) as Ht. rewrite E2 in Ht. destruct Ht as [Hr2 _].
  pose proof (poll_turns_room _ _ _ _ _ Hr2 E). lia.
Qed.

(** Nothing is left to do: the buffer is full or, in raw mode, all input has
    been taken. *)
Definition at_rest t s : Prop :=
  let r := ts_reader s in
  room r = 0%nat ∨ (ir_pending r = [] ∧ ir_line_read r = None ∧ (raw t → ts_dev s = [])).
(** The characters taken so far have had the effect the specification says. *)
Definition faithful t s : Prop :=
  ∃ cs, ts_typed s = cs ++ ir_pending (ts_reader s) ++ ts_dev s ∧ abs (ts_got s) (ts_reader s) = spec_input t cs.

Lemma reader_poll_spec t s : reader_ok (ts_reader s) → faithful t s →
  ∃ b r d, reader_poll t s = (Ok b, s <| ts_reader := r |> <| ts_dev := d |>)
    ∧ reader_ok r ∧ faithful t (s <| ts_reader := r |> <| ts_dev := d |>)
    ∧ (if b then (room r < room (ts_reader s))%nat
       else room r = room (ts_reader s) ∧ at_rest t (s <| ts_reader := r |> <| ts_dev := d |>)).
Proof.
  intros Hr (cs & Hty & Habs). unfold reader_poll. set (r0 := ts_reader s) in *. set (d0 := ts_dev s) in *.
  set (inp := take (dev_read d0) d0). set (d := match ir_pending r0 with [] => drop (dev_read d0) d0 | _ => d0 end).
  destruct (tty_poll_spec t inp r0 Hr) as (b & r & cs1 & E & Hok & Hcs & Hend & Ha).
  destruct (tty_poll_answer t inp r0 b r Hr E) as (_ & Hroom & Hraw). rewrite E. exists b, r, d. split; [done|]. split; [done|].
  assert (ir_pending (poll_start inp r0) ++ d = ir_pending r0 ++ d0) as Hin.
  { destruct Hr as [Hc _]. unfold poll_start, d, inp. rewrite Hc. destruct (ir_pending r0) eqn:Ep; cbn; [|by rewrite Ep].
    destruct (dev_read_some d0) as (_ & ? & _). rewrite take_take, Nat.min_r by done. apply take_drop. }
  split.
  - exists (cs ++ cs1). cbn. split.
    + by rewrite Hty, <- Hin, Hcs, <- !app_assoc.
    + rewrite Ha, Habs. unfold spec_input. by rewrite foldl_app.
  - destruct b; [done|]. split; [done|]. unfold at_rest. cbn. destruct Hend as [Hz|[Hp Hl]]; [by left|].
    destruct (decide (room r = 0%nat)) as [|Hne]; [by left|]. right. split; [done|]. split; [done|]. intros Ht.
    specialize (Hraw Ht eq_refl). destruct (decide (ir_pending (poll_start inp r0) = [])) as [Hpe|Hpe].
    2:{ destruct Hraw. split; [|by left]. destruct (poll_start_spec inp r0 Hr) as [_ Hab].
        replace (room (poll_start inp r0)) with (room r0); [lia|]. unfold room, poll_start. by repeat case_match. }
    destruct Hr as [Hc _]. unfold poll_start in Hpe. rewrite Hc in Hpe. unfold d.
    destruct (ir_pending r0) eqn:Ep; cbn in Hpe; [|congruence]. unfold inp in Hpe.
    destruct (dev_read_some d0) as (Hle & Hb & H0'). rewrite take_take, Nat.min_r in Hpe by done.
    assert (dev_read d0 = 0%nat) as Hz by (apply (f_equal length) in Hpe; rewrite length_take in Hpe; cbn in Hpe; lia).
    rewrite Hz. by apply H0'.
Qed.

(** ** The invariant *)

Record tinv t s : Prop := {
  ti_ok : reader_ok (ts_reader s);
  ti_spec : faithful t s;
  ti_reg : (ts_pc s = T_loop2 ∨ ts_pc s = T_pending) → ts_woken s = false → ts_tx s = true ∧ ts_irq s = true;
  ti_rest : ts_pc s = T_pending → ts_woken s = false → at_rest t s;
}.

Definition measure s : nat := room (ts_reader s) +
  match ts_pc s, ts_woken s with
  | T_pending, false => 0 | T_loop2, false => 1 | T_register, false => 2 | T_loop1, false => 3
  | T_pending, true => 4 | T_loop2, true => 5 | T_register, true => 6 | T_loop1, true => 7
  end.

(** The task does not panic, and gets closer to its sleep with every step. *)
Lemma task_step_spec t s : tinv t s →
  match task_step t s with
  | None => ts_pc s = T_pending ∧ ts_woken s = false
  | Some (r, s') => r = Ok tt ∧ tinv t s' ∧ (measure s' < measure s)%nat ∧ ts_typed s' = ts_typed s ∧ ts_got s' = ts_got s
  end.
Proof.
  intros [Hok Hf Hreg Hrest]. unfold task_step.
  destruct (reader_poll_spec t s Hok Hf) as (b & r & d & E & Hr & Hf' & Hb). rewrite E.
  destruct (ts_pc s) eqn:Hpc; [| | |destruct (ts_woken s) eqn:Hw; [|done]].
  - destruct b; (split; [done|]).
    + split; [|split; [unfold measure; cbn; rewrite Hpc; destruct (ts_woken s); lia|done]].
      split; cbn; [done|done|rewrite Hpc; naive_solver|by rewrite Hpc].
    + destruct Hb as [Hroom _]. split; [|split; [unfold measure; cbn; rewrite Hpc, Hroom; destruct (ts_woken s); lia|done]].
      split; cbn; [done|done|naive_solver|done].
  - split; [done|]. split; [|split; [unfold measure; cbn; rewrite Hpc; destruct (ts_woken s); lia|done]]. by split.
  - specialize (Hreg (or_introl eq_refl)). destruct b; (split; [done|]).
    + split; [|split; [unfold measure; cbn; rewrite Hpc; destruct (ts_woken s); lia|done]].
      split; cbn; [done|done|done|by rewrite Hpc].
    + destruct Hb as [Hroom Hres]. split; [|split; [unfold measure; cbn; rewrite Hpc, Hroom; destruct (ts_woken s); lia|done]].
      by split.
  - split; [done|]. split; [|split; [unfold measure; cbn; rewrite Hpc, Hw; lia|done]]. split; cbn; [done|done|naive_solver|done].
Qed.

Lemma input_inv t l s : tinv t s → tinv t (input l s).
Proof.
  intros [Hok (cs & Hty & Ha) Hreg Hrest].
  assert (ts_woken (input l s) = false → ts_pc s = T_loop2 ∨ ts_pc s = T_pending → False) as Hno.
  { cbn. intros [Hw Hi]%orb_false_iff Hpc. destruct (Hreg Hpc Hw) as [_ ?]. congruence. }
  split; [done| |by intros; exfalso; eapply Hno|by intros; exfalso; eapply Hno; [|right]].
  exists cs. cbn. by rewrite Hty, <- !app_assoc.
Qed.
Lemma take_bytes_inv t n s : tinv t s → tinv t (take_bytes n s).
Proof.
  intros [Hok (cs & Hty & Ha) Hreg Hrest]. unfold take_bytes. pose proof (pop_spec n (ts_reader s) Hok) as Hp.
  assert (ir_pending (pop n (ts_reader s)).2 = ir_pending (ts_reader s)) as Hpe by done.
  destruct (pop n (ts_reader s)) as [got r]. cbn [snd] in Hpe. destruct Hp as [Hr Hp].
  assert (ts_woken s || ts_tx s = false → ts_pc s = T_loop2 ∨ ts_pc s = T_pending → False) as Hno.
  { intros [Hw Hx]%orb_false_iff Hpc. destruct (Hreg Hpc Hw) as [? _]. congruence. }
  split; cbn; [done| |by intros; exfalso; eapply Hno|by intros; exfalso; eapply Hno; [|right]].
  exists cs. cbn. by rewrite Hpe, Hp.
Qed.
Lemma task_new_inv t fg : tinv t (task_new fg).
Proof.
  split; [done| |cbn; naive_solver|done]. exists []. split; [done|]. unfold abs, spec_input. cbn. by rewrite rb_new_content.
Qed.
Lemma steps_inv t s s' : rtc (tty_step t) s s' → tinv t s → tinv t s'.
Proof.
  induction 1 as [|s1 s2 s3 H12 _ IH]; [done|]. intros Hi. apply IH. destruct H12 as [s s' E|l s|n s].
  - pose proof (task_step_spec t s Hi) as Ht. rewrite E in Ht. tauto.
  - by apply input_inv.
  - by apply take_bytes_inv.
Qed.

(** The task alone *)
Definition task_runs t : nat → S → S → Prop := nsteps (λ s s', task_step t s = Some (Ok tt, s')).

Lemma task_settles t : ∀ k s, (measure s ≤ k)%nat → tinv t s →
  ∃ n s', (n ≤ measure s)%nat ∧ task_runs t n s s' ∧ tinv t s' ∧ ts_pc s' = T_pending ∧ ts_woken s' = false
    ∧ ts_typed s' = ts_typed s ∧ ts_got s' = ts_got s.
Proof.
  induction k as [|k IH]; intros s Hk Hi; pose proof (task_step_spec t s Hi) as Ht;
    destruct (task_step t s) as [[r s1]|] eqn:E.
  1: lia.
  1,3: exists 0%nat, s; split_and!; [lia|constructor|done|tauto|tauto|done|done].
  destruct Ht as (-> & Hi1 & Hm & Hty & Hg). destruct (IH s1) as (n & s' & Hn & Hrun & Hi' & Hpc & Hw & Hty' & Hg'); [lia|done|].
  exists (Datatypes.S n), s'. split_and!; [lia|by econstructor|done|done|done|congruence|congruence].
Qed.

(** C18: Whatever the order of input, reads and steps of the reader task, the
    task alone needs only a bounded number of steps to go to sleep, without a
    panic.  Then its waker is registered with the device and with the readers,
    so that input and reads wake it, and nothing waits that it could have moved:
    either the buffer is full or, in raw mode, everything that was ever typed
    has been read or is in the buffer, as the specification of the line
    discipline says. *)
Theorem tty_task_delivers t fg s : rtc (tty_step t) (task_new fg) s →
  ∃ n s', (n ≤ room (ts_reader s) + 7)%nat ∧ task_runs t n s s' ∧ task_step t s' = None
    ∧ ts_typed s' = ts_typed s ∧ ts_got s' = ts_got s
    ∧ (∀ l, ts_woken (input l s') = true) ∧ (∀ k, ts_woken (take_bytes k s') = true)
    ∧ (rb_vacant_len (ir_buf (ts_reader s')) = 0%nat
       ∨ (ir_pending (ts_reader s') = [] ∧ ir_line_read (ts_reader s') = None
          ∧ (raw t → ts_dev s' = []
               ∧ spec_input t (ts_typed s') = (ts_got s' ++ rb_content (ir_buf (ts_reader s')), ir_line (ts_reader s'))))).
Proof.
  intros Hs. pose proof (steps_inv t _ _ Hs (task_new_inv t fg)) as Hi.
  destruct (task_settles t (measure s) s) as (n & s' & Hn & Hrun & [Hok (cs & Hty & Ha) Hreg Hrest] & Hpc & Hw & Ht & Hg); [done..|].
  destruct (Hreg (or_intror Hpc) Hw) as [Htx Hirq].
  exists n, s'. split; [unfold measure in Hn; destruct (ts_pc s), (ts_woken s); lia|]. split; [done|].
  split; [unfold task_step; by rewrite Hpc, Hw|]. split; [done|]. split; [done|].
  split; [intros l; cbn; by rewrite Hirq, orb_true_r|].
  split; [intros k; unfold take_bytes; destruct (pop _ _); cbn; by rewrite Htx, orb_true_r|].
  destruct (Hrest Hpc Hw) as [|(Hp & Hl & Hd)]; [by left|]. right. split; [done|]. split; [done|]. intros Hraw.
  specialize (Hd Hraw). split; [done|]. rewrite Hp, Hd, app_nil_r in Hty. rewrite Hty, <- Ha. unfold abs. by rewrite Hl.
Qed.
End Task.

(** ** Evaluations *)

Definition console (d : bytes) : nat := (length d `min` BUF_SIZE)%nat.
Lemma console_some d : (console d ≤ length d)%nat ∧ (console d ≤ BUF_SIZE)%nat ∧ (console d = 0%nat → d = []).
Proof.
  unfold console. split; [lia|]. split; [lia|]. intros Hz. apply nil_length_inv. unfold BUF_SIZE in Hz. lia.
Qed.
Definition raw_mode : Termios := mkTermios 0 0 0 0 0 (c_cc Termios_default).
(** The state in which the task sleeps again, after up to [n] steps *)
Fixpoint settle (n : nat) (t : Termios) (s : TtySys ring) : TtySys ring :=
  match n with
  | O => s
  | Datatypes.S n => match task_step console t s with Some (Ok tt, s) => settle n t s | _ => s end
  end.

(** 90 characters, of which 10 have been read *)
Definition typing : TtySys ring :=
  take_bytes 10 (settle 100 raw_mode (input (replicate 90 97) (task_new None))).
Lemma settle_steps n t s : rtc (tty_step console t) s (settle n t s).
Proof.
  revert s. induction n as [|n IH]; intros s; cbn [settle]; [constructor|].
  destruct (task_step console t s) as [[[[]|e|] s1]|] eqn:E; [|constructor..]. eapply rtc_l; [by apply step_task|apply IH].
Qed.
Lemma typing_reached : rtc (tty_step console raw_mode) (task_new None) typing.
Proof. eapply rtc_l; [apply step_input|]. etransitivity; [apply settle_steps|]. apply rtc_once, step_take. Qed.

Lemma tty_task_delivers_witness : ∃ n s', task_runs console raw_mode n typing s' ∧ task_step console raw_mode s' = None
  ∧ (n ≤ 17)%nat ∧ ts_got s' = replicate 10 97 ∧ ts_typed s' = replicate 90 97.
Proof.
  destruct (tty_task_delivers console console_some raw_mode None typing typing_reached)
    as (n & s' & Hn & Hrun & Hstop & Hty & Hg & _).
  exists n, s'. split; [exact Hrun|]. split; [exact Hstop|]. rewrite Hg, Hty. vm_compute in Hn. split; [lia|]. split; vm_compute; reflexivity.
Defined.

(** In canonical mode the loops end with the first 80 characters that complete
    no line.  Of a line of 160 letters typed at once the newline stays in the
    device, the task sleeps, and nothing can be read until more is typed. *)
Example long_line_waits :
  let s := settle 100 Termios_default (input (replicate 160 97 ++ [chr_nl]) (task_new None)) in
  task_step console Termios_default s = None ∧ ts_dev s = [chr_nl] ∧ rb_content (ir_buf (ts_reader s)) = [].
Proof. vm_compute. repeat split. Qed.
