(* ===== verification/Brk.v ===== *)
(** * The program break

    [api/src/syscall/mm/brk.rs]: [sys_brk] moves the top of the heap and maps
    or unmaps the pages between the old and the new top.  The heap starts with
    [USER_HEAP_SIZE] bytes that the loader has mapped and that stay mapped.

    The address space (crate [axmm]) is an interface: which addresses are
    mapped, and what mapping and unmapping a range do to that. *)

From S2P Require Import Prelude.

Definition USER_HEAP_BASE : Z := 0x40000000.
Definition USER_HEAP_SIZE : Z := 0x10000.
Definition USER_HEAP_SIZE_MAX : Z := 0x20000000.

(** [align_up_4k] *)
Definition align_up_4k (a : Z) : Z := (a + 4095) / 4096 * 4096.

Class AddrSpace (A : Type) := {
  as_map : Z → Z → M A unit;      (* start, size *)
  as_unmap : Z → Z → M A unit;
}.

(** A call maps or unmaps its whole range, or fails and changes nothing. *)
Class AddrSpaceOk (A : Type) `{AddrSpace A} := {
  as_mapped : A → Z → bool;
  as_map_ok start size a a' x : as_map start size a = (Ok tt, a') →
    as_mapped a' x = (bool_decide (start ≤ x < start + size) || as_mapped a x);
  as_map_err start size a r a' : as_map start size a = (r, a') → r ≠ Ok tt →
    r ≠ Panic ∧ ∀ x, as_mapped a' x = as_mapped a x;
  as_unmap_ok start size a a' x : as_unmap start size a = (Ok tt, a') →
    as_mapped a' x = (negb (bool_decide (start ≤ x < start + size)) && as_mapped a x);
  as_unmap_err start size a r a' : as_unmap start size a = (r, a') → r ≠ Ok tt →
    r ≠ Panic ∧ ∀ x, as_mapped a' x = as_mapped a x;
}.

Record Heap (A : Type) := mkHeap { heap_top : Z; heap_space : A }.
Arguments mkHeap {A}.
Arguments heap_top {A}.
Arguments heap_space {A}.
#[export] Instance eta_Heap A : Eta (Heap A) := λ h, mkHeap (heap_top h) (heap_space h).

Section Brk.
Context {A : Type} `{AddrSpace A}.

(** [f] on the address space; whether it failed *)
Definition fails (f : M A unit) : M (Heap A) bool := λ h,
  match f (heap_space h) with
  | (Ok _, a) => (Ok false, h <| heap_space := a |>)
  | (Err _, a) => (Ok true, h <| heap_space := a |>)
  | (Panic, a) => (Panic, h <| heap_space := a |>)
  end.

Definition sys_brk (addr : Z) : M (Heap A) Z :=
  h ← getM;
  let current_top := heap_top h in
  let heap_limit := USER_HEAP_BASE + USER_HEAP_SIZE_MAX in
  if addr =? 0 then mret current_top
  else if (addr <? USER_HEAP_BASE) || (addr >? heap_limit) then mret current_top
  else
    let new_top_aligned := align_up_4k addr in
    let current_top_aligned := align_up_4k current_top in
    let initial_heap_end := USER_HEAP_BASE + USER_HEAP_SIZE in
    failed ←
      (if new_top_aligned >? current_top_aligned then
         let expand_start := Z.max initial_heap_end current_top_aligned in
         let expand_size := Z.max 0 (new_top_aligned - expand_start) in
         if expand_size >? 0 then fails (as_map expand_start expand_size) else mret false
       else if new_top_aligned <? current_top_aligned then
         let shrink_start := Z.max initial_heap_end new_top_aligned in
         let shrink_size := Z.max 0 (current_top_aligned - shrink_start) in
         if shrink_size >? 0 then fails (as_unmap shrink_start shrink_size) else mret false
       else mret false);
    if failed : bool then mret current_top
    else modifyM (λ h, h <| heap_top := addr |>);; mret addr.

Definition brks (l : list Z) (h : Heap A) : Heap A := foldl (λ h addr, (sys_brk addr h).2) h l.

(** ** The invariant *)

Context {Hok : AddrSpaceOk A}.

(** The end of the mapped part of the heap *)
Definition heap_end (h : Heap A) : Z :=
  Z.max (USER_HEAP_BASE + USER_HEAP_SIZE) (align_up_4k (heap_top h)).

Definition heap_ok (h : Heap A) : Prop :=
  USER_HEAP_BASE ≤ heap_top h ≤ USER_HEAP_BASE + USER_HEAP_SIZE_MAX
  ∧ ∀ x, USER_HEAP_BASE ≤ x < USER_HEAP_BASE + USER_HEAP_SIZE_MAX →
      as_mapped (heap_space h) x = bool_decide (x < heap_end h).

(** The call on the address space that moves the end of the heap *)
Lemma fails_spec f h :
  (∀ r a, f (heap_space h) = (r, a) → r ≠ Ok tt →
     r ≠ Panic ∧ ∀ x, as_mapped a x = as_mapped (heap_space h) x) →
  match fails f h with
  | (Ok false, h') => f (heap_space h) = (Ok tt, heap_space h') ∧ heap_top h' = heap_top h
  | (Ok true, h') => heap_top h' = heap_top h
                     ∧ ∀ x, as_mapped (heap_space h') x = as_mapped (heap_space h) x
  | _ => False
  end.
Proof.
  intros Herr. unfold fails. destruct (f (heap_space h)) as [[[]|e|] a] eqn:E; cbn.
  - done.
  - by destruct (Herr (Err e) a).
  - by destruct (Herr Panic a).
Qed.

Lemma heap_ok_same h h' :
  heap_ok h → heap_top h' = heap_top h →
  (∀ x, as_mapped (heap_space h') x = as_mapped (heap_space h) x) → heap_ok h'.
Proof.
  intros [Ht Hm] Htop Hx. unfold heap_ok, heap_end in *. rewrite Htop. split; [done|].
  intros x Hr. by rewrite Hx, Hm.
Qed.

Lemma heap_ok_moved h h' (addr : Z) :
  heap_ok h → USER_HEAP_BASE ≤ addr ≤ USER_HEAP_BASE + USER_HEAP_SIZE_MAX → heap_top h' = addr →
  (∀ x, USER_HEAP_BASE ≤ x < USER_HEAP_BASE + USER_HEAP_SIZE_MAX →
     as_mapped (heap_space h) x = bool_decide (x < heap_end h) →
     as_mapped (heap_space h') x = bool_decide (x < Z.max (USER_HEAP_BASE + USER_HEAP_SIZE) (align_up_4k addr))) →
  heap_ok h'.
Proof.
  intros [_ Hm] Ha Ht Hx. unfold heap_ok, heap_end. rewrite Ht. split; [done|].
  intros x Hr. apply Hx; auto.
Qed.

Lemma sys_brk_spec addr h :
  heap_ok h →
  let '(r, h') := sys_brk addr h in
  heap_ok h' ∧ r = Ok (heap_top h') ∧ (heap_top h' = heap_top h ∨ heap_top h' = addr).
Proof.
  intros Hh. unfold sys_brk. unfold_m.
  destruct (addr =? 0); [auto|]. destruct (_ || _) eqn:Hrange; [auto|].
  apply orb_false_iff in Hrange as [Hlo Hhi].
  assert (Ha : USER_HEAP_BASE ≤ addr ≤ USER_HEAP_BASE + USER_HEAP_SIZE_MAX) by lia.
  clear Hlo Hhi. set (new := align_up_4k addr). set (cur := align_up_4k (heap_top h)).
  assert (Hend : heap_end h = Z.max (USER_HEAP_BASE + USER_HEAP_SIZE) cur) by done.
  set (ini := USER_HEAP_BASE + USER_HEAP_SIZE) in *.
  (* nothing to map: the end of the heap stays where it is *)
  assert (Hstay : Z.max ini new = Z.max ini cur → heap_ok (h <| heap_top := addr |>)).
  { intros He. eapply (heap_ok_moved h); [done|done|done|]. intros x Hr Hx. cbn.
    rewrite Hx, Hend. unfold ini, new in *. apply bool_decide_ext. lia. }
  destruct (new >? cur) eqn:Hg; [|destruct (new <? cur) eqn:Hs].
  - destruct (Z.max 0 (new - Z.max ini cur) >? 0) eqn:Hz.
    2:{ cbn. split_and!; auto. apply Hstay. lia. }
    pose proof (fails_spec (as_map (Z.max ini cur) (Z.max 0 (new - Z.max ini cur))) h) as Hf.
    specialize (Hf ltac:(intros r a Hc; exact (as_map_err _ _ _ _ _ Hc))).
    destruct (fails _ h) as [[[]| |] h1]; cbn in *; try done.
    + destruct Hf as [Ht Hm]. split_and!; [by eapply heap_ok_same|by rewrite Ht|by left].
    + destruct Hf as [Hc Ht]. split_and!; auto.
      eapply (heap_ok_moved h); [done|done|done|]. intros x Hr Hx. cbn.
      rewrite (as_map_ok _ _ _ _ x Hc), Hx, Hend. unfold ini, new in *.
      repeat case_bool_decide; cbn; auto; lia.
  - destruct (Z.max 0 (cur - Z.max ini new) >? 0) eqn:Hz.
    2:{ cbn. split_and!; auto. apply Hstay. lia. }
    pose proof (fails_spec (as_unmap (Z.max ini new) (Z.max 0 (cur - Z.max ini new))) h) as Hf.
    specialize (Hf ltac:(intros r a Hc; exact (as_unmap_err _ _ _ _ _ Hc))).
    destruct (fails _ h) as [[[]| |] h1]; cbn in *; try done.
    + destruct Hf as [Ht Hm]. split_and!; [by eapply heap_ok_same|by rewrite Ht|by left].
    + destruct Hf as [Hc Ht]. split_and!; auto.
      eapply (heap_ok_moved h); [done|done|done|]. intros x Hr Hx. cbn.
      rewrite (as_unmap_ok _ _ _ _ x Hc), Hx, Hend. unfold ini, new in *.
      repeat case_bool_decide; cbn; auto; lia.
  - cbn. split_and!; auto. apply Hstay. lia.
Qed.

Lemma brks_ok l : ∀ h, heap_ok h → heap_ok (brks l h).
Proof.
  induction l as [|addr l IH]; intros h Hh; [done|]. cbn. apply IH.
  pose proof (sys_brk_spec addr h Hh) as Hs. destruct (sys_brk addr h) as [r h']. tauto.
Qed.

(** C20: After any sequence of [brk] calls on a freshly loaded program the top
    of the heap is within its limits, and of the heap area exactly the
    addresses below the initial end or the top rounded up to a page are
    mapped, also when the address space refuses a request; a further call
    returns the top in force after it, which is the old one or the one asked
    for. *)
Theorem brk_maps_heap_exactly l addr a :
  (∀ x, USER_HEAP_BASE ≤ x < USER_HEAP_BASE + USER_HEAP_SIZE_MAX →
     as_mapped a x = bool_decide (x < USER_HEAP_BASE + USER_HEAP_SIZE)) →
  let h := brks l (mkHeap USER_HEAP_BASE a) in
  USER_HEAP_BASE ≤ heap_top h ≤ USER_HEAP_BASE + USER_HEAP_SIZE_MAX
  ∧ (∀ x, USER_HEAP_BASE ≤ x < USER_HEAP_BASE + USER_HEAP_SIZE_MAX →
       as_mapped (heap_space h) x
       = bool_decide (x < USER_HEAP_BASE + USER_HEAP_SIZE ∨ x < align_up_4k (heap_top h)))
  ∧ (let '(r, h') := sys_brk addr h in
     r = Ok (heap_top h') ∧ (heap_top h' = heap_top h ∨ heap_top h' = addr)).
Proof.
  intros Ha h. assert (Hh : heap_ok h).
  { apply brks_ok. split; [done|]. intros x Hx. cbn [heap_space]. by rewrite Ha. }
  pose proof Hh as [Ht Hm]. split; [done|]. split.
  - intros x Hx. rewrite Hm by done. apply bool_decide_ext. unfold heap_end. lia.
  - pose proof (sys_brk_spec addr h Hh) as Hs. destruct (sys_brk addr h). tauto.
Qed.
End Brk.

(** ** Witness: an address space as a predicate *)

#[export] Instance pred_space : AddrSpace (Z → bool) := {
  as_map start size := λ a,
    (Ok tt, λ x, bool_decide (start ≤ x < start + size) || a x);
  as_unmap start size := λ a,
    (Ok tt, λ x, negb (bool_decide (start ≤ x < start + size)) && a x);
}.
#[export] Instance pred_space_ok : AddrSpaceOk (Z → bool).
Proof. refine {| as_mapped := λ a x, a x |}; intros; cbn in *; by simplify_eq. Defined.

Definition loaded : Z → bool := λ x, bool_decide (x < USER_HEAP_BASE + USER_HEAP_SIZE).

Lemma brk_maps_heap_exactly_witness :
  let h := brks [0x40020001; 0x40018000] (mkHeap USER_HEAP_BASE loaded) in
  heap_top h = 0x40018000
  ∧ as_mapped (heap_space h) 0x40017fff
    = bool_decide (0x40017fff < USER_HEAP_BASE + USER_HEAP_SIZE
                   ∨ 0x40017fff < align_up_4k (heap_top h)).
Proof.
  split; [by vm_compute|].
  by apply (brk_maps_heap_exactly [0x40020001; 0x40018000] 0 loaded).
Defined.
