(* ===== verification/UserMem.v ===== *)
(** * Access to user memory

    [core/src/mm.rs] ([check_access], [access_user_memory], the [VmIo]
    implementation) and [api/src/mm.rs] (the checked pointers [UserPtr] and
    [UserConstPtr], [handle_page_fault], the buffers [VmBytes] and
    [VmBytesMut]).

    The copy routine [user_copy] of [axhal], the address space of [axmm] and
    the slice accesses of [starry_vm] are interfaces.  The configuration is
    that of x86_64 ([core/src/config/x86_64.rs]). *)

From S2P Require Import Prelude Brk Pipe.

Definition USER_SPACE_BASE : Z := 0x1000.
Definition USER_SPACE_SIZE : Z := 0x7ffffffff000.

(** [align_down_4k] *)
Definition align_down_4k (a : Z) : Z := a / 4096 * 4096.

Lemma align_down_bounds x : align_down_4k x ≤ x < align_down_4k x + 4096.
Proof. unfold align_down_4k. pose proof (Z.div_mod x 4096). pose proof (Z.mod_pos_bound x 4096). lia. Qed.

(** ** The range check *)

Definition check_access (start len : Z) : res unit :=
  let USER_SPACE_END := USER_SPACE_BASE + USER_SPACE_SIZE in
  if (USER_SPACE_BASE <=? start) && (start <? USER_SPACE_END)
     && (len <=? sub_u64 USER_SPACE_END start)
  then Ok tt else Err BadAddress.

Lemma check_access_iff start len : 0 ≤ len →
  check_access start len = Ok tt ↔
  USER_SPACE_BASE ≤ start ∧ start < USER_SPACE_BASE + USER_SPACE_SIZE
  ∧ start + len ≤ USER_SPACE_BASE + USER_SPACE_SIZE.
Proof.
  intros Hl. unfold check_access, sub_u64, USER_SPACE_BASE, USER_SPACE_SIZE.
  destruct (Z.leb_spec 4096 start); cbn [andb]; [|split; [done|lia]].
  destruct (Z.ltb_spec start (4096 + 140737488351232)); cbn [andb]; [|split; [done|lia]].
  rewrite as_u64_small by (unfold in_u64; lia).
  destruct (Z.leb_spec len (4096 + 140737488351232 - start)); split; done || lia.
Qed.

Lemma check_access_cases start len : check_access start len = Ok tt ∨ check_access start len = Err BadAddress.
Proof. unfold check_access. case_match; auto. Qed.

(** ** Copies between kernel and user memory

    [user_copy] copies byte by byte and answers how many bytes it left out: 0
    when the whole range was copied.  [uc_byte v x] is the content of the
    user's memory [v] at [x]. *)

Class UserCopy (V : Type) := {
  uc_byte : V → Z → Z;
  uc_read : V → Z → nat → bytes * Z;
  uc_write : Z → bytes → V → Z * V;
}.

(** The bytes of [n] addresses from [p] on *)
Definition user_bytes `{UserCopy V} (v : V) (p : Z) (n : nat) : bytes :=
  uc_byte v <$> seqZ p (Z.of_nat n).

Class UserCopyOk (V : Type) `{UserCopy V} := {
  uc_read_ok v p n l : uc_read v p n = (l, 0) → l = user_bytes v p n;
  uc_write_ok v p l v' : uc_write p l v = (0, v') → user_bytes v' p (length l) = l;
  uc_write_frame v p l r v' x : uc_write p l v = (r, v') →
    ¬ (p ≤ x < p + zlen l) → uc_byte v' x = uc_byte v x;
}.

(** What of a thread these operations use: its flag that says whether the
    kernel is accessing user memory, and the memory. *)
Record UThread (V : Type) := mkUThread {
  accessing_user_memory : bool;
  u_mem : V;
}.
Arguments mkUThread {V}.
Arguments accessing_user_memory {V}.
Arguments u_mem {V}.
#[export] Instance eta_UThread V : Eta (UThread V) := λ t,
  mkUThread (accessing_user_memory t) (u_mem t).

Section Copy.
Context {V : Type} `{UserCopy V}.

(** [access_user_memory f], called by a user thread *)
Definition access_user_memory {A} (f : M (UThread V) A) : M (UThread V) A := λ t,
  let '(r, t') := f (t <| accessing_user_memory := true |>) in
  (r, t' <| accessing_user_memory := false |>).

(** [handle_page_fault]: whether the fault was resolved.  [thr] is the current
    task's thread, if it has one, [handle] the address space's handler. *)
Definition handle_page_fault (thr : option (UThread V)) (handle : bool) : bool :=
  match thr with
  | None => false
  | Some thr => if negb (accessing_user_memory thr) then false else handle
  end.

(** [VmIo::read] and [VmIo::write] of [Vm] *)
Definition Vm_read (start : Z) (n : nat) : M (UThread V) bytes :=
  liftR (check_access start (Z.of_nat n));;
  copied ← access_user_memory (t ← getM; mret (uc_read (u_mem t) start n));
  let '(buf, failed_at) := copied in
  if negb (failed_at =? 0) then failM BadAddress else mret buf.

Definition Vm_write (start : Z) (buf : bytes) : M (UThread V) unit :=
  liftR (check_access start (zlen buf));;
  failed_at ← access_user_memory (λ t,
    let '(r, v) := uc_write start buf (u_mem t) in (Ok r, t <| u_mem := v |>));
  if negb (failed_at =? 0) then failM BadAddress else mret tt.

Lemma access_user_memory_clears {A} (f : M (UThread V) A) t :
  accessing_user_memory (access_user_memory f t).2 = false.
Proof. unfold access_user_memory. by destruct (f _). Qed.

Context `{!UserCopyOk V}.

Lemma Vm_read_spec start n t r t' : Vm_read start n t = (r, t') →
  u_mem t' = u_mem t
  ∧ (r = Err BadAddress
     ∨ check_access start (Z.of_nat n) = Ok tt ∧ r = Ok (user_bytes (u_mem t) start n)).
Proof.
  unfold Vm_read, access_user_memory. unfold_m.
  destruct (check_access_cases start (Z.of_nat n)) as [-> | ->]; cbn; [|by intros [= <- <-]; eauto].
  destruct (uc_read (u_mem t) start n) as [buf k] eqn:Hr; cbn.
  destruct (Z.eqb_spec k 0) as [-> |]; cbn; intros [= <- <-]; split; eauto.
  right. split; [done|]. by rewrite (uc_read_ok _ _ _ _ Hr).
Qed.

Lemma Vm_write_spec start buf t r t' : Vm_write start buf t = (r, t') →
  (r = Err BadAddress
   ∨ r = Ok tt ∧ user_bytes (u_mem t') start (length buf) = buf ∧ check_access start (zlen buf) = Ok tt)
  ∧ ∀ x, uc_byte (u_mem t') x ≠ uc_byte (u_mem t) x →
      start ≤ x < start + zlen buf
      ∧ USER_SPACE_BASE ≤ x < USER_SPACE_BASE + USER_SPACE_SIZE.
Proof.
  unfold Vm_write, access_user_memory. unfold_m.
  destruct (check_access_cases start (zlen buf)) as [Ha | ->]; [rewrite Ha|];
    cbn; [|by intros [= <- <-]; split; [left|]].
  apply check_access_iff in Ha as Hb; [|auto with starry].
  cbn. destruct (uc_write start buf (u_mem t)) as [k v] eqn:Hw; cbn.
  assert (∀ x, uc_byte v x ≠ uc_byte (u_mem t) x →
    start ≤ x < start + zlen buf ∧ USER_SPACE_BASE ≤ x < USER_SPACE_BASE + USER_SPACE_SIZE) as Hf.
  { intros x Hx. destruct (decide (start ≤ x < start + zlen buf)); [lia|].
    by apply (uc_write_frame _ _ _ _ _ x) in Hw. }
  destruct (Z.eqb_spec k 0) as [-> |]; cbn; intros [= <- <-]; cbn; eauto.
  split; [|done]. right. split_and!; [done|by eapply uc_write_ok|done].
Qed.

Lemma Vm_access_flag start n buf t : accessing_user_memory t = false →
  accessing_user_memory (Vm_read start n t).2 = false
  ∧ accessing_user_memory (Vm_write start buf t).2 = false.
Proof.
  intros Hf. unfold Vm_read, Vm_write, access_user_memory. unfold_m. split.
  - destruct (check_access_cases start (Z.of_nat n)) as [-> | ->]; cbn; [|done].
    destruct (uc_read _ _ _) as [? k]; cbn. by destruct (negb (k =? 0)).
  - destruct (check_access_cases start (zlen buf)) as [-> | ->]; cbn; [|done].
    destruct (uc_write _ _ _) as [k ?]; cbn. by destruct (negb (k =? 0)).
Qed.

(** C26: whatever addresses and lengths a program passes, an access through
    [VmIo] stays inside the user half of the address space, also for lengths
    that would wrap around: it succeeds only for a range that lies in it, then
    has read exactly those bytes or written exactly that buffer; no other byte
    ever changes, an error is a bad address, nothing panics, and page faults
    in the kernel are not handled any more after it. *)
Theorem user_access_bounded start n buf t :
  0 ≤ start → accessing_user_memory t = false →
  (∀ r t', Vm_read start n t = (r, t') →
     u_mem t' = u_mem t
     ∧ (r = Err BadAddress
        ∨ r = Ok (user_bytes (u_mem t) start n)
          ∧ ∀ x, start ≤ x < start + Z.of_nat n →
              USER_SPACE_BASE ≤ x < USER_SPACE_BASE + USER_SPACE_SIZE)
     ∧ ∀ h, handle_page_fault (Some t') h = false)
  ∧ (∀ r t', Vm_write start buf t = (r, t') →
     (r = Err BadAddress ∨ r = Ok tt ∧ user_bytes (u_mem t') start (length buf) = buf)
     ∧ (∀ x, uc_byte (u_mem t') x ≠ uc_byte (u_mem t) x →
          start ≤ x < start + zlen buf
          ∧ USER_SPACE_BASE ≤ x < USER_SPACE_BASE + USER_SPACE_SIZE)
     ∧ ∀ h, handle_page_fault (Some t') h = false).
Proof.
  intros Hs Hf. destruct (Vm_access_flag start n buf t Hf) as [Hfr Hfw].
  split; intros r t' He.
  - destruct (Vm_read_spec _ _ _ _ _ He) as [Hm Hr]. split_and!; [done| |].
    + destruct Hr as [?|[Ha ?]]; [by left|right]. split; [done|].
      apply check_access_iff in Ha; lia.
    + rewrite He in Hfr. cbn in *. intros h. by rewrite Hfr.
  - destruct (Vm_write_spec _ _ _ _ _ He) as [Hr Hx]. split_and!; [naive_solver|done|].
    rewrite He in Hfw. cbn in *. intros h. by rewrite Hfw.
Qed.
End Copy.

(** ** Checked pointers

    [MappingFlags] of the access, and the address space: whether a range may
    be accessed, and the allocation of its pages. *)

Record MappingFlags := mkMappingFlags {
  mf_read : bool; mf_write : bool; mf_execute : bool; mf_user : bool;
}.

Class UserSpace (A : Type) := {
  can_access_range : A → Z → Z → MappingFlags → bool;
  populate_area : Z → Z → MappingFlags → M A unit;
}.

(** Only addresses below [us_limit] can be accessed; a range that can be
    accessed can byte by byte; populating makes the pages of the range
    resident and takes no access away. *)
Class UserSpaceOk (A : Type) `{UserSpace A} := {
  us_limit : Z;
  us_resident : A → Z → bool;
  us_limit_fits : us_limit ≤ 2 ^ 64 - 4096;
  can_access_below a start size f : 0 < size →
    can_access_range a start size f = true → start + size ≤ us_limit;
  can_access_byte a start size f x : can_access_range a start size f = true →
    start ≤ x < start + size → can_access_range a x 1 f = true;
  populate_resident a start size f a' x : populate_area start size f a = (Ok tt, a') →
    start ≤ x < start + size → us_resident a' x = true;
  populate_access a start size f r a' x n g : populate_area start size f a = (r, a') →
    can_access_range a' x n g = can_access_range a x n g;
}.

(** A type's layout: its size and alignment *)
Record Layout := mkLayout { l_size : Z; l_align : Z }.

(** [Layout::array::<T>(len).unwrap()]: the size, rounded up to the alignment,
    must not exceed [isize::MAX]. *)
Definition layout_array (T : Layout) (len : Z) : res Layout :=
  if l_size T * len >? 2 ^ 63 - l_align T then Panic
  else Ok (mkLayout (l_size T * len) (l_align T)).

Section Pointers.
Context {A : Type} `{UserSpace A}.

Definition check_region (start : Z) (layout : Layout) (access_flags : MappingFlags) : M A unit :=
  if negb (Z.land start (l_align layout - 1) =? 0) then failM BadAddress
  else
    aspace ← getM;
    if negb (can_access_range aspace start (l_size layout) access_flags) then failM BadAddress
    else
      let page_start := align_down_4k start in
      let page_end := as_u64 (align_up_4k (add_u64 start (l_size layout))) in
      populate_area page_start (sub_u64 page_end page_start) access_flags.

Definition UserPtr_ACCESS_FLAGS : MappingFlags := mkMappingFlags true true false false.
Definition UserConstPtr_ACCESS_FLAGS : MappingFlags := mkMappingFlags true false false false.

(** The slice of [len] objects of layout [T] at [ptr], as its address and its
    length: [get_as_mut_slice] and [get_as_slice]. *)
Definition get_as_mut_slice (T : Layout) (ptr len : Z) : M A (Z * Z) :=
  layout ← liftR (layout_array T len);
  check_region ptr layout UserPtr_ACCESS_FLAGS;;
  mret (ptr, len).
Definition get_as_slice (T : Layout) (ptr len : Z) : M A (Z * Z) :=
  layout ← liftR (layout_array T len);
  check_region ptr layout UserConstPtr_ACCESS_FLAGS;;
  mret (ptr, len).
(** [get_as_mut] and [get_as_ref] *)
Definition get_as_mut (T : Layout) (ptr : Z) : M A Z :=
  check_region ptr T UserPtr_ACCESS_FLAGS;; mret ptr.
Definition get_as_ref (T : Layout) (ptr : Z) : M A Z :=
  check_region ptr T UserConstPtr_ACCESS_FLAGS;; mret ptr.

(** The [while] of [check_null_terminated]: checks the pages up to the one
    that holds [ptr].  [None] when the fuel is used up. *)
Fixpoint check_pages (fuel : nat) (aspace : A) (f : MappingFlags) (ptr page : Z) : option (res Z) :=
  match fuel with
  | O => None
  | S fuel =>
      if page <=? ptr then
        if negb (can_access_range aspace page 4096 f) then Some (Err BadAddress)
        else check_pages fuel aspace f ptr (add_u64 page 4096)
      else Some (Ok page)
  end.

(** Its [loop]: [read] is [read_volatile] on the object at an address. *)
Fixpoint nul_loop (fuel : nat) (aspace : A) (f : MappingFlags) (read : Z → Z) (w start page len : Z)
    : option (res Z) :=
  match fuel with
  | O => None
  | S fuel' =>
      let ptr := add_u64 start (len * w) in
      match check_pages fuel aspace f ptr page with
      | Some (Ok page) =>
          if read ptr =? 0 then Some (Ok len)
          else nul_loop fuel' aspace f read w start page (len + 1)
      | Some (Err e) => Some (Err e)
      | Some Panic => Some Panic
      | None => None
      end
  end.

(** [check_null_terminated::<T>] for a type of size and alignment [w] *)
Definition check_null_terminated (fuel : nat) (aspace : A) (f : MappingFlags) (read : Z → Z)
    (w start : Z) : option (res Z) :=
  if negb (Z.land start (w - 1) =? 0) then Some (Err BadAddress)
  else nul_loop fuel aspace f read w start (align_down_4k start) 0.

(** [get_as_null_terminated] and [get_as_mut_null_terminated] *)
Definition get_as_null_terminated (fuel : nat) (aspace : A) (read : Z → Z) (w ptr : Z) : option (res (Z * Z)) :=
  r ← check_null_terminated fuel aspace UserConstPtr_ACCESS_FLAGS read w ptr;
  Some (len ← r; Ok (ptr, len)).
Definition get_as_mut_null_terminated (fuel : nat) (aspace : A) (read : Z → Z) (w ptr : Z) : option (res (Z * Z)) :=
  r ← check_null_terminated fuel aspace UserPtr_ACCESS_FLAGS read w ptr;
  Some (len ← r; Ok (ptr, len)).

(** *** The scan *)

Context `{!UserSpaceOk A}.
Implicit Types a : A.

Section Scan.
Context (a : A) (f : MappingFlags) (read : Z → Z) (k w start : Z).
Context (Hk : 0 ≤ k ≤ 12) (Hw : w = 2 ^ k) (Hstart : 0 ≤ start < 2 ^ 64 - 4096).

Abbreviation page_ok x := (can_access_range a (align_down_4k x) 4096 f).
Abbreviation elem i := (start + i * w).

(** The page pointer is that of the next object, or the one after it when the
    object's page has been checked. *)
Definition scan_inv (page len : Z) : Prop :=
  page = align_down_4k (elem len)
  ∨ page = align_down_4k (elem len) + 4096 ∧ page_ok (elem len) = true.

Lemma width_pos : 0 < w.
Proof. subst. apply Z.pow_pos_nonneg; lia. Qed.
Lemma width_page : w * 2 ^ (12 - k) = 4096.
Proof. subst. rewrite <- Z.pow_add_r by lia. by replace (k + (12 - k)) with 12 by lia. Qed.

Lemma page_ok_below x : page_ok x = true → x < us_limit ∧ us_limit ≤ 2 ^ 64 - 4096.
Proof.
  intros Hp. apply can_access_below in Hp; [|lia].
  pose proof us_limit_fits. pose proof (align_down_bounds x). lia.
Qed.

(** The next object is on the same page or starts the next one. *)
Lemma align_down_next len : (w | start) →
  align_down_4k (elem (len + 1)) = align_down_4k (elem len)
  ∨ align_down_4k (elem (len + 1)) = align_down_4k (elem len) + 4096.
Proof.
  intros [q Hq]. pose proof width_pos as Hwp. pose proof width_page as Hpg.
  unfold align_down_4k. set (x := elem len). replace (elem (len + 1)) with (x + w) by (unfold x; lia).
  assert (w ≤ 4096) by (assert (1 ≤ 2 ^ (12 - k)) by (apply (Z.pow_le_mono_r 2 0); lia); nia).
  pose proof (Z.div_mod x 4096). pose proof (Z.mod_pos_bound x 4096).
  pose proof (Z.div_mod (x + w) 4096). pose proof (Z.mod_pos_bound (x + w) 4096).
  assert (x / 4096 ≤ (x + w) / 4096 ≤ x / 4096 + 1); [|nia].
  split; [apply Z.div_le_mono; lia|].
  apply Z.lt_succ_r. apply Z.div_lt_upper_bound; lia.
Qed.

Lemma check_pages_step fuel page len : 0 ≤ len → elem len < 2 ^ 64 → scan_inv page len →
  check_pages (S (S fuel)) a f (elem len) page =
  Some (if page_ok (elem len) then Ok (align_down_4k (elem len) + 4096) else Err BadAddress).
Proof.
  intros Hl Hlt Hi. pose proof (align_down_bounds (elem len)) as Hb.
  destruct Hi as [-> | [-> Hp]]; cbn [check_pages].
  - destruct (Z.leb_spec (align_down_4k (elem len)) (elem len)); [|lia].
    destruct (page_ok (elem len)) eqn:Hp; cbn [negb]; [|done].
    apply page_ok_below in Hp. pose proof width_pos.
    assert (0 ≤ align_down_4k (elem len)) by (unfold align_down_4k; apply Z.mul_nonneg_nonneg; [apply Z.div_pos; nia|lia]).
    unfold add_u64. rewrite as_u64_small by (unfold in_u64; lia).
    destruct (Z.leb_spec (align_down_4k (elem len) + 4096) (elem len)); [lia|done].
  - rewrite Hp. destruct (Z.leb_spec (align_down_4k (elem len) + 4096) (elem len)); [lia|done].
Qed.

(** What the scan answers: the index of the first zero if every object up to
    it is on an accessible page, a bad address if an inaccessible page comes
    first. *)
Definition scan_result (r : res Z) : Prop :=
  (∃ len, r = Ok len ∧ 0 ≤ len ∧ read (elem len) = 0 ∧ page_ok (elem len) = true
     ∧ ∀ i, 0 ≤ i < len → read (elem i) ≠ 0 ∧ page_ok (elem i) = true)
  ∨ (∃ len, r = Err BadAddress ∧ 0 ≤ len ∧ page_ok (elem len) = false
     ∧ ∀ i, 0 ≤ i < len → read (elem i) ≠ 0 ∧ page_ok (elem i) = true).

Lemma nul_loop_unfold fuel page len : 0 ≤ len → elem len < 2 ^ 64 - 4096 + w → scan_inv page len →
  nul_loop (S (S fuel)) a f read w start page len =
  if page_ok (elem len) then
    if read (elem len) =? 0 then Some (Ok len)
    else nul_loop (S fuel) a f read w start (align_down_4k (elem len) + 4096) (len + 1)
  else Some (Err BadAddress).
Proof.
  intros Hl Hlt Hi. pose proof width_pos. pose proof width_page as Hpg.
  assert (w ≤ 4096) by (assert (1 ≤ 2 ^ (12 - k)) by (apply (Z.pow_le_mono_r 2 0); lia); nia).
  cbn [nul_loop]. unfold add_u64. rewrite as_u64_small by (unfold in_u64; nia).
  rewrite check_pages_step by (done || lia). by destruct (page_ok (elem len)).
Qed.

Lemma nul_loop_spec fuel page len : (w | start) → 0 ≤ len → elem len < 2 ^ 64 - 4096 + w →
  scan_inv page len →
  (∀ i, 0 ≤ i < len → read (elem i) ≠ 0 ∧ page_ok (elem i) = true) →
  us_limit - elem len < Z.of_nat fuel * w →
  ∃ r, nul_loop (S (S fuel)) a f read w start page len = Some r ∧ scan_result r.
Proof.
  intros Hd. revert page len. pose proof width_pos.
  induction fuel as [|fuel IH]; intros page len Hl Hlt Hi Hall Hf;
    rewrite nul_loop_unfold by done;
    (destruct (page_ok (elem len)) eqn:Hp; [|eexists; split; [done|right; eauto]]);
    apply page_ok_below in Hp as Hb; [lia|].
  destruct (Z.eqb_spec (read (elem len)) 0) as [Hz|Hz].
  { eexists. split; [done|]. left. eauto 6. }
  apply (IH (align_down_4k (elem len) + 4096) (len + 1)); [lia|lia| | |lia].
  - destruct (align_down_next len Hd) as [Heq|Heq]; [right|left]; [|by rewrite Heq].
    by rewrite Heq.
  - intros i Hr. destruct (decide (i = len)) as [-> |]; [done|]. apply Hall. lia.
Qed.
End Scan.

Lemma aligned_iff k start : 0 ≤ k →
  (Z.land start (2 ^ k - 1) =? 0) = (start mod 2 ^ k =? 0).
Proof.
  intros Hk. replace (2 ^ k - 1) with (Z.ones k) by (rewrite Z.ones_equiv; lia).
  by rewrite Z.land_ones.
Qed.

(** the search for the terminating null of a string or of an argument
    vector always ends, within as many rounds as objects fit below the limit
    of the space: an unaligned pointer is a bad address; otherwise the answer is the
    index of the first null if every page up to it may be accessed, and a bad
    address if a page that may not be accessed comes before it.  No pointer on
    the way wraps around. *)
Lemma null_terminated_scan a f read k start fuel :
  0 ≤ k ≤ 12 → in_u64 start → us_limit - start < Z.of_nat fuel * 2 ^ k →
  ∃ r, check_null_terminated (S (S fuel)) a f read (2 ^ k) start = Some r
    ∧ if start mod 2 ^ k =? 0 then scan_result a f read (2 ^ k) start r
      else r = Err BadAddress.
Proof.
  intros Hk Hs Hf. unfold check_null_terminated. rewrite aligned_iff by lia.
  destruct (Z.eqb_spec (start mod 2 ^ k) 0) as [Hd|]; cbn [negb]; [|eauto].
  assert (0 < 2 ^ k) by (apply Z.pow_pos_nonneg; lia). unfold in_u64 in Hs.
  apply Z.mod_divide in Hd; [|lia].
  destruct (decide (start < 2 ^ 64 - 4096)) as [Hb|Hb].
  - apply (nul_loop_spec a f read k (2 ^ k) start Hk eq_refl ltac:(lia) fuel); try lia; try done.
    left. by rewrite Z.add_0_r.
  - assert (can_access_range a (align_down_4k start) 4096 f = false) as Hp.
    { apply not_true_is_false. intros Hp. apply can_access_below in Hp; [|lia].
      pose proof us_limit_fits. pose proof (align_down_bounds start). lia. }
    exists (Err BadAddress). split.
    + cbn [nul_loop]. unfold add_u64. rewrite Z.mul_0_l, Z.add_0_r, as_u64_small by done.
      cbn [check_pages]. rewrite Hp.
      pose proof (align_down_bounds start).
      destruct (Z.leb_spec (align_down_4k start) start); [done|lia].
    + right. exists 0. rewrite Z.mul_0_l, Z.add_0_r. split_and!; [done..|lia].
Qed.

(** A region that passes the check may be accessed and is resident, byte by
    byte. *)
Lemma check_region_ok a a' start layout f :
  0 ≤ start → 0 < l_size layout →
  check_region start layout f a = (Ok tt, a') →
  Z.land start (l_align layout - 1) = 0
  ∧ ∀ x, start ≤ x < start + l_size layout →
      can_access_range a' x 1 f = true ∧ us_resident a' x = true.
Proof.
  intros Hs Hz. unfold check_region. unfold_m.
  destruct (Z.eqb_spec (Z.land start (l_align layout - 1)) 0) as [He|]; cbn; [|done].
  destruct (can_access_range a start (l_size layout) f) eqn:Hc; cbn; [|done].
  intros Hp. split; [done|]. intros x Hx.
  apply can_access_below in Hc as Hb; [|lia]. pose proof us_limit_fits.
  split.
  - rewrite (populate_access _ _ _ _ _ _ _ _ _ Hp). by eapply can_access_byte.
  - apply (populate_resident _ _ _ _ _ _ Hp). revert Hp. intros _.
    pose proof (align_down_bounds start).
    unfold add_u64. rewrite (as_u64_small (start + _)) by (unfold in_u64; lia).
    assert (start + l_size layout ≤ align_up_4k (start + l_size layout) < start + l_size layout + 4096) as Hu.
    { unfold align_up_4k. pose proof (Z.div_mod (start + l_size layout + 4095) 4096).
      pose proof (Z.mod_pos_bound (start + l_size layout + 4095) 4096). lia. }
    assert (0 ≤ align_down_4k start) by (unfold align_down_4k; apply Z.mul_nonneg_nonneg; [apply Z.div_pos; lia|lia]).
    rewrite (as_u64_small (align_up_4k _)) by (unfold in_u64; lia).
    unfold sub_u64. rewrite as_u64_small by (unfold in_u64; lia). lia.
Qed.
End Pointers.

(** ** Buffers in user memory

    [vm_read_slice] and [vm_write_slice] of [starry_vm] on bytes: they access
    the whole slice or fail. *)

Class VmSlices (V : Type) := {
  vm_read_slice : Z → nat → M (UThread V) bytes;
  vm_write_slice : Z → bytes → M (UThread V) unit;
}.

Class VmSlicesOk (V : Type) `{UserCopy V, VmSlices V} := {
  vm_read_slice_cases p n t r t' : vm_read_slice p n t = (r, t') →
    u_mem t' = u_mem t
    ∧ (r = Err BadAddress ∨ r = Ok (user_bytes (u_mem t) p n) ∧ 0 ≤ p ∧ p + Z.of_nat n < 2 ^ 64);
  vm_write_slice_cases p l t r t' : vm_write_slice p l t = (r, t') →
    (r = Err BadAddress
     ∨ r = Ok tt ∧ user_bytes (u_mem t') p (length l) = l ∧ 0 ≤ p ∧ p + zlen l < 2 ^ 64)
    ∧ ∀ x, ¬ (p ≤ x < p + zlen l) → uc_byte (u_mem t') x = uc_byte (u_mem t) x;
}.

(** [VmBytes] and [VmBytesMut]: what is left of a buffer *)
Record VmBytes := mkVmBytes { vb_ptr : Z; vb_len : nat }.
#[export] Instance eta_VmBytes : Eta VmBytes := λ b, mkVmBytes (vb_ptr b) (vb_len b).

Section Buffers.
Context {V : Type} `{VmSlices V}.

(** [Read for VmBytes]: the bytes that were read *)
Definition VmBytes_read (n : nat) : M (UThread V * VmBytes) bytes := λ '(t, b),
  let len := (vb_len b `min` n)%nat in
  match vm_read_slice (vb_ptr b) len t with
  | (Ok l, t') => (Ok l, (t', mkVmBytes (as_u64 (vb_ptr b + Z.of_nat len)) (vb_len b - len)))
  | (Err e, t') => (Err e, (t', b))
  | (Panic, t') => (Panic, (t', b))
  end.

(** [Write for VmBytesMut] *)
Definition VmBytesMut_write (buf : bytes) : M (UThread V * VmBytes) nat := λ '(t, b),
  let len := (vb_len b `min` length buf)%nat in
  match vm_write_slice (vb_ptr b) (take len buf) t with
  | (Ok _, t') => (Ok len, (t', mkVmBytes (as_u64 (vb_ptr b + Z.of_nat len)) (vb_len b - len)))
  | (Err e, t') => (Err e, (t', b))
  | (Panic, t') => (Panic, (t', b))
  end.

Context `{!UserCopy V, !VmSlicesOk V}.

Lemma user_bytes_app v p n m :
  user_bytes v p (n + m) = user_bytes v p n ++ user_bytes v (p + Z.of_nat n) m.
Proof.
  unfold user_bytes. rewrite <- fmap_app, <- seqZ_app by lia. f_equal. f_equal. lia.
Qed.
Lemma user_bytes_length v p n : length (user_bytes v p n) = n.
Proof. unfold user_bytes. rewrite length_fmap, length_seqZ. lia. Qed.
Lemma user_bytes_take v p n m : (m ≤ n)%nat → take m (user_bytes v p n) = user_bytes v p m.
Proof.
  intros ?. replace n with (m + (n - m))%nat by lia.
  rewrite user_bytes_app. apply take_app_length'. by rewrite user_bytes_length.
Qed.
Lemma user_bytes_drop v p n m : (m ≤ n)%nat →
  drop m (user_bytes v p n) = user_bytes v (p + Z.of_nat m) (n - m).
Proof.
  intros ?. replace n with (m + (n - m))%nat at 1 by lia.
  rewrite user_bytes_app. apply drop_app_length'. by rewrite user_bytes_length.
Qed.
Lemma user_bytes_frame v v' p n :
  (∀ x, p ≤ x < p + Z.of_nat n → uc_byte v' x = uc_byte v x) → user_bytes v' p n = user_bytes v p n.
Proof.
  intros Hx. apply list_fmap_ext. intros i x Hi. apply lookup_seqZ in Hi as [-> ?]. apply Hx. lia.
Qed.

(** A buffer of the user is a source of bytes for the pipe. *)
Definition VmBytes_src : IoSrc (UThread V * VmBytes) := {|
  src_data s := user_bytes (u_mem s.1) (vb_ptr s.2) (vb_len s.2);
  src_read := VmBytes_read;
|}.

Lemma VmBytes_src_ok : @IoSrcOk _ VmBytes_src.
Proof.
  split; cbn.
  - intros n [t b] l [t' b']. cbn [fst snd]. unfold VmBytes_read.
    destruct (vm_read_slice _ _ t) as [r t1] eqn:Hr.
    apply vm_read_slice_cases in Hr as [Hm [-> |(-> & Hp & Hlt)]]; [done|].
    intros [= <- <- <-]. cbn. rewrite Hm, as_u64_small by (unfold in_u64; lia).
    destruct (decide (n ≤ vb_len b)%nat).
    + rewrite Nat.min_r, user_bytes_take, user_bytes_drop by lia. done.
    + rewrite Nat.min_l, take_ge, drop_ge, Nat.sub_diag by (rewrite ?user_bytes_length; lia). done.
  - intros n [t b] e [t' b']. unfold VmBytes_read.
    destruct (vm_read_slice _ _ t) as [r t1] eqn:Hr.
    apply vm_read_slice_cases in Hr as [_ [-> |(-> & _)]]; by intros [= <- <- <-].
  - intros n [t b] [t' b']. unfold VmBytes_read.
    destruct (vm_read_slice _ _ t) as [r t1] eqn:Hr.
    by apply vm_read_slice_cases in Hr as [_ [-> |(-> & _)]].
Qed.

(** A buffer of the user as a destination: the count says how much of it has
    been filled. *)
Definition VmBytesMut_dst : IoDst (UThread V * VmBytes * nat) := {|
  dst_data d := user_bytes (u_mem d.1.1) (vb_ptr d.1.2 - Z.of_nat d.2) d.2;
  dst_room d := vb_len d.1.2;
  dst_write l d :=
    match VmBytesMut_write l d.1 with
    | (Ok n, d') => (Ok n, (d', d.2 + n)%nat)
    | (r, d') => (r, (d', d.2))
    end;
|}.

Lemma VmBytesMut_dst_ok : @IoDstOk _ VmBytesMut_dst.
Proof.
  split; cbn.
  - intros l [[t b] k] n [[t' b'] k']. cbn [fst snd]. unfold VmBytesMut_write.
    destruct (vm_write_slice _ _ t) as [r t1] eqn:Hr.
    apply vm_write_slice_cases in Hr as [[-> |(-> & Hw & Hp & Hlt)] Hfr]; [done|].
    intros [= <- <- <- <-]. cbn. unfold zlen in *. rewrite length_take in *.
    rewrite Nat.min_l in * by lia. set (n := (vb_len b `min` length l)%nat) in *.
    split; [lia|]. split; [|lia].
    rewrite as_u64_small by (unfold in_u64; lia).
    replace (vb_ptr b + Z.of_nat n - Z.of_nat (k + n)) with (vb_ptr b - Z.of_nat k) by lia.
    rewrite user_bytes_app. f_equal.
    + apply user_bytes_frame. intros x Hx. apply Hfr. lia.
    + by replace (vb_ptr b - Z.of_nat k + Z.of_nat k) with (vb_ptr b) by lia.
  - intros l [[t b] k] e d'. cbn [fst snd]. unfold VmBytesMut_write.
    destruct (vm_write_slice _ _ t) as [r t1] eqn:Hr.
    apply vm_write_slice_cases in Hr as [[-> |(-> & _)] _]; by intros [= <- <-].
  - intros l [[t b] k] d'. cbn [fst snd]. unfold VmBytesMut_write.
    destruct (vm_write_slice _ _ t) as [r t1] eqn:Hr.
    by apply vm_write_slice_cases in Hr as [[-> |(-> & _)] _].
Qed.

#[local] Existing Instances VmBytes_src VmBytes_src_ok VmBytesMut_dst VmBytesMut_dst_ok.

(** [sys_write] and [sys_read] on the ends of a pipe, first attempt *)
Definition pipe_sys_write {R} `{RingBuf R} (nonblocking : bool) (buf : Z) (len : nat) (t : UThread V) (p : Pipe R) :=
  pipe_write false nonblocking (t, mkVmBytes buf len) p.
Definition pipe_sys_read {R} `{RingBuf R} (buf : Z) (len : nat) (t : UThread V) (p : Pipe R) :=
  pipe_read true (t, mkVmBytes buf len, 0%nat) p.

Lemma pipe_write_stream {R} `{RingBufOk R} nb s (p : Pipe R) r k s' p' :
  pipe_write (S := UThread V * VmBytes) false nb s p = (r, k, s', p') →
  rb_content (p_buffer p') = rb_content (p_buffer p) ++ take k (src_data s).
Proof.
  unfold pipe_write. destruct (length (src_data s) =? 0)%nat.
  { intros [= <- <- <- <-]. by rewrite app_nil_r. }
  intros Hw. pose proof (pipe_run_op_stream (D := UThread V * VmBytes * nat)
    (PWrite nb (length (src_data s)) 0 s) p) as Hs.
  cbn [pipe_run_op] in Hs. rewrite Hw in Hs. destruct Hs as [Hs _].
  by rewrite Nat.sub_0_r in Hs.
Qed.

Lemma pipe_read_stream {R} `{RingBufOk R} d (p : Pipe R) j d' p' :
  pipe_read (D := UThread V * VmBytes * nat) true d p = (Ok j, d', p') →
  j = (length (rb_content (p_buffer p)) `min` dst_room d)%nat
  ∧ dst_data d' = dst_data d ++ take j (rb_content (p_buffer p))
  ∧ rb_content (p_buffer p') = drop j (rb_content (p_buffer p)).
Proof.
  unfold pipe_read. cbn [negb]. destruct (Nat.eqb_spec (dst_room d) 0) as [Hz|Hz].
  { intros [= <- <- <-]. rewrite Hz, Nat.min_0_r, take_0, app_nil_r. done. }
  unfold rb_content at 1 2. destruct (rb_slices (p_buffer p)) as [lft rgt] eqn:Hs. cbn [fst snd].
  destruct (copy_out lft rgt d) as [[c|e|] d1] eqn:Hc; [|done..].
  apply copy_out_ok in Hc as [Hn Hd]. intros Hf.
  assert (Hrb : rb_content (p_buffer p) = lft ++ rgt) by (unfold rb_content; by rewrite Hs).
  assert (c = j ∧ d' = d1 ∧ p_buffer p' = rb_advance_read c (p_buffer p)) as (<- & -> & ->).
  { destruct (Nat.ltb_spec 0 c); [|destruct (closed true _); [|done]];
      injection Hf as <- <- <-; split_and!; done || lia. }
  split_and!; [done|done|]. rewrite rb_advance_content, Hrb; [done|].
  unfold rb_occupied_len. rewrite Hrb. lia.
Qed.

(** The address a destination started at stays. *)
Definition dst_base (d : UThread V * VmBytes * nat) : Z := vb_ptr d.1.2 - Z.of_nat d.2.

Lemma dst_write_base l d n d' : dst_write l d = (Ok n, d') → dst_base d' = dst_base d.
Proof.
  destruct d as [[t b] k]. cbn. unfold VmBytesMut_write.
  destruct (vm_write_slice _ _ t) as [r t1] eqn:Hr.
  apply vm_write_slice_cases in Hr as [[-> |(-> & _ & Hp & Hlt)] _]; [done|].
  unfold zlen in Hlt. rewrite length_take, Nat.min_l in Hlt by lia.
  intros [= <- <-]. unfold dst_base. cbn. rewrite as_u64_small by (unfold in_u64; lia). lia.
Qed.

Lemma pipe_read_base {R} `{RingBuf R} d (p : Pipe R) j d' p' :
  pipe_read (D := UThread V * VmBytes * nat) true d p = (Ok j, d', p') → dst_base d' = dst_base d.
Proof.
  unfold pipe_read. cbn [negb]. destruct (dst_room d =? 0)%nat; [by intros [= <- <- <-]|].
  destruct (rb_slices (p_buffer p)) as [lft rgt]. unfold copy_out.
  destruct (dst_write lft d) as [[n1|e|] d1] eqn:E1; [|done..]. apply dst_write_base in E1.
  destruct (length lft <=? n1)%nat.
  - destruct (dst_write rgt d1) as [[n2|e|] d2] eqn:E2; [|done..]. apply dst_write_base in E2.
    repeat case_match; intros; simplify_eq; congruence.
  - repeat case_match; intros; simplify_eq; congruence.
Qed.

(** bytes cross from one process's memory to another's through a pipe
    unchanged: a write of a user buffer into an empty pipe followed by a
    successful read leaves in the reader's buffer exactly the first bytes of
    the writer's, as many as were written and fit; the rest of the written
    bytes waits in the pipe. *)
Lemma pipe_copies_user_memory {R} `{RingBufOk R} nb buf n t (p : Pipe R) r k s' p1 buf' m t' j t'' b' c p2 :
  rb_content (p_buffer p) = [] →
  pipe_sys_write nb buf n t p = (r, k, s', p1) →
  pipe_sys_read buf' m t' p1 = (Ok j, (t'', b', c), p2) →
  j = ((k `min` n) `min` m)%nat ∧ c = j
  ∧ user_bytes (u_mem t'') buf' j = user_bytes (u_mem t) buf j
  ∧ rb_content (p_buffer p2) = user_bytes (u_mem t) (buf + Z.of_nat j) ((k `min` n) - j).
Proof.
  intros He Hw Hr. apply pipe_write_stream in Hw. rewrite He, app_nil_l in Hw. cbn in Hw.
  apply pipe_read_base in Hr as Hb. unfold dst_base in Hb. cbn in Hb.
  apply pipe_read_stream in Hr as (Hj & Hd & Hc). cbn in Hj.
  change (dst_data _) with (user_bytes (u_mem t'') (vb_ptr b' - Z.of_nat c) c) in Hd at 1.
  change (dst_data _) with (@nil Z) in Hd. rewrite app_nil_l in Hd.
  assert (Hw' : rb_content (p_buffer p1) = user_bytes (u_mem t) buf (k `min` n)).
  { rewrite Hw. destruct (decide (k ≤ n)%nat).
    - rewrite user_bytes_take, Nat.min_l by lia. done.
    - rewrite take_ge, Nat.min_r by (rewrite ?user_bytes_length; lia). done. }
  rewrite Hw', user_bytes_length in Hj. rewrite Hw' in Hd, Hc.
  rewrite user_bytes_take in Hd by lia. rewrite user_bytes_drop in Hc by lia.
  apply (f_equal length) in Hd as Hl. rewrite !user_bytes_length in Hl. subst c.
  replace (vb_ptr b' - Z.of_nat j) with buf' in Hd by lia. done.
Qed.
End Buffers.

(** ** A concrete memory

    The bytes that are mapped; an access to any other fails before the first
    byte. *)

Abbreviation umem := (gmap Z Z).

Fixpoint umem_store (p : Z) (l : bytes) (v : umem) : umem :=
  match l with
  | [] => v
  | x :: l => <[p := x]> (umem_store (p + 1) l v)
  end.
Definition umem_mapped (v : umem) (p : Z) (n : nat) : bool :=
  forallb (λ x, bool_decide (is_Some (v !! x))) (seqZ p (Z.of_nat n)).

#[export] Instance umem_copy : UserCopy umem := {
  uc_byte v x := default 0 (v !! x);
  uc_read v p n := if umem_mapped v p n then ((λ x, default 0 (v !! x)) <$> seqZ p (Z.of_nat n), 0) else ([], 1);
  uc_write p l v := if umem_mapped v p (length l) then (0, umem_store p l v) else (1, v);
}.

Lemma umem_store_ne p l v x : ¬ (p ≤ x < p + zlen l) → umem_store p l v !! x = v !! x.
Proof.
  revert p. induction l as [|y l IH]; intros p Hx; cbn; [done|].
  rewrite zlen_cons in Hx. pose proof (zlen_nonneg l).
  rewrite lookup_insert_ne by lia. apply IH. lia.
Qed.
Lemma umem_store_eq p l v : user_bytes (umem_store p l v) p (length l) = l.
Proof.
  revert p. induction l as [|y l IH]; intros p; [done|].
  unfold user_bytes. cbn [length]. rewrite Nat2Z.inj_succ, seqZ_cons by lia.
  cbn [fmap list_fmap]. cbn [umem_store uc_byte umem_copy]. rewrite lookup_insert_eq. f_equal.
  rewrite Z.pred_succ. etrans; [|apply (IH (Z.succ p))]. apply list_fmap_ext.
  intros i x Hi. apply lookup_seqZ in Hi as [-> ?]. cbn. by rewrite lookup_insert_ne by lia.
Qed.

#[export] Instance umem_copy_ok : UserCopyOk umem.
Proof.
  split.
  - intros v p n l. cbn. destruct (umem_mapped v p n); [|done]. by intros [= <-].
  - intros v p l v'. cbn. destruct (umem_mapped v p (length l)); [|done].
    intros [= <-]. apply umem_store_eq.
  - intros v p l r v' x. cbn. destruct (umem_mapped v p (length l)); intros [= <- <-] Hx; [|done].
    by rewrite umem_store_ne.
Qed.

#[export] Instance umem_slices : VmSlices umem := {
  vm_read_slice := Vm_read;
  vm_write_slice := Vm_write;
}.
#[export] Instance umem_slices_ok : VmSlicesOk umem.
Proof.
  split.
  - intros p n t r t' Hr. apply Vm_read_spec in Hr as [Hm [-> |[Ha ->]]]; [by eauto|].
    split; [done|]. right. split; [done|].
    apply check_access_iff in Ha; [|lia]. unfold USER_SPACE_BASE, USER_SPACE_SIZE in Ha. lia.
  - intros p l t r t' Hr. apply Vm_write_spec in Hr as [Hr Hf]. split.
    + destruct Hr as [-> |(-> & Hl & Ha)]; [by left|]. right. split_and!; [done|done|..];
        apply check_access_iff in Ha; auto with starry; unfold USER_SPACE_BASE, USER_SPACE_SIZE in Ha; lia.
    + intros x Hx. destruct (decide (uc_byte (u_mem t') x = uc_byte (u_mem t) x)) as [|Hne]; [done|].
      by apply Hf in Hne as [? _].
Qed.

(** An address space of which the range below an end is mapped *)
Record flat_space := mkFlat {}.
#[export] Instance flat_user_space : UserSpace flat_space := {
  can_access_range _ start size _ := (0 <=? start) && (0 <=? size) && (start + size <=? 0x3000);
  populate_area _ _ _ := mret tt;
}.
#[export] Instance flat_user_space_ok : UserSpaceOk flat_space.
Proof.
  refine {| us_limit := 0x3000; us_resident _ _ := true |}; try done; cbn; intros.
  - lia.
  - repeat rewrite andb_true_iff in *. lia.
Defined.

Definition hello : umem := umem_store 0x2000 [104; 101; 108; 108; 111] ∅.
Definition u_thread : UThread umem := mkUThread false hello.

Lemma user_access_bounded_witness :
  Vm_read 0x2000 2 u_thread = (Ok [104; 101], u_thread)
  ∧ (∀ h, handle_page_fault (Some (Vm_read 0x2000 2 u_thread).2) h = false).
Proof.
  split; [by vm_compute|].
  destruct (user_access_bounded 0x2000 2 [1] u_thread) as [Hr _]; [lia|done|].
  destruct (Vm_read 0x2000 2 u_thread) as [r t'] eqn:E. by destruct (Hr r t' eq_refl) as (_ & _ & ?).
Defined.

