(* ===== verification/SimpleVfs.v ===== *)
(** * The core of the virtual file system

    [core/src/vfs/]: the inode numbers and metadata of [SimpleFs], files that
    are read and replaced as a whole ([SimpleFile]), and directories made of
    maps and chains ([DirMapping], [ChainedDirOps], [SimpleDir]).

    The node and entry types of [axfs_ng_vfs] around them, which cache nodes
    and resolve paths, are not modelled; the slab of inode numbers is an
    interface. *)

From stdpp Require Export strings.
From S2P Require Import Prelude.

Inductive NodeType :=
  Fifo | CharacterDevice | Directory | BlockDevice | RegularFile | Symlink | Socket.
#[export] Instance NodeType_eq_dec : EqDecision NodeType.
Proof. solve_decision. Defined.

Record Metadata := mkMetadata {
  md_device : Z; md_inode : Z; md_nlink : Z; md_mode : Z; md_node_type : NodeType;
  md_uid : Z; md_gid : Z; md_size : Z; md_block_size : Z; md_blocks : Z; md_rdev : Z;
  md_atime : Z; md_mtime : Z; md_ctime : Z;
}.
#[export] Instance eta_Metadata : Eta Metadata := λ m,
  mkMetadata (md_device m) (md_inode m) (md_nlink m) (md_mode m) (md_node_type m)
    (md_uid m) (md_gid m) (md_size m) (md_block_size m) (md_blocks m) (md_rdev m)
    (md_atime m) (md_mtime m) (md_ctime m).

Record MetadataUpdate := mkMetadataUpdate {
  mu_mode : option Z; mu_owner : option (Z * Z); mu_atime : option Z; mu_mtime : option Z;
}.

(** ** [SimpleFs]: inode numbers

    [Slab<()>] is its set of keys; [vacant] is the key an insertion takes. *)
Section SimpleFs.
Context (vacant : gset Z → Z).

Definition alloc_inode : M (gset Z) Z :=
  inodes ← getM;
  let key := vacant inodes in
  putM ({[key]} ∪ inodes);;
  mret (key + 1).

(** [Slab::remove] panics on a key that is not occupied. *)
Definition simple_release_inode (ino : Z) : M (gset Z) unit :=
  inodes ← getM;
  if decide (ino - 1 ∈ inodes) then putM (inodes ∖ {[ino - 1]}) else panicM.

Record SimpleFsNode := mkSimpleFsNode { sn_ino : Z; sn_metadata : Metadata }.
#[export] Instance eta_SimpleFsNode : Eta SimpleFsNode := λ n,
  mkSimpleFsNode (sn_ino n) (sn_metadata n).

Definition SimpleFsNode_new (node_type : NodeType) (mode : Z) : M (gset Z) SimpleFsNode :=
  ino ← alloc_inode;
  mret (mkSimpleFsNode ino (mkMetadata 0 ino 1 mode node_type 0 0 0 0 0 0 0 0 0)).

(** [Drop for SimpleFsNode] *)
Definition SimpleFsNode_drop (n : SimpleFsNode) : M (gset Z) unit :=
  simple_release_inode (sn_ino n).

(** [metadata]: the size is [len()], which is 0 for a bare node. *)
Definition SimpleFsNode_metadata (n : SimpleFsNode) : Metadata := (sn_metadata n) <| md_size := 0 |>.

Definition update_md (update : MetadataUpdate) (m : Metadata) : Metadata :=
  let m := match mu_mode update with Some mode => m <| md_mode := mode |> | None => m end in
  let m := match mu_owner update with
           | Some (uid, gid) => m <| md_uid := uid |> <| md_gid := gid |>
           | None => m
           end in
  let m := match mu_atime update with Some t => m <| md_atime := t |> | None => m end in
  match mu_mtime update with Some t => m <| md_mtime := t |> | None => m end.

Definition SimpleFsNode_update_metadata (update : MetadataUpdate) (n : SimpleFsNode) : SimpleFsNode :=
  n <| sn_metadata ::= update_md update |>.

(** Nodes are created and dropped in any order; [live] are those that exist. *)
Inductive node_step : gset Z * list SimpleFsNode → gset Z * list SimpleFsNode → Prop :=
| NsNew ty mode s live n s' :
    SimpleFsNode_new ty mode s = (Ok n, s') → node_step (s, live) (s', n :: live)
| NsUpdate update s live1 n live2 :
    node_step (s, live1 ++ n :: live2)
      (s, live1 ++ SimpleFsNode_update_metadata update n :: live2)
| NsDrop s live1 n live2 s' :
    SimpleFsNode_drop n s = (Ok tt, s') → node_step (s, live1 ++ n :: live2) (s', live1 ++ live2).

(** The occupied keys are those of the live nodes, no two of which share one. *)
Definition inodes_ok (c : gset Z * list SimpleFsNode) : Prop :=
  NoDup (sn_ino <$> c.2) ∧ ∀ k, k ∈ c.1 ↔ k + 1 ∈ sn_ino <$> c.2.

Context (vacant_fresh : ∀ s, vacant s ∉ s).

Lemma SimpleFsNode_drop_ok s live1 n live2 :
  inodes_ok (s, live1 ++ n :: live2) →
  SimpleFsNode_drop n s = (Ok tt, s ∖ {[sn_ino n - 1]}).
Proof.
  intros [_ Hk]. unfold SimpleFsNode_drop, simple_release_inode. unfold_m.
  rewrite decide_True; [done|]. apply Hk. cbn. rewrite fmap_app.
  replace (sn_ino n - 1 + 1) with (sn_ino n) by lia. set_solver.
Qed.

Lemma node_step_ok c c' : inodes_ok c → node_step c c' → inodes_ok c'.
Proof.
  intros Hok Hs. destruct Hs as [ty mode s live n s' Hn|update s live1 n live2|s live1 n live2 s' Hd].
  - destruct Hok as [Hnd Hk]. revert Hn. unfold SimpleFsNode_new, alloc_inode. unfold_m.
    intros [= <- <-]. unfold inodes_ok. cbn. split.
    + constructor; [|done]. rewrite <- Hk. apply vacant_fresh.
    + intros k. rewrite elem_of_union, elem_of_singleton, elem_of_cons, Hk. split; intros [?|?]; auto; left; lia.
  - destruct Hok as [Hnd Hk]. unfold inodes_ok. cbn in *. rewrite !fmap_app in *. done.
  - pose proof (SimpleFsNode_drop_ok _ _ _ _ Hok) as Hd'. destruct Hok as [Hnd Hk].
    rewrite Hd' in Hd. injection Hd as <-. unfold inodes_ok. cbn in *. rewrite !fmap_app in *. cbn in *.
    apply NoDup_app in Hnd as (H1 & H2 & H3). apply NoDup_cons in H3 as [H3 H4]. split.
    + apply NoDup_app. split_and!; [done|set_solver|done].
    + intros k. rewrite elem_of_difference, elem_of_singleton, Hk, !elem_of_app, elem_of_cons.
      split.
      * intros [[?|[?|?]] Hne]; auto. lia.
      * intros [Hi|Hi]; (split; [tauto|]); intros ->;
          replace (sn_ino n - 1 + 1) with (sn_ino n) in Hi by lia; [|done].
        apply (H2 _ Hi). left.
Qed.

Lemma nodes_ok c c' : inodes_ok c → rtc node_step c c' → inodes_ok c'.
Proof. intros H0 Hr. induction Hr; eauto using node_step_ok. Qed.

(** whatever nodes are created, changed and dropped, in any order, the
    nodes that exist have different inode numbers, the numbers handed out are
    exactly theirs, and dropping a node never panics. *)
Lemma inode_numbers_unique c :
  rtc node_step (∅, []) c →
  inodes_ok c
  ∧ ∀ live1 n live2, c.2 = live1 ++ n :: live2 → ∃ s', SimpleFsNode_drop n c.1 = (Ok tt, s').
Proof.
  intros Hr. assert (inodes_ok c) as Hok.
  { eapply nodes_ok; [|exact Hr]. split; cbn; [constructor|set_solver]. }
  split; [done|]. intros live1 n live2 Hl. destruct c as [s live]. cbn in Hl. subst live.
  eexists. by eapply SimpleFsNode_drop_ok.
Qed.
End SimpleFs.

(** ** Files read and written as a whole *)

(** [SimpleFileOps] *)
Class SimpleFileOps (F : Type) := {
  read_all : M F (list Z);
  write_all : list Z → M F unit;
}.

Inductive SimpleFileOperation := FileRead | FileWrite (data : list Z).

(** [RwFile]: one closure serves both. *)
Definition RwFile {F} (imp : SimpleFileOperation → M F (option (list Z))) : SimpleFileOps F := {|
  read_all := it ← imp FileRead; liftR (unwrap it);
  write_all data := imp (FileWrite data);; mret tt;
|}.

(** A closure without arguments: a file that cannot be written *)
Definition FnFile {F} (imp : M F (list Z)) : SimpleFileOps F := {|
  read_all := imp;
  write_all _ := failM BadFileDescriptor;
|}.

(** [Vec::resize(len, 0)]: a capacity above [isize::MAX] panics. *)
Definition vec_resize (len : Z) (data : list Z) : res (list Z) :=
  if len >? 2 ^ 63 - 1 then Panic
  else Ok (take (Z.to_nat len) data ++ replicate (Z.to_nat len - length data) 0).

Section SimpleFile.
Context {F : Type} `{SimpleFileOps F}.

Definition SimpleFile_len : M F Z := data ← read_all; mret (zlen data).

(** The bytes that are copied to the buffer of length [n] *)
Definition SimpleFile_read_at (n : nat) (offset : Z) : M F (list Z) :=
  data ← read_all;
  if zlen data <=? offset then mret []
  else
    let data := drop (Z.to_nat offset) data in
    mret (take (length data `min` n) data).

(** [data[start..end].copy_from_slice(buf)] *)
Definition copy_slice (data : list Z) (start stop : Z) (buf : list Z) : res (list Z) :=
  if (start <=? stop) && (stop <=? zlen data) && (stop - start =? zlen buf) then
    Ok (take (Z.to_nat start) data ++ buf ++ drop (Z.to_nat stop) data)
  else Panic.

Definition SimpleFile_write_at (buf : list Z) (offset : Z) : M F Z :=
  data ← read_all;
  if (offset =? 0) && (zlen data <=? zlen buf) then write_all buf;; mret (zlen buf)
  else
    let end_pos := add_u64 offset (zlen buf) in
    data ← (if end_pos >? zlen data then liftR (vec_resize end_pos data) else mret data);
    data ← liftR (copy_slice data offset end_pos buf);
    write_all data;;
    mret (zlen buf).

Definition SimpleFile_append (buf : list Z) : M F (Z * Z) :=
  data ← read_all;
  let data := data ++ buf in
  write_all data;;
  mret (zlen buf, zlen data).

Definition SimpleFile_set_len (len : Z) : M F unit :=
  data ← read_all;
  match Z.compare len (zlen data) with
  | Lt => write_all (take (Z.to_nat len) data)
  | Gt => data ← liftR (vec_resize len data); write_all data
  | Eq => mret tt
  end.

Definition SimpleFile_set_symlink (target : list Z) : M F unit := write_all target.
End SimpleFile.

(** A file that holds what was written: reading yields the content, and a
    write replaces it or fails and leaves it. *)
Class SimpleFileOk (F : Type) `{SimpleFileOps F} := {
  content : F → list Z;
  content_fits f : zlen (content f) ≤ 2 ^ 63 - 1;
  read_all_content f : read_all f = (Ok (content f), f);
  write_all_content d f r f' : write_all d f = (r, f') →
    r = Ok tt ∧ content f' = d ∨ (∃ e, r = Err e) ∧ content f' = content f;
}.

(** *** The reference: a file as a sequence of bytes, zero beyond its end *)
Definition zpad (n : nat) (d : list Z) : list Z := d ++ replicate (n - length d) 0.
Definition file_write (off : nat) (buf d : list Z) : list Z :=
  take off (zpad off d) ++ buf ++ drop (off + length buf) d.
Definition file_resize (n : nat) (d : list Z) : list Z := take n (zpad n d).

Section SimpleFileRef.
Context {F : Type} `{SimpleFileOk F}.

(** An operation that returns [a] and turns the content into [d], or fails
    and leaves it *)
Definition does {A} (m : M F A) (f : F) (a : A) (d : list Z) : Prop :=
  let '(r, f') := m f in
  r = Ok a ∧ content f' = d ∨ (∃ e, r = Err e) ∧ content f' = content f.

Lemma write_all_does {A} (a : A) d f : does (write_all d;; mret a) f a d.
Proof.
  unfold does. unfold_m. destruct (write_all d f) as [r f'] eqn:E.
  apply write_all_content in E as [[-> ?]|[[e ->] ?]]; eauto.
Qed.

Lemma file_resize_vec n d : (length d ≤ n)%nat → file_resize n d = take n d ++ replicate (n - length d) 0.
Proof.
  intros. unfold file_resize, zpad. rewrite !take_ge; [done|lia|].
  rewrite length_app, length_replicate. lia.
Qed.

Lemma vec_resize_ok len d : 0 ≤ len ≤ 2 ^ 63 - 1 →
  vec_resize len d = Ok (take (Z.to_nat len) d ++ replicate (Z.to_nat len - length d) 0).
Proof. intros. unfold vec_resize. destruct (Z.gtb_spec len (2 ^ 63 - 1)); [lia|done]. Qed.

Lemma copy_slice_ok d off buf :
  (off + length buf ≤ length d)%nat →
  copy_slice d (Z.of_nat off) (Z.of_nat off + zlen buf) buf = Ok (take off d ++ buf ++ drop (off + length buf) d).
Proof.
  intros Hl. unfold copy_slice, zlen.
  rewrite (proj2 (Z.leb_le _ _)), (proj2 (Z.leb_le _ _)), (proj2 (Z.eqb_eq _ _)) by lia. cbn.
  repeat f_equal; lia.
Qed.

Lemma write_at_does buf off f :
  Z.of_nat off + zlen buf ≤ 2 ^ 63 - 1 →
  does (SimpleFile_write_at buf (Z.of_nat off)) f (zlen buf) (file_write off buf (content f)).
Proof.
  intros Hb. pose proof (content_fits f) as Hf. unfold does, SimpleFile_write_at. unfold_m.
  rewrite read_all_content. set (d := content f).
  destruct ((Z.of_nat off =? 0) && (zlen d <=? zlen buf)) eqn:E.
  - apply andb_true_iff in E as [E1%Z.eqb_eq E2%Z.leb_le]. assert (off = 0%nat) as -> by lia.
    unfold file_write. unfold zlen in E2. rewrite drop_ge by lia. rewrite take_0, app_nil_r.
    apply (write_all_does (zlen buf)).
  - clear E. unfold add_u64. rewrite as_u64_small by (unfold in_u64, zlen in *; lia).
    destruct (Z.gtb_spec (Z.of_nat off + zlen buf) (zlen d)) as [Hg|Hg].
    + rewrite vec_resize_ok by (unfold zlen in *; lia).
      set (n := (off + length buf)%nat). replace (Z.to_nat (Z.of_nat off + zlen buf)) with n by (unfold n, zlen; lia).
      unfold zlen in Hg. rewrite (take_ge d n) by lia.
      rewrite copy_slice_ok by (rewrite length_app, length_replicate; lia).
      assert (take off (d ++ replicate (n - length d) 0) ++ buf ++ drop (off + length buf) (d ++ replicate (n - length d) 0)
        = file_write off buf d) as ->; [|apply (write_all_does (zlen buf))].
      unfold file_write, zpad. rewrite (drop_ge (d ++ _)), (drop_ge d) by (rewrite ?length_app, ?length_replicate; lia).
      f_equal. rewrite !take_app, !take_replicate. do 2 f_equal. lia.
    + rewrite copy_slice_ok by (unfold zlen in *; lia).
      assert (take off d ++ buf ++ drop (off + length buf) d = file_write off buf d) as ->;
        [|apply (write_all_does (zlen buf))].
      unfold file_write, zpad. f_equal. unfold zlen in Hg.
      replace (off - length d)%nat with 0%nat by lia. by rewrite app_nil_r.
Qed.

Lemma set_len_does len f : (Z.of_nat len ≤ 2 ^ 63 - 1) →
  does (SimpleFile_set_len (Z.of_nat len)) f tt (file_resize len (content f)).
Proof.
  intros Hb. unfold does, SimpleFile_set_len. unfold_m. rewrite read_all_content. set (d := content f).
  destruct (Z.compare_spec (Z.of_nat len) (zlen d)) as [Hc|Hc|Hc]; unfold zlen in Hc.
  - left. split; [done|]. unfold file_resize, zpad. replace (len - length d)%nat with 0%nat by lia.
    rewrite app_nil_r, take_ge by lia. done.
  - rewrite Nat2Z.id. replace (take len d) with (file_resize len d).
    + pose proof (write_all_does tt (file_resize len d) f) as Hd. unfold does in Hd. revert Hd. unfold_m.
      by destruct (write_all _ f) as [[[]|e|] f'].
    + unfold file_resize, zpad. by replace (len - length d)%nat with 0%nat by lia; rewrite app_nil_r.
  - rewrite vec_resize_ok, Nat2Z.id by lia. rewrite <- file_resize_vec by lia.
    pose proof (write_all_does tt (file_resize len d) f) as Hd. unfold does in Hd. revert Hd. unfold_m.
    by destruct (write_all _ f) as [[[]|e|] f'].
Qed.

(** Reading back what was written *)
Lemma file_write_read off buf d : take (length buf) (drop off (file_write off buf d)) = buf.
Proof.
  unfold file_write. rewrite drop_app_length', take_app_length; [done|].
  unfold zpad. rewrite length_take, length_app, length_replicate. lia.
Qed.

Lemma read_at_content n off f :
  SimpleFile_read_at n (Z.of_nat off) f = (Ok (take n (drop off (content f))), f).
Proof.
  unfold SimpleFile_read_at. unfold_m. rewrite read_all_content, Nat2Z.id.
  destruct (Z.leb_spec (zlen (content f)) (Z.of_nat off)) as [Hl|Hl]; unfold zlen in Hl.
  - by rewrite drop_ge, take_nil by lia.
  - do 2 f_equal. destruct (decide (n ≤ length (drop off (content f)))%nat).
    + by rewrite Nat.min_r by lia.
    + by rewrite Nat.min_l, !take_ge by lia.
Qed.

Lemma append_does buf f :
  does (SimpleFile_append buf) f (zlen buf, zlen (content f ++ buf)) (content f ++ buf).
Proof.
  unfold does, SimpleFile_append. unfold_m. rewrite read_all_content.
  apply (write_all_does (zlen buf, zlen (content f ++ buf))).
Qed.

Lemma write_at_far_panics buf off f :
  0 < off < 2 ^ 64 → zlen buf ≤ 2 ^ 63 - 1 → 2 ^ 63 - 1 < off + zlen buf →
  (SimpleFile_write_at buf off f).1 = Panic.
Proof.
  intros Ho Hb Hf. unfold SimpleFile_write_at. unfold_m. rewrite read_all_content.
  pose proof (content_fits f) as Hc. pose proof (zlen_nonneg buf).
  destruct (Z.eqb_spec off 0); [lia|]. cbn [andb].
  assert (2 ^ 63 - 1 < add_u64 off (zlen buf) ∨ add_u64 off (zlen buf) < off) as Hw.
  { unfold add_u64. destruct (decide (off + zlen buf < 2 ^ 64)).
    - left. rewrite as_u64_small by (unfold in_u64; lia). lia.
    - right. unfold as_u64, wrapu. rewrite <- (Z.mod_unique (off + zlen buf) (2 ^ 64) 1 (off + zlen buf - 2 ^ 64)); lia. }
  destruct (Z.gtb_spec (add_u64 off (zlen buf)) (zlen (content f))).
  - unfold vec_resize. destruct (Z.gtb_spec (add_u64 off (zlen buf)) (2 ^ 63 - 1)); [done|].
    unfold copy_slice. destruct (Z.leb_spec off (add_u64 off (zlen buf))); [lia|done].
  - unfold copy_slice. destruct (Z.leb_spec off (add_u64 off (zlen buf))); [lia|done].
Qed.

(** C25: a file that is only read and replaced as a whole behaves under reads,
    writes, appends and truncation at any position as a sequence of bytes that
    is zero beyond its end, whichever way the code takes: each operation
    answers as the reference does or fails and leaves the content, and what
    was written is read back at its place.  A write whose end is beyond the
    largest size panics. *)
Theorem simple_file_equiv off n len buf f :
  Z.of_nat off + zlen buf ≤ 2 ^ 63 - 1 → Z.of_nat len ≤ 2 ^ 63 - 1 →
  does (SimpleFile_write_at buf (Z.of_nat off)) f (zlen buf) (file_write off buf (content f))
  ∧ SimpleFile_read_at n (Z.of_nat off) f = (Ok (take n (drop off (content f))), f)
  ∧ does (SimpleFile_append buf) f (zlen buf, zlen (content f ++ buf)) (content f ++ buf)
  ∧ does (SimpleFile_set_len (Z.of_nat len)) f tt (file_resize len (content f))
  ∧ (∀ f', SimpleFile_write_at buf (Z.of_nat off) f = (Ok (zlen buf), f') →
       SimpleFile_read_at (length buf) (Z.of_nat off) f' = (Ok buf, f'))
  ∧ ∀ far, 0 < far < 2 ^ 64 → 2 ^ 63 - 1 < far + zlen buf →
      (SimpleFile_write_at buf far f).1 = Panic.
Proof.
  intros Hb Hn. pose proof (write_at_does buf off f Hb) as Hw.
  split_and!; auto using read_at_content, append_does, set_len_does.
  - intros f' He. unfold does in Hw. rewrite He in Hw.
    rewrite read_at_content. destruct Hw as [[_ ->]|[[e ?] _]]; [|done]. by rewrite file_write_read.
  - intros far Hf Hg. apply write_at_far_panics; [done|lia|done].
Qed.
End SimpleFileRef.

(** ** Directories

    A directory is given by the names it lists and the child behind a name.
    [N] is [NodeOpsMux], a directory or a file. *)

Record SimpleDirOps (N : Type) := mkSimpleDirOps {
  child_names : list string;
  lookup_child : string → res N;
  dir_is_cacheable : bool;
}.
Arguments mkSimpleDirOps {N}.
Arguments child_names {N}.
Arguments lookup_child {N}.
Arguments dir_is_cacheable {N}.

(** [DirMapping]: a [BTreeMap] from names, listed in their order *)
Abbreviation DirMapping N := (gmap string N).
Definition DirMapping_add {N} (name : string) (ops : N) (m : DirMapping N) : DirMapping N :=
  <[name := ops]> m.

Definition name_le (x y : string) : Prop := String.leb x y = true.
#[export] Instance name_le_dec : RelDecision name_le.
Proof. intros x y. unfold name_le. apply _. Defined.

Definition DirMapping_ops {N} (m : DirMapping N) : SimpleDirOps N := {|
  child_names := merge_sort name_le (map_to_list m).*1;
  lookup_child name := ok_or NotFound (m !! name);
  dir_is_cacheable := true;
|}.

(** [ChainedDirOps] *)
Definition ChainedDirOps {N} (a b : SimpleDirOps N) : SimpleDirOps N := {|
  child_names := child_names a ++ child_names b;
  lookup_child name :=
    match lookup_child a name with
    | Ok ops => Ok ops
    | Err NotFound => lookup_child b name
    | Err e => Err e
    | Panic => Panic
    end;
  dir_is_cacheable := dir_is_cacheable a && dir_is_cacheable b;
|}.

(** A directory lists exactly the names that have a child. *)
Definition lists_children {N} (d : SimpleDirOps N) : Prop :=
  ∀ name, name ∈ child_names d ↔ lookup_child d name ≠ Err NotFound.

Lemma DirMapping_lists {N} (m : DirMapping N) : lists_children (DirMapping_ops m).
Proof.
  intros name. cbn. rewrite merge_sort_Permutation, list_elem_of_fmap.
  destruct (m !! name) as [n|] eqn:E; cbn; (split; [|intros]); try done.
  - exists (name, n). by rewrite elem_of_map_to_list.
  - intros ([k v] & -> & Hi). cbn in *. rewrite elem_of_map_to_list in Hi. congruence.
Qed.

Lemma ChainedDirOps_lists {N} (a b : SimpleDirOps N) :
  lists_children a → lists_children b → lists_children (ChainedDirOps a b).
Proof.
  intros Ha Hb name. specialize (Ha name). specialize (Hb name). cbn. rewrite elem_of_app, Ha, Hb.
  destruct (lookup_child a name) as [n|e|]; [|destruct e|]; naive_solver.
Qed.

(** ** [SimpleDir]

    [read_entries] is the loop over the numbered names: [meta] yields the
    inode and the type of an entry, [accept] is the sink, which may refuse. *)

Section ReadDir.
Context {K : Type} (accept : string → Z → Z → Z → K → bool * K).

Fixpoint read_entries (meta : string → res (Z * Z)) (names : list string) (i count : Z) : M K Z :=
  match names with
  | [] => mret count
  | name :: names => λ k,
      match meta name with
      | Ok (ino, ty) =>
          let '(more, k') := accept name ino ty (i + 1) k in
          if negb more then (Ok count, k')
          else read_entries meta names (i + 1) (count + 1) k'
      | Err e => (Err e, k)
      | Panic => (Panic, k)
      end
  end.

(** [this] and [parent] are the metadata of the directory and of its parent,
    if it has one; [lookup] is that of the directory's entry. *)
Definition SimpleDir_entry_meta (this : res (Z * Z)) (parent : option (res (Z * Z)))
    (lookup : string → res (Z * Z)) (name : string) : res (Z * Z) :=
  if decide (name = "."%string) then this
  else if decide (name = ".."%string) then match parent with Some p => p | None => this end
  else lookup name.

Definition SimpleDir_read_dir {N} (ops : SimpleDirOps N) (this : res (Z * Z)) (parent : option (res (Z * Z)))
    (lookup : string → res (Z * Z)) (offset : nat) : M K Z :=
  let children := "."%string :: ".."%string :: child_names ops in
  read_entries (SimpleDir_entry_meta this parent lookup) (drop offset children) (Z.of_nat offset) 0.

Lemma read_entries_ext meta meta' names i count k :
  (∀ name, name ∈ names → meta name = meta' name) →
  read_entries meta names i count k = read_entries meta' names i count k.
Proof.
  revert i count k. induction names as [|x names IH]; intros i count k Hm; [done|].
  cbn [read_entries]. rewrite (Hm x) by set_solver. destruct (meta' x) as [[ino ty]|e|]; [|done..].
  destruct (accept x ino ty (i + 1) k) as [[] k']; cbn [negb]; [|done].
  apply IH. intros. apply Hm. set_solver.
Qed.
End ReadDir.

(** ** Witnesses *)

(** A file in memory, of at most [n] bytes *)
Record mem_file := mkMemFile { mf_data : list Z }.
#[export] Instance mem_file_ops : SimpleFileOps mem_file := {
  read_all f := (Ok (take 100 (mf_data f)), f);
  write_all d := λ f, if decide (length d ≤ 100)%nat then (Ok tt, mkMemFile d) else (Err NoMemory, f);
}.
#[export] Instance mem_file_ok : SimpleFileOk mem_file.
Proof.
  refine {| content f := take 100 (mf_data f) |}; [|done|].
  - intros f. unfold zlen. rewrite length_take. lia.
  - intros d f r f'. cbn. case_decide; intros [= <- <-]; [left|right; eauto].
    split; [done|]. cbn. by rewrite take_ge by lia.
Defined.

Lemma simple_file_equiv_witness :
  does (SimpleFile_write_at [7; 8] 4) (mkMemFile [1; 2]) 2 [1; 2; 0; 0; 7; 8].
Proof. refine (proj1 (simple_file_equiv 4 0 0 [7; 8] (mkMemFile [1; 2]) _ _)); unfold zlen; cbn; lia. Defined.

Lemma set_max_bound a (s : gset Z) k : k ∈ s → k ≤ set_fold Z.max a s.
Proof.
  rewrite <- elem_of_elements. unfold set_fold. cbn.
  induction (elements s) as [|x l IH]; cbn; [by intros ?%elem_of_nil|].
  intros [->|Hk]%elem_of_cons; [lia|]. specialize (IH Hk). lia.
Qed.

