(* ===== verification/FsPath.v ===== *)
(** * Paths, file objects and file status

    [api/src/file/fs.rs] (resolution of paths relative to a descriptor, the
    [File] and [Directory] objects), [Kstat] and its conversions of
    [api/src/file/mod.rs], and [api/src/syscall/fs/stat.rs].

    Locations, contexts and open files of the crates [axfs] and [axfs_ng_vfs]
    are an interface; locations, open files and file objects are numbers.  C
    structures have the field types of x86-64. *)

From S2P Require Import Prelude Bytes Text Vm Time FdTable SimpleVfs.
Open Scope Z_scope.

Definition AT_FDCWD : Z := -100.
Definition AT_SYMLINK_NOFOLLOW : Z := 0x100.
Definition AT_EMPTY_PATH : Z := 0x1000.
Definition R_OK : Z := 4.
Definition W_OK : Z := 2.
Definition X_OK : Z := 1.
Definition OWNER_EXEC : Z := 0x40.

(** ** File status *)

Record Kstat := mkKstat {
  k_dev : Z; k_ino : Z; k_nlink : Z; k_mode : Z; k_uid : Z; k_gid : Z; k_size : Z; k_blksize : Z;
  k_blocks : Z; k_rdev : Z; k_atime : TimeValue; k_mtime : TimeValue; k_ctime : TimeValue;
}.
#[export] Instance eta_Kstat : Eta Kstat := λ k,
  mkKstat (k_dev k) (k_ino k) (k_nlink k) (k_mode k) (k_uid k) (k_gid k) (k_size k) (k_blksize k)
    (k_blocks k) (k_rdev k) (k_atime k) (k_mtime k) (k_ctime k).

(** [DeviceId] and [NodeType as u8] of [axfs_ng_vfs] *)
Class NodeCodes := {
  dev_new : Z → Z → Z;
  dev_major : Z → Z;
  dev_minor : Z → Z;
  node_type_u8 : NodeType → Z;
}.
Class NodeCodesOk `{NodeCodes} := {
  dev_new_major a b : in_u32 a → in_u32 b → dev_major (dev_new a b) = a;
  dev_new_minor a b : in_u32 a → in_u32 b → dev_minor (dev_new a b) = b;
  node_type_range t : 0 < node_type_u8 t < 16;
  node_type_inj t t' : node_type_u8 t = node_type_u8 t' → t = t';
}.

Definition Kstat_default : Kstat := mkKstat 0 1 1 0 1 1 0 4096 0 0 0 0 0.

Record stat := mkStat {
  st_dev : Z; st_ino : Z; st_nlink : Z; st_mode : Z; st_uid : Z; st_gid : Z; st_size : Z; st_blksize : Z;
  st_blocks : Z; st_rdev : Z; st_atime : Z; st_atime_nsec : Z; st_mtime : Z; st_mtime_nsec : Z;
  st_ctime : Z; st_ctime_nsec : Z;
}.
Record statx_timestamp := mkStatxTimestamp { stx_sec : Z; stx_nsec : Z }.
Record statx := mkStatx {
  stx_mask : Z; stx_blksize : Z; stx_attributes : Z; stx_nlink : Z; stx_uid : Z; stx_gid : Z; stx_mode : Z;
  stx_ino : Z; stx_size : Z; stx_blocks : Z; stx_rdev_major : Z; stx_rdev_minor : Z; stx_dev_major : Z;
  stx_dev_minor : Z; stx_atime : statx_timestamp; stx_ctime : statx_timestamp; stx_mtime : statx_timestamp;
}.

Definition stat_of (k : Kstat) : stat :=
  mkStat (as_u64 (k_dev k)) (as_u64 (k_ino k)) (as_u64 (k_nlink k)) (as_u32 (k_mode k)) (as_u32 (k_uid k))
    (as_u32 (k_gid k)) (as_i64 (k_size k)) (as_i64 (k_blksize k)) (as_i64 (k_blocks k)) (as_u64 (k_rdev k))
    (as_u64 (as_secs (k_atime k))) (as_u64 (subsec_nanos (k_atime k)))
    (as_u64 (as_secs (k_mtime k))) (as_u64 (subsec_nanos (k_mtime k)))
    (as_u64 (as_secs (k_ctime k))) (as_u64 (subsec_nanos (k_ctime k))).

Definition time_to_statx (t : TimeValue) : statx_timestamp :=
  mkStatxTimestamp (as_i64 (as_secs t)) (as_u32 (subsec_nanos t)).

(** The mask stays as [zeroed] leaves it. *)
Definition statx_of `{NodeCodes} (k : Kstat) : statx :=
  mkStatx 0 (as_u32 (k_blksize k)) (as_u64 (k_mode k)) (as_u32 (k_nlink k)) (as_u32 (k_uid k)) (as_u32 (k_gid k))
    (as_u16 (k_mode k)) (as_u64 (k_ino k)) (as_u64 (k_size k)) (as_u64 (k_blocks k))
    (dev_major (k_rdev k)) (dev_minor (k_rdev k)) (as_u32 (Z.shiftr (k_dev k) 32)) (as_u32 (k_dev k))
    (time_to_statx (k_atime k)) (time_to_statx (k_ctime k)) (time_to_statx (k_mtime k)).

Definition metadata_to_kstat `{NodeCodes} (m : Metadata) : Kstat :=
  let ty := node_type_u8 (md_node_type m) in
  let perm := as_u32 (md_mode m) in
  mkKstat (md_device m) (md_inode m) (as_u32 (md_nlink m)) (Z.lor (Z.shiftl ty 12) perm) (md_uid m) (md_gid m)
    (md_size m) (as_u32 (md_block_size m)) (md_blocks m) (md_rdev m) (md_atime m) (md_mtime m) (md_ctime m).

(** [statfs] of a file system, and the C structure *)
Record StatFs := mkStatFs {
  sf_type : Z; sf_block_size : Z; sf_blocks : Z; sf_blocks_free : Z; sf_blocks_available : Z; sf_file_count : Z;
  sf_free_file_count : Z; sf_name_length : Z; sf_fragment_size : Z; sf_mount_flags : Z;
}.
Record statfs := mkStatfs {
  f_type : Z; f_bsize : Z; f_blocks : Z; f_bfree : Z; f_bavail : Z; f_files : Z; f_ffree : Z; f_fsid : Z * Z;
  f_namelen : Z; f_frsize : Z; f_flags : Z;
}.

(** ** The file system

    The operations the calls use, of a context [C] ([FsContext]) and a world
    [W] of nodes.  Resolving a path may make nodes and fill caches, so it is an
    effect on the world: in the directories of procfs, which are not cached,
    each lookup makes a new node.  [open] gives an open file or the location of
    a directory. *)

Record OpenOptions := mkOpenOptions {
  o_mode : option Z; o_user : option (Z * Z); o_read : bool; o_write : bool; o_append : bool; o_truncate : bool;
  o_create : bool; o_path : bool; o_create_new : bool; o_directory : bool; o_no_follow : bool; o_direct : bool;
}.
#[export] Instance eta_OpenOptions : Eta OpenOptions := λ o,
  mkOpenOptions (o_mode o) (o_user o) (o_read o) (o_write o) (o_append o) (o_truncate o) (o_create o)
    (o_path o) (o_create_new o) (o_directory o) (o_no_follow o) (o_direct o).
Inductive OpenResult := OpenFile (file : Z) | OpenDir (dir : Z).

Class FsWorld (C W : Type) := {
  ctx_new : Z → C;
  ctx_current_dir : C → Z;
  ctx_set_current_dir : Z → C → W → res C;
  ctx_with_current_dir : Z → C → W → res C;
  fs_resolve : C → bytes → M W Z;
  fs_resolve_no_follow : C → bytes → M W Z;
  fs_resolve_parent : C → bytes → M W (Z * bytes);
  fs_resolve_nonexistent : C → bytes → M W (Z * bytes);
  fs_create_dir : C → bytes → Z → M W Z;
  fs_remove_file : C → bytes → M W unit;
  fs_remove_dir : C → bytes → M W unit;
  fs_symlink : C → bytes → bytes → M W Z;
  fs_open : C → OpenOptions → bytes → M W OpenResult;
  loc_metadata : W → Z → res Metadata;
  loc_update_metadata : Z → MetadataUpdate → M W unit;
  loc_node_type : W → Z → NodeType;
  loc_absolute_path : W → Z → res bytes;
  loc_read_link : W → Z → res bytes;
  loc_link : Z → bytes → Z → M W Z;
  loc_rename : Z → bytes → Z → bytes → M W unit;
  loc_ioctl : Z → Z → Z → M W Z;
  loc_statfs : W → Z → res StatFs;
  loc_mount_device : W → Z → Z;               (* [mountpoint().device()] *)
  loc_mount_root : W → Z → Z;                 (* [mountpoint().root_location()] *)
  af_location : W → Z → Z;                    (* [axfs::File::location] *)
  af_backend : W → Z → res Z;                 (* [backend()?.location()] *)
}.

(** The file objects behind descriptors; other objects are behind [Others]. *)
Inductive FileObj := OFile (inner : Z) (nonblock : bool) | ODirectory (inner : Z) (offset : Z) | OOther.

Class Others (W : Type) := {
  other_stat : W → Z → res Kstat;
  other_ioctl : Z → Z → Z → M W Z;
  other_set_nonblocking : Z → bool → M W unit;
}.

(** Strings in user memory, up to the terminating null *)
Class UserText (V : Type) := { vm_load_until_nul : V → Z → res bytes }.

Record FsSt (C W V F : Type) := mkFsSt {
  s_ctx : C;                                  (* [FS_CONTEXT] *)
  s_fs : W;
  s_vm : V;
  s_fd : FdState F (gmap Z FileObj);          (* [FD_TABLE] and the objects *)
  s_umask : Z;
  s_max_nofile : Z;
  s_wall : TimeValue;                         (* [wall_time()] *)
}.
Arguments mkFsSt {C W V F}.
Arguments s_ctx {C W V F}.
Arguments s_fs {C W V F}.
Arguments s_vm {C W V F}.
Arguments s_fd {C W V F}.
Arguments s_umask {C W V F}.
Arguments s_max_nofile {C W V F}.
Arguments s_wall {C W V F}.
#[export] Instance eta_FsSt C W V F : Eta (FsSt C W V F) := λ s,
  mkFsSt (s_ctx s) (s_fs s) (s_vm s) (s_fd s) (s_umask s) (s_max_nofile s) (s_wall s).

Section Paths.
Context {C W V F : Type} `{FsWorld C W, Others W, UserText V, FlattenObjects F, NodeCodes}.
Abbreviation S := (FsSt C W V F).

Definition on_fs {A} (m : M W A) : M S A := λ s, let '(r, w) := m (s_fs s) in (r, s <| s_fs := w |>).
Definition on_vm {A} (m : M V A) : M S A := λ s, let '(r, v) := m (s_vm s) in (r, s <| s_vm := v |>).
Definition on_fd {A} (m : M (FdState F (gmap Z FileObj)) A) : M S A := λ s,
  let '(r, t) := m (s_fd s) in (r, s <| s_fd := t |>).

Definition object (f : Z) (s : S) : FileObj := default OOther (fs_files (s_fd s) !! f).

Definition vm_load_string (ptr : Z) : M S bytes :=
  s ← getM;
  bytes ← liftR (vm_load_until_nul (s_vm s) ptr);
  if utf8 bytes then mret bytes else failM IllegalBytes.
(** [path.nullable().map(vm_load_string).transpose()?] *)
Definition load_path (ptr : Z) : M S (option bytes) := when_not_null ptr (vm_load_string ptr).

(** ** [file/fs.rs] *)

Definition Fs_File_from_fd (fd : Z) : M S Z :=
  f ← on_fd (get_file_like fd);
  s ← getM;
  match object f s with
  | OFile inner _ => mret inner
  | ODirectory _ _ => failM IsADirectory
  | OOther => failM BrokenPipe
  end.

Definition Directory_from_fd (fd : Z) : M S Z :=
  f ← on_fd (get_file_like fd);
  s ← getM;
  match object f s with ODirectory inner _ => mret inner | _ => failM NotADirectory end.

(** The closures the callers pass do not replace the context they are given. *)
Definition with_fs {A} (dirfd : Z) (f : C → M S A) : M S A :=
  s ← getM;
  if dirfd =? AT_FDCWD then f (s_ctx s)
  else
    dir ← Directory_from_fd dirfd;
    fs ← liftR (ctx_with_current_dir dir (s_ctx s) (s_fs s));
    f fs.

Inductive ResolveAtResult := RFile (loc : Z) | ROther (file_like : Z).

Definition into_file (r : ResolveAtResult) : option Z :=
  match r with RFile loc => Some loc | ROther _ => None end.

Definition FileLike_stat (f : Z) (s : S) : res Kstat :=
  match object f s with
  | OFile inner _ => metadata_to_kstat <$> loc_metadata (s_fs s) (af_location (s_fs s) inner)
  | ODirectory inner _ => metadata_to_kstat <$> loc_metadata (s_fs s) inner
  | OOther => other_stat (s_fs s) f
  end.

Definition ResolveAtResult_stat (r : ResolveAtResult) : M S Kstat :=
  s ← getM;
  match r with
  | RFile loc => liftR (metadata_to_kstat <$> loc_metadata (s_fs s) loc)
  | ROther f => liftR (FileLike_stat f s)
  end.

Definition resolve_at (dirfd : Z) (path : option bytes) (flags : Z) : M S ResolveAtResult :=
  match path with
  | None | Some [] =>
      if Z.land flags AT_EMPTY_PATH =? 0 then failM NotFound
      else
        f ← on_fd (get_file_like dirfd);
        s ← getM;
        match object f s with
        | OFile inner _ => loc ← liftR (af_backend (s_fs s) inner); mret (RFile loc)
        | ODirectory inner _ => mret (RFile inner)
        | OOther => mret (ROther f)
        end
  | Some path =>
      with_fs dirfd (λ fs,
        loc ← on_fs (if negb (Z.land flags AT_SYMLINK_NOFOLLOW =? 0)
                     then fs_resolve_no_follow fs path else fs_resolve fs path);
        mret (RFile loc))
  end.

(** [File::ioctl], [set_nonblocking] of the objects, and their defaults *)
Definition FileLike_ioctl (f cmd arg : Z) : M S Z :=
  s ← getM;
  match object f s with
  | OFile inner _ => loc ← liftR (af_backend (s_fs s) inner); on_fs (loc_ioctl loc cmd arg)
  | ODirectory _ _ => failM NotATty
  | OOther => on_fs (other_ioctl f cmd arg)
  end.

Definition FileLike_set_nonblocking (f : Z) (flag : bool) : M S unit :=
  s ← getM;
  match object f s with
  | OFile inner _ => modifyM (λ s : S, s <| s_fd ::= λ t, t <| fs_files ::= <[f := OFile inner flag]> |> |>)
  | ODirectory _ _ => mret tt
  | OOther => on_fs (other_set_nonblocking f flag)
  end.

(** ** [syscall/fs/stat.rs] *)

Context `{VmPtr V stat, VmPtr V statx, VmPtr V statfs}.

Definition sys_fstatat (dirfd path statbuf flags : Z) : M S Z :=
  path ← load_path path;
  loc ← resolve_at dirfd path flags;
  k ← ResolveAtResult_stat loc;
  on_vm (vm_write statbuf (stat_of k));;
  mret 0.

Definition sys_stat (path statbuf : Z) : M S Z := sys_fstatat AT_FDCWD path statbuf 0.
Definition sys_fstat (fd statbuf : Z) : M S Z := sys_fstatat fd 0 statbuf AT_EMPTY_PATH.
Definition sys_lstat (path statbuf : Z) : M S Z := sys_fstatat AT_FDCWD path statbuf AT_SYMLINK_NOFOLLOW.

Definition sys_statx (dirfd path flags mask statxbuf : Z) : M S Z :=
  path ← load_path path;
  loc ← resolve_at dirfd path flags;
  k ← ResolveAtResult_stat loc;
  on_vm (vm_write statxbuf (statx_of k));;
  mret 0.

Definition required_mode (mode : Z) : Z :=
  let m := if negb (Z.land mode R_OK =? 0) then OWNER_READ else 0 in
  let m := if negb (Z.land mode W_OK =? 0) then Z.lor m OWNER_WRITE else m in
  if negb (Z.land mode X_OK =? 0) then Z.lor m OWNER_EXEC else m.

Definition sys_faccessat2 (dirfd path mode flags : Z) : M S Z :=
  path ← load_path path;
  file ← resolve_at dirfd path flags;
  if mode =? 0 then mret 0
  else
    let required := required_mode mode in
    k ← ResolveAtResult_stat file;
    if negb (Z.land (as_u16 (k_mode k)) required =? required) then failM PermissionDenied else mret 0.

Definition sys_access (path mode : Z) : M S Z := sys_faccessat2 AT_FDCWD path mode 0.

Definition statfs_of (loc : Z) (w : W) : res statfs :=
  st ← loc_statfs w loc;
  mret (mkStatfs (as_i64 (sf_type st)) (as_i64 (sf_block_size st)) (as_i64 (sf_blocks st))
          (as_i64 (sf_blocks_free st)) (as_i64 (sf_blocks_available st)) (as_i64 (sf_file_count st))
          (as_i64 (sf_free_file_count st)) (0, as_i32 (loc_mount_device w loc))
          (as_i64 (sf_name_length st)) (as_i64 (sf_fragment_size st)) (as_i64 (sf_mount_flags st))).

Definition sys_statfs (path buf : Z) : M S Z :=
  path ← vm_load_string path;
  s ← getM;
  loc ← on_fs (fs_resolve (s_ctx s) path);
  s ← getM;
  st ← liftR (statfs_of (loc_mount_root (s_fs s) loc) (s_fs s));
  on_vm (vm_write buf st);;
  mret 0.

Definition sys_fstatfs (fd buf : Z) : M S Z :=
  inner ← Fs_File_from_fd fd;
  s ← getM;
  st ← liftR (statfs_of (af_location (s_fs s) inner) (s_fs s));
  on_vm (vm_write buf st);;
  mret 0.

(** ** Facts *)

Lemma get_file_like_pure fd (s : S) r s' : on_fd (get_file_like fd) s = (r, s') → s' = s ∧ r ≠ Panic.
Proof.
  unfold on_fd, get_file_like. unfold_m. cbn. destruct (fo_get _ _); intros [= <- <-]; destruct s; done.
Qed.

Lemma Directory_from_fd_pure fd (s : S) r s' : Directory_from_fd fd s = (r, s') → s' = s ∧ r ≠ Panic.
Proof.
  unfold Directory_from_fd. unfold_m. destruct (on_fd _ s) as [[f|e|] s1] eqn:E;
    apply get_file_like_pure in E as [-> Hp]; try done; [|by intros [= <- <-]].
  destruct (object f s); by intros [= <- <-].
Qed.

(** What a descriptor gives a path to start from *)
Lemma with_fs_cwd {A} (f : C → M S A) s : with_fs AT_FDCWD f s = f (s_ctx s) s.
Proof. done. Qed.

Lemma with_fs_dir {A} dirfd dir c (f : C → M S A) s :
  dirfd ≠ AT_FDCWD → Directory_from_fd dirfd s = (Ok dir, s) →
  ctx_with_current_dir dir (s_ctx s) (s_fs s) = Ok c → with_fs dirfd f s = f c s.
Proof.
  intros Hfd Hdir Hc. unfold with_fs. unfold_m. cbn. rewrite (proj2 (Z.eqb_neq _ _)) by done. by rewrite Hdir, Hc.
Qed.

Lemma with_fs_err {A} dirfd (f : C → M S A) s e :
  dirfd ≠ AT_FDCWD → Directory_from_fd dirfd s = (Err e, s) → with_fs dirfd f s = (Err e, s).
Proof.
  intros Hfd Hdir. unfold with_fs. unfold_m. cbn. rewrite (proj2 (Z.eqb_neq _ _)) by done. by rewrite Hdir.
Qed.

(** The mode of a status record holds the type and the permissions. *)
Lemma kstat_mode `{!NodeCodesOk} (m : Metadata) : 0 ≤ md_mode m < 2 ^ 12 →
  Z.shiftr (k_mode (metadata_to_kstat m)) 12 = node_type_u8 (md_node_type m)
  ∧ Z.land (k_mode (metadata_to_kstat m)) (Z.ones 12) = md_mode m
  ∧ 0 ≤ k_mode (metadata_to_kstat m) < 2 ^ 16.
Proof.
  intros Hm. pose proof (node_type_range (md_node_type m)) as Ht. cbn. rewrite as_u32_small by (unfold in_u32; lia).
  rewrite lor_shiftl_add, Z.shiftr_div_pow2, Z.land_ones by lia. split; [|split].
  - rewrite Z.div_add_l by lia. rewrite Z.div_small by lia. lia.
  - rewrite Z.add_comm, Z.mod_add by lia. by rewrite Z.mod_small by lia.
  - lia.
Qed.
End Paths.
