(* ===== verification/FsCtl.v ===== *)
(** * Calls on paths

    [api/src/syscall/fs/ctl.rs] without the directory listing (which is in
    [Dirents]), opening files ([sys_openat] of
    [api/src/syscall/fs/fd_ops.rs], [add_stdio] of [api/src/file/mod.rs],
    [api/src/syscall/fs/memfd.rs]) and mounting
    ([api/src/syscall/fs/mount.rs], [api/src/vfs/mod.rs]). *)

From S2P Require Import Prelude Bytes Text Vm Time FdTable SimpleVfs FsPath.
Open Scope Z_scope.

Definition FIONBIO : Z := 0x5421.
Definition AT_REMOVEDIR : Z := 0x200.
Definition UTIME_NOW : Z := 0x3fffffff.
Definition UTIME_OMIT : Z := 0x3ffffffe.
Definition O_CREAT : Z := 0x40.
Definition O_EXCL : Z := 0x80.
Definition O_TRUNC : Z := 0x200.
Definition O_APPEND : Z := 0x400.
Definition O_DIRECT : Z := 0x4000.
Definition O_DIRECTORY : Z := 0x10000.
Definition O_NOFOLLOW : Z := 0x20000.
Definition O_PATH : Z := 0x200000.
Definition MFD_CLOEXEC : Z := 1.
(** The bits of [NodePermission] *)
Definition PERMISSIONS : Z := 0xfff.
Definition SET_UID : Z := 0x800.
Definition SET_GID : Z := 0x400.
Definition GROUP_EXEC : Z := 8.

(** The device behind an open file, and the terminal of the session *)
Inductive DevKind := DevNone | DevPtmx | DevCurrentTty | DevOther.
Inductive TermKind := TermNTty | TermPty (number : Z) | TermUnknown.
Inductive MountFs := DevFs | ProcFs | MemoryFs.

Class OpenWorld (W : Type) := {
  open_into_file : OpenResult → res Z;                  (* [OpenResult::into_file] *)
  af_device : W → Z → DevKind;
  ptmx_create_pty : M W (Z * Z);                        (* [Ptmx::create_pty] *)
  af_on_device : Z → Z → Z → Z → M W Z;                 (* a file on a new entry of a directory *)
  af_direct : Z → Z → M W Z;                            (* a file on a location, with the flags of another *)
  session_terminal : W → option TermKind;
  loc_mount : Z → MountFs → M W unit;
  loc_unmount : Z → M W unit;
}.

Section Ctl.
Context {C W V F : Type} `{FsWorld C W, Others W, OpenWorld W, UserText V, FlattenObjects F, NodeCodes}.
Context `{VmPtr V Z, VmPtr V bytes, VmPtr V (timespec * timespec), VmPtr V (timeval * timeval), VmPtr V (Z * Z)}.
Context `{VmPtr V stat, VmPtr V statx, VmPtr V statfs}.
Abbreviation S := (FsSt C W V F).

(** ** Descriptors and the working directory *)

Definition sys_ioctl (fd cmd arg : Z) : M S Z :=
  f ← on_fd (get_file_like fd);
  if cmd =? FIONBIO then
    s ← getM;
    val ← liftR (vm_read (s_vm s) arg);
    if negb (val =? 0) && negb (val =? 1) then failM InvalidInput
    else FileLike_set_nonblocking f (negb (val =? 0));; mret 0
  else FileLike_ioctl f cmd arg.

Definition set_current_dir (entry : Z) : M S unit :=
  s ← getM;
  c ← liftR (ctx_set_current_dir entry (s_ctx s) (s_fs s));
  putM (s <| s_ctx := c |>).

Definition sys_chdir (path : Z) : M S Z :=
  path ← vm_load_string path;
  s ← getM;
  entry ← on_fs (fs_resolve (s_ctx s) path);
  set_current_dir entry;;
  mret 0.

Definition sys_fchdir (dirfd : Z) : M S Z :=
  entry ← with_fs dirfd (λ fs, mret (ctx_current_dir fs));
  set_current_dir entry;;
  mret 0.

Definition sys_chroot (path : Z) : M S Z :=
  path ← vm_load_string path;
  s ← getM;
  loc ← on_fs (fs_resolve (s_ctx s) path);
  s ← getM;
  if bool_decide (loc_node_type (s_fs s) loc ≠ Directory) then failM NotADirectory
  else modifyM (λ s : S, s <| s_ctx := ctx_new loc |>);; mret 0.

Definition sys_getcwd (buf size : Z) : M S Z :=
  if size <? 0 then failM BadAddress
  else if buf =? 0 then mret 0
  else
    s ← getM;
    cwd ← liftR (loc_absolute_path (s_fs s) (ctx_current_dir (s_ctx s)));
    if existsb (λ c, c =? 0) cwd then failM InvalidInput
    else
      let cwd := cwd ++ [0] in
      if zlen cwd <=? size then on_vm (vm_write buf cwd);; mret (as_i64 buf)
      else failM OutOfRange.

(** ** Making and removing entries *)

Definition sys_mkdirat (dirfd path mode : Z) : M S Z :=
  path ← vm_load_string path;
  s ← getM;
  let mode := Z.ldiff mode (s_umask s) in
  let mode := Z.land (as_u16 mode) PERMISSIONS in
  with_fs dirfd (λ fs, on_fs (fs_create_dir fs path mode);; mret 0).
Definition sys_mkdir (path mode : Z) : M S Z := sys_mkdirat AT_FDCWD path mode.

Definition sys_linkat (old_dirfd old_path new_dirfd new_path flags : Z) : M S Z :=
  old_path ← load_path old_path;
  new_path ← vm_load_string new_path;
  r ← resolve_at old_dirfd old_path flags;
  old ← liftR (ok_or BadFileDescriptor (into_file r));
  s ← getM;
  if bool_decide (loc_node_type (s_fs s) old = Directory) then failM OperationNotPermitted
  else
    p ← with_fs new_dirfd (λ fs, on_fs (fs_resolve_nonexistent fs new_path));
    on_fs (loc_link p.1 p.2 old);;
    mret 0.
Definition sys_link (old_path new_path : Z) : M S Z := sys_linkat AT_FDCWD old_path AT_FDCWD new_path 0.

Definition sys_unlinkat (dirfd path flags : Z) : M S Z :=
  path ← vm_load_string path;
  with_fs dirfd (λ fs,
    (if flags =? AT_REMOVEDIR then on_fs (fs_remove_dir fs path) else on_fs (fs_remove_file fs path));;
    mret 0).
Definition sys_rmdir (path : Z) : M S Z := sys_unlinkat AT_FDCWD path AT_REMOVEDIR.
Definition sys_unlink (path : Z) : M S Z := sys_unlinkat AT_FDCWD path 0.

Definition sys_symlinkat (target new_dirfd linkpath : Z) : M S Z :=
  target ← vm_load_string target;
  linkpath ← vm_load_string linkpath;
  with_fs new_dirfd (λ fs, on_fs (fs_symlink fs target linkpath);; mret 0).
Definition sys_symlink (target linkpath : Z) : M S Z := sys_symlinkat target AT_FDCWD linkpath.

Definition sys_readlinkat (dirfd path buf size : Z) : M S Z :=
  path ← vm_load_string path;
  with_fs dirfd (λ fs,
    entry ← on_fs (fs_resolve_no_follow fs path);
    s ← getM;
    link ← liftR (loc_read_link (s_fs s) entry);
    let read := Z.min size (zlen link) in
    on_vm (vm_write buf (take (Z.to_nat read) link));;
    mret (as_i64 read)).
Definition sys_readlink (path buf size : Z) : M S Z := sys_readlinkat AT_FDCWD path buf size.

Definition sys_renameat2 (old_dirfd old_path new_dirfd new_path flags : Z) : M S Z :=
  old_path ← vm_load_string old_path;
  new_path ← vm_load_string new_path;
  o ← with_fs old_dirfd (λ fs, on_fs (fs_resolve_parent fs old_path));
  n ← with_fs new_dirfd (λ fs, on_fs (fs_resolve_nonexistent fs new_path));
  on_fs (loc_rename o.1 o.2 n.1 n.2);;
  mret 0.
Definition sys_renameat (old_dirfd old_path new_dirfd new_path : Z) : M S Z :=
  sys_renameat2 old_dirfd old_path new_dirfd new_path 0.
Definition sys_rename (old_path new_path : Z) : M S Z := sys_renameat AT_FDCWD old_path AT_FDCWD new_path.

(** ** Owners, modes and times *)

(** [resolve_at(...)?.into_file().ok_or(BadFileDescriptor)?] *)
Definition resolve_file (dirfd : Z) (path : option bytes) (flags : Z) : M S Z :=
  r ← resolve_at dirfd path flags;
  liftR (ok_or BadFileDescriptor (into_file r)).

Definition chown_mode (mode : Z) : Z :=
  let mode := Z.ldiff mode SET_UID in
  if has_flag mode GROUP_EXEC then Z.ldiff mode SET_GID else mode.

Definition sys_fchownat (dirfd path uid gid flags : Z) : M S Z :=
  path ← load_path path;
  loc ← resolve_file dirfd path flags;
  s ← getM;
  meta ← liftR (loc_metadata (s_fs s) loc);
  let uid := if uid =? -1 then md_uid meta else as_u32 uid in
  let gid := if gid =? -1 then md_gid meta else as_u32 gid in
  on_fs (loc_update_metadata loc (mkMetadataUpdate (Some (chown_mode (md_mode meta))) (Some (uid, gid)) None None));;
  mret 0.
Definition sys_chown (path uid gid : Z) : M S Z := sys_fchownat AT_FDCWD path uid gid 0.
Definition sys_lchown (path uid gid : Z) : M S Z := sys_fchownat AT_FDCWD path uid gid AT_SYMLINK_NOFOLLOW.
Definition sys_fchown (fd uid gid : Z) : M S Z := sys_fchownat fd 0 uid gid AT_EMPTY_PATH.

Definition sys_fchmodat (dirfd path mode flags : Z) : M S Z :=
  path ← load_path path;
  loc ← resolve_file dirfd path flags;
  on_fs (loc_update_metadata loc (mkMetadataUpdate (Some (Z.land (as_u16 mode) PERMISSIONS)) None None None));;
  mret 0.
Definition sys_chmod (path mode : Z) : M S Z := sys_fchmodat AT_FDCWD path mode 0.
Definition sys_fchmod (fd mode : Z) : M S Z := sys_fchmodat fd 0 mode AT_EMPTY_PATH.

Definition update_times (dirfd path : Z) (atime mtime : option TimeValue) (flags : Z) : M S unit :=
  path ← load_path path;
  loc ← resolve_file dirfd path flags;
  on_fs (loc_update_metadata loc (mkMetadataUpdate None None atime mtime)).

(** [utimbuf] is the pair of its fields. *)
Definition sys_utime (path times : Z) : M S Z :=
  s ← getM;
  t ← (if times =? 0 then mret (s_wall s, s_wall s)
       else p ← liftR (vm_read (s_vm s) times);
            mret (tv_new (as_u64 p.1) 0, tv_new (as_u64 p.2) 0));
  update_times AT_FDCWD path (Some t.1) (Some t.2) 0;;
  mret 0.

Definition sys_utimes (path times : Z) : M S Z :=
  s ← getM;
  t ← (if times =? 0 then mret (s_wall s, s_wall s)
       else p ← liftR (vm_read (T := timeval * timeval) (s_vm s) times);
            atime ← liftR (try_into_time_value p.1);
            mtime ← liftR (try_into_time_value p.2);
            mret (atime, mtime));
  update_times AT_FDCWD path (Some t.1) (Some t.2) 0;;
  mret 0.

(** [utime_to_duration(...).transpose()] *)
Definition utime_to_duration (wall : TimeValue) (t : timespec) : res (option TimeValue) :=
  if ts_nsec t =? UTIME_OMIT then Ok None
  else if ts_nsec t =? UTIME_NOW then Ok (Some wall)
  else Some <$> try_into_time_value t.

Definition sys_utimensat (dirfd path times flags : Z) : M S Z :=
  let flags := if path =? 0 then Z.lor flags AT_EMPTY_PATH else flags in
  s ← getM;
  t ← (if times =? 0 then mret (Some (s_wall s), Some (s_wall s))
       else p ← liftR (vm_read (T := timespec * timespec) (s_vm s) times);
            atime ← liftR (utime_to_duration (s_wall s) p.1);
            mtime ← liftR (utime_to_duration (s_wall s) p.2);
            mret (atime, mtime));
  match t with
  | (None, None) => mret 0
  | (atime, mtime) => update_times dirfd path atime mtime flags;; mret 0
  end.

Definition sys_sync : M S Z := mret 0.
Definition sys_syncfs (fd : Z) : M S Z := mret 0.

(** ** Opening files *)

(** [OpenOptions::new()] with a mode and an owner, if they are given *)
Definition OpenOptions_new (mode : option Z) (user : option (Z * Z)) : OpenOptions :=
  mkOpenOptions mode user false false false false false false false false false false.

Definition flags_to_options (flags mode : Z) (user : Z * Z) : OpenOptions :=
  let flags := as_u32 flags in
  let set (f : Z) (g : OpenOptions → OpenOptions) o := if negb (Z.land flags f =? 0) then g o else o in
  let o := OpenOptions_new (Some mode) (Some user) in
  let access := Z.land flags 3 in
  let o := if access =? 0 then o <| o_read := true |>
           else if access =? O_WRONLY then o <| o_write := true |>
           else o <| o_read := true |> <| o_write := true |> in
  let o := set O_APPEND (λ o, o <| o_append := true |>) o in
  let o := set O_TRUNC (λ o, o <| o_truncate := true |>) o in
  let o := set O_CREAT (λ o, o <| o_create := true |>) o in
  let o := set O_PATH (λ o, o <| o_path := true |>) o in
  let o := set O_EXCL (λ o, o <| o_create_new := true |>) o in
  let o := set O_DIRECTORY (λ o, o <| o_directory := true |>) o in
  let o := set O_NOFOLLOW (λ o, o <| o_no_follow := true |>) o in
  set O_DIRECT (λ o, o <| o_direct := true |>) o.

(** [Arc::new] of a file object *)
Definition new_file_object (o : FileObj) : M S Z :=
  s ← getM;
  let f := fresh (dom (fs_files (s_fd s))) in
  putM (s <| s_fd ::= λ t, t <| fs_files ::= <[f := o]> |> |>);;
  mret f.
Definition add_fd (f : Z) (cloexec : bool) : M S Z :=
  s ← getM;
  on_fd (add_file_like (s_max_nofile s) f cloexec).

Definition resolve_global (path : text) : M S Z :=
  s ← getM;
  on_fs (fs_resolve (s_ctx s) path).

Definition term_path (term : TermKind) : option text :=
  match term with
  | TermNTty => Some (str "/dev/console")
  | TermPty n => Some (str "/dev/pts/" ++ print_u n)
  | TermUnknown => None
  end.

(** [/dev/ptmx] and [/dev/tty] open another terminal. *)
Definition open_device (file : Z) : M S Z :=
  s ← getM;
  match af_device (s_fs s) file with
  | DevPtmx =>
      p ← on_fs ptmx_create_pty;
      pts ← resolve_global (str "/dev/pts");
      on_fs (af_on_device file p.1 pts p.2)
  | DevCurrentTty =>
      term ← liftR (ok_or NotFound (session_terminal (s_fs s)));
      match term_path term with
      | Some path => loc ← resolve_global path; on_fs (af_direct loc file)
      | None => panicM
      end
  | _ => mret file
  end.

Definition add_to_fd (result : OpenResult) (flags : Z) : M S Z :=
  f ← match result with
      | OpenFile file => file ← open_device file; new_file_object (OFile file false)
      | OpenDir dir => new_file_object (ODirectory dir 0)
      end;
  (if negb (Z.land flags O_NONBLOCK =? 0) then FileLike_set_nonblocking f true else mret tt);;
  add_fd f (negb (Z.land flags O_CLOEXEC =? 0)).

(** The user and group are always 0 ([sys_geteuid], [sys_getegid]). *)
Definition sys_openat (dirfd path flags mode : Z) : M S Z :=
  path ← vm_load_string path;
  s ← getM;
  let mode := Z.ldiff mode (s_umask s) in
  r ← with_fs dirfd (λ fs, on_fs (fs_open fs (flags_to_options flags mode (0, 0)) path));
  add_to_fd r (as_u32 flags).
Definition sys_open (path flags mode : Z) : M S Z := sys_openat AT_FDCWD path flags mode.

(** [{id:04x}] for an id of at most four digits *)
Definition hex_digit (d : Z) : Z := if d <? 10 then 48 + d else 87 + d.
Definition hex4 (id : Z) : text := (λ k, hex_digit (id / 16 ^ k mod 16)) <$> [3; 2; 1; 0].

Fixpoint memfd_loop (ids : list Z) (flags : Z) : M S Z :=
  match ids with
  | [] => failM TooManyOpenFiles
  | id :: ids =>
      let name := str "/tmp/memfd-" ++ hex4 id in
      s ← getM;
      found ← attempt (on_fs (fs_resolve (s_ctx s) name));
      if found : bool then memfd_loop ids flags
      else
        let options := (OpenOptions_new None None) <| o_read := true |> <| o_write := true |> <| o_create := true |> in
        r ← on_fs (fs_open (s_ctx s) options name);
        file ← liftR (open_into_file r);
        f ← new_file_object (OFile file false);
        add_fd f (negb (Z.land flags MFD_CLOEXEC =? 0))
  end.
Definition sys_memfd_create (flags : Z) : M S Z := memfd_loop (seqZ 0 0xffff) flags.

(** The descriptors of the first process; the table is passed by the caller. *)
Definition open_console (read write : bool) : M S Z :=
  s ← getM;
  let options := (OpenOptions_new None None) <| o_read := read |> <| o_write := write |> in
  r ← on_fs (fs_open (s_ctx s) options (str "/dev/console"));
  file ← liftR (open_into_file r);
  new_file_object (OFile file false).
Definition table_add (f : Z) : M S unit :=
  r ← on_fd (on_table (fo_add (mkFd f false)));
  liftR (ok_or TooManyOpenFiles r);;
  mret tt.
Definition add_stdio : M S unit :=
  s ← getM;
  assertM (fo_count (fs_table (s_fd s)) =? 0);;
  tty_in ← open_console true false;
  tty_out ← open_console false true;
  table_add tty_in;;
  table_add tty_out;;
  table_add tty_out.

(** ** Mounting *)

Definition sys_mount (source target fs_type : Z) : M S Z :=
  vm_load_string source;;
  target ← vm_load_string target;
  fs_type ← vm_load_string fs_type;
  if negb (bool_decide (fs_type = str "tmpfs")) then failM NoSuchDevice
  else
    target ← resolve_global target;
    on_fs (loc_mount target MemoryFs);;
    mret 0.

Definition sys_umount2 (target : Z) : M S Z :=
  target ← vm_load_string target;
  target ← resolve_global target;
  on_fs (loc_unmount target);;
  mret 0.

Definition DIR_PERMISSION : Z := 0x1ed.

(** [if fs.resolve(path).is_err() { fs.create_dir(path)?; }] *)
Definition ensure_dir (fs : C) (path : text) : M W unit :=
  found ← attempt (fs_resolve fs path);
  if found : bool then mret tt else fs_create_dir fs path DIR_PERMISSION;; mret tt.

Definition mount_at (fs : C) (path : text) (mount_fs : MountFs) : M W unit :=
  ensure_dir fs path;;
  loc ← fs_resolve fs path;
  loc_mount loc mount_fs.

(** The prefixes of [/sys/class/graphics/fb0/device] *)
Definition fb0_prefixes : list text :=
  str <$> ["/"; "/sys"; "/sys/class"; "/sys/class/graphics"; "/sys/class/graphics/fb0";
           "/sys/class/graphics/fb0/device"]%string.

Fixpoint ensure_dirs (fs : C) (paths : list text) : M W unit :=
  match paths with [] => mret tt | p :: ps => ensure_dir fs p;; ensure_dirs fs ps end.

Definition mount_all (fs : C) : M W unit :=
  mount_at fs (str "/dev") DevFs;;
  mount_at fs (str "/dev/shm") MemoryFs;;
  mount_at fs (str "/tmp") MemoryFs;;
  mount_at fs (str "/proc") ProcFs;;
  mount_at fs (str "/sys") MemoryFs;;
  ensure_dirs fs fb0_prefixes;;
  fs_symlink fs (str "whatever") (str "/sys/class/graphics/fb0/device/subsystem");;
  mret tt.

(** ** Calls relative to a descriptor *)

(** The laws of contexts: both ways of choosing a directory agree, the new
    context has it as its current one, and an absolute path does not depend
    on it. *)
Class FsContextOk := {
  ctx_with_is_set d c w : ctx_with_current_dir d c w = ctx_set_current_dir d c w;
  ctx_set_current d c w c' : ctx_set_current_dir d c w = Ok c' → ctx_current_dir c' = d;
  fs_resolve_absolute d c w c' w' p : ctx_set_current_dir d c w = Ok c' →
    fs_resolve c' (str "/" ++ p) w' = fs_resolve c (str "/" ++ p) w';
}.

(** The calls that take a directory and a path *)
Inductive PathCall :=
| CMkdir (path mode : Z)
| CUnlink (path flags : Z)
| CSymlink (target path : Z)
| CReadlink (path buf size : Z)
| COpen (path flags mode : Z)
| CChown (path uid gid flags : Z)
| CChmod (path mode flags : Z)
| CUtimens (path times flags : Z)
| CStat (path buf flags : Z)
| CStatx (path flags mask buf : Z)
| CAccess (path mode flags : Z).

Definition path_call (c : PathCall) (dirfd : Z) : M S Z :=
  match c with
  | CMkdir path mode => sys_mkdirat dirfd path mode
  | CUnlink path flags => sys_unlinkat dirfd path flags
  | CSymlink target path => sys_symlinkat target dirfd path
  | CReadlink path buf size => sys_readlinkat dirfd path buf size
  | COpen path flags mode => sys_openat dirfd path flags mode
  | CChown path uid gid flags => sys_fchownat dirfd path uid gid flags
  | CChmod path mode flags => sys_fchmodat dirfd path mode flags
  | CUtimens path times flags => sys_utimensat dirfd path times flags
  | CStat path buf flags => sys_fstatat dirfd path buf flags
  | CStatx path flags mask buf => sys_statx dirfd path flags mask buf
  | CAccess path mode flags => sys_faccessat2 dirfd path mode flags
  end.
Definition call_path (c : PathCall) : Z :=
  match c with
  | CMkdir path _ | CUnlink path _ | CSymlink _ path | CReadlink path _ _ | COpen path _ _ | CChown path _ _ _
  | CChmod path _ _ | CUtimens path _ _ | CStat path _ _ | CStatx path _ _ _ | CAccess path _ _ => path
  end.

(** A path that is not empty and does not begin with a slash *)
Definition relative_path (p : bytes) : bool := match p with [] => false | x :: _ => negb (x =? 47) end.

Section Chdir.
Context `{!FsContextOk} (d : Z) (c0 c1 : C) (w0 : W) (Hchdir : ctx_set_current_dir d c0 w0 = Ok c1).

(** A computation that does the same in [c0] and, after [chdir], in [c1] *)
Abbreviation CtxFree := (Stable (λ s : S, s <| s_ctx := c1 |>) (λ s : S, s_ctx s = c0)).

#[local] Instance ctx_free_fs {A} (m : M W A) : CtxFree (on_fs m).
Proof. intros s. unfold on_fs. cbn. by destruct (m _). Qed.
#[local] Instance ctx_free_vm {A} (m : M V A) : CtxFree (on_vm m).
Proof. intros s. unfold on_vm. cbn. by destruct (m _). Qed.
#[local] Instance ctx_free_fd {A} (m : M (FdState F (gmap Z FileObj)) A) : CtxFree (on_fd m).
Proof. intros s. unfold on_fd. cbn. by destruct (m _). Qed.
#[local] Instance ResolveAtResult_stat_free r : CtxFree (ResolveAtResult_stat r).
Proof. unfold ResolveAtResult_stat. stable_tac. Qed.
#[local] Instance set_nonblocking_free f b : CtxFree (FileLike_set_nonblocking f b).
Proof. unfold FileLike_set_nonblocking. stable_tac. Qed.
#[local] Instance add_fd_free f b : CtxFree (add_fd f b).
Proof. unfold add_fd. stable_tac. Qed.
#[local] Instance new_file_object_free o : CtxFree (new_file_object o).
Proof. intros s. unfold new_file_object. unfold_m. done. Qed.
Lemma resolve_global_free p : CtxFree (resolve_global (str "/" ++ p)).
Proof.
  apply stable_get; [stable_tac|]. intros s Hs. cbn -[str app]. rewrite Hs. unfold on_fs.
  by rewrite (fs_resolve_absolute _ _ _ _ _ _ Hchdir).
Qed.
#[local] Instance open_device_free f : CtxFree (open_device f).
Proof.
  unfold open_device. apply stable_get; [|done]. intros s _. destruct (af_device _ _).
  - stable_tac.
  - apply stable_bind; [apply _|]. intros p. apply stable_bind; [|stable_tac].
    apply (resolve_global_free (str "dev/pts")).
  - apply stable_bind; [apply _|]. intros [|n|]; cbn [term_path]; [| |apply _]; apply stable_bind; try by stable_tac.
    + apply (resolve_global_free (str "dev/console")).
    + apply (resolve_global_free (str "dev/pts/" ++ print_u n)).
  - stable_tac.
Qed.
#[local] Instance add_to_fd_free r fl : CtxFree (add_to_fd r fl).
Proof. unfold add_to_fd. stable_tac. Qed.

(** A call on a descriptor of the directory does what it does after [chdir]. *)
Context (dirfd : Z) (Hfd : dirfd ≠ AT_FDCWD).
Definition relative {A} (m : Z → M S A) (s : S) : Prop :=
  s_ctx s = c0 → s_fs s = w0 → Directory_from_fd dirfd s = (Ok d, s) →
  m dirfd s = ((m AT_FDCWD (s <| s_ctx := c1 |>)).1, (m AT_FDCWD (s <| s_ctx := c1 |>)).2 <| s_ctx := c0 |>)
  ∧ s_ctx (m AT_FDCWD (s <| s_ctx := c1 |>)).2 = c1.

Lemma relative_free {A} (m : M S A) s : CtxFree m → relative (λ _, m) s.
Proof.
  intros Hm Hs _ _. destruct (Hm s Hs) as [-> Hs']. destruct (m s) as [r s']; cbn in *. by destruct s'; cbn in *; subst.
Qed.
Lemma relative_with_fs {A} (f : C → M S A) s : (∀ c, CtxFree (f c)) → relative (λ fd, with_fs fd f) s.
Proof.
  intros Hf Hs Hw Hd. rewrite (with_fs_dir dirfd d c1) by (done || by rewrite Hs, Hw, ctx_with_is_set).
  rewrite with_fs_cwd. by apply (relative_free (f c1) s).
Qed.
Lemma relative_pre {A B} (p : M S A) (m : A → Z → M S B) s :
  CtxFree p → (p s).2 = s → (∀ a, p s = (Ok a, s) → relative (m a) s) → relative (λ fd, p ≫= λ a, m a fd) s.
Proof.
  intros Hp Hpure Hm Hs Hw Hd. unfold mbind, M_bind. destruct (Hp s Hs) as [-> _].
  destruct (p s) as [[a|e|] s'] eqn:E; cbn -[setf] in *; subst s'; [by apply Hm|..].
  all: by destruct s; cbn in *; subst.
Qed.
Lemma relative_post {A B} (m : Z → M S A) (k : A → M S B) s :
  relative m s → (∀ a, CtxFree (k a)) → relative (λ fd, m fd ≫= k) s.
Proof.
  intros Hm Hk Hs Hw Hd. destruct (Hm Hs Hw Hd) as [E Hc]. unfold mbind, M_bind. rewrite E.
  destruct (m AT_FDCWD _) as [[a|e|] s2]; cbn -[setf] in *; [|done|done].
  destruct (Hk a (s2 <| s_ctx := c0 |>)) as [Ek Hc2]; [done|].
  assert (Es : s2 <| s_ctx := c0 |> <| s_ctx := c1 |> = s2) by (clear -Hc; destruct s2; cbn in *; by subst).
  rewrite Es in Ek. rewrite Ek. clear E Ek Es. destruct (k a (s2 <| s_ctx := c0 |>)) as [r s3]. cbn -[setf] in *.
  split; [|done]. f_equal. clear -Hc2. destruct s3; cbn in *. by subst.
Qed.
Lemma relative_get {A} (m : S → Z → M S A) s :
  (s_ctx s = c0 → m (s <| s_ctx := c1 |>) AT_FDCWD = m s AT_FDCWD) → relative (m s) s →
  relative (λ fd, getM ≫= λ s, m s fd) s.
Proof. intros He Hm Hs Hw Hd. unfold mbind, M_bind, getM. cbn -[setf]. rewrite He by done. by apply Hm. Qed.

Lemma vm_load_string_pure p (s : S) : (vm_load_string p s).2 = s.
Proof. unfold vm_load_string. unfold_m. cbn. by destruct (vm_load_until_nul _ _); [destruct (utf8 _)|..]. Qed.
Lemma load_path_some ptr (s : S) path : ptr ≠ 0 → load_path ptr s = (Ok path, s) →
  ∃ p, path = Some p ∧ vm_load_string ptr s = (Ok p, s).
Proof.
  intros Hp. unfold load_path, when_not_null. rewrite (proj2 (Z.eqb_neq _ _)) by done. unfold_m.
  pose proof (vm_load_string_pure ptr s) as Hs. destruct (vm_load_string ptr s) as [[p|e|] s']; cbn in Hs; subst s';
    intros [= <-]; by eexists.
Qed.
Lemma load_path_pure p (s : S) : (load_path p s).2 = s.
Proof.
  unfold load_path, when_not_null. destruct (p =? 0); [done|]. unfold_m. pose proof (vm_load_string_pure p s).
  destruct (vm_load_string p s) as [[a|e|] s']; done.
Qed.
#[local] Instance vm_load_string_free p : CtxFree (vm_load_string p).
Proof. unfold vm_load_string. stable_tac. Qed.
#[local] Instance load_path_free p : CtxFree (load_path p).
Proof. unfold load_path, when_not_null. stable_tac. Qed.

Lemma relative_resolve x p flags s : relative (λ fd, resolve_at fd (Some (x :: p)) flags) s.
Proof. apply relative_with_fs. intros c. stable_tac. Qed.
Lemma relative_resolve_file x p flags s : relative (λ fd, resolve_file fd (Some (x :: p)) flags) s.
Proof. apply (relative_post (λ fd, resolve_at fd (Some (x :: p)) flags)); [apply relative_resolve|stable_tac]. Qed.

(** A call that loads its path with [load_path] and resolves it *)
Lemma relative_load {A} ptr (m : option bytes → Z → M S A) s :
  ptr ≠ 0 → (∀ p, vm_load_string ptr s = (Ok p, s) → relative_path p = true) →
  (∀ x p, relative (m (Some (x :: p))) s) → relative (λ fd, load_path ptr ≫= λ path, m path fd) s.
Proof.
  intros Hptr Hne Hm. apply relative_pre; [apply _|apply load_path_pure|].
  intros path Hpath. destruct (load_path_some _ _ _ Hptr Hpath) as ([|x p] & -> & Hp); [by apply Hne in Hp|apply Hm].
Qed.

Abbreviation rel := relative.
Lemma rel_mkdir path mode s : rel (λ fd, sys_mkdirat fd path mode) s.
Proof.
  unfold sys_mkdirat. apply relative_pre; [apply _|apply vm_load_string_pure|]. intros p _.
  apply (relative_get (λ s fd, with_fs fd _)); [done|]. apply relative_with_fs. stable_tac.
Qed.
Lemma rel_unlink path flags s : rel (λ fd, sys_unlinkat fd path flags) s.
Proof.
  unfold sys_unlinkat. apply relative_pre; [apply _|apply vm_load_string_pure|]. intros p _.
  apply relative_with_fs. stable_tac.
Qed.
Lemma rel_symlink target path s : rel (λ fd, sys_symlinkat target fd path) s.
Proof.
  unfold sys_symlinkat. do 2 (apply relative_pre; [apply _|apply vm_load_string_pure|]; intros ? _).
  apply relative_with_fs. stable_tac.
Qed.
Lemma rel_readlink path buf size s : rel (λ fd, sys_readlinkat fd path buf size) s.
Proof.
  unfold sys_readlinkat. apply relative_pre; [apply _|apply vm_load_string_pure|]. intros p _.
  apply relative_with_fs. stable_tac.
Qed.
Lemma rel_open path flags mode s : rel (λ fd, sys_openat fd path flags mode) s.
Proof.
  unfold sys_openat. apply relative_pre; [apply _|apply vm_load_string_pure|]. intros p _.
  apply (relative_get (λ s fd, with_fs fd _ ≫= _)); [done|].
  apply (relative_post (λ fd, with_fs fd _)); [apply relative_with_fs; stable_tac|apply _].
Qed.

Section Loaded.
Context (s : S) (path : Z) (Hpath : path ≠ 0) (Hne : ∀ p, vm_load_string path s = (Ok p, s) → relative_path p = true).
Lemma rel_chown uid gid flags : rel (λ fd, sys_fchownat fd path uid gid flags) s.
Proof.
  apply relative_load; [done..|]. intros x p.
  apply (relative_post (λ fd, resolve_file fd _ _)); [apply relative_resolve_file|stable_tac].
Qed.
Lemma rel_chmod mode flags : rel (λ fd, sys_fchmodat fd path mode flags) s.
Proof.
  apply relative_load; [done..|]. intros x p.
  apply (relative_post (λ fd, resolve_file fd _ _)); [apply relative_resolve_file|stable_tac].
Qed.
Lemma rel_times atime mtime flags : rel (λ fd, update_times fd path atime mtime flags) s.
Proof.
  apply relative_load; [done..|]. intros x p.
  apply (relative_post (λ fd, resolve_file fd _ _)); [apply relative_resolve_file|stable_tac].
Qed.
Lemma rel_stat buf flags : rel (λ fd, sys_fstatat fd path buf flags) s.
Proof.
  apply relative_load; [done..|]. intros x p.
  apply (relative_post (λ fd, resolve_at fd _ _)); [apply relative_resolve|stable_tac].
Qed.
Lemma rel_statx flags mask buf : rel (λ fd, sys_statx fd path flags mask buf) s.
Proof.
  apply relative_load; [done..|]. intros x p.
  apply (relative_post (λ fd, resolve_at fd _ _)); [apply relative_resolve|stable_tac].
Qed.
Lemma rel_access mode flags : rel (λ fd, sys_faccessat2 fd path mode flags) s.
Proof.
  apply relative_load; [done..|]. intros x p.
  apply (relative_post (λ fd, resolve_at fd _ _)); [apply relative_resolve|stable_tac].
Qed.
Lemma rel_utimens times flags : rel (λ fd, sys_utimensat fd path times flags) s.
Proof.
  unfold sys_utimensat. rewrite (proj2 (Z.eqb_neq _ _)) by done.
  apply (relative_get (λ s fd, _ ≫= λ t, _)); [done|].
  apply relative_pre; [stable_tac| |].
  { destruct (times =? 0); [done|]. unfold_m. cbn.
    repeat (case_match; [|done|done]; try done). }
  intros [[a|] [m|]] _; try by (apply relative_post; [apply rel_times|stable_tac]).
  by apply (relative_free (mret 0)).
Qed.
End Loaded.
End Chdir.

(** A computation that fails and changes nothing *)
Definition stuck {A} (m : M S A) (s : S) : Prop := is_ok (m s).1 = false ∧ (m s).2 = s.
Lemma stuck_pre {A B} (p : M S A) (k : A → M S B) s :
  (p s).2 = s → (∀ a, p s = (Ok a, s) → stuck (k a) s) → stuck (p ≫= k) s.
Proof.
  intros Hp Hk. unfold stuck, mbind, M_bind in *. destruct (p s) as [[a|e|] s']; cbn in *; subst s'; [by apply Hk|done..].
Qed.
Lemma stuck_post {A B} (m : M S A) (k : A → M S B) s : stuck m s → stuck (m ≫= k) s.
Proof. unfold stuck, mbind, M_bind. destruct (m s) as [[a|e|] s']; cbn; [by intros [? _]|done..]. Qed.
Lemma stuck_get {A} (k : S → M S A) s : stuck (k s) s → stuck (getM ≫= k) s.
Proof. done. Qed.

Lemma fchdir_inv `{!FsContextOk} dirfd s r s1 : dirfd ≠ AT_FDCWD → sys_fchdir dirfd s = (r, s1) →
  match r with
  | Ok _ => ∃ d c1, Directory_from_fd dirfd s = (Ok d, s) ∧ ctx_set_current_dir d (s_ctx s) (s_fs s) = Ok c1
            ∧ s1 = s <| s_ctx := c1 |>
  | Err e => s1 = s ∧ ∀ A (f : C → M S A), with_fs dirfd f s = (Err e, s)
  | Panic => True
  end.
Proof.
  intros Hfd. unfold sys_fchdir, with_fs, set_current_dir. unfold_m. cbn -[setf].
  rewrite (proj2 (Z.eqb_neq _ _)) by done.
  destruct (Directory_from_fd dirfd s) as [[d|e|] s'] eqn:Ed; pose proof (Directory_from_fd_pure _ _ _ _ Ed) as [-> Hp];
    [|by intros [= <- <-]|done].
  cbn -[setf]. rewrite ctx_with_is_set.
  destruct (ctx_set_current_dir d (s_ctx s) (s_fs s)) as [c1|e|] eqn:Ec; cbn -[setf];
    [|by intros [= <- <-]|by intros [= <- <-]].
  rewrite (ctx_set_current _ _ _ _ Ec), Ec. intros [= <- <-]. by exists d, c1.
Qed.

(** [utimensat] with both times omitted: it returns before it looks at the
    path. *)
Definition omits_times (c : PathCall) (s : S) : bool :=
  match c with
  | CUtimens _ times _ =>
      negb (times =? 0)
      && match vm_read (T := timespec * timespec) (s_vm s) times with
         | Ok (a, m) => (ts_nsec a =? UTIME_OMIT) && (ts_nsec m =? UTIME_OMIT)
         | _ => false
         end
  | _ => false
  end.

Lemma utime_omitted wall t : utime_to_duration wall t = Ok None ↔ ts_nsec t = UTIME_OMIT.
Proof.
  unfold utime_to_duration. destruct (Z.eqb_spec (ts_nsec t) UTIME_OMIT); [done|].
  destruct (ts_nsec t =? UTIME_NOW); [done|]. split; [|done]. unfold fmap, res_fmap. by destruct (try_into_time_value t).
Qed.
Lemma utimensat_omitted path times flags dirfd s : omits_times (CUtimens path times flags) s = true →
  sys_utimensat dirfd path times flags s = (Ok 0, s).
Proof.
  cbn. intros [Ht%negb_true_iff Ho]%andb_true_iff. unfold sys_utimensat. unfold_m. rewrite Ht.
  destruct (vm_read _ times) as [[a m]|e|]; [|done..]. apply andb_true_iff in Ho as [Ha%Z.eqb_eq Hm%Z.eqb_eq]. cbn.
  by rewrite (proj2 (utime_omitted (s_wall s) a) Ha), (proj2 (utime_omitted (s_wall s) m) Hm).
Qed.
Lemma utimensat_stuck path times flags dirfd s : omits_times (CUtimens path times flags) s = false →
  (∀ a m fl, stuck (update_times dirfd path a m fl) s) → stuck (sys_utimensat dirfd path times flags) s.
Proof.
  intros Ho Hu. unfold sys_utimensat. apply stuck_get. cbn in Ho.
  assert (Hk : ∀ fl t, t ≠ (None, None) →
    stuck (match t with
           | (None, None) => mret 0
           | (atime, mtime) => update_times dirfd path atime mtime fl;; mret 0
           end) s).
  { intros fl [[a|] [m|]] Ht; [apply stuck_post, Hu..|done]. }
  revert Hk. generalize (if path =? 0 then Z.lor flags AT_EMPTY_PATH else flags). intros fl Hk. specialize (Hk fl).
  destruct (times =? 0); [by apply (Hk (Some (s_wall s), Some (s_wall s)))|]. unfold stuck. unfold_m.
  destruct (vm_read _ times) as [[a m]|e|]; [|done..]. cbn in *.
  pose proof (utime_omitted (s_wall s) a) as Ha. pose proof (utime_omitted (s_wall s) m) as Hm.
  destruct (utime_to_duration (s_wall s) a) as [a'|e|]; [|done..].
  destruct (utime_to_duration (s_wall s) m) as [m'|e|]; [|done..].
  apply (Hk (a', m')). intros [= -> ->]. rewrite (proj1 Ha), (proj1 Hm) in Ho by done. done.
Qed.

Lemma stuck_calls `{!FsContextOk} c dirfd s e :
  call_path c ≠ 0 → (∀ p, vm_load_string (call_path c) s = (Ok p, s) → relative_path p = true) →
  (∀ A (f : C → M S A), with_fs dirfd f s = (Err e, s)) → omits_times c s = false → stuck (path_call c dirfd) s.
Proof.
  intros Hptr Hne Hfs Hu.
  assert (Hw : ∀ A (f : C → M S A), stuck (with_fs dirfd f) s) by (intros A f; unfold stuck; by rewrite Hfs).
  assert (Hload : ∀ A (k : option bytes → M S A),
    (∀ x p, stuck (k (Some (x :: p))) s) → stuck (load_path (call_path c) ≫= k) s).
  { intros A k Hk. apply stuck_pre; [apply load_path_pure|]. intros path Hpath.
    destruct (load_path_some _ _ _ Hptr Hpath) as ([|x p] & -> & Hp); [by apply Hne in Hp|apply Hk]. }
  destruct c; cbn [path_call call_path] in *.
  1,2,4,5: apply stuck_pre; [apply vm_load_string_pure|]; intros p _;
    first [apply Hw|apply stuck_get; first [apply Hw|apply stuck_post, Hw]].
  - do 2 (apply stuck_pre; [apply vm_load_string_pure|]; intros ? _). apply Hw.
  - apply Hload. intros x p. apply stuck_post, (stuck_post (resolve_at _ _ _)), Hw.
  - apply Hload. intros x p. apply stuck_post, (stuck_post (resolve_at _ _ _)), Hw.
  - apply utimensat_stuck; [done|]. intros a m fl.
    apply Hload. intros x p. apply stuck_post, (stuck_post (resolve_at _ _ _)), Hw.
  - apply Hload. intros x p. apply (stuck_post (resolve_at _ _ _)), Hw.
  - apply Hload. intros x p. apply (stuck_post (resolve_at _ _ _)), Hw.
  - apply Hload. intros x p. apply (stuck_post (resolve_at _ _ _)), Hw.
Qed.

(** C32: Calls relative to a directory.  Each call that takes a directory
    descriptor and a relative path does exactly what it does on [AT_FDCWD]
    after [fchdir] to that descriptor, and leaves the working directory as it
    was.  If [fchdir] fails the call fails too and changes nothing, except
    that [utimensat] with both times omitted returns 0 without looking at the
    descriptor. *)
Theorem at_calls_relative `{!FsContextOk} c dirfd s :
  dirfd ≠ AT_FDCWD → call_path c ≠ 0 →
  (∀ p, vm_load_string (call_path c) s = (Ok p, s) → relative_path p = true) →
  match sys_fchdir dirfd s with
  | (Ok _, s1) => path_call c dirfd s = let '(r, s2) := path_call c AT_FDCWD s1 in (r, s2 <| s_ctx := s_ctx s |>)
  | (Err _, _) =>
      if omits_times c s then path_call c dirfd s = (Ok 0, s)
      else is_ok (path_call c dirfd s).1 = false ∧ (path_call c dirfd s).2 = s
  | (Panic, _) => True
  end.
Proof.
  intros Hfd Hptr Hne. destruct (sys_fchdir dirfd s) as [r s1] eqn:E. apply fchdir_inv in E; [|done].
  destruct r as [z|e|]; [| |done].
  2:{ destruct E as [_ E]. destruct (omits_times c s) eqn:Ho; [|by eapply stuck_calls].
      destruct c; try done. by apply utimensat_omitted. }
  destruct E as (d & c1 & Hd & Hc & ->).
  assert (Hr : relative d (s_ctx s) c1 (s_fs s) dirfd (path_call c) s).
  { destruct c; cbn [path_call call_path] in *.
    - by eapply rel_mkdir.
    - by eapply rel_unlink.
    - by eapply rel_symlink.
    - by eapply rel_readlink.
    - by eapply rel_open.
    - by eapply rel_chown.
    - by eapply rel_chmod.
    - by eapply rel_utimens.
    - by eapply rel_stat.
    - by eapply rel_statx.
    - by eapply rel_access. }
  destruct (Hr eq_refl eq_refl Hd) as [-> _]. by destruct (path_call c AT_FDCWD _).
Qed.

(** ** Changing the metadata of a file and reading it back *)

(** Resolving a path changes no metadata; updating metadata leaves open files
    on their locations. *)
Class FsMetadataOk := {
  fs_resolve_md c p w l m : loc_metadata w l = Ok m → loc_metadata (fs_resolve c p w).2 l = Ok m;
  fs_resolve_no_follow_md c p w l m : loc_metadata w l = Ok m → loc_metadata (fs_resolve_no_follow c p w).2 l = Ok m;
  loc_update_backend l u w w' f : loc_update_metadata l u w = (Ok tt, w') → af_backend w' f = af_backend w f;
}.

(** The node at [loc] stores what it is given, and the time of the change. *)
Definition stores_metadata (loc : Z) : Prop := ∀ u w w' m,
  loc_metadata w loc = Ok m → loc_update_metadata loc u w = (Ok tt, w') →
  ∃ ct, loc_metadata w' loc = Ok ((update_md u m) <| md_ctime := ct |>).

Inductive SetCall := SetMode (mode : Z) | SetOwner (uid gid : Z) | SetTimes (times : Z).
Definition set_call (c : SetCall) (dirfd path flags : Z) : M S Z :=
  match c with
  | SetMode mode => sys_fchmodat dirfd path mode flags
  | SetOwner uid gid => sys_fchownat dirfd path uid gid flags
  | SetTimes times => sys_utimensat dirfd path times flags
  end.

(** A time of [utimensat]: to be left alone, now, or a value *)
Definition new_time (wall old : TimeValue) (t : timespec) : TimeValue :=
  if ts_nsec t =? UTIME_OMIT then old
  else if ts_nsec t =? UTIME_NOW then wall
  else tv_new (as_u64 (ts_sec t)) (ts_nsec t).

(** What a call makes of the metadata of its file: [chmod] sets the twelve
    bits of the mode, [chown] keeps an identifier given as -1 and drops the
    set-user-id bit, and the set-group-id bit of a file its group can execute. *)
Definition set_effect (c : SetCall) (s : S) (m : Metadata) : Metadata :=
  match c with
  | SetMode mode => m <| md_mode := Z.land mode (Z.ones 12) |>
  | SetOwner uid gid =>
      m <| md_mode ::= λ mode, if Z.testbit mode 3 then Z.clearbit (Z.clearbit mode 11) 10 else Z.clearbit mode 11 |>
        <| md_uid ::= λ old, if uid =? -1 then old else as_u32 uid |>
        <| md_gid ::= λ old, if gid =? -1 then old else as_u32 gid |>
  | SetTimes times =>
      if times =? 0 then m <| md_atime := s_wall s |> <| md_mtime := s_wall s |>
      else match vm_read (T := timespec * timespec) (s_vm s) times with
           | Ok (a, b) => m <| md_atime ::= λ old, new_time (s_wall s) old a |>
                            <| md_mtime ::= λ old, new_time (s_wall s) old b |>
           | _ => m
           end
  end.

Lemma chown_mode_clears mode :
  chown_mode mode = if Z.testbit mode 3 then Z.clearbit (Z.clearbit mode 11) 10 else Z.clearbit mode 11.
Proof.
  unfold chown_mode, has_flag, SET_UID, SET_GID, GROUP_EXEC.
  assert (Hb : (Z.land (Z.ldiff mode (2 ^ 11)) (2 ^ 3) =? 2 ^ 3) = Z.testbit mode 3).
  { assert (Hl : ∀ i, 0 ≤ i → Z.testbit (Z.land (Z.ldiff mode (2 ^ 11)) (2 ^ 3)) i = (i =? 3) && Z.testbit mode 3).
    { intros i Hi. rewrite Z.land_spec, Z.ldiff_spec, !Z.pow2_bits_eqb by lia.
      destruct (Z.eqb_spec 3 i) as [<-|]; [by rewrite andb_true_r, andb_true_r|].
      rewrite andb_false_r. by destruct (Z.eqb_spec i 3); [congruence|]. }
    destruct (Z.testbit mode 3); [apply Z.eqb_eq|apply Z.eqb_neq].
    - apply Z.bits_inj'. intros i Hi. rewrite Hl, Z.pow2_bits_eqb, andb_true_r by lia. apply Z.eqb_sym.
    - intros E. apply (f_equal (λ z, Z.testbit z 3)) in E. by rewrite Hl in E. }
  change 2048 with (2 ^ 11). change 8 with (2 ^ 3). by rewrite Hb.
Qed.

Lemma utime_to_duration_spec wall t o : utime_to_duration wall t = Ok o →
  ∀ old, default old o = new_time wall old t.
Proof.
  unfold utime_to_duration, new_time. intros E old.
  destruct (ts_nsec t =? UTIME_OMIT); [by simplify_eq|]. destruct (ts_nsec t =? UTIME_NOW); [by simplify_eq|].
  unfold fmap, res_fmap in E. destruct (try_into_time_value t) as [x|e|] eqn:Et; simplify_eq/=.
  case_match eqn:Hc; simplify_eq. rewrite !orb_false_iff, !Z.ltb_ge in Hc.
  by rewrite as_u32_small by (unfold in_u32; lia).
Qed.

Section SetStat.
Context `{!FsMetadataOk} (dirfd path flags : Z).

Definition resolve_path : M S ResolveAtResult := p ← load_path path; resolve_at dirfd p flags.
(** The path, or the descriptor, names the node at [loc]. *)
Definition located (s : S) (loc : Z) (s1 : S) : Prop := resolve_path s = (Ok (RFile loc), s1).
(** There is no path: the descriptor is the file. *)
Definition by_descriptor (s : S) : Prop :=
  load_path path s = (Ok None, s) ∨ load_path path s = (Ok (Some []), s).

(** Resolving keeps user memory and the metadata of every node. *)
Definition md_kept (s s' : S) : Prop :=
  s_vm s' = s_vm s ∧ ∀ l m, loc_metadata (s_fs s) l = Ok m → loc_metadata (s_fs s') l = Ok m.
#[local] Instance md_kept_preorder : PreOrder md_kept.
Proof. split; [by intros s|]. intros a b c [H1' H2'] [H3' H4']. split; [congruence|]. auto. Qed.

Lemma located_kept s loc s1 : located s loc s1 → md_kept s s1.
Proof.
  assert (Hl : keeps md_kept resolve_path s); [|unfold keeps, located in *; by intros E; rewrite E in Hl].
  assert (Hp : ∀ A (m : M S A) (x : S), (m x).2 = x → keeps md_kept m x) by (intros; apply keeps_pure; [apply _|done]).
  assert (Hr : ∀ c p (x : S), keeps md_kept (on_fs (if negb (Z.land flags AT_SYMLINK_NOFOLLOW =? 0)
      then fs_resolve_no_follow c p else fs_resolve c p)) x).
  { intros c p x. unfold keeps, on_fs.
    destruct (negb _); [pose proof (λ l m, fs_resolve_no_follow_md c p (s_fs x) l m) as Hm
                       |pose proof (λ l m, fs_resolve_md c p (s_fs x) l m) as Hm];
      [destruct (fs_resolve_no_follow c p (s_fs x))|destruct (fs_resolve c p (s_fs x))]; by split. }
  assert (Hfd : ∀ fd (x : S), keeps md_kept (on_fd (get_file_like fd)) x).
  { intros fd x. apply Hp. destruct (on_fd _ x) as [r x'] eqn:E. by apply get_file_like_pure in E as [-> _]. }
  unfold resolve_path. apply keeps_then; [apply _|apply Hp, load_path_pure|]. intros q x _.
  unfold resolve_at, with_fs, Directory_from_fd. destruct q as [[|c p]|]; keeps_tac; auto.
Qed.

Lemma stat_located s loc s1 m buf : located s loc s1 → loc_metadata (s_fs s1) loc = Ok m →
  sys_fstatat dirfd path buf flags s
  = let '(r, v) := vm_write buf (stat_of (metadata_to_kstat m)) (s_vm s) in ((λ _, 0) <$> r, s1 <| s_vm := v |>).
Proof.
  intros Hl Hm. rewrite <- (proj1 (located_kept _ _ _ Hl)). revert Hl Hm.
  unfold located, resolve_path, sys_fstatat. unfold_m. destruct (load_path path s) as [[p|e|] s2]; [|done..].
  intros -> Hm. unfold ResolveAtResult_stat, on_vm. unfold_m. rewrite Hm. cbn.
  by destruct (vm_write _ _ _) as [[]?].
Qed.

(** A file named by a descriptor is found again after an update. *)
Lemma descriptor_again s loc s1 loc' u w' : by_descriptor s → located s loc s1 →
  loc_update_metadata loc' u (s_fs s1) = (Ok tt, w') → s1 = s ∧ located (s <| s_fs := w' |>) loc (s <| s_fs := w' |>).
Proof.
  intros Hd Hl Hu.
  assert (He : ∀ x : S, by_descriptor x → resolve_path x = resolve_at dirfd None flags x).
  { intros x Hx. unfold resolve_path, mbind, M_bind. by destruct Hx as [-> | ->]. }
  assert (Hd' : ∀ w, by_descriptor (s <| s_fs := w |>)).
  { intros w. unfold by_descriptor in *.
    assert (Hs : load_path path (s <| s_fs := w |>) = let '(r, x) := load_path path s in (r, x <| s_fs := w |>)).
    { unfold load_path, when_not_null, vm_load_string. unfold_m. cbn.
      destruct (path =? 0); [done|]. cbn. by destruct (vm_load_until_nul _ _) as [b|e|]; [destruct (utf8 b)|..]. }
    rewrite Hs. by destruct Hd as [-> | ->]; [left|right]. }
  unfold located in *. rewrite He in * by auto. revert Hl. unfold resolve_at. destruct (_ =? 0); [done|]. unfold_m.
  assert (Hf : ∀ w, on_fd (get_file_like dirfd) (s <| s_fs := w |>)
    = let '(r, x) := on_fd (get_file_like dirfd) s in (r, x <| s_fs := w |>)).
  { intros w. unfold on_fd. cbn. by destruct (get_file_like dirfd (s_fd s)). }
  rewrite Hf. destruct (on_fd _ s) as [r x] eqn:E. apply get_file_like_pure in E as [-> _].
  destruct r as [f|e|]; [|done..]. change (object f (s <| s_fs := w' |>)) with (object f s).
  destruct (object f s) as [inner nb|inner off|]; cbn -[setf]; [|by intros [= <- <-]|done].
  destruct (af_backend (s_fs s) inner) as [l|e|] eqn:Eb; intros [= <- <-].
  cbn. rewrite (loc_update_backend _ _ _ _ inner Hu). by rewrite Eb.
Qed.

(** With no path [utimensat] adds a flag that is there. *)
Lemma located_empty_flag s loc s1 : located s loc s1 →
  (p ← load_path path; resolve_at dirfd p (if path =? 0 then Z.lor flags AT_EMPTY_PATH else flags)) s = (Ok (RFile loc), s1).
Proof.
  intros Hl. destruct (Z.eqb_spec path 0) as [Hz|]; [|done]. revert Hl. unfold located, resolve_path, load_path, when_not_null.
  rewrite Hz. unfold_m. cbn. destruct (Z.eqb_spec (Z.land flags AT_EMPTY_PATH) 0) as [|Hf]; [done|].
  assert ((Z.land (Z.lor flags AT_EMPTY_PATH) AT_EMPTY_PATH =? 0) = false) as -> by
    (rewrite Z.land_lor_distr_l, Z.land_diag; apply Z.eqb_neq; rewrite Z.lor_eq_0_iff; by intros [_ ?]). done.
Qed.
Lemma resolve_file_located s loc s1 fl A (k : Z → M S A) :
  (p ← load_path path; resolve_at dirfd p fl) s = (Ok (RFile loc), s1) →
  (path ← load_path path; loc ← resolve_file dirfd path fl; k loc) s = k loc s1.
Proof.
  unfold resolve_file. unfold_m. destruct (load_path path s) as [[p|e|] s2]; [|done..]. by intros ->.
Qed.

Lemma permissions_u16 mode : Z.land (as_u16 mode) PERMISSIONS = Z.land mode (Z.ones 12).
Proof.
  change PERMISSIONS with (Z.ones 12). rewrite !Z.land_ones by lia. unfold as_u16, wrapu.
  apply Z.mod_mod_divide. by exists 16.
Qed.

(** What a successful call does: one update of the node, or nothing. *)
Definition updates (s s1 : S) (loc : Z) (m m' : Metadata) (s' : S) : Prop :=
  (s' = s ∧ m' = m)
  ∨ ∃ u w', loc_update_metadata loc u (s_fs s1) = (Ok tt, w') ∧ s' = s1 <| s_fs := w' |>
      ∧ ∀ ct, (update_md u m) <| md_ctime := ct |> = m' <| md_ctime := ct |>.

Lemma update_done s s1 loc m m' u s' A (x : A) (k : A) :
  (on_fs (loc_update_metadata loc u);; mret x) s1 = (Ok k, s') →
  (∀ ct, (update_md u m) <| md_ctime := ct |> = m' <| md_ctime := ct |>) → updates s s1 loc m m' s'.
Proof.
  intros E Hm. right. exists u. revert E. unfold on_fs. unfold_m.
  destruct (loc_update_metadata loc u (s_fs s1)) as [[[]|e|] w'] eqn:E; intros [= _ <-]. by exists w'.
Qed.

(** [utimensat] with the times it has read *)
Lemma set_times_updates fl a b s s1 loc m s' :
  (p ← load_path path; resolve_at dirfd p fl) s = (Ok (RFile loc), s1) →
  (match (a, b) with
   | (None, None) => mret 0
   | (atime, mtime) => update_times dirfd path atime mtime fl;; mret 0
   end : M S Z) s = (Ok 0, s') →
  updates s s1 loc m (m <| md_atime ::= λ old, default old a |> <| md_mtime ::= λ old, default old b |>) s'.
Proof.
  intros Hl.
  assert (Hu : ∀ a b, (update_times dirfd path a b fl;; mret 0) s
    = (on_fs (loc_update_metadata loc (mkMetadataUpdate None None a b));; mret 0) s1).
  { intros x y. assert (Ht : update_times dirfd path x y fl s
      = on_fs (loc_update_metadata loc (mkMetadataUpdate None None x y)) s1) by exact (resolve_file_located s loc s1 fl _ _ Hl).
    unfold mbind, M_bind. by rewrite Ht. }
  destruct a as [a|], b as [b|]; [..|by intros [= <-]; left; split; [|by destruct m]].
  all: rewrite Hu; intros E; apply (update_done _ _ _ _ _ _ _ _ _ _ E); intros ct; by destruct m.
Qed.

Lemma set_call_updates c s loc s1 m s' : located s loc s1 → loc_metadata (s_fs s1) loc = Ok m →
  set_call c dirfd path flags s = (Ok 0, s') → updates s s1 loc m (set_effect c s m) s'.
Proof.
  intros Hl Hm. destruct c as [mode|uid gid|times]; cbn [set_call set_effect].
  - unfold sys_fchmodat. rewrite (resolve_file_located s loc s1) by done. intros E.
    apply (update_done _ _ _ _ _ _ _ _ _ _ E). intros ct. cbn. by rewrite permissions_u16.
  - unfold sys_fchownat. rewrite (resolve_file_located s loc s1) by done.
    unfold mbind at 1, M_bind at 1, getM. unfold mbind at 1, M_bind at 1, liftR. rewrite Hm. intros E.
    apply (update_done _ _ _ _ _ _ _ _ _ _ E). intros ct. cbn. by rewrite chown_mode_clears.
  - apply located_empty_flag in Hl. unfold sys_utimensat. revert Hl.
    generalize (if path =? 0 then Z.lor flags AT_EMPTY_PATH else flags). intros fl Hl. unfold_m.
    destruct (times =? 0).
    + intros E. by apply (set_times_updates fl (Some _) (Some _) s s1 loc m) in E.
    + destruct (vm_read _ times) as [[x y]|e|]; [|done..]. cbn -[setf].
      destruct (utime_to_duration (s_wall s) x) as [a|e|] eqn:Ea; [|done..].
      destruct (utime_to_duration (s_wall s) y) as [b|e|] eqn:Eb; [|done..].
      intros E. apply (set_times_updates fl a b s s1 loc m) in E; [|done]. revert E. cbn.
      by rewrite (utime_to_duration_spec _ _ _ Ea), (utime_to_duration_spec _ _ _ Eb).
Qed.

(** C33: Metadata round trip.  After a successful [chmod], [chown] or
    [utimensat] of a node that stores its metadata, [stat] reports the metadata
    the node had, with exactly the fields changed that the call names: twelve
    mode bits, the identifiers that are not -1 (and the set-user-id bit
    cleared, and the set-group-id bit of a file its group can execute), the
    times that are not omitted; and the time of the change.  For a call
    through a descriptor this always holds; for a path, when it still names
    the same node afterwards. *)
Theorem set_then_stat c s loc s1 m s' buf :
  stores_metadata loc → located s loc s1 → loc_metadata (s_fs s1) loc = Ok m →
  set_call c dirfd path flags s = (Ok 0, s') →
  by_descriptor s ∨ (∃ s2, located s' loc s2) →
  ∃ ct s2, located s' loc s2 ∧ sys_fstatat dirfd path buf flags s'
    = let '(r, v) := vm_write buf (stat_of (metadata_to_kstat ((set_effect c s m) <| md_ctime := ct |>))) (s_vm s) in
      ((λ _, 0) <$> r, s2 <| s_vm := v |>).
Proof.
  intros Hst Hl Hm E Hagain. pose proof (located_kept _ _ _ Hl) as [Hv1 _].
  destruct (set_call_updates c s loc s1 m s' Hl Hm E) as [[-> ->]|(u & w' & Hu & -> & He)].
  { exists (md_ctime m), s1. split; [done|]. rewrite (stat_located s loc s1 m) by done. by destruct m. }
  destruct (Hst _ _ _ _ Hm Hu) as [ct Hm'].
  assert (∃ s2, located (s1 <| s_fs := w' |>) loc s2) as [s2 Hl2].
  { destruct Hagain as [Hd|]; [|done]. destruct (descriptor_again _ _ _ _ _ _ Hd Hl Hu) as [-> ?]. eauto. }
  exists ct, s2. split; [done|]. pose proof (located_kept _ _ _ Hl2) as [_ Hk].
  rewrite (stat_located _ loc s2 _ buf Hl2 (Hk _ _ Hm')), He.
  change (s_vm (s1 <| s_fs := w' |>)) with (s_vm s1). by rewrite Hv1.
Qed.
End SetStat.

(** ** Opening *)

(** Steps that keep the descriptors and the working directory *)
Definition keeps_fds {A} (m : M S A) : Prop := ∀ s r s', m s = (r, s') →
  s_fd s' = s_fd s ∧ s_ctx s' = s_ctx s ∧ s_max_nofile s' = s_max_nofile s.
Lemma keeps_lift {A} (r : res A) : keeps_fds (liftR r).
Proof. by intros s r' s' [= <- <-]. Qed.
Lemma keeps_fs {A} (m : M W A) : keeps_fds (on_fs m).
Proof. intros s r s'. unfold on_fs. destruct (m _). by intros [= <- <-]. Qed.
Lemma keeps_bind {A B} (m : M S A) (f : A → M S B) : keeps_fds m → (∀ a, keeps_fds (f a)) → keeps_fds (m ≫= f).
Proof.
  intros Hm Hf s r s'. unfold mbind, M_bind. destruct (m s) as [[a|e|] s1] eqn:E; apply Hm in E as (<- & <- & <-);
    [apply Hf|by intros [= <- <-]..].
Qed.
Lemma keeps_fds_get {A} (f : S → M S A) : (∀ s, keeps_fds (f s)) → keeps_fds (getM ≫= f).
Proof. intros Hf s r s'. by apply Hf. Qed.
Lemma keeps_state : keeps_fds (@getM S).
Proof. by intros s r s' [= <- <-]. Qed.
Lemma keeps_directory fd : keeps_fds (Directory_from_fd fd).
Proof. by intros s r s' [-> _]%Directory_from_fd_pure. Qed.
Lemma keeps_resolve p : keeps_fds (resolve_global p).
Proof. apply keeps_fds_get. intros s. apply keeps_fs. Qed.
Lemma keeps_found {A} (m : M W A) : keeps_fds (attempt (on_fs m)).
Proof.
  intros s r s'. unfold attempt. destruct (on_fs m s) as [r1 s1] eqn:E. apply keeps_fs in E.
  destruct r1; by intros [= <- <-].
Qed.
Lemma keeps_load p : keeps_fds (vm_load_string p).
Proof. intros s r s' E. pose proof (vm_load_string_pure p s) as Hp. rewrite E in Hp. cbn in Hp. by subst. Qed.
Create HintDb keeps.
#[local] Hint Resolve keeps_lift keeps_fs keeps_directory keeps_resolve keeps_load : keeps.

Lemma keeps_open_device f : keeps_fds (open_device f).
Proof.
  apply keeps_fds_get. intros s. destruct (af_device _ _).
  - apply (keeps_lift (Ok f)).
  - apply keeps_bind; [auto with keeps|]. intros p. apply keeps_bind; auto with keeps.
  - apply keeps_bind; [auto with keeps|]. intros [|n|]; cbn [term_path]; [..|apply (keeps_lift Panic)];
      apply keeps_bind; auto with keeps.
  - apply (keeps_lift (Ok f)).
Qed.
Lemma keeps_with_fs {A} fd (f : C → M S A) : (∀ c, keeps_fds (f c)) → keeps_fds (with_fs fd f).
Proof.
  intros Hf. apply keeps_fds_get. intros s. destruct (fd =? AT_FDCWD); [done|].
  apply keeps_bind; [auto with keeps|]. intros d. apply keeps_bind; auto with keeps.
Qed.

Section Open.
Context `{!FlattenObjectsOk F}.

(** A new descriptor for a new object *)
Definition installs (s s' : S) (cloexec : bool) (is_new : FileObj → Prop) (r : res Z) : Prop :=
  match r with
  | Ok fd =>
      lowest_free (view (s_fd s)) fd ∧ Z.of_nat (size (view (s_fd s))) < s_max_nofile s
      ∧ ∃ f o, fs_files (s_fd s) !! f = None ∧ is_new o
               ∧ view (s_fd s') = <[fd := mkFd f cloexec]> (view (s_fd s))
               ∧ fs_files (s_fd s') = <[f := o]> (fs_files (s_fd s))
  | Err _ => view (s_fd s') = view (s_fd s)
  | Panic => view (s_fd s') = view (s_fd s)
  end ∧ s_ctx s' = s_ctx s.

Lemma add_new_installs s s1 s' f o cloexec r (is_new : FileObj → Prop) :
  fs_files (s_fd s) !! f = None → is_new o →
  s_fd s1 = (s_fd s) <| fs_files ::= <[f := o]> |> → s_ctx s1 = s_ctx s → s_max_nofile s1 = s_max_nofile s →
  add_fd f cloexec s1 = (r, s') → installs s s' cloexec is_new r.
Proof.
  intros Hf Ho Hfd Hctx Hmax. unfold add_fd, on_fd. unfold_m.
  destruct (add_file_like _ f cloexec (s_fd s1)) as [r' t] eqn:E. intros [= <- <-].
  apply add_file_like_spec in E as (Hfiles & E). rewrite Hfd in Hfiles, E. rewrite Hmax in E. unfold installs, view in *. cbn in *.
  split; [|done]. destruct r' as [fd|e|]; [|tauto|done]. destruct E as (Hlow & Hview & Hlt).
  split; [done|]. split; [done|]. by exists f, o.
Qed.

Definition opened (nonblock : bool) (o : FileObj) : Prop :=
  match o with OFile _ nb => nb = nonblock | ODirectory _ off => off = 0 | OOther => False end.

(** [Arc::new], the non-blocking flag, and the table *)
Lemma new_object_installs s s' o (nonblock cloexec : bool) r : o ≠ OOther → opened false o →
  (f ← new_file_object o;
   (if nonblock then FileLike_set_nonblocking f true else mret tt);;
   add_fd f cloexec) s = (r, s') → installs s s' cloexec (opened nonblock) r.
Proof.
  intros Ho Hopen. unfold new_file_object. unfold_m.
  set (f := fresh (dom (fs_files (s_fd s)))). set (s1 := s <| s_fd ::= _ |>).
  assert (Hf : fs_files (s_fd s) !! f = None) by (apply not_elem_of_dom, is_fresh).
  assert (Hobj : object f s1 = o) by (unfold object, s1; cbn; by rewrite lookup_insert_eq).
  destruct nonblock.
  - unfold FileLike_set_nonblocking. unfold_m. rewrite Hobj. destruct o as [inner nb|inner off|]; [..|done].
    + apply (add_new_installs s _ s' f (OFile inner true)); [done..| |done|done].
      unfold s1. cbn. by rewrite insert_insert_eq.
    + by apply (add_new_installs s s1 s' f (ODirectory inner off)).
  - by apply (add_new_installs s s1 s' f o).
Qed.

Lemma installs_keep s s1 s' cloexec P r :
  s_fd s1 = s_fd s → s_ctx s1 = s_ctx s → s_max_nofile s1 = s_max_nofile s →
  installs s1 s' cloexec P r → installs s s' cloexec P r.
Proof. unfold installs. by intros -> -> ->. Qed.

(** A first part that keeps the descriptors *)
Lemma installs_bind {A} (m : M S A) (k : A → M S Z) s s' cloexec P r :
  keeps_fds m → (∀ a s1, m s = (Ok a, s1) → k a s1 = (r, s') → installs s1 s' cloexec P r) →
  (m ≫= k) s = (r, s') → installs s s' cloexec P r.
Proof.
  intros Hm Hk. unfold mbind, M_bind. destruct (m s) as [[a|e|] s1] eqn:E; pose proof (Hm _ _ _ E) as (Hfd & Hc & Hmax).
  - intros E2. by apply (installs_keep s s1), (Hk a).
  - intros [= <- <-]. unfold installs. by rewrite Hfd, Hc.
  - intros [= <- <-]. unfold installs. by rewrite Hfd, Hc.
Qed.


(** [memfd_create] takes the first name that does not resolve. *)
Lemma memfd_installs ids flags s r s' : memfd_loop ids flags s = (r, s') →
  installs s s' (any_bit flags MFD_CLOEXEC) (opened false) r.
Proof.
  revert s. induction ids as [|id ids IH]; intros s; [by intros [= <- <-]|]. cbn [memfd_loop].
  apply installs_bind; [apply keeps_state|]. intros s0 s1 _.
  apply installs_bind; [apply keeps_found|]. intros [] s2 _; [apply IH|].
  apply installs_bind; [auto with keeps|]. intros a s3 _.
  apply installs_bind; [auto with keeps|]. intros file s4 _. by apply (new_object_installs _ _ (OFile file false) false).
Qed.
End Open.

(** ** What the descriptor is needed for *)

(** With a directory an absolute path means the same as without; but a
    descriptor that is not one is an error, although the path does not need
    it. *)
Lemma absolute_path_dirfd `{!FsContextOk} dirfd p flags s : dirfd ≠ AT_FDCWD →
  Z.land flags AT_SYMLINK_NOFOLLOW = 0 →
  let path := Some (str "/" ++ p) in
  match sys_fchdir dirfd s with
  | (Ok _, _) => (resolve_at dirfd path flags s).1 = (resolve_at AT_FDCWD path flags s).1
  | (Err e, _) => resolve_at dirfd path flags s = (Err e, s)
  | (Panic, _) => True
  end.
Proof.
  intros Hfd Hfl path. destruct (sys_fchdir dirfd s) as [r s1] eqn:E. apply fchdir_inv in E; [|done].
  destruct r as [z|e|]; [|destruct E as [_ E]; apply E|done]. destruct E as (d & c1 & Hd & Hc & ->).
  unfold path. cbn -[with_fs]. rewrite (with_fs_dir dirfd d c1) by (done || by rewrite ctx_with_is_set).
  rewrite with_fs_cwd, Hfl. cbn. unfold on_fs. unfold_m.
  pose proof (fs_resolve_absolute _ _ _ _ (s_fs s) p Hc) as Ha. cbn in Ha. by rewrite Ha.
Qed.

(** [AT_EMPTY_PATH] with [AT_FDCWD] is not the working directory. *)
Lemma empty_path_of_cwd `{!FlattenObjectsOk F} path flags (s : S) : path = None ∨ path = Some [] →
  Z.land flags AT_EMPTY_PATH ≠ 0 → resolve_at AT_FDCWD path flags s = (Err BadFileDescriptor, s).
Proof.
  intros Hp Hfl. assert (Hr : resolve_at AT_FDCWD path flags s = resolve_at AT_FDCWD None flags s) by (by destruct Hp as [-> | ->]).
  rewrite Hr. unfold resolve_at. rewrite (proj2 (Z.eqb_neq _ _)) by done. unfold_m. unfold on_fd.
  rewrite get_file_like_spec by (unfold fd_int, AT_FDCWD; lia).
  destruct (view (s_fd s) !! AT_FDCWD) as [x|] eqn:E; [apply fo_view_range in E; unfold AT_FDCWD in E; lia|].
  cbn. by destruct s.
Qed.

(** [fstatfs] on a directory fails. *)
Lemma fstatfs_of_directory fd buf f inner off (s : S) :
  on_fd (get_file_like fd) s = (Ok f, s) → object f s = ODirectory inner off →
  sys_fstatfs fd buf s = (Err IsADirectory, s).
Proof. intros Hf Ho. unfold sys_fstatfs, Fs_File_from_fd. unfold_m. by rewrite Hf, Ho. Qed.

(** The first process has the console at 0, 1 and 2; output and errors are
    one object. *)
Lemma table_add_view `{!FlattenObjectsOk F} f (s : S) r s' (n : nat) :
  table_add f s = (r, s') → (∀ i, is_Some (view (s_fd s) !! i) ↔ 0 ≤ i < Z.of_nat n) → is_ok r = true →
  view (s_fd s') = <[Z.of_nat n := mkFd f false]> (view (s_fd s))
  ∧ ∀ i, is_Some (view (s_fd s') !! i) ↔ 0 ≤ i < Z.of_nat (Datatypes.S n).
Proof.
  unfold table_add, on_fd, on_table. unfold_m. destruct (fo_add _ _) as [[i|] t] eqn:E; cbn; intros [= <- <-] Hv; [|done].
  intros _. pose proof (fo_add_some _ _ _ _ E) as (Hn & Hl & Hview).
  assert (Hi : 0 ≤ i < AX_FILE_LIMIT) by (apply (fo_view_range t i (mkFd f false)); by rewrite Hview, lookup_insert_eq).
  assert (i = Z.of_nat n) as ->.
  2: { split; [done|]. intros j. unfold view at 1. cbn [s_fd fs_table setf]. rewrite Hview, lookup_insert_is_Some, Hv. lia. }
  assert (¬ (0 ≤ i < Z.of_nat n)) by (rewrite <- Hv; unfold view; rewrite Hn; by intros [? ?]).
  destruct (decide (Z.of_nat n < i)) as [Hlt|]; [|lia]. specialize (Hl (Z.of_nat n) ltac:(lia)). apply Hv in Hl. lia.
Qed.

Lemma open_console_fresh rd wr s f s' : open_console rd wr s = (Ok f, s') →
  fs_files (s_fd s) !! f = None ∧ (∃ inner, fs_files (s_fd s') = <[f := OFile inner false]> (fs_files (s_fd s)))
  ∧ fs_table (s_fd s') = fs_table (s_fd s).
Proof.
  unfold open_console, new_file_object, on_fs. unfold_m. destruct (fs_open _ _ _ _) as [[o|e|] w]; [|done..].
  destruct (open_into_file o) as [file|e|]; [|done..]. cbn. intros [= <- <-]. cbn.
  split; [apply not_elem_of_dom, is_fresh|]. split; [by exists file|done].
Qed.

Lemma add_stdio_fds `{!FlattenObjectsOk F} s s' : add_stdio s = (Ok tt, s') →
  ∃ tty_in tty_out, tty_in ≠ tty_out
    ∧ view (s_fd s') = <[2 := mkFd tty_out false]> (<[1 := mkFd tty_out false]> (<[0 := mkFd tty_in false]> ∅)).
Proof.
  unfold add_stdio. unfold_m. rewrite fo_count_view. destruct (Z.eqb_spec (Z.of_nat (size (fo_view (fs_table (s_fd s))))) 0) as [H0'|];
    [|done].
  assert (Hv : view (s_fd s) = ∅) by (apply map_size_empty_inv; unfold view; lia).
  destruct (open_console true false s) as [[i|e|] s1] eqn:E1; [|done..].
  destruct (open_console false true s1) as [[o|e|] s2] eqn:E2; [|done..].
  pose proof (open_console_fresh _ _ _ _ _ E1) as (_ & [x1 Hf1] & Ht1).
  pose proof (open_console_fresh _ _ _ _ _ E2) as (Hn2 & _ & Ht2).
  assert (i ≠ o) as Hio by (intros ->; by rewrite Hf1, lookup_insert_eq in Hn2).
  destruct (table_add i s2) as [[[]|e|] s3] eqn:A1; [|done..].
  destruct (table_add o s3) as [[[]|e|] s4] eqn:A2; [|done..]. intros A3.
  assert (Hv2 : view (s_fd s2) = ∅) by (unfold view in *; by rewrite Ht2, Ht1).
  apply (table_add_view _ _ _ _ 0) in A1 as [A1 H1v]; [|rewrite Hv2; intros j; rewrite lookup_empty; split; [by intros [? ?]|lia]|done].
  apply (table_add_view _ _ _ _ 1) in A2 as [A2 H2v]; [|done..].
  apply (table_add_view _ _ _ _ 2) in A3 as [A3 _]; [|done..].
  exists i, o. split; [done|]. by rewrite A3, A2, A1, Hv2.
Qed.
End Ctl.

(** ** A small file system, for the witnesses

    Nodes are numbers with their metadata; the entry [name] of the directory
    [d] is a node whose number is computed from both. *)

Inductive uobj := UInt (z : Z) | UBytes (l : bytes) | UTimes (a b : timespec) | UStat (st : stat) | UOther.
Abbreviation umem := (gmap Z uobj).
Definition uread {A} (f : uobj → option A) (v : umem) (p : Z) : res A := ok_or BadAddress (v !! p ≫= f).
Definition uwrite {A} (f : A → uobj) (p : Z) (x : A) : M umem unit := λ v, (Ok tt, <[p := f x]> v).
#[export] Instance umem_int : VmPtr umem Z := {|
  vm_read := uread (λ o, match o with UInt z => Some z | _ => None end); vm_write := uwrite UInt |}.
#[export] Instance umem_bytes : VmPtr umem bytes := {|
  vm_read := uread (λ o, match o with UBytes l => Some l | _ => None end); vm_write := uwrite UBytes |}.
#[export] Instance umem_times : VmPtr umem (timespec * timespec) := {|
  vm_read := uread (λ o, match o with UTimes a b => Some (a, b) | _ => None end);
  vm_write := uwrite (λ '(a, b), UTimes a b) |}.
#[export] Instance umem_stat : VmPtr umem stat := {|
  vm_read := uread (λ o, match o with UStat st => Some st | _ => None end); vm_write := uwrite UStat |}.
#[export] Instance umem_timevals : VmPtr umem (timeval * timeval) := {|
  vm_read := uread (λ _, None); vm_write := uwrite (λ _, UOther) |}.
#[export] Instance umem_utimbuf : VmPtr umem (Z * Z) := {|
  vm_read := uread (λ _, None); vm_write := uwrite (λ _, UOther) |}.
#[export] Instance umem_statx : VmPtr umem statx := {|
  vm_read := uread (λ _, None); vm_write := uwrite (λ _, UOther) |}.
#[export] Instance umem_statfs : VmPtr umem statfs := {|
  vm_read := uread (λ _, None); vm_write := uwrite (λ _, UOther) |}.
#[export] Instance umem_text : UserText umem := {| vm_load_until_nul := vm_read |}.

#[export] Instance linux_codes : NodeCodes := {
  dev_new a b := a * 2 ^ 32 + b; dev_major d := d / 2 ^ 32; dev_minor d := d mod 2 ^ 32;
  node_type_u8 t := match t with
    | Fifo => 1 | CharacterDevice => 2 | Directory => 4 | BlockDevice => 6
    | RegularFile => 8 | Symlink => 10 | Socket => 12 end;
}.
#[export] Instance linux_codes_ok : NodeCodesOk.
Proof.
  split; cbn.
  - intros a b Ha Hb. unfold in_u32 in *. rewrite Z.div_add_l, Z.div_small by lia. lia.
  - intros a b Ha Hb. unfold in_u32 in *. rewrite Z.add_comm, Z.mod_add by lia. by apply Z.mod_small.
  - intros []; lia.
  - by intros [] [].
Qed.

Abbreviation nodes := (gmap Z Metadata).
Definition child (d : Z) (name : bytes) : Z := match name with [] => d | _ => d * 1000 + zsum id name end.
Definition walk (c : Z * Z) (p : bytes) : Z := match p with 47 :: p => child c.1 p | _ => child c.2 p end.
Definition tiny_resolve (c : Z * Z) (w : nodes) (p : bytes) : res Z :=
  match w !! walk c p with Some _ => Ok (walk c p) | None => Err NotFound end.
Definition tiny_set_dir (d : Z) (c : Z * Z) (w : nodes) : res (Z * Z) :=
  match w !! d with
  | Some m => if bool_decide (md_node_type m = Directory) then Ok (c.1, d) else Err NotADirectory
  | None => Err NotFound
  end.
Definition tiny_make (c : Z * Z) (p : bytes) (m : Metadata) : M nodes Z := λ w,
  match w !! walk c p with Some _ => (Err AlreadyExists, w) | None => (Ok (walk c p), <[walk c p := m]> w) end.
Definition tiny_node (ty : NodeType) (mode : Z) : Metadata := mkMetadata 0 1 1 mode ty 0 0 0 512 0 0 0 0 0.

#[export] Instance tiny_fs : FsWorld (Z * Z) nodes := {
  ctx_new l := (l, l);
  ctx_current_dir c := c.2;
  ctx_set_current_dir := tiny_set_dir;
  ctx_with_current_dir := tiny_set_dir;
  fs_resolve c p := λ w, (tiny_resolve c w p, w);
  fs_resolve_no_follow c p := λ w, (tiny_resolve c w p, w);
  fs_resolve_parent c p := mret (c.2, p);
  fs_resolve_nonexistent c p := mret (c.2, p);
  fs_create_dir c p mode := tiny_make c p (tiny_node Directory mode);
  fs_remove_file c p := failM NotFound;
  fs_remove_dir c p := failM NotFound;
  fs_symlink c t p := tiny_make c p (tiny_node Symlink 0x1ff);
  fs_open c o p := λ w,
    match tiny_resolve c w p with
    | Ok l => (Ok (OpenFile l), w)
    | _ => if o_create o then let '(r, w) := tiny_make c p (tiny_node RegularFile (default 0 (o_mode o))) w in (OpenFile <$> r, w)
           else (Err NotFound, w)
    end;
  loc_metadata w l := ok_or NotFound (w !! l);
  loc_update_metadata l u := λ w,
    match w !! l with Some m => (Ok tt, <[l := update_md u m]> w) | None => (Err NotFound, w) end;
  loc_node_type w l := default RegularFile (md_node_type <$> w !! l);
  loc_absolute_path w l := Ok (str "/");
  loc_read_link w l := Err InvalidInput;
  loc_link d n l := failM NotFound;
  loc_rename d n d' n' := failM NotFound;
  loc_ioctl l cmd arg := failM NotATty;
  loc_statfs w l := Err InvalidInput;
  loc_mount_device w l := 0;
  loc_mount_root w l := l;
  af_location w f := f;
  af_backend w f := Ok f;
}.
#[export] Instance tiny_context_ok : FsContextOk.
Proof.
  split; cbn.
  - done.
  - unfold tiny_set_dir. intros d c w c'. repeat case_match; by intros [= <-].
  - unfold tiny_set_dir. intros d c w c' w' p. repeat case_match; by intros [= <-].
Qed.
#[export] Instance tiny_metadata_ok : FsMetadataOk.
Proof. by split. Qed.
Lemma tiny_stores loc : stores_metadata loc.
Proof.
  intros u w w' m. cbn. destruct (w !! loc) as [m'|]; [|done]. intros [= ->] [= <-].
  exists (md_ctime (update_md u m)). rewrite lookup_insert_eq. cbn. by destruct (update_md u m).
Qed.
#[export] Instance no_others : Others nodes := {
  other_stat w f := Ok Kstat_default; other_ioctl f cmd arg := failM NotATty; other_set_nonblocking f b := mret tt }.
#[export] Instance tiny_open : OpenWorld nodes := {
  open_into_file r := match r with OpenFile f => Ok f | OpenDir _ => Err IsADirectory end;
  af_device w f := DevNone;
  ptmx_create_pty := failM NotFound;
  af_on_device f d l n := mret d;
  af_direct l f := mret l;
  session_terminal w := None;
  loc_mount l fs := mret tt;
  loc_unmount l := mret tt;
}.

(** ** Witnesses *)

(** A root directory 1 with a directory ["d"] and a file ["d/f"]; descriptor
    3 is the directory, the working directory is the root. *)
Definition dir_d : Z := 1000 + 100.
Definition file_f : Z := dir_d * 1000 + 102.
Definition tiny : FsSt (Z * Z) nodes umem table :=
  mkFsSt (1, 1)
    {[1 := tiny_node Directory 0x1ed; dir_d := tiny_node Directory 0x1ed; file_f := tiny_node RegularFile 0x9ed]}
    {[0x2000 := UBytes (str "f"); 0x3000 := UTimes (mkTimespec 7 5) (mkTimespec 0 UTIME_OMIT)]}
    (mkFdState {[3 := mkFd 10 false]} {[10 := ODirectory dir_d 0]}) 18 1024 0.

Lemma at_calls_relative_witness :
  path_call (CChmod 0x2000 0x1a4 0) 3 tiny
  = let '(r, s2) := path_call (CChmod 0x2000 0x1a4 0) AT_FDCWD (tiny <| s_ctx := (1, dir_d) |>) in
    (r, s2 <| s_ctx := (1, 1) |>).
Proof.
  assert (Hcd : sys_fchdir 3 tiny = (Ok 0, tiny <| s_ctx := (1, dir_d) |>)) by (by vm_compute).
  pose proof (at_calls_relative (CChmod 0x2000 0x1a4 0) 3 tiny) as Hw. rewrite Hcd in Hw. apply Hw; [done|done|].
  intros p Hp. vm_compute in Hp. by injection Hp as <-.
Defined.

(** [chown] on the path, and [fchmod] on the descriptor *)
Lemma set_then_stat_witness :
  (∃ ct s' s2, set_call (SetOwner 5 (-1)) 3 0x2000 0 tiny = (Ok 0, s')
    ∧ sys_fstatat 3 0x2000 0x4000 0 s'
      = (Ok 0, s2 <| s_vm := <[0x4000 := UStat (stat_of (metadata_to_kstat
          ((tiny_node RegularFile 0x1ed) <| md_uid := 5 |> <| md_ctime := ct |>)))]> (s_vm tiny) |>))
  ∧ (∃ ct s' s2, set_call (SetMode 0x1c0) 3 0 AT_EMPTY_PATH tiny = (Ok 0, s')
    ∧ sys_fstatat 3 0 0x4000 AT_EMPTY_PATH s'
      = (Ok 0, s2 <| s_vm := <[0x4000 := UStat (stat_of (metadata_to_kstat
          ((tiny_node Directory 0x1c0) <| md_ctime := ct |>)))]> (s_vm tiny) |>)).
Proof.
  split.
  - destruct (set_call (SetOwner 5 (-1)) 3 0x2000 0 tiny) as [r s'] eqn:E.
    assert (Hr : r = Ok 0) by (by injection E as <- _). subst r.
    destruct (set_then_stat 3 0x2000 0 (SetOwner 5 (-1)) tiny file_f tiny (tiny_node RegularFile 0x9ed) s' 0x4000)
      as (ct & s2 & _ & Hst); [apply tiny_stores|by vm_compute|done|done| |by exists ct, s', s2].
    right. exists s'. injection E as <-. by vm_compute.
  - destruct (set_call (SetMode 0x1c0) 3 0 AT_EMPTY_PATH tiny) as [r s'] eqn:E.
    assert (Hr : r = Ok 0) by (by injection E as <- _). subst r.
    destruct (set_then_stat 3 0 AT_EMPTY_PATH (SetMode 0x1c0) tiny dir_d tiny (tiny_node Directory 0x1ed) s' 0x4000)
      as (ct & s2 & _ & Hst); [apply tiny_stores|by vm_compute|done|done|by left; left|by exists ct, s', s2].
Defined.

