(* ===== verification/Dirents.v ===== *)
(** * Listing a directory

    [sys_getdents64] of [api/src/syscall/fs/ctl.rs] over the directory loop of
    [SimpleVfs]: entries are encoded one after the other as
    [struct linux_dirent64] into a buffer that is then copied to the user, and
    the directory's offset advances to the last entry that fitted. *)

From S2P Require Import Prelude Bytes Pipe UserMem SimpleVfs.

Open Scope Z_scope.

Record DirBuffer := mkDirBuffer { db_buf : list Z; db_offset : nat }.

Definition DirBuffer_new (len : nat) : DirBuffer := mkDirBuffer (replicate len 0) 0.
Definition remaining_space (b : DirBuffer) : nat := (length (db_buf b) - db_offset b)%nat.

(** [offset_of!(linux_dirent64, d_name)]; the structure is 24 bytes long and
    aligned to 8. *)
Definition NAME_OFFSET : nat := 19.
Definition next_multiple_of (n m : nat) : nat := ((n + m - 1) / m * m)%nat.

(** The structure with an empty name: the last five bytes are padding. *)
Definition dirent64 (pad : list Z) (d_ino d_off d_reclen d_type : Z) : list Z :=
  le_bytes 8 d_ino ++ le_bytes 8 d_off ++ le_bytes 2 d_reclen ++ le_bytes 1 d_type ++ pad.

Definition write_entry (pad : list Z) (d_ino d_off d_type : Z) (name : list Z) (b : DirBuffer)
    : bool * DirBuffer :=
  let len := (NAME_OFFSET + length name + 1)%nat in
  let len := next_multiple_of len 8 in
  if (remaining_space b <? len)%nat then (false, b)
  else
    let entry_ptr := db_offset b in
    let buf := store entry_ptr (dirent64 pad d_ino d_off (Z.of_nat len) d_type) (db_buf b) in
    let name_ptr := (entry_ptr + NAME_OFFSET)%nat in
    let buf := store name_ptr name buf in
    let buf := store (name_ptr + length name) [0] buf in
    (true, mkDirBuffer buf (db_offset b + len)).

(** [name.as_bytes()] *)
Definition name_bytes (s : string) : list Z :=
  (λ a, Z.of_N (Ascii.N_of_ascii a)) <$> String.list_ascii_of_string s.

(** What the closure of [sys_getdents64] captures *)
Record Listing := mkListing { ls_buffer : DirBuffer; ls_dir_offset : Z; ls_has_remaining : bool }.

Definition getdents_accept (pad : list Z) (name : string) (ino ty offset : Z) (k : Listing) : bool * Listing :=
  let '(ok, b) := write_entry pad ino (as_i64 offset) ty (name_bytes name) (ls_buffer k) in
  if negb ok then (false, mkListing b (ls_dir_offset k) true)
  else (true, mkListing b offset true).

(** [read_dir offset] is that of the open directory. *)
Definition sys_getdents64 {V} `{VmSlices V} (read_dir : nat → M Listing Z) (buf : Z) (len : nat)
    : M (Z * UThread V) Z := λ '(dir_offset, t),
  match read_dir (Z.to_nat dir_offset) (mkListing (DirBuffer_new len) dir_offset false) with
  | (Ok _, k) =>
      if ls_has_remaining k && (db_offset (ls_buffer k) =? 0)%nat then
        (Err InvalidInput, (ls_dir_offset k, t))
      else
        match vm_write_slice buf (db_buf (ls_buffer k)) t with
        | (Ok _, t') => (Ok (Z.of_nat (db_offset (ls_buffer k))), (ls_dir_offset k, t'))
        | (Err e, t') => (Err e, (ls_dir_offset k, t'))
        | (Panic, t') => (Panic, (ls_dir_offset k, t'))
        end
  | (Err e, k) => (Err e, (ls_dir_offset k, t))
  | (Panic, k) => (Panic, (ls_dir_offset k, t))
  end.

(** ** Reading the records back, as a program does: it takes the length from
    each record, and the name up to the first null *)

Record Dirent := mkDirent { de_ino : Z; de_off : Z; de_type : Z; de_name : list Z }.

Fixpoint until_nul (l : list Z) : list Z :=
  match l with
  | [] => []
  | b :: l => if b =? 0 then [] else b :: until_nul l
  end.

Definition parse_dirent (l : list Z) : Dirent * nat :=
  let reclen := Z.to_nat (le_val (take 2 (drop 16 l))) in
  (mkDirent (le_val (take 8 l)) (le_val (take 8 (drop 8 l))) (le_val (take 1 (drop 18 l)))
     (until_nul (drop 19 (take reclen l))), reclen).

Fixpoint parse_dirents (fuel : nat) (l : list Z) : list Dirent :=
  match fuel, l with
  | S fuel, _ :: _ => let '(d, reclen) := parse_dirent l in d :: parse_dirents fuel (drop reclen l)
  | _, _ => []
  end.

(** ** One record *)

Definition reclen (name : list Z) : nat := next_multiple_of (NAME_OFFSET + length name + 1) 8.

Lemma reclen_bounds name : (20 + length name ≤ reclen name < 28 + length name)%nat
  ∧ (24 ≤ reclen name)%nat ∧ (reclen name mod 8 = 0)%nat.
Proof.
  unfold reclen, next_multiple_of, NAME_OFFSET.
  set (n := (19 + length name + 1 + 8 - 1)%nat).
  pose proof (Nat.div_mod_eq n 8). pose proof (Nat.mod_upper_bound n 8).
  split; [unfold n in *; lia|]. split; [|by rewrite Nat.Div0.mod_mul].
  assert (3 ≤ n / 8)%nat; [|lia]. apply Nat.div_le_lower_bound; unfold n; lia.
Qed.

Definition record_is (e : Dirent) (r : list Z) : Prop :=
  ∃ junk, r = le_bytes 8 (de_ino e) ++ le_bytes 8 (de_off e)
      ++ le_bytes 2 (Z.of_nat (reclen (de_name e))) ++ le_bytes 1 (de_type e)
      ++ de_name e ++ 0 :: junk
    ∧ length r = reclen (de_name e).

(** An entry as the kernel has it: fields of their widths, a name of at most
    255 bytes, none of them null. *)
Definition dirent_ok (e : Dirent) : Prop :=
  in_u64 (de_ino e) ∧ in_u64 (de_off e) ∧ 0 ≤ de_type e < 256
  ∧ (length (de_name e) ≤ 255)%nat ∧ Forall (λ b, b ≠ 0) (de_name e).

Lemma until_nul_app name l : Forall (λ b, b ≠ 0) name → until_nul (name ++ 0 :: l) = name.
Proof.
  induction 1 as [|b name Hb _ IH]; cbn; [done|].
  destruct (Z.eqb_spec b 0); [done|]. by rewrite IH.
Qed.

Lemma parse_record e r rest : dirent_ok e → record_is e r →
  parse_dirent (r ++ rest) = (e, reclen (de_name e)).
Proof.
  intros (Hi & Ho & Ht & Hn & Hz) (junk & Hr & Hl). pose proof (reclen_bounds (de_name e)) as Hb.
  unfold parse_dirent.
  assert (take (reclen (de_name e)) (r ++ rest) = r) as Htk by (rewrite take_app_length'; done).
  assert (le_val (take 2 (drop 16 (r ++ rest))) = Z.of_nat (reclen (de_name e))) as ->.
  { subst r. apply (le_val_small 2). change (256 ^ Z.of_nat 2) with 65536. lia. }
  rewrite Nat2Z.id, Htk. f_equal. subst r.
  destruct e as [ino off ty name]; cbn [de_ino de_off de_type de_name] in *. f_equal.
  - exact (le_val_small 8 ino Hi).
  - exact (le_val_small 8 off Ho).
  - exact (le_val_small 1 ty Ht).
  - exact (until_nul_app name junk Hz).
Qed.

(** A store behind [i] leaves what is before it. *)
Lemma store_split i k l buf : (i ≤ length buf)%nat →
  store (i + k) l buf = take i buf ++ store k l (drop i buf).
Proof.
  intros Hi. unfold store. by rewrite (app_assoc (take i buf)), take_take_drop, drop_drop, Nat.add_assoc.
Qed.

(** The three stores of an entry make a record. *)
Lemma stores_record pad e buf : length pad = 5%nat → (reclen (de_name e) ≤ length buf)%nat →
  let rl := reclen (de_name e) in
  let buf1 := store 0 (dirent64 pad (de_ino e) (de_off e) (Z.of_nat rl) (de_type e)) buf in
  let buf2 := store 19 (de_name e) buf1 in
  let buf3 := store (19 + length (de_name e)) [0] buf2 in
  record_is e (take rl buf3) ∧ length buf3 = length buf.
Proof.
  intros Hp Hl rl buf1 buf2 buf3. pose proof (reclen_bounds (de_name e)) as (Hb & Hb24 & _). fold rl in Hb, Hb24, Hl.
  assert (Hl1 : length buf1 = length buf).
  { apply store_length. unfold dirent64. rewrite !length_app, !le_bytes_length, Hp. lia. }
  assert (Hl2 : length buf2 = length buf) by (rewrite <- Hl1; apply store_length; lia).
  assert (Hl3 : length buf3 = length buf) by (rewrite <- Hl2; apply store_length; cbn; lia).
  split; [|done].
  set (h := le_bytes 8 (de_ino e) ++ le_bytes 8 (de_off e) ++ le_bytes 2 (Z.of_nat rl) ++ le_bytes 1 (de_type e)).
  assert (Hh : length h = 19%nat) by done.
  assert (H1 : take 19 buf1 = h) by done.
  assert (H2 : take (19 + length (de_name e)) buf2 = h ++ de_name e).
  { unfold buf2, store. rewrite app_assoc, H1. apply take_app_length'. by rewrite length_app, Hh. }
  exists (drop (20 + length (de_name e)) (take rl buf3)). split; [|rewrite length_take; lia].
  rewrite <- (take_drop (20 + length (de_name e)) (take rl buf3)) at 1. rewrite take_take, Nat.min_l by lia.
  unfold buf3 at 1, store. rewrite H2, app_assoc, take_app_length' by (rewrite !length_app, Hh; cbn; lia).
  unfold h. by rewrite <- !app_assoc.
Qed.

Lemma write_entry_fits pad e b : length pad = 5%nat → (db_offset b ≤ length (db_buf b))%nat →
  (reclen (de_name e) ≤ remaining_space b)%nat →
  ∃ r b', write_entry pad (de_ino e) (de_off e) (de_type e) (de_name e) b = (true, b')
    ∧ record_is e r ∧ length (db_buf b') = length (db_buf b)
    ∧ db_offset b' = (db_offset b + reclen (de_name e))%nat
    ∧ take (db_offset b') (db_buf b') = take (db_offset b) (db_buf b) ++ r.
Proof.
  intros Hp Ho Hr. unfold remaining_space in Hr. set (o := db_offset b) in *. set (buf := db_buf b) in *.
  destruct (stores_record pad e (drop o buf) Hp) as [Hrec Hlen]; [rewrite length_drop; lia|].
  set (rl := reclen (de_name e)) in *. set (rec := take rl _) in Hrec.
  eexists rec, _. split.
  { unfold write_entry. fold rl. unfold remaining_space. fold o buf.
    destruct (Nat.ltb_spec (length buf - o) (next_multiple_of (NAME_OFFSET + length (de_name e) + 1) 8)) as [Hlt|_];
      [change (next_multiple_of _ _) with rl in Hlt; lia|]. reflexivity. }
  change (next_multiple_of _ _) with rl. cbn [db_buf db_offset]. unfold NAME_OFFSET.
  set (h := dirent64 _ _ _ _ _) in *.
  assert (Hh : length h = 24%nat) by (unfold h, dirent64; rewrite !length_app, !le_bytes_length, Hp; done).
  pose proof (reclen_bounds (de_name e)) as (Hb & Hb24 & _). fold rl in Hb, Hb24.
  pose proof (store_split o 0 h buf) as H0. rewrite Nat.add_0_r in H0. rewrite H0 by lia. clear H0.
  assert (Htk : ∀ l, take o (take o buf ++ l) = take o buf) by (intros; apply take_app_length'; rewrite length_take; lia).
  assert (Hdr : ∀ l, drop o (take o buf ++ l) = l) by (intros; apply drop_app_length'; rewrite length_take; lia).
  assert (Hle : ∀ l, (o ≤ length (take o buf ++ l))%nat) by (intros; rewrite length_app, length_take; lia).
  rewrite (store_split o 19), Htk, Hdr by apply Hle.
  rewrite <- Nat.add_assoc. rewrite (store_split o), Htk, Hdr by apply Hle.
  split_and!; [done| |done|].
  - rewrite length_app, length_take, Hlen, length_drop. lia.
  - rewrite take_app, length_take, (take_ge (take o buf)) by (rewrite length_take; lia).
    unfold rec. do 2 f_equal. lia.
Qed.

Lemma write_entry_full pad ino off ty name b : (remaining_space b < reclen name)%nat →
  write_entry pad ino off ty name b = (false, b).
Proof. intros Hr. unfold write_entry. fold (reclen name). by apply Nat.ltb_lt in Hr as ->. Qed.

(** ** The records of a buffer *)

Definition holds (b : DirBuffer) (es : list Dirent) : Prop :=
  (db_offset b ≤ length (db_buf b))%nat ∧ Forall dirent_ok es
  ∧ ∃ rs, take (db_offset b) (db_buf b) = concat rs ∧ Forall2 record_is es rs.

Lemma holds_new len : holds (DirBuffer_new len) [].
Proof. split; [cbn; lia|]. split; [constructor|]. exists []. split; [done|constructor]. Qed.

Lemma holds_add pad e b es : length pad = 5%nat → dirent_ok e → holds b es →
  (reclen (de_name e) ≤ remaining_space b)%nat →
  ∃ b', write_entry pad (de_ino e) (de_off e) (de_type e) (de_name e) b = (true, b')
    ∧ holds b' (es ++ [e]) ∧ length (db_buf b') = length (db_buf b)
    ∧ (db_offset b < db_offset b')%nat.
Proof.
  intros Hp He (Ho & Hf & rs & Hrs & Hall) Hr.
  destruct (write_entry_fits pad e b Hp Ho Hr) as (r & b' & Hw & Hrec & Hl & Hoff & Htk).
  pose proof (reclen_bounds (de_name e)). unfold remaining_space in Hr.
  exists b'. split_and!; [done| |done|lia].
  split; [lia|]. split; [by apply Forall_app; split; [|constructor]|].
  exists (rs ++ [r]). rewrite Htk, Hrs, concat_app. cbn. rewrite app_nil_r.
  split; [done|]. apply Forall2_app; [done|]. by repeat constructor.
Qed.

Lemma parse_records es rs fuel : Forall dirent_ok es → Forall2 record_is es rs →
  (length es ≤ fuel)%nat → parse_dirents fuel (concat rs) = es.
Proof.
  intros Hok Hall. revert fuel. induction Hall as [|e r es rs Hr Hall IH]; intros fuel Hf; cbn.
  { by destruct fuel. }
  inversion Hok as [|?? He Hes]; subst. destruct fuel as [|fuel]; [cbn in Hf; lia|].
  assert (length r = reclen (de_name e)) as Hl by (by destruct Hr as (? & _ & ?)).
  pose proof (reclen_bounds (de_name e)).
  pose proof (parse_record e r (concat rs) He Hr) as Hp.
  destruct (r ++ concat rs) as [|x l] eqn:E.
  { apply (f_equal length) in E. rewrite length_app in E. cbn in E. lia. }
  cbn [parse_dirents]. rewrite Hp, <- E, drop_app_length' by done.
  f_equal. apply IH; [done|]. cbn in Hf. lia.
Qed.

Lemma holds_nonempty b es : holds b es → es ≠ [] → (0 < db_offset b)%nat.
Proof.
  intros (Ho & _ & rs & Hrs & Hall) Hne. destruct Hall as [|e r es rs Hr _]; [done|].
  destruct Hr as (junk & _ & Hl). pose proof (reclen_bounds (de_name e)).
  apply (f_equal length) in Hrs. cbn in Hrs. rewrite length_take, length_app in Hrs. lia.
Qed.

(** ** The loop over the entries *)

Section Listing.
Context (pad : list Z) (Hpad : length pad = 5%nat).
Context (ino ty : string → Z).

Definition entry (i : Z) (name : string) : Dirent := mkDirent (ino name) i (ty name) (name_bytes name).
Fixpoint entries (i : Z) (names : list string) : list Dirent :=
  match names with
  | [] => []
  | name :: names => entry (i + 1) name :: entries (i + 1) names
  end.

Lemma entries_length i names : length (entries i names) = length names.
Proof. revert i. induction names as [|n names IH]; intros i; cbn; [done|]. by rewrite IH. Qed.
Lemma entries_app i l k : entries i (l ++ k) = entries i l ++ entries (i + zlen l) k.
Proof.
  revert i. induction l as [|x l IH]; intros i; cbn [app entries]; [by rewrite Z.add_0_r|].
  rewrite IH, zlen_cons. do 3 f_equal. lia.
Qed.

Definition names_ok (names : list string) : Prop :=
  ∀ name, name ∈ names → in_u64 (ino name) ∧ 0 ≤ ty name < 256
    ∧ (length (name_bytes name) ≤ 255)%nat ∧ Forall (λ b, b ≠ 0) (name_bytes name).

Definition meta_of (name : string) : res (Z * Z) := Ok (ino name, ty name).

Lemma read_entries_fill names : ∀ i c k es,
  names_ok names → 0 ≤ i → i + zlen names < 2 ^ 63 → holds (ls_buffer k) es → ls_dir_offset k = i →
  ∃ j k', read_entries (getdents_accept pad) meta_of names i c k = (Ok (c + Z.of_nat j), k')
    ∧ (j ≤ length names)%nat
    ∧ holds (ls_buffer k') (es ++ entries i (take j names))
    ∧ length (db_buf (ls_buffer k')) = length (db_buf (ls_buffer k))
    ∧ ls_dir_offset k' = i + Z.of_nat j
    ∧ ls_has_remaining k' = ls_has_remaining k || negb (bool_decide (names = []))
    ∧ (∀ name, names !! j = Some name → (remaining_space (ls_buffer k') < reclen (name_bytes name))%nat).
Proof.
  induction names as [|name names IH]; intros i c k es Hn Hi Hb Hh Hd.
  { exists 0%nat, k. cbn. rewrite Z.add_0_r, app_nil_r, orb_false_r. split_and!; try done; lia. }
  rewrite zlen_cons in Hb. pose proof (zlen_nonneg names).
  destruct (Hn name ltac:(set_solver)) as (H1 & H2 & H3 & H4).
  cbn [read_entries meta_of]. unfold getdents_accept at 1.
  assert (as_i64 (i + 1) = i + 1) as -> by (apply wraps_small; lia).
  destruct (decide (reclen (name_bytes name) ≤ remaining_space (ls_buffer k))%nat) as [Hf|Hf].
  - destruct (holds_add pad (entry (i + 1) name) (ls_buffer k) es) as (b' & Hw & Hh' & Hl & _); [done| |done|done|].
    { split_and!; cbn; try done. all: unfold in_u64; lia. }
    cbn [entry de_ino de_off de_type de_name] in Hw. rewrite Hw. cbn [negb].
    destruct (IH (i + 1) (c + 1) (mkListing b' (i + 1) true) (es ++ [entry (i + 1) name]))
      as (j & k' & Hr & Hj & Hk & Hlk & Hdk & Hrk & Hlast); try done; [|lia|lia|].
    { intros x Hx. apply Hn. set_solver. }
    exists (S j), k'. rewrite Hr. cbn [take entries]. rewrite <- app_assoc in Hk.
    split_and!; try done; [do 2 f_equal; lia|cbn; lia|cbn in *; lia|cbn in *; lia|].
    cbn in *. by rewrite orb_true_r.
  - rewrite write_entry_full by lia. cbn [negb].
    exists 0%nat, (mkListing (ls_buffer k) (ls_dir_offset k) true). cbn.
    rewrite app_nil_r, orb_true_r. split_and!; try done; [do 2 f_equal; lia|lia|lia|].
    intros x [= <-]. by apply Nat.nle_gt.
Qed.

(** ** One call

    The directory is a [SimpleDir] that does not change. *)
Context {V N : Type} `{VmSlicesOk V}.
Context (ops : SimpleDirOps N) (this : res (Z * Z)) (parent : option (res (Z * Z)))
  (lookup : string → res (Z * Z)).

Abbreviation names := ("."%string :: ".."%string :: child_names ops).
Abbreviation dir_read_dir := (SimpleDir_read_dir (getdents_accept pad) ops this parent lookup).

Context (Hmeta : ∀ name, name ∈ names → SimpleDir_entry_meta this parent lookup name = meta_of name).
Context (Hnames : names_ok names) (Hmany : zlen names < 2 ^ 63).

Lemma elem_of_drop_names (i : nat) (name : string) (l : list string) : name ∈ drop i l → name ∈ l.
Proof. intros Hi. rewrite <- (take_drop i l). apply elem_of_app. by right. Qed.

Lemma getdents_call buf len i (t : UThread V) r i' t' : (i ≤ length names)%nat →
  sys_getdents64 dir_read_dir buf len (Z.of_nat i, t) = (r, (i', t')) →
  (r = Err InvalidInput ∧ i' = Z.of_nat i
     ∧ ∃ name, names !! i = Some name ∧ (len < reclen (name_bytes name))%nat)
  ∨ (r = Err BadAddress ∧ ∃ l, length l = len ∧ (vm_write_slice buf l t).1 = Err BadAddress)
  ∨ ∃ n j, r = Ok (Z.of_nat n) ∧ (n ≤ len)%nat ∧ i' = Z.of_nat (i + j) ∧ (i + j ≤ length names)%nat
      ∧ parse_dirents (length names) (user_bytes (u_mem t') buf n) = entries (Z.of_nat i) (take j (drop i names))
      ∧ (n = 0%nat → i = length names) ∧ ((i < length names)%nat → (0 < j)%nat ∧ (0 < n)%nat).
Proof.
  intros Hi. unfold sys_getdents64, SimpleDir_read_dir. rewrite Nat2Z.id.
  rewrite (read_entries_ext _ _ meta_of) by (intros; by eapply Hmeta, elem_of_drop_names).
  assert (Hl : zlen (drop i names) = zlen names - Z.of_nat i) by (unfold zlen; rewrite length_drop; lia).
  destruct (read_entries_fill (drop i names) (Z.of_nat i) 0 (mkListing (DirBuffer_new len) (Z.of_nat i) false) [])
    as (j & k & -> & Hj & Hh & Hbl & Hd & Hr & Hlast);
    [intros ??; by eapply Hnames, elem_of_drop_names|lia|lia|apply holds_new|done|].
  rewrite length_drop in Hj. cbn in Hbl. rewrite length_replicate in Hbl. rewrite app_nil_l in Hh.
  destruct (decide (i = length names)) as [->|Hne].
  - assert (j = 0%nat) as -> by lia. assert (ls_has_remaining k = false) as ->.
    { rewrite Hr. cbn [ls_has_remaining orb]. rewrite drop_all. done. }
    cbn [andb]. destruct Hh as (Ho & _ & rs & Hrs & Hall). rewrite take_0 in Hall. inversion Hall; subst.
    apply (f_equal length) in Hrs. rewrite length_take in Hrs. cbn in Hrs.
    destruct (vm_write_slice buf _ t) as [r1 t1] eqn:Hw.
    apply vm_write_slice_cases in Hw as Hc. destruct Hc as [[-> |(-> & _)] _]; intros [= <- <- <-].
    { right; left. split; [done|]. exists (db_buf (ls_buffer k)). by rewrite Hw. }
    right; right. exists (db_offset (ls_buffer k)), 0%nat. rewrite Hd.
    assert (db_offset (ls_buffer k) = 0%nat) as -> by lia. split_and!; try done; lia.
  - assert (ls_has_remaining k = true) as ->.
    { rewrite Hr. cbn [ls_has_remaining orb]. rewrite bool_decide_eq_false_2; [done|].
      intros E. apply (f_equal length) in E. rewrite length_drop in E. cbn in E, Hi, Hne. lia. }
    cbn [andb]. destruct (Nat.eqb_spec (db_offset (ls_buffer k)) 0) as [Hz|Hz].
    + intros [= <- <- <-]. left. assert (j = 0%nat) as ->.
      { destruct (decide (j = 0%nat)) as [|Hj0]; [done|]. exfalso.
        apply holds_nonempty in Hh; [lia|]. intros E. apply (f_equal length) in E.
        rewrite entries_length, length_take, length_drop in E. cbn in E, Hj, Hne, Hi. lia. }
      split; [done|]. split; [lia|].
      destruct (names !! i) as [name|] eqn:E; [|apply lookup_ge_None in E; lia].
      exists name. split; [done|]. specialize (Hlast name). rewrite lookup_drop, Nat.add_0_r in Hlast.
      specialize (Hlast E). unfold remaining_space in Hlast. lia.
    + destruct (vm_write_slice buf _ t) as [r1 t1] eqn:Hw.
      apply vm_write_slice_cases in Hw as Hc. destruct Hc as [[-> |(-> & Hu & _)] _]; intros [= <- <- <-].
      { right; left. split; [done|]. exists (db_buf (ls_buffer k)). by rewrite Hw. }
      right; right. exists (db_offset (ls_buffer k)), j. destruct Hh as (Ho & Hok & rs & Hrs & Hall).
      assert (0 < j)%nat.
      { destruct j; [|lia]. rewrite take_0 in Hall. inversion Hall; subst.
        apply (f_equal length) in Hrs. rewrite length_take in Hrs. cbn in Hrs. lia. }
      split_and!; try done; try lia.
      rewrite <- (user_bytes_take _ _ (length (db_buf (ls_buffer k)))), Hu, Hrs by lia.
      apply parse_records; [done|done|]. rewrite entries_length, length_take, length_drop. lia.
Qed.

(** The calls of a program that lists the directory into one buffer until the
    answer is 0 *)
Fixpoint getdents_all (fuel : nat) (buf : Z) (len : nat) (st : Z * UThread V) : option (list Dirent) :=
  match fuel with
  | O => None
  | S fuel =>
      match sys_getdents64 dir_read_dir buf len st with
      | (Ok n, (i, t)) =>
          if n =? 0 then Some []
          else
            rest ← getdents_all fuel buf len (i, t);
            Some (parse_dirents (length names) (user_bytes (u_mem t) buf (Z.to_nat n)) ++ rest)
      | _ => None
      end
  end.

Lemma getdents_all_from buf len fuel : ∀ i (t : UThread V),
  (∀ l t, length l = len → ∃ t' : UThread V, vm_write_slice buf l t = (Ok tt, t')) →
  (∀ name, name ∈ names → (reclen (name_bytes name) ≤ len)%nat) →
  (i ≤ length names)%nat → (length names - i < fuel)%nat →
  getdents_all fuel buf len (Z.of_nat i, t) = Some (entries (Z.of_nat i) (drop i names)).
Proof.
  induction fuel as [|fuel IH]; intros i t Hw Hfit Hi Hf; [lia|]. cbn [getdents_all].
  destruct (sys_getdents64 dir_read_dir buf len (Z.of_nat i, t)) as [r [i' t']] eqn:E.
  pose proof (getdents_call _ _ _ _ _ _ _ Hi E)
    as [(-> & -> & name & Hn & Hl)|[(-> & l & Hl & Hbad)|(n & j & -> & Hn & -> & Hj & Hp & Hend & Hprog)]].
  - apply list_elem_of_lookup_2, Hfit in Hn. lia.
  - destruct (Hw l t Hl) as [t1 Ht]. by rewrite Ht in Hbad.
  - destruct (decide (i = length names)) as [->|Hne].
    + assert (j = 0%nat) as -> by lia. rewrite drop_all in *. rewrite take_nil in Hp.
      assert (n = 0%nat) as ->; [|done].
      destruct n; [done|]. exfalso. revert Hp. unfold user_bytes.
      rewrite Nat2Z.inj_succ, seqZ_cons by lia. cbn [length parse_dirents fmap list_fmap].
      by destruct (parse_dirent _).
    + destruct Hprog as [Hj0 Hn0]; [lia|].
      destruct (Z.eqb_spec (Z.of_nat n) 0); [lia|].
      rewrite IH by (done || lia). cbn [mbind option_bind]. rewrite Nat2Z.id, Hp. f_equal.
      rewrite <- (take_drop j (drop i names)) at 2. rewrite entries_app, drop_drop.
      do 2 f_equal. unfold zlen. rewrite length_take, length_drop. lia.
Qed.

(** C8: a program that lists a directory into a buffer every record of which
    fits gets all its entries, once each and in order, whatever the length of
    the buffer; the calls end after at most as many as there are entries, and
    one more.  What the program finds in its memory parses, by the record
    lengths, into exactly the inode numbers, types, names and offsets. *)
Theorem getdents_lists_all buf len (t : UThread V) :
  (∀ l t, length l = len → ∃ t' : UThread V, vm_write_slice buf l t = (Ok tt, t')) →
  (∀ name, name ∈ names → (reclen (name_bytes name) ≤ len)%nat) →
  getdents_all (S (length names)) buf len (0, t) = Some (entries 0 names).
Proof. intros Hw Hfit. apply (getdents_all_from buf len _ 0 t); [done|done|lia|lia]. Qed.
End Listing.

(** ** Witnesses

    A memory all of whose bytes below the top of the address space can be
    accessed *)
Record tmem := mkTmem { tm_byte : Z → Z }.
#[export] Instance tmem_copy : UserCopy tmem := {
  uc_byte v x := tm_byte v x;
  uc_read v p n := (tm_byte v <$> seqZ p (Z.of_nat n), 0);
  uc_write p l v := (0, mkTmem (λ x, if decide (p ≤ x < p + zlen l) then l !!! Z.to_nat (x - p) else tm_byte v x));
}.
#[export] Instance tmem_slices : VmSlices tmem := {
  vm_read_slice p n t :=
    if decide (0 ≤ p ∧ p + Z.of_nat n < 2 ^ 64) then (Ok (uc_read (u_mem t) p n).1, t) else (Err BadAddress, t);
  vm_write_slice p l := λ t,
    if decide (0 ≤ p ∧ p + zlen l < 2 ^ 64) then (Ok tt, t <| u_mem := (uc_write p l (u_mem t)).2 |>)
    else (Err BadAddress, t);
}.
#[export] Instance tmem_slices_ok : VmSlicesOk tmem.
Proof.
  split.
  - intros p n t r t'. cbn. case_decide as Hd; intros [= <- <-]; (split; [done|]); [right|by left].
    split; [done|]. lia.
  - intros p l t r t'. cbn. case_decide as Hd; intros [= <- <-]; (split; [|intros x Hx; cbn]); try (by left).
    + right. split_and!; [done| |lia..]. apply list_eq. intros i. unfold user_bytes. cbn.
      rewrite list_lookup_fmap. destruct (decide (i < length l)%nat) as [Hi|Hi].
      * rewrite (proj2 (lookup_seqZ _ _ _ (p + Z.of_nat i))) by lia. cbn. unfold zlen.
        rewrite decide_True by lia. replace (Z.to_nat (p + Z.of_nat i - p)) with i by lia.
        by rewrite list_lookup_lookup_total_lt.
      * rewrite lookup_seqZ_ge by lia. cbn. symmetry. apply lookup_ge_None. lia.
    + by rewrite decide_False.
    + done.
Qed.

Definition some_dir : SimpleDirOps unit := DirMapping_ops {["tty" := tt; "null" := tt]}.
Definition some_pad : list Z := [1; 2; 3; 4; 5].
Definition some_thread : UThread tmem := mkUThread false (mkTmem (λ _, 0)).

Lemma getdents_lists_all_witness :
  getdents_all some_pad some_dir (Ok (7, 4)) None (λ _, Ok (7, 4)) 5 0x2000 32 (0, some_thread)
  = Some (entries (λ _, 7) (λ _, 4) 0 ["."; ".."; "null"; "tty"]).
Proof.
  apply (getdents_lists_all some_pad eq_refl (λ _, 7) (λ _, 4) some_dir (Ok (7, 4)) None (λ _, Ok (7, 4))).
  - intros name _. unfold SimpleDir_entry_meta, meta_of. by repeat case_decide.
  - intros name Hn. split; [done|]. split; [lia|].
    change (name ∈ ["."; ".."; "null"; "tty"]) in Hn.
    repeat (apply elem_of_cons in Hn as [->|Hn]; [by split; [cbn; lia|repeat constructor]|]).
    by apply elem_of_nil in Hn.
  - done.
  - intros l t Hl. cbn. unfold zlen. rewrite Hl. rewrite decide_True by lia. eauto.
  - intros name Hn. change (name ∈ ["."; ".."; "null"; "tty"]) in Hn.
    repeat (apply elem_of_cons in Hn as [->|Hn]; [by vm_compute; lia|]).
    by apply elem_of_nil in Hn.
Defined.

(** When an entry vanishes while the directory is listed, the call fails, but
    the offset has moved past the entries before it: they are never seen. *)
Example getdents_error_skips :
  let read_dir := SimpleDir_read_dir (getdents_accept some_pad) some_dir (Ok (7, 4)) None
    (λ name, if decide (name = "tty"%string) then Err NotFound else Ok (7, 4)) in
  (sys_getdents64 read_dir 0x2000 256 (0, some_thread)).1 = Err NotFound
  ∧ (sys_getdents64 read_dir 0x2000 256 (0, some_thread)).2.1 = 3.
Proof. by vm_compute. Qed.
