(* ===== verification/Tmpfs.v ===== *)
(** * tmpfs

    [api/src/vfs/tmp.rs]: a slab of inodes, directories that map names to
    counted references ([InodeRef]), and the nodes ([MemoryNode]) through which
    the file system layer works on an inode.

    A reference counts in [nlink]; a node holds an [Arc] of its inode.  An
    inode leaves the slab when both are gone: [Arc::strong_count] is 2 at that
    moment, one for the slab and one for the caller.  Dropping a reference is
    an effect of its own here ([drop_refs]), because the inode it frees may
    hold references to others.

    The slab and the iteration order of [HashMap] are interfaces.  [nlink] is a
    [u64]; the invariant shows that it never goes below zero. *)

From S2P Require Import Prelude Bytes Pipe UserMem SimpleVfs Dirents.

Open Scope Z_scope.

Inductive NodeContent :=
| CFile (length : Z) (symlink : option string)
| CDir (entries : gmap string Z).

Record Inode := mkInode { i_metadata : Metadata; i_content : NodeContent }.
#[export] Instance eta_Inode : Eta Inode := λ i, mkInode (i_metadata i) (i_content i).

(** [inodes] by inode number; [nodes] are the inode numbers of the nodes that
    exist, one occurrence per node; [freed] the keys that have been removed from
    the slab, the last one first. *)
Record MemoryFs := mkMemoryFs { fs_inodes : gmap Z Inode; fs_nodes : list Z; fs_freed : list Z }.
#[export] Instance eta_MemoryFs : Eta MemoryFs := λ f, mkMemoryFs (fs_inodes f) (fs_nodes f) (fs_freed f).

Definition nlink (i : Inode) : Z := md_nlink (i_metadata i).
Definition with_nlink (f : Z → Z) (i : Inode) : Inode :=
  i <| i_metadata := (i_metadata i) <| md_nlink ::= f |> |>.

(** [as_file] and [as_dir] *)
Definition as_file (i : Inode) : res (Z * option string) :=
  match i_content i with CFile len sym => Ok (len, sym) | CDir _ => Err IsADirectory end.
Definition as_dir (i : Inode) : res (gmap string Z) :=
  match i_content i with CDir es => Ok es | CFile _ _ => Err NotADirectory end.

(** The inodes a directory's entries refer to *)
Definition targets (i : Inode) : list Z :=
  match i_content i with CDir es => (map_to_list es).*2 | CFile _ _ => [] end.

Definition count_of (x : Z) (l : list Z) : Z := zsum (λ y, if decide (y = x) then 1 else 0) l.

(** A sum over the values of a map *)
Definition msum {K A} `{Countable K} (f : A → Z) (m : gmap K A) : Z := zsum (λ p, f p.2) (map_to_list m).

Section msum.
Context {K A : Type} `{Countable K}.
Implicit Types (m : gmap K A) (f : A → Z).

Lemma msum_insert f m k v : m !! k = None → msum f (<[k := v]> m) = f v + msum f m.
Proof. intros. unfold msum. by rewrite map_to_list_insert. Qed.
Lemma msum_delete f m k v : m !! k = Some v → msum f m = f v + msum f (delete k m).
Proof.
  intros Hk. rewrite <- (insert_delete_id m k v Hk) at 1. apply msum_insert, lookup_delete_eq.
Qed.
Lemma msum_update f m k v v' : m !! k = Some v → msum f (<[k := v']> m) = msum f m - f v + f v'.
Proof.
  intros Hk. rewrite (msum_delete f m k v Hk), <- insert_delete_eq.
  rewrite msum_insert by apply lookup_delete_eq. lia.
Qed.
Lemma msum_empty f : msum f (∅ : gmap K A) = 0.
Proof. unfold msum. by rewrite map_to_list_empty. Qed.
Lemma msum_singleton f k v : msum f ({[k := v]} : gmap K A) = f v.
Proof. unfold msum. rewrite map_to_list_singleton. cbn. lia. Qed.
Lemma msum_nonneg f m : (∀ v, 0 ≤ f v) → 0 ≤ msum f m.
Proof. intros. apply zsum_nonneg. auto. Qed.
End msum.

Section Tmpfs.
(** The inode number of the slab's vacant entry, from the keys in use and those
    removed before: a slab reuses the keys that were freed. *)
Context (vacant_ino : gset Z → list Z → Z).

(** [MemoryFs::get]: indexing the slab panics on a vacant key. *)
Definition fs_get (ino : Z) : M MemoryFs Inode := fs ← getM; liftR (unwrap (fs_inodes fs !! ino)).

Definition fs_set (ino : Z) (i : Inode) : M MemoryFs unit :=
  modifyM (λ fs, fs <| fs_inodes ::= insert ino i |>).

(** [release_inode]; [held] counts the [Arc]s of the inode besides those of the
    slab and of the nodes.  The answer is the references of an inode that is
    freed: they are dropped next. *)
Definition release_inode (held ino n : Z) : M MemoryFs (list Z) :=
  i ← fs_get ino;
  let i := with_nlink (λ k, k - n) i in
  fs_set ino i;;
  fs ← getM;
  let strong_count := 1 + count_of ino (fs_nodes fs) + held in
  if (nlink i =? 0) && (strong_count =? 2) then
    modifyM (λ fs, fs <| fs_inodes ::= delete ino |> <| fs_freed ::= cons ino |>);;
    mret (targets i)
  else mret [].

(** [InodeRef::new] *)
Definition InodeRef_new (ino : Z) : M MemoryFs unit :=
  i ← fs_get ino; fs_set ino (with_nlink (λ k, k + 1) i).

(** [Drop for InodeRef], for a list of references: those of a freed inode come
    before the rest. *)
Fixpoint drop_refs (fuel : nat) (work : list Z) : M MemoryFs unit :=
  match work with
  | [] => mret tt
  | ino :: work =>
      match fuel with
      | O => panicM
      | S fuel => freed ← release_inode 1 ino 1; drop_refs fuel (freed ++ work)
      end
  end.

(** Every reference that exists is dropped at most once. *)
Definition entry_count (fs : MemoryFs) : nat :=
  Z.to_nat (msum (λ i, zlen (targets i)) (fs_inodes fs)).
Definition drop_all (work : list Z) : M MemoryFs unit := λ fs,
  drop_refs (length work + entry_count fs) work fs.

(** [entries.lock()] of a directory, and its update *)
Definition dir_entries (ino : Z) : M MemoryFs (gmap string Z) := i ← fs_get ino; liftR (as_dir i).
Definition set_entries (ino : Z) (es : gmap string Z) : M MemoryFs unit :=
  i ← fs_get ino; fs_set ino (i <| i_content := CDir es |>).

Definition Inode_new (parent : option Z) (node_type : NodeType) (permission : Z) : M MemoryFs Z :=
  fs ← getM;
  let ino := vacant_ino (dom (fs_inodes fs)) (fs_freed fs) in
  let metadata := mkMetadata 0 ino 0 permission node_type 0 0 0 0 0 0 0 0 0 in
  let content := if decide (node_type = Directory) then CDir ∅ else CFile 0 None in
  fs_set ino (mkInode metadata content);;
  (if decide (node_type = Directory) then
     InodeRef_new ino;;
     set_entries ino {["." := ino]};;
     InodeRef_new (default ino parent);;
     set_entries ino {["." := ino; ".." := default ino parent]}
   else mret tt);;
  mret ino.

(** [MemoryNode::new] and [Drop for MemoryNode] *)
Definition MemoryNode_new (ino : Z) : M MemoryFs Z :=
  modifyM (λ fs, fs <| fs_nodes ::= cons ino |>);; mret ino.

Fixpoint remove_one (x : Z) (l : list Z) : list Z :=
  match l with
  | [] => []
  | y :: l => if decide (y = x) then l else y :: remove_one x l
  end.

Definition MemoryNode_drop (ino : Z) : M MemoryFs unit :=
  i ← fs_get ino;
  (match i_content i with
   | CDir _ => set_entries ino ∅;; drop_all (targets i)
   | CFile _ _ => mret tt
   end);;
  freed ← release_inode 0 ino 0;
  modifyM (λ fs, fs <| fs_nodes ::= remove_one ino |>);;
  drop_all freed.

(** [MemoryFs::new]: the root directory and its node *)
Definition MemoryFs_new : M MemoryFs Z := root_ino ← Inode_new None Directory 493; MemoryNode_new root_ino.

(** [DirNodeOps for MemoryNode]; [self] is the inode number of the node *)
Definition tmp_lookup (self : Z) (name : string) : M MemoryFs Z :=
  entries ← dir_entries self;
  ino ← liftR (ok_or NotFound (entries !! name));
  fs_get ino;;
  MemoryNode_new ino.

Definition tmp_create (self : Z) (name : string) (node_type : NodeType) (permission : Z) : M MemoryFs Z :=
  entries ← dir_entries self;
  match entries !! name with
  | Some _ => failM AlreadyExists
  | None =>
      ino ← Inode_new (Some self) node_type permission;
      InodeRef_new ino;;
      set_entries self (<[name := ino]> entries);;
      MemoryNode_new ino
  end.

Definition tmp_link (self : Z) (name : string) (target : Z) : M MemoryFs Z :=
  entries ← dir_entries self;
  match entries !! name with
  | Some _ => failM AlreadyExists
  | None =>
      InodeRef_new target;;
      set_entries self (<[name := target]> entries);;
      MemoryNode_new target
  end.

(** Locking the directory's own entries again panics ([axsync::Mutex]). *)
Definition tmp_unlink (self : Z) (name : string) : M MemoryFs unit :=
  entries ← dir_entries self;
  match entries !! name with
  | None => failM NotFound
  | Some ino =>
      i ← fs_get ino;
      match i_content i with
      | CDir es =>
          if decide (ino = self) then panicM
          else if (2 <? size es)%nat then failM DirectoryNotEmpty
          else set_entries self (delete name entries);; drop_all [ino]
      | CFile _ _ => set_entries self (delete name entries);; drop_all [ino]
      end
  end.

(** The second half of [rename], from the removal of the source on *)
Definition rename_move (self : Z) (src_name : string) (dst : Z) (dst_name : string) : M MemoryFs unit :=
  entries ← dir_entries self;
  src ← liftR (ok_or NotFound (entries !! src_name));
  set_entries self (delete src_name entries);;
  dst_node ← fs_get dst;
  match as_dir dst_node with
  | Ok dst_entries =>
      set_entries dst (<[dst_name := src]> dst_entries);;
      match dst_entries !! dst_name with
      | Some old => drop_all [old]
      | None => mret tt
      end
  | Err e => drop_all [src];; failM e
  | Panic => panicM
  end.

(** [found] is the inode of the entry [dst_dir.lookup(dst_name)] finds, the
    node of which stays with the directory's cache. *)
Definition rename_found (self : Z) (src_name : string) (found : option Z) : M MemoryFs bool :=
  match found with
  | Some entry =>
      src_entry ← tmp_lookup self src_name;
      MemoryNode_drop src_entry;;
      mret (bool_decide (entry = src_entry))
  | None => mret false
  end.
Definition tmp_rename (self : Z) (src_name : string) (dst : Z) (dst_name : string) (found : option Z)
    : M MemoryFs unit :=
  same ← rename_found self src_name found;
  if same : bool then mret tt else rename_move self src_name dst dst_name.

(** [NodeOps] and [FileNodeOps] for [MemoryNode] *)
Definition tmp_metadata (self : Z) : M MemoryFs Metadata :=
  i ← fs_get self;
  mret match i_content i with
       | CFile len _ => (i_metadata i) <| md_size := len |>
       | CDir es => (i_metadata i) <| md_size := Z.of_nat (size es) |>
       end.

Definition tmp_update_metadata (self : Z) (update : MetadataUpdate) : M MemoryFs unit :=
  i ← fs_get self; fs_set self (i <| i_metadata ::= update_md update |>).

Definition tmp_set_len (self len : Z) : M MemoryFs unit :=
  i ← fs_get self;
  f ← liftR (as_file i);
  fs_set self (i <| i_content := CFile len f.2 |>).

Definition tmp_set_symlink (self : Z) (target : string) : M MemoryFs unit :=
  i ← fs_get self;
  liftR (as_file i);;
  fs_set self (i <| i_content := CFile (Z.of_nat (String.length target)) (Some target) |>).

(** The bytes read into a buffer of [n]: only a symbolic link is read here. *)
Definition tmp_read_at (self : Z) (n : nat) (offset : Z) : M MemoryFs (list Z) :=
  i ← fs_get self;
  f ← liftR (as_file i);
  match f.2 with
  | Some symlink =>
      assertM (offset =? 0);;
      mret (take (n `min` length (name_bytes symlink)) (name_bytes symlink))
  | None => panicM
  end.

(** ** Link counts *)

Definition ind (x y : Z) : Z := if decide (y = x) then 1 else 0.
(** The references to [x] that the directories hold *)
Definition refs (x : Z) (m : gmap Z Inode) : Z := msum (λ i, count_of x (targets i)) m.

Lemma count_cons x y l : count_of x (y :: l) = ind x y + count_of x l.
Proof. done. Qed.
Lemma count_app x l k : count_of x (l ++ k) = count_of x l + count_of x k.
Proof. apply zsum_app. Qed.
Lemma count_nonneg x l : 0 ≤ count_of x l.
Proof. apply zsum_nonneg. intros y _. case_decide; lia. Qed.
Lemma count_pos x l : 0 < count_of x l ↔ x ∈ l.
Proof.
  induction l as [|y l IH]; [by split; [cbn; lia|intros ?%elem_of_nil]|].
  rewrite count_cons, elem_of_cons, <- IH. pose proof (count_nonneg x l).
  unfold ind. case_decide; split; naive_solver lia.
Qed.
Lemma count_entries x (es : gmap string Z) : count_of x (map_to_list es).*2 = msum (ind x) es.
Proof.
  unfold msum. induction (map_to_list es) as [|p l IH]; [done|].
  rewrite fmap_cons, count_cons, IH. done.
Qed.
Lemma refs_nonneg x m : 0 ≤ refs x m.
Proof. apply msum_nonneg. intros. apply count_nonneg. Qed.
Lemma refs_ge x m k i : m !! k = Some i → count_of x (targets i) ≤ refs x m.
Proof.
  intros Hk. unfold refs. rewrite (msum_delete _ m k i Hk).
  pose proof (msum_nonneg (λ i, count_of x (targets i)) (delete k m) (λ i, count_nonneg x (targets i))). lia.
Qed.

(** [work] are references that exist outside the directories (just made, or
    taken out and not yet dropped), [held] inodes the caller holds. *)
Record fs_inv (fs : MemoryFs) (work held : list Z) : Prop := {
  inv_nlink x i : fs_inodes fs !! x = Some i → nlink i = refs x (fs_inodes fs) + count_of x work;
  inv_live x : 0 < refs x (fs_inodes fs) + count_of x work → is_Some (fs_inodes fs !! x);
  inv_nodes x : x ∈ fs_nodes fs → is_Some (fs_inodes fs !! x);
  inv_unlinked x i : fs_inodes fs !! x = Some i → nlink i = 0 → x ∈ fs_nodes fs ∨ x ∈ held;
  inv_inode x i : fs_inodes fs !! x = Some i → md_inode (i_metadata i) = x;
  inv_type x i : fs_inodes fs !! x = Some i →
    md_node_type (i_metadata i) = Directory ↔ ∃ es, i_content i = CDir es;
}.

(** Replacing an inode: what has to be shown of the new one *)
Lemma inv_update fs work work' held x i i' :
  fs_inv fs work held → fs_inodes fs !! x = Some i →
  (∀ y, count_of y (targets i') + count_of y work' = count_of y (targets i) + count_of y work
        + (if decide (y = x) then nlink i' - nlink i else 0)) →
  (nlink i' = 0 → x ∈ fs_nodes fs ∨ x ∈ held) →
  md_inode (i_metadata i') = md_inode (i_metadata i) →
  md_node_type (i_metadata i') = md_node_type (i_metadata i) →
  ((∃ es, i_content i' = CDir es) ↔ ∃ es, i_content i = CDir es) →
  fs_inv (fs <| fs_inodes ::= insert x i' |>) work' held.
Proof.
  intros [Hn Hl Hnd Hu Hi Ht] Hx Hc Hz Hino Hty Hdir.
  assert (Hr : ∀ y, refs y (<[x := i']> (fs_inodes fs)) + count_of y work' =
    refs y (fs_inodes fs) + count_of y work + (if decide (y = x) then nlink i' - nlink i else 0)).
  { intros y. unfold refs. rewrite (msum_update _ _ _ _ _ Hx). specialize (Hc y). lia. }
  assert (Hsome : ∀ y, is_Some (fs_inodes fs !! y) → is_Some (<[x := i']> (fs_inodes fs) !! y)).
  { intros y Hy. rewrite lookup_insert_is_Some'. auto. }
  split; cbn.
  - intros y j. destruct (decide (y = x)) as [->|Hne].
    + rewrite lookup_insert_eq. intros [= <-]. rewrite Hr, decide_True by done.
      rewrite <- (Hn x i Hx). lia.
    + rewrite lookup_insert_ne by done. intros Hj. rewrite Hr, decide_False by done.
      rewrite <- (Hn y j Hj). lia.
  - intros y Hy. apply Hsome. rewrite Hr in Hy. destruct (decide (y = x)) as [->|Hne]; [by rewrite Hx|].
    apply Hl. lia.
  - intros y Hy. auto.
  - intros y j. destruct (decide (y = x)) as [->|Hne].
    + rewrite lookup_insert_eq. intros [= <-]. done.
    + rewrite lookup_insert_ne by done. apply Hu.
  - intros y j. destruct (decide (y = x)) as [->|Hne].
    + rewrite lookup_insert_eq. intros [= <-]. rewrite Hino. auto.
    + rewrite lookup_insert_ne by done. apply Hi.
  - intros y j. destruct (decide (y = x)) as [->|Hne].
    + rewrite lookup_insert_eq. intros [= <-]. rewrite Hty, Hdir. exact (Ht x i Hx).
    + rewrite lookup_insert_ne by done. apply Ht.
Qed.

Lemma inv_nlink_nonneg fs work held x i : fs_inv fs work held → fs_inodes fs !! x = Some i → 0 ≤ nlink i.
Proof.
  intros Hi Hx. rewrite (inv_nlink _ _ _ Hi _ _ Hx).
  pose proof (refs_nonneg x (fs_inodes fs)). pose proof (count_nonneg x work). lia.
Qed.

Lemma ind_decide x y : ind x y = if decide (x = y) then 1 else 0.
Proof. unfold ind. by do 2 case_decide. Qed.

Lemma InodeRef_new_ok fs work held x i : fs_inv fs work held → fs_inodes fs !! x = Some i →
  let fs' := fs <| fs_inodes ::= insert x (with_nlink (λ k, k + 1) i) |> in
  InodeRef_new x fs = (Ok tt, fs') ∧ fs_inv fs' (x :: work) held.
Proof.
  intros Hi Hx fs'. split.
  - unfold InodeRef_new, fs_get, fs_set. unfold_m. by rewrite Hx.
  - pose proof (inv_nlink_nonneg _ _ _ _ _ Hi Hx).
    apply (inv_update _ work _ _ _ i); try done.
    + intros y. rewrite count_cons, ind_decide. change (targets (with_nlink _ i)) with (targets i).
      case_decide; unfold nlink; cbn; lia.
    + unfold nlink in *. cbn. lia.
Qed.

(** Replacing a directory's entries, with the references moved to or from
    [work] *)
Lemma set_entries_ok fs work work' held d i es es' :
  fs_inv fs work held → fs_inodes fs !! d = Some i → i_content i = CDir es →
  (∀ y, msum (ind y) es' + count_of y work' = msum (ind y) es + count_of y work) →
  let fs' := fs <| fs_inodes ::= insert d (i <| i_content := CDir es' |>) |> in
  set_entries d es' fs = (Ok tt, fs') ∧ fs_inv fs' work' held.
Proof.
  intros Hi Hd Hes Hc fs'. split.
  - unfold set_entries, fs_get, fs_set. unfold_m. by rewrite Hd.
  - apply (inv_update _ work _ _ _ i); try done.
    + intros y. assert (targets i = (map_to_list es).*2) as -> by (unfold targets; by rewrite Hes).
      change (targets (i <| i_content := CDir es' |>)) with (map_to_list es').*2.
      change (nlink (i <| i_content := CDir es' |>)) with (nlink i).
      rewrite !count_entries, Z.sub_diag. specialize (Hc y). case_decide; lia.
    + intros Hz. by apply (inv_unlinked _ _ _ Hi _ _ Hd).
    + cbn. split; eauto.
Qed.

Lemma entries_insert es (name : string) t y : es !! name = None →
  msum (ind y) (<[name := t]> es) = ind y t + msum (ind y) es.
Proof. apply msum_insert. Qed.
Lemma entries_delete es (name : string) t y : es !! name = Some t →
  msum (ind y) es = ind y t + msum (ind y) (delete name es).
Proof. apply msum_delete. Qed.

(** Dropping references changes nothing but link counts, and frees inodes. *)
Definition drops_to (fs fs' : MemoryFs) : Prop :=
  fs_nodes fs' = fs_nodes fs
  ∧ ∀ x i', fs_inodes fs' !! x = Some i' → ∃ i n, fs_inodes fs !! x = Some i ∧ i' = with_nlink n i.

Lemma drops_to_refl fs : drops_to fs fs.
Proof. split; [done|]. intros x i Hx. exists i, id. split; [done|]. by destruct i as [[]]. Qed.
Lemma drops_to_trans fs1 fs2 fs3 : drops_to fs1 fs2 → drops_to fs2 fs3 → drops_to fs1 fs3.
Proof.
  intros [Hn1 H1] [Hn2 H2]. split; [congruence|]. intros x i3 Hx.
  apply H2 in Hx as (i2 & n2 & Hx & ->). apply H1 in Hx as (i1 & n1 & Hx & ->).
  exists i1, (n2 ∘ n1). done.
Qed.

(** The caller's inode is accounted for, or is freed. *)
Lemma inv_unhold fs work x : fs_inv fs work [x] →
  (∀ i, fs_inodes fs !! x = Some i → nlink i = 0 → x ∈ fs_nodes fs) → fs_inv fs work [].
Proof.
  intros [Hn Hl Hnd Hu Hi Ht] Hx. split; try done. intros y i Hy Hz. left.
  destruct (Hu y i Hy Hz) as [|Hin]; [done|]. apply list_elem_of_singleton in Hin as ->. eauto.
Qed.

Lemma inv_free fs work x i : fs_inv fs work [x] → fs_inodes fs !! x = Some i →
  nlink i = 0 → x ∉ fs_nodes fs →
  fs_inv (fs <| fs_inodes ::= delete x |> <| fs_freed ::= cons x |>) (targets i ++ work) [].
Proof.
  intros [Hn Hl Hnd Hu Hino Ht] Hx Hz Hnode.
  assert (Href : ∀ y, refs y (delete x (fs_inodes fs)) = refs y (fs_inodes fs) - count_of y (targets i)).
  { intros y. unfold refs. rewrite (msum_delete _ (fs_inodes fs) x i Hx). lia. }
  pose proof (Hn x i Hx) as Hnx. pose proof (refs_ge x _ _ _ Hx). pose proof (count_nonneg x (targets i)).
  pose proof (count_nonneg x work).
  split; cbn; intros y; rewrite ?Href, ?count_app.
  - intros j [Hne Hj]%lookup_delete_Some. rewrite (Hn y j Hj). lia.
  - intros Hp. destruct (decide (y = x)) as [->|Hne]; [lia|]. rewrite lookup_delete_ne by done. apply Hl. lia.
  - intros Hy. rewrite lookup_delete_ne by (by intros ->). auto.
  - intros j [Hne Hj]%lookup_delete_Some Hjz. left.
    destruct (Hu y j Hj Hjz) as [|Hin]; [done|]. by apply list_elem_of_singleton in Hin.
  - intros j [Hne Hj]%lookup_delete_Some. eauto.
  - intros j [Hne Hj]%lookup_delete_Some. eauto.
Qed.

Lemma drops_to_update fs x i n : fs_inodes fs !! x = Some i →
  drops_to fs (fs <| fs_inodes ::= insert x (with_nlink n i) |>).
Proof.
  intros Hx. split; [done|]. intros y j. cbn. destruct (decide (y = x)) as [->|].
  - rewrite lookup_insert_eq. intros [= <-]. eauto.
  - rewrite lookup_insert_ne by done. intros Hj. exists j, id. split; [done|]. by destruct j as [[]].
Qed.
Lemma drops_to_delete fs x : drops_to fs (fs <| fs_inodes ::= delete x |> <| fs_freed ::= cons x |>).
Proof.
  split; [done|]. intros y j. cbn. intros [_ Hj]%lookup_delete_Some.
  exists j, id. split; [done|]. by destruct j as [[]].
Qed.

Lemma entry_count_update fs x i i' : fs_inodes fs !! x = Some i → targets i' = targets i →
  entry_count (fs <| fs_inodes ::= insert x i' |>) = entry_count fs.
Proof. intros Hx Ht. unfold entry_count. cbn. rewrite (msum_update _ _ _ _ _ Hx), Ht. f_equal. lia. Qed.
Lemma entry_count_delete fs x i : fs_inodes fs !! x = Some i →
  (length (targets i) + entry_count (fs <| fs_inodes ::= delete x |> <| fs_freed ::= cons x |>) = entry_count fs)%nat.
Proof.
  intros Hx. unfold entry_count. cbn. rewrite (msum_delete _ _ _ _ Hx). unfold zlen.
  pose proof (msum_nonneg (λ i, Z.of_nat (length (targets i))) (delete x (fs_inodes fs)) (λ i, Nat2Z.is_nonneg _)).
  cbn in *. lia.
Qed.

Lemma release_ok fs work x : fs_inv fs (x :: work) [] →
  ∃ freed fs', release_inode 1 x 1 fs = (Ok freed, fs') ∧ fs_inv fs' (freed ++ work) []
    ∧ drops_to fs fs' ∧ (length freed + entry_count fs' = entry_count fs)%nat.
Proof.
  intros Hi. pose proof (refs_nonneg x (fs_inodes fs)) as Hr0. pose proof (count_nonneg x work) as Hc0.
  destruct (inv_live _ _ _ Hi x) as [i Hx].
  { rewrite count_cons, ind_decide, decide_True by done. lia. }
  set (i' := with_nlink (λ k, k - 1) i). set (fs1 := fs <| fs_inodes ::= insert x i' |>).
  assert (Hi1 : fs_inv fs1 work [x]).
  { apply (inv_update _ (x :: work) _ _ _ i); try done.
    - destruct Hi as [?? Hnd Hu ??]. split; try done. intros y j Hj Hz. left. by destruct (Hu y j Hj Hz) as [?|?%elem_of_nil].
    - intros y. rewrite count_cons, ind_decide. change (targets i') with (targets i).
      change (nlink i') with (nlink i - 1). case_decide; lia.
    - intros _. right. set_solver. }
  assert (Hx1 : fs_inodes fs1 !! x = Some i') by apply lookup_insert_eq.
  assert (Hsz : entry_count fs1 = entry_count fs) by (by apply (entry_count_update _ _ i)).
  assert (Hd1 : drops_to fs fs1) by (by apply drops_to_update).
  unfold release_inode, fs_get, fs_set. unfold_m. rewrite Hx. cbn [unwrap]. fold i' fs1.
  change (fs_nodes fs1) with (fs_nodes fs). pose proof (count_nonneg x (fs_nodes fs)) as Hcn.
  destruct ((nlink i' =? 0) && (1 + count_of x (fs_nodes fs) + 1 =? 2)) eqn:E.
  - apply andb_true_iff in E as [Hz%Z.eqb_eq Hs%Z.eqb_eq]. eexists _, _. split; [done|]. split_and!.
    + apply inv_free; [done|done|done|]. change (fs_nodes fs1) with (fs_nodes fs).
      rewrite <- count_pos. lia.
    + eapply drops_to_trans; [done|]. apply drops_to_delete.
    + rewrite <- Hsz. by apply entry_count_delete.
  - exists [], fs1. split; [done|]. split_and!; [|done|done].
    apply (inv_unhold _ _ x); [done|]. intros j Hj Hz. rewrite Hx1 in Hj. injection Hj as <-.
    apply count_pos. change (fs_nodes fs1) with (fs_nodes fs).
    apply andb_false_iff in E as [E|E]; apply Z.eqb_neq in E; lia.
Qed.

Lemma drop_refs_ok fuel : ∀ work fs, fs_inv fs work [] → (length work + entry_count fs ≤ fuel)%nat →
  ∃ fs', drop_refs fuel work fs = (Ok tt, fs') ∧ fs_inv fs' [] [] ∧ drops_to fs fs'.
Proof.
  induction fuel as [|fuel IH]; intros [|x work] fs Hi Hf; cbn in Hf; try lia.
  - exists fs. split_and!; [done|done|apply drops_to_refl].
  - exists fs. split_and!; [done|done|apply drops_to_refl].
  - destruct (release_ok _ _ _ Hi) as (freed & fs1 & Hr & Hi1 & Hd1 & Hc).
    destruct (IH (freed ++ work) fs1 Hi1) as (fs2 & Hr2 & Hi2 & Hd2); [rewrite length_app; lia|].
    exists fs2. split_and!; [|done|by eapply drops_to_trans].
    cbn [drop_refs]. rewrite (bind_ok _ _ _ _ _ Hr). exact Hr2.
Qed.

Lemma drop_all_ok work fs : fs_inv fs work [] →
  ∃ fs', drop_all work fs = (Ok tt, fs') ∧ fs_inv fs' [] [] ∧ drops_to fs fs'.
Proof. intros. by apply drop_refs_ok. Qed.

Lemma drop_all_nil fs : drop_all [] fs = (Ok tt, fs).
Proof. unfold drop_all. by destruct (length [] + entry_count fs)%nat. Qed.

(** ** Nodes *)

Lemma remove_one_count x y l : x ∈ l → count_of y (remove_one x l) = count_of y l - ind y x.
Proof.
  induction l as [|z l IH]; [by intros ?%elem_of_nil|]. intros Hx. cbn [remove_one]. case_decide as Hz.
  - subst z. rewrite count_cons. lia.
  - rewrite !count_cons, IH; [lia|]. apply elem_of_cons in Hx as [->|]; done.
Qed.
Lemma remove_one_elem x y l : y ∈ remove_one x l → y ∈ l.
Proof.
  induction l as [|z l IH]; cbn; [done|]. case_decide; [by right|].
  intros [->|Hy]%elem_of_cons; [left|right; auto].
Qed.
Lemma remove_one_ne x y l : y ≠ x → y ∈ l → y ∈ remove_one x l.
Proof.
  intros Hne. induction l as [|z l IH]; cbn; [done|]. intros [->|Hy]%elem_of_cons; case_decide; try done.
  - left.
  - right. auto.
Qed.

Lemma inv_remove_node fs work x : fs_inv fs work [] →
  fs_inv (fs <| fs_nodes ::= remove_one x |>) work [x].
Proof.
  intros [Hn Hl Hnd Hu Hi Ht]. split; try done; cbn.
  - intros y Hy%remove_one_elem. auto.
  - intros y i Hy Hz. destruct (Hu y i Hy Hz) as [Hin|?%elem_of_nil]; [|done].
    destruct (decide (y = x)) as [->|]; [right; set_solver|left; by apply remove_one_ne].
Qed.

Lemma MemoryNode_new_ok fs x : fs_inv fs [] [x] → is_Some (fs_inodes fs !! x) →
  MemoryNode_new x fs = (Ok x, fs <| fs_nodes ::= cons x |>)
  ∧ fs_inv (fs <| fs_nodes ::= cons x |>) [] [].
Proof.
  intros [Hn Hl Hnd Hu Hi Ht] Hx. split; [done|]. split; try done; cbn.
  - intros y [->|Hy]%elem_of_cons; auto.
  - intros y i Hy Hz. left. destruct (Hu y i Hy Hz) as [|Hin]; [by right|].
    apply list_elem_of_singleton in Hin as ->. left.
Qed.

(** Ends the life of a node whose inode's references have been taken out. *)
Lemma node_release_ok fs x : fs_inv fs [] [] → x ∈ fs_nodes fs →
  ∃ fs', (freed ← release_inode 0 x 0;
          modifyM (λ fs, fs <| fs_nodes ::= remove_one x |>);; drop_all freed) fs = (Ok tt, fs')
    ∧ fs_inv fs' [] [] ∧ drops_to (fs <| fs_nodes ::= remove_one x |>) fs'.
Proof.
  intros Hi Hnode. destruct (inv_nodes _ _ _ Hi x Hnode) as [i Hx].
  set (i' := with_nlink (λ k, k - 0) i).
  assert (i' = i) as Hii by (unfold i', with_nlink; destruct i as [[]]; cbn; by rewrite Z.sub_0_r).
  assert (fs <| fs_inodes ::= insert x i' |> = fs) as Hfs.
  { destruct fs as [m ns h]. cbn in *. rewrite Hii. by rewrite insert_id. }
  unfold release_inode, fs_get, fs_set. unfold_m. rewrite Hx. cbn [unwrap]. fold i'. rewrite Hfs, Hii.
  pose proof (inv_remove_node fs [] x Hi) as Hr. set (fs1 := fs <| fs_nodes ::= remove_one x |>) in *.
  assert (Hcount : count_of x (fs_nodes fs1) = count_of x (fs_nodes fs) - 1).
  { change (fs_nodes fs1) with (remove_one x (fs_nodes fs)). rewrite remove_one_count by done. unfold ind. by rewrite decide_True. }
  assert (Hx1 : fs_inodes fs1 !! x = Some i) by done.
  destruct ((nlink i =? 0) && (1 + count_of x (fs_nodes fs) + 0 =? 2)) eqn:E.
  - apply andb_true_iff in E as [Hz%Z.eqb_eq Hs%Z.eqb_eq].
    pose proof (inv_free _ _ _ _ Hr Hx1 Hz) as Hf. rewrite app_nil_r in Hf.
    destruct (drop_all_ok (targets i) (fs1 <| fs_inodes ::= delete x |> <| fs_freed ::= cons x |>)) as (fs2 & Hd & Hi2 & Hdt).
    { apply Hf. rewrite <- count_pos. lia. }
    exists fs2. split_and!; [exact Hd|done|]. eapply drops_to_trans; [apply drops_to_delete|done].
  - exists fs1. split_and!; [apply drop_all_nil| |apply drops_to_refl]. apply (inv_unhold _ _ x); [done|].
    intros j Hj Hz. rewrite Hx1 in Hj. injection Hj as <-. apply count_pos.
    assert (0 < count_of x (fs_nodes fs)) by (by apply count_pos).
    apply andb_false_iff in E as [E|E]; apply Z.eqb_neq in E; lia.
Qed.

Lemma MemoryNode_drop_ok fs x : fs_inv fs [] [] → x ∈ fs_nodes fs →
  ∃ fs', MemoryNode_drop x fs = (Ok tt, fs') ∧ fs_inv fs' [] []
    ∧ fs_nodes fs' = remove_one x (fs_nodes fs)
    ∧ (∀ y i', fs_inodes fs' !! y = Some i' →
         ∃ i n, fs_inodes fs !! y = Some i ∧
           i' = with_nlink n (match i_content i with
                              | CDir _ => if decide (y = x) then i <| i_content := CDir ∅ |> else i
                              | CFile _ _ => i
                              end)).
Proof.
  intros Hi Hnode. destruct (inv_nodes _ _ _ Hi x Hnode) as [i Hx].
  unfold MemoryNode_drop. rewrite (bind_ok (fs_get x) _ fs i fs) by (unfold fs_get; unfold_m; by rewrite Hx).
  destruct (i_content i) as [len sym|es] eqn:Hc.
  - rewrite (bind_ok (mret tt) _ fs tt fs) by done.
    destruct (node_release_ok fs x Hi Hnode) as (fs' & Hr & Hi' & Hn & Hd).
    exists fs'. split_and!; [exact Hr|done|done|]. intros y i' Hy. apply Hd in Hy as (j & n & Hj & ->). cbn in Hj.
    exists j, n. split; [done|]. destruct (i_content j) eqn:Hcj; [done|].
    rewrite decide_False; [done|]. intros ->. congruence.
  - assert (targets i = (map_to_list es).*2) as Ht by (unfold targets; by rewrite Hc).
    destruct (set_entries_ok fs [] (targets i) [] x i es ∅) as [Hs Hi1]; [done|done|done|..].
    { intros y. rewrite Ht, count_entries. unfold msum. rewrite map_to_list_empty. cbn. lia. }
    set (fs1 := fs <| fs_inodes ::= insert x (i <| i_content := CDir ∅ |>) |>) in *.
    destruct (drop_all_ok (targets i) fs1 Hi1) as (fs2 & Hdr & Hi2 & Hn2 & Hd2).
    destruct (node_release_ok fs2 x Hi2) as (fs3 & Hr & Hi3 & Hn3 & Hd3); [by rewrite Hn2|].
    exists fs3. split_and!; [|done|by rewrite Hn3; cbn; rewrite Hn2|].
    + rewrite (bind_ok _ _ fs tt fs2); [exact Hr|]. rewrite (bind_ok _ _ _ _ _ Hs). exact Hdr.
    + intros y i' Hy. apply Hd3 in Hy as (i2 & n2 & Hy & ->). cbn in Hy.
      apply Hd2 in Hy as (i1 & n1 & Hy & ->). unfold fs1 in Hy. cbn in Hy.
      destruct (decide (y = x)) as [->|Hne].
      * rewrite lookup_insert_eq in Hy. injection Hy as <-. exists i, (n2 ∘ n1). by rewrite Hc.
      * rewrite lookup_insert_ne in Hy by done. exists i1, (n2 ∘ n1). split; [done|]. by destruct (i_content i1).
Qed.

(** ** The directory operations *)

Definition content_at (fs : MemoryFs) (x : Z) : option NodeContent := i_content <$> fs_inodes fs !! x.

Lemma content_insert fs x i y :
  content_at (fs <| fs_inodes ::= insert x i |>) y = if decide (y = x) then Some (i_content i) else content_at fs y.
Proof.
  unfold content_at. cbn. case_decide as Hy; [subst; by rewrite lookup_insert_eq|].
  by rewrite lookup_insert_ne.
Qed.
Lemma content_some fs x c : content_at fs x = Some c → ∃ i, fs_inodes fs !! x = Some i ∧ i_content i = c.
Proof. unfold content_at. destruct (fs_inodes fs !! x); cbn; [intros [= <-]; eauto|done]. Qed.

Lemma InodeRef_new_content fs work held x : fs_inv fs work held → is_Some (fs_inodes fs !! x) →
  ∃ fs', InodeRef_new x fs = (Ok tt, fs') ∧ fs_inv fs' (x :: work) held
    ∧ fs_nodes fs' = fs_nodes fs ∧ ∀ y, content_at fs' y = content_at fs y.
Proof.
  intros Hi [i Hx]. destruct (InodeRef_new_ok _ _ _ _ _ Hi Hx) as [Hr Hi']. eexists. split; [exact Hr|].
  split_and!; [done|done|]. intros y. rewrite content_insert. case_decide; [|done].
  subst y. unfold content_at. by rewrite Hx.
Qed.

Lemma set_entries_content fs work work' held d es es' :
  fs_inv fs work held → content_at fs d = Some (CDir es) →
  (∀ y, msum (ind y) es' + count_of y work' = msum (ind y) es + count_of y work) →
  ∃ fs', set_entries d es' fs = (Ok tt, fs') ∧ fs_inv fs' work' held
    ∧ fs_nodes fs' = fs_nodes fs
    ∧ ∀ y, content_at fs' y = if decide (y = d) then Some (CDir es') else content_at fs y.
Proof.
  intros Hi (i & Hd & Hes)%content_some Hc.
  destruct (set_entries_ok _ _ _ _ _ _ _ _ Hi Hd Hes Hc) as [Hs Hi']. eexists. split; [exact Hs|].
  split_and!; [done|done|]. intros y. by rewrite content_insert.
Qed.

Lemma content_live fs x : is_Some (content_at fs x) ↔ is_Some (fs_inodes fs !! x).
Proof. unfold content_at. by rewrite fmap_is_Some. Qed.

Lemma inv_new fs work x i : fs_inv fs work [] → fs_inodes fs !! x = None →
  nlink i = 0 → targets i = [] → md_inode (i_metadata i) = x →
  (md_node_type (i_metadata i) = Directory ↔ ∃ es, i_content i = CDir es) →
  fs_inv (fs <| fs_inodes ::= insert x i |>) work [x].
Proof.
  intros [Hn Hl Hnd Hu Hi Ht] Hx Hz Htg Hino Hty.
  assert (Hr : ∀ y, refs y (<[x := i]> (fs_inodes fs)) = refs y (fs_inodes fs)).
  { intros y. unfold refs. rewrite msum_insert, Htg by done. done. }
  assert (refs x (fs_inodes fs) + count_of x work = 0) as H0.
  { pose proof (refs_nonneg x (fs_inodes fs)). pose proof (count_nonneg x work).
    destruct (decide (0 < refs x (fs_inodes fs) + count_of x work)) as [Hp|]; [|lia].
    apply Hl in Hp as [? ?]. congruence. }
  assert (Hcase : ∀ y j, <[x := i]> (fs_inodes fs) !! y = Some j → y = x ∧ j = i ∨ y ≠ x ∧ fs_inodes fs !! y = Some j).
  { intros y j Hj. apply lookup_insert_Some in Hj. naive_solver. }
  split; cbn.
  - intros y j [[-> ->]|[Hne Hj]]%Hcase; rewrite Hr; [lia|auto].
  - intros y. rewrite Hr. intros Hp%Hl. rewrite lookup_insert_is_Some'. auto.
  - intros y Hy%Hnd. rewrite lookup_insert_is_Some'. auto.
  - intros y j [[-> ->]|[Hne Hj]]%Hcase Hjz; [right; set_solver|].
    left. by destruct (Hu y j Hj Hjz) as [?|?%elem_of_nil].
  - intros y j [[-> ->]|[Hne Hj]]%Hcase; eauto.
  - intros y j [[-> ->]|[Hne Hj]]%Hcase; eauto.
Qed.

Context (vacant_fresh : ∀ s h, vacant_ino s h ∉ s).

(** What a new inode holds *)
Definition new_content (x : Z) (parent : option Z) (ty : NodeType) : NodeContent :=
  if decide (ty = Directory) then CDir {["." := x; ".." := default x parent]} else CFile 0 None.

Lemma Inode_new_ok fs parent ty perm : fs_inv fs [] [] →
  (∀ p, parent = Some p → is_Some (fs_inodes fs !! p)) →
  let x := vacant_ino (dom (fs_inodes fs)) (fs_freed fs) in
  ∃ fs', Inode_new parent ty perm fs = (Ok x, fs') ∧ fs_inv fs' [] [x]
    ∧ fs_nodes fs' = fs_nodes fs
    ∧ (∀ y, content_at fs' y = if decide (y = x) then Some (new_content x parent ty) else content_at fs y)
    ∧ content_at fs x = None.
Proof.
  intros Hi Hp x.
  assert (Hx : fs_inodes fs !! x = None) by (apply not_elem_of_dom, vacant_fresh).
  assert (Hcx : content_at fs x = None) by (unfold content_at; by rewrite Hx).
  set (i := mkInode (mkMetadata 0 x 0 perm ty 0 0 0 0 0 0 0 0 0) (if decide (ty = Directory) then CDir ∅ else CFile 0 None)).
  assert (Hi1 : fs_inv (fs <| fs_inodes ::= insert x i |>) [] [x]).
  { apply inv_new; try done; cbn.
    - unfold targets. cbn. case_decide; [|done]. by rewrite map_to_list_empty.
    - case_decide; split; naive_solver. }
  set (fs1 := fs <| fs_inodes ::= insert x i |>) in *.
  assert (Hc1 : ∀ y, content_at fs1 y = if decide (y = x) then Some (i_content i) else content_at fs y)
    by (intros; apply content_insert).
  unfold Inode_new, new_content. unfold i in *. clear i.
  change (getM ≫= ?f) with (λ fs, f fs fs). cbv beta. fold x.
  rewrite (bind_ok _ _ fs tt fs1) by done.
  destruct (decide (ty = Directory)) as [->|Hty].
  2:{ exists fs1. split_and!; done. }
  destruct (InodeRef_new_content fs1 [] [x] x Hi1) as (fs2 & Hr2 & Hi2 & Hn2 & Hc2);
    [apply content_live; rewrite Hc1, decide_True; done|].
  destruct (set_entries_content fs2 [x] [] [x] x ∅ {["." := x]} Hi2) as (fs3 & Hr3 & Hi3 & Hn3 & Hc3).
  { by rewrite Hc2, Hc1, decide_True. }
  { intros y. rewrite msum_singleton, msum_empty, count_cons. cbn. lia. }
  destruct (InodeRef_new_content fs3 [] [x] (default x parent) Hi3) as (fs4 & Hr4 & Hi4 & Hn4 & Hc4).
  { apply content_live. rewrite Hc3. case_decide as Hd; [done|]. rewrite Hc2, Hc1, decide_False by done.
    apply content_live. destruct parent as [p|]; [by apply Hp|done]. }
  destruct (set_entries_content fs4 [default x parent] [] [x] x {["." := x]} {["." := x; ".." := default x parent]} Hi4)
    as (fs5 & Hr5 & Hi5 & Hn5 & Hc5).
  { by rewrite Hc4, Hc3, decide_True. }
  { intros y. rewrite msum_insert, !msum_singleton, count_cons by by rewrite lookup_singleton_ne.
    cbn. lia. }
  exists fs5. split_and!; [|done|by rewrite Hn5, Hn4, Hn3, Hn2| |done].
  - rewrite (bind_ok _ _ fs1 tt fs5); [done|].
    rewrite (bind_ok _ _ _ _ _ Hr2), (bind_ok _ _ _ _ _ Hr3), (bind_ok _ _ _ _ _ Hr4). exact Hr5.
  - intros y. rewrite Hc5. case_decide; [done|]. by rewrite Hc4, Hc3, decide_False, Hc2, Hc1, decide_False.
Qed.

Lemma fs_get_run fs x i : fs_inodes fs !! x = Some i → fs_get x fs = (Ok i, fs).
Proof. intros Hx. unfold fs_get. unfold_m. by rewrite Hx. Qed.
Lemma dir_entries_dir fs d es : content_at fs d = Some (CDir es) → dir_entries d fs = (Ok es, fs).
Proof.
  intros (i & Hd & Hc)%content_some. unfold dir_entries.
  rewrite (bind_ok _ _ _ _ _ (fs_get_run _ _ _ Hd)). unfold as_dir. by rewrite Hc.
Qed.
Lemma dir_entries_file fs d len sym : content_at fs d = Some (CFile len sym) →
  dir_entries d fs = (Err NotADirectory, fs).
Proof.
  intros (i & Hd & Hc)%content_some. unfold dir_entries.
  rewrite (bind_ok _ _ _ _ _ (fs_get_run _ _ _ Hd)). unfold as_dir. by rewrite Hc.
Qed.
Lemma bind_err {S A B} (m : M S A) (f : A → M S B) s e s' : m s = (Err e, s') → (m ≫= f) s = (Err e, s').
Proof. intros Hm. unfold mbind, M_bind. by rewrite Hm. Qed.

Lemma node_content fs x : fs_inv fs [] [] → x ∈ fs_nodes fs → ∃ c, content_at fs x = Some c.
Proof. intros Hi [i Hx]%(inv_nodes _ _ _ Hi). exists (i_content i). unfold content_at. by rewrite Hx. Qed.

(** An entry refers to an inode that exists. *)
Lemma entry_live fs d es name x : fs_inv fs [] [] → content_at fs d = Some (CDir es) → es !! name = Some x →
  is_Some (fs_inodes fs !! x).
Proof.
  intros Hi (i & Hd & Hc)%content_some Hn. apply (inv_live _ _ _ Hi).
  pose proof (refs_ge x _ _ _ Hd) as Hr. change (count_of x []) with 0.
  enough (0 < count_of x (targets i)) by lia. apply count_pos. unfold targets. rewrite Hc.
  apply list_elem_of_fmap. exists (name, x). by rewrite elem_of_map_to_list.
Qed.

Lemma inv_hold fs work x : fs_inv fs work [] → fs_inv fs work [x].
Proof.
  intros [Hn Hl Hnd Hu Hi Ht]. split; try done. intros y i Hy Hz.
  left. by destruct (Hu y i Hy Hz) as [?|?%elem_of_nil].
Qed.

Lemma tmp_create_ok fs self name ty perm c : fs_inv fs [] [] → content_at fs self = Some c →
  ∃ r fs', tmp_create self name ty perm fs = (r, fs') ∧ fs_inv fs' [] []
    ∧ match c with
      | CFile _ _ => r = Err NotADirectory ∧ fs' = fs
      | CDir es =>
          match es !! name with
          | Some _ => r = Err AlreadyExists ∧ fs' = fs
          | None => ∃ x, r = Ok x ∧ content_at fs x = None ∧ fs_nodes fs' = x :: fs_nodes fs
              ∧ ∀ y, content_at fs' y =
                  if decide (y = self) then Some (CDir (<[name := x]> es))
                  else if decide (y = x) then Some (new_content x (Some self) ty) else content_at fs y
          end
      end.
Proof.
  intros Hi Hc. unfold tmp_create. destruct c as [len sym|es].
  { rewrite (bind_err _ _ _ _ _ (dir_entries_file _ _ _ _ Hc)). by eexists _, _. }
  rewrite (bind_ok _ _ _ _ _ (dir_entries_dir _ _ _ Hc)).
  destruct (es !! name) as [z|] eqn:Hn; [by eexists _, _|].
  destruct (Inode_new_ok fs (Some self) ty perm Hi) as (fs1 & Hr1 & Hi1 & Hn1 & Hc1 & Hx).
  { intros p [= <-]. apply content_live. by rewrite Hc. }
  set (x := vacant_ino _ _) in *.
  assert (self ≠ x) as Hne by congruence.
  destruct (InodeRef_new_content fs1 [] [x] x Hi1) as (fs2 & Hr2 & Hi2 & Hn2 & Hc2).
  { apply content_live. by rewrite Hc1, decide_True. }
  destruct (set_entries_content fs2 [x] [] [x] self es (<[name := x]> es) Hi2) as (fs3 & Hr3 & Hi3 & Hn3 & Hc3).
  { by rewrite Hc2, Hc1, decide_False. }
  { intros y. rewrite entries_insert, count_cons by done. cbn. lia. }
  destruct (MemoryNode_new_ok fs3 x Hi3) as [Hr4 Hi4].
  { apply content_live. by rewrite Hc3, decide_False, Hc2, Hc1, decide_True. }
  eexists _, _. split.
  { rewrite (bind_ok _ _ _ _ _ Hr1), (bind_ok _ _ _ _ _ Hr2), (bind_ok _ _ _ _ _ Hr3). exact Hr4. }
  split; [done|]. exists x. split_and!; [done|done|cbn; by rewrite Hn3, Hn2, Hn1|].
  intros y. change (content_at (fs3 <| fs_nodes ::= cons x |>) y) with (content_at fs3 y).
  rewrite Hc3. case_decide; [done|]. by rewrite Hc2, Hc1.
Qed.

Lemma tmp_lookup_ok fs self name c : fs_inv fs [] [] → content_at fs self = Some c →
  ∃ r fs', tmp_lookup self name fs = (r, fs') ∧ fs_inv fs' [] []
    ∧ match c with
      | CFile _ _ => r = Err NotADirectory ∧ fs' = fs
      | CDir es =>
          match es !! name with
          | Some x => r = Ok x ∧ fs' = fs <| fs_nodes ::= cons x |> ∧ is_Some (content_at fs x)
          | None => r = Err NotFound ∧ fs' = fs
          end
      end.
Proof.
  intros Hi Hc. unfold tmp_lookup. destruct c as [len sym|es].
  { rewrite (bind_err _ _ _ _ _ (dir_entries_file _ _ _ _ Hc)). by eexists _, _. }
  rewrite (bind_ok _ _ _ _ _ (dir_entries_dir _ _ _ Hc)).
  destruct (es !! name) as [x|] eqn:Hn; [|by eexists _, _].
  destruct (entry_live _ _ _ _ _ Hi Hc Hn) as [i Hx].
  destruct (MemoryNode_new_ok fs x (inv_hold _ _ _ Hi)) as [Hr Hi']; [by rewrite Hx|].
  eexists _, _. split.
  { rewrite (bind_ok (liftR (ok_or NotFound (Some x))) _ fs x fs) by done.
    rewrite (bind_ok _ _ _ _ _ (fs_get_run _ _ _ Hx)). exact Hr. }
  split; [done|]. split_and!; [done|done|]. apply content_live. by rewrite Hx.
Qed.

Lemma tmp_link_ok fs self name target c : fs_inv fs [] [] → content_at fs self = Some c →
  is_Some (content_at fs target) →
  ∃ r fs', tmp_link self name target fs = (r, fs') ∧ fs_inv fs' [] []
    ∧ match c with
      | CFile _ _ => r = Err NotADirectory ∧ fs' = fs
      | CDir es =>
          match es !! name with
          | Some _ => r = Err AlreadyExists ∧ fs' = fs
          | None => r = Ok target ∧ fs_nodes fs' = target :: fs_nodes fs
              ∧ ∀ y, content_at fs' y =
                  if decide (y = self) then Some (CDir (<[name := target]> es)) else content_at fs y
          end
      end.
Proof.
  intros Hi Hc Ht. unfold tmp_link. destruct c as [len sym|es].
  { rewrite (bind_err _ _ _ _ _ (dir_entries_file _ _ _ _ Hc)). by eexists _, _. }
  rewrite (bind_ok _ _ _ _ _ (dir_entries_dir _ _ _ Hc)).
  destruct (es !! name) as [z|] eqn:Hn; [by eexists _, _|].
  destruct (InodeRef_new_content fs [] [target] target (inv_hold _ _ _ Hi)) as (fs2 & Hr2 & Hi2 & Hn2 & Hc2).
  { by apply content_live. }
  destruct (set_entries_content fs2 [target] [] [target] self es (<[name := target]> es) Hi2) as (fs3 & Hr3 & Hi3 & Hn3 & Hc3).
  { by rewrite Hc2. }
  { intros y. rewrite entries_insert, count_cons by done. cbn. lia. }
  destruct (MemoryNode_new_ok fs3 target Hi3) as [Hr4 Hi4].
  { apply content_live. rewrite Hc3. case_decide; [done|]. by rewrite Hc2. }
  eexists _, _. split.
  { rewrite (bind_ok _ _ _ _ _ Hr2), (bind_ok _ _ _ _ _ Hr3). exact Hr4. }
  split; [done|]. split_and!; [done|cbn; by rewrite Hn3, Hn2|].
  intros y. change (content_at (fs3 <| fs_nodes ::= cons target |>) y) with (content_at fs3 y).
  rewrite Hc3. case_decide; [done|]. by rewrite Hc2.
Qed.

Lemma drops_content fs fs' y : drops_to fs fs' →
  content_at fs' y = content_at fs y ∨ content_at fs' y = None.
Proof.
  intros [_ Hd]. unfold content_at. destruct (fs_inodes fs' !! y) as [i'|] eqn:Hy; [left|by right].
  apply Hd in Hy as (i & n & -> & ->). done.
Qed.
Lemma drops_content_node fs fs' y : drops_to fs fs' → fs_inv fs' [] [] → y ∈ fs_nodes fs' →
  content_at fs' y = content_at fs y.
Proof.
  intros Hd Hi (c & Hc)%(node_content _ _ Hi). destruct (drops_content _ _ y Hd) as [|Hn]; [done|congruence].
Qed.

(** Takes the name [name] out of the directory [self] and drops its reference:
    the directory loses the name, and no other content changes, except that
    inodes are freed. *)
Lemma remove_name_ok fs self es name x : fs_inv fs [] [] → self ∈ fs_nodes fs →
  content_at fs self = Some (CDir es) → es !! name = Some x →
  ∃ fs', (set_entries self (delete name es);; drop_all [x]) fs = (Ok tt, fs') ∧ fs_inv fs' [] []
    ∧ fs_nodes fs' = fs_nodes fs
    ∧ content_at fs' self = Some (CDir (delete name es))
    ∧ ∀ y, y ≠ self → content_at fs' y = content_at fs y ∨ content_at fs' y = None.
Proof.
  intros Hi Hs Hc Hx.
  destruct (set_entries_content fs [] [x] [] self es (delete name es) Hi Hc) as (fs1 & Hr1 & Hi1 & Hn1 & Hc1).
  { intros y. rewrite (entries_delete es name x y Hx), count_cons. cbn. lia. }
  destruct (drop_all_ok [x] fs1 Hi1) as (fs2 & Hr2 & Hi2 & Hd2).
  assert (fs_nodes fs2 = fs_nodes fs) as Hn2 by (rewrite (proj1 Hd2); done).
  exists fs2. split_and!; [by rewrite (bind_ok _ _ _ _ _ Hr1)|done|done| |].
  - rewrite (drops_content_node fs1 fs2), Hc1, decide_True by (done || by rewrite Hn2). done.
  - intros y Hy. destruct (drops_content fs1 fs2 y Hd2) as [->|]; [left|by right].
    by rewrite Hc1, decide_False.
Qed.

Lemma tmp_unlink_ok fs self name c : fs_inv fs [] [] → self ∈ fs_nodes fs → content_at fs self = Some c →
  (∀ es, c = CDir es → es !! name ≠ Some self) →
  ∃ r fs', tmp_unlink self name fs = (r, fs') ∧ fs_inv fs' [] [] ∧ fs_nodes fs' = fs_nodes fs
    ∧ match c with
      | CFile _ _ => r = Err NotADirectory ∧ fs' = fs
      | CDir es =>
          match es !! name with
          | None => r = Err NotFound ∧ fs' = fs
          | Some x =>
              (r = Err DirectoryNotEmpty ∧ fs' = fs
                 ∧ ∃ es', content_at fs x = Some (CDir es') ∧ (2 < size es')%nat)
              ∨ (r = Ok tt ∧ content_at fs' self = Some (CDir (delete name es))
                 ∧ (∀ es', content_at fs x = Some (CDir es') → (size es' ≤ 2)%nat)
                 ∧ ∀ y, y ≠ self → content_at fs' y = content_at fs y ∨ content_at fs' y = None)
          end
      end.
Proof.
  intros Hi Hs Hc Hself. unfold tmp_unlink. destruct c as [len sym|es].
  { rewrite (bind_err _ _ _ _ _ (dir_entries_file _ _ _ _ Hc)). by eexists _, _. }
  rewrite (bind_ok _ _ _ _ _ (dir_entries_dir _ _ _ Hc)).
  destruct (es !! name) as [x|] eqn:Hn; [|by eexists _, _].
  destruct (entry_live _ _ _ _ _ Hi Hc Hn) as [i Hx].
  rewrite (bind_ok _ _ _ _ _ (fs_get_run _ _ _ Hx)).
  destruct (remove_name_ok _ _ _ _ _ Hi Hs Hc Hn) as (fs' & Hr & Hi' & Hn' & Hc' & Ho).
  assert (x ≠ self) as Hne by (intros ->; by eapply Hself).
  destruct (i_content i) as [len sym|es'] eqn:Hci.
  - eexists _, _. split; [exact Hr|]. split_and!; [done|done|]. right. split_and!; [done|done| |done].
    intros es' (j & Hj & Hcj)%content_some. congruence.
  - rewrite decide_False by done. destruct (Nat.ltb_spec 2 (size es')).
    + eexists _, _. split; [done|]. split_and!; [done|done|]. left. split_and!; [done|done|].
      exists es'. unfold content_at. rewrite Hx. cbn. by rewrite Hci.
    + eexists _, _. split; [exact Hr|]. split_and!; [done|done|]. right. split_and!; [done|done| |done].
      intros es1 (j & Hj & Hcj)%content_some. assert (es1 = es') as -> by congruence. done.
Qed.

Lemma rename_move_ok fs self src_name dst dst_name c ed : fs_inv fs [] [] →
  self ∈ fs_nodes fs → dst ∈ fs_nodes fs → content_at fs self = Some c → content_at fs dst = Some (CDir ed) →
  ∃ r fs', rename_move self src_name dst dst_name fs = (r, fs') ∧ fs_inv fs' [] [] ∧ fs_nodes fs' = fs_nodes fs
    ∧ match c with
      | CFile _ _ => r = Err NotADirectory ∧ fs' = fs
      | CDir es =>
          match es !! src_name with
          | None => r = Err NotFound ∧ fs' = fs
          | Some x =>
              let ed' := if decide (dst = self) then delete src_name es else ed in
              r = Ok tt ∧ content_at fs' dst = Some (CDir (<[dst_name := x]> ed'))
              ∧ (self ≠ dst → content_at fs' self = Some (CDir (delete src_name es)))
              ∧ ∀ y, y ≠ self → y ≠ dst → content_at fs' y = content_at fs y ∨ content_at fs' y = None
          end
      end.
Proof.
  intros Hi Hs Hd Hc Hcd. unfold rename_move. destruct c as [len sym|es].
  { rewrite (bind_err _ _ _ _ _ (dir_entries_file _ _ _ _ Hc)). by eexists _, _. }
  rewrite (bind_ok _ _ _ _ _ (dir_entries_dir _ _ _ Hc)).
  destruct (es !! src_name) as [x|] eqn:Hn; [|by eexists _, _].
  rewrite (bind_ok (liftR (ok_or NotFound (Some x))) _ fs x fs) by done.
  destruct (set_entries_content fs [] [x] [] self es (delete src_name es) Hi Hc) as (fs1 & Hr1 & Hi1 & Hn1 & Hc1).
  { intros y. rewrite (entries_delete es src_name x y Hn), count_cons. cbn. lia. }
  rewrite (bind_ok _ _ _ _ _ Hr1).
  set (ed' := if decide (dst = self) then delete src_name es else ed).
  assert (Hcd1 : content_at fs1 dst = Some (CDir ed')).
  { rewrite Hc1. unfold ed'. by case_decide. }
  destruct (content_some _ _ _ Hcd1) as (idst & Hdst & Hcdst).
  rewrite (bind_ok _ _ _ _ _ (fs_get_run _ _ _ Hdst)). unfold as_dir. rewrite Hcdst.
  set (old := match ed' !! dst_name with Some old => [old] | None => [] end).
  destruct (set_entries_content fs1 [x] old [] dst ed' (<[dst_name := x]> ed') Hi1 Hcd1) as (fs2 & Hr2 & Hi2 & Hn2 & Hc2).
  { intros y. unfold old. destruct (ed' !! dst_name) as [o|] eqn:Ho.
    - rewrite (entries_delete ed' dst_name o y Ho), <- insert_delete_eq, entries_insert by apply lookup_delete_eq.
      rewrite !count_cons. cbn. lia.
    - rewrite entries_insert, count_cons by done. cbn. lia. }
  rewrite (bind_ok _ _ _ _ _ Hr2).
  destruct (drop_all_ok old fs2 Hi2) as (fs3 & Hr3 & Hi3 & Hd3).
  assert (fs_nodes fs3 = fs_nodes fs) as Hn3 by (rewrite (proj1 Hd3), Hn2; done).
  exists (Ok tt), fs3. split.
  { unfold old in Hr3. destruct (ed' !! dst_name); [done|]. by rewrite drop_all_nil in Hr3. }
  split_and!; [done|done|done| | |].
  - rewrite (drops_content_node fs2 fs3), Hc2, decide_True by (done || by rewrite Hn3). done.
  - intros Hne. by rewrite (drops_content_node fs2 fs3), Hc2, decide_False, Hc1, decide_True by (done || by rewrite Hn3).
  - intros y Hy Hy'. destruct (drops_content fs2 fs3 y Hd3) as [->|]; [left|by right].
    by rewrite Hc2, decide_False, Hc1, decide_False.
Qed.

(** What is left of the content of [y] when a second node of [s] is dropped:
    the entries of a directory go. *)
Definition cleared (s y : Z) (c : NodeContent) : NodeContent :=
  match c with
  | CDir _ => if decide (y = s) then CDir ∅ else c
  | CFile _ _ => c
  end.

(** What [rename] does before the move when the destination exists: it looks
    the source up once more and drops that node again. *)
Lemma rename_probe_ok fs self src_name es : fs_inv fs [] [] → content_at fs self = Some (CDir es) →
  match es !! src_name with
  | None => tmp_lookup self src_name fs = (Err NotFound, fs)
  | Some x => ∃ fs1 fs', tmp_lookup self src_name fs = (Ok x, fs1) ∧ MemoryNode_drop x fs1 = (Ok tt, fs')
      ∧ fs_inv fs' [] [] ∧ fs_nodes fs' = fs_nodes fs
      ∧ ∀ y, content_at fs' y = cleared x y <$> content_at fs y ∨ content_at fs' y = None
  end.
Proof.
  intros Hi Hc. destruct (tmp_lookup_ok fs self src_name _ Hi Hc) as (r & fs1 & Hr & Hi1 & Hcase).
  destruct (es !! src_name) as [x|]; destruct Hcase as [-> Hcase]; [|by subst].
  destruct Hcase as [-> _]. destruct (MemoryNode_drop_ok _ x Hi1) as (fs2 & Hr2 & Hi2 & Hn2 & Hc2); [left|].
  eexists _, fs2. split_and!; [done|done|done|rewrite Hn2; cbn; by rewrite decide_True|].
  intros y. unfold content_at at 1 3. destruct (fs_inodes fs2 !! y) as [i'|] eqn:Hy; [left|by right].
  apply Hc2 in Hy as (i & n & Hyi & ->). cbn in Hyi. unfold content_at. rewrite Hyi. cbn.
  destruct (i_content i) eqn:Hci; cbn; [by rewrite Hci|]. case_decide; cbn; by rewrite ?Hci.
Qed.

(** What [rename] finds when it comes to move the entry of the inode [x] *)
Definition probed (found : option Z) (x y : Z) (c : NodeContent) : NodeContent :=
  match found with Some _ => cleared x y c | None => c end.

(** The contents after a rename of the entry [src_name], of the inode [x], of
    the directory [self] to [dst_name] of [dst] *)
Definition renamed (fs : MemoryFs) (self : Z) (src_name : string) (es : gmap string Z) (dst : Z) (dst_name : string)
    (found : option Z) (x y : Z) : option NodeContent :=
  let base d := if decide (d = self) then Some (CDir (delete src_name es)) else probed found x d <$> content_at fs d in
  if decide (found = Some x) then probed found x y <$> content_at fs y
  else if decide (y = dst) then
    (λ c, match c with CDir ed => CDir (<[dst_name := x]> ed) | c => c end) <$> base dst
  else base y.

Lemma probed_dir found x y ed : ∃ ed', probed found x y (CDir ed) = CDir ed'.
Proof. destruct found; cbn; [case_decide|]; eauto. Qed.

(** The first half of [rename]: whether the entries are the same *)
Lemma rename_found_ok fs self src_name es found x : fs_inv fs [] [] → content_at fs self = Some (CDir es) →
  es !! src_name = Some x →
  ∃ fs', rename_found self src_name found fs = (Ok (bool_decide (found = Some x)), fs')
    ∧ fs_inv fs' [] [] ∧ fs_nodes fs' = fs_nodes fs
    ∧ ∀ y, content_at fs' y = probed found x y <$> content_at fs y ∨ content_at fs' y = None.
Proof.
  intros Hi Hc Hx. destruct found as [e|].
  - pose proof (rename_probe_ok fs self src_name es Hi Hc) as Hp. rewrite Hx in Hp.
    destruct Hp as (fs1 & fs2 & Hl & Hd & Hi2 & Hn2 & Hc2). exists fs2. split_and!; [|done..].
    unfold rename_found. rewrite (bind_ok _ _ _ _ _ Hl), (bind_ok _ _ _ _ _ Hd).
    assert (bool_decide (Some e = Some x) = bool_decide (e = x)) as -> by (apply bool_decide_ext; naive_solver). done.
  - exists fs. split_and!; [done..|]. intros y. left. cbn. by destruct (content_at fs y).
Qed.

Lemma rename_not_found fs self src_name es dst dst_name found : fs_inv fs [] [] →
  content_at fs self = Some (CDir es) → es !! src_name = None →
  tmp_rename self src_name dst dst_name found fs = (Err NotFound, fs).
Proof.
  intros Hi Hc Hx. unfold tmp_rename. destruct found as [e|].
  - pose proof (rename_probe_ok fs self src_name es Hi Hc) as Hp. rewrite Hx in Hp.
    apply bind_err. unfold rename_found. by apply bind_err.
  - rewrite (bind_ok (rename_found _ _ _) _ fs false fs) by done. unfold rename_move.
    rewrite (bind_ok _ _ _ _ _ (dir_entries_dir _ _ _ Hc)). by rewrite Hx.
Qed.

Lemma tmp_rename_ok fs self src_name dst dst_name found ed : fs_inv fs [] [] →
  self ∈ fs_nodes fs → dst ∈ fs_nodes fs → content_at fs dst = Some (CDir ed) →
  ∃ r fs', tmp_rename self src_name dst dst_name found fs = (r, fs') ∧ fs_inv fs' [] [] ∧ r ≠ Panic.
Proof.
  intros Hi Hs Hd Hcd. destruct (node_content _ _ Hi Hs) as [[len sym|es] Hc].
  { exists (Err NotADirectory), fs. split_and!; [|done..]. unfold tmp_rename, rename_found, rename_move, tmp_lookup.
    pose proof (dir_entries_file _ _ _ _ Hc) as He.
    destruct found; [by do 3 apply bind_err|]. rewrite (bind_ok (mret false) _ fs false fs) by done. by apply bind_err. }
  destruct (es !! src_name) as [x|] eqn:Hx; [|exists (Err NotFound), fs; split_and!; [|done..]; by eapply rename_not_found].
  destruct (rename_found_ok fs self src_name es found x Hi Hc Hx) as (fs1 & Hr & Hi1 & Hn1 & Hc1).
  unfold tmp_rename. rewrite (bind_ok _ _ _ _ _ Hr). case_bool_decide; [by eexists _, _|].
  rewrite <- Hn1 in Hs, Hd. destruct (node_content _ _ Hi1 Hs) as [c' Hc'], (node_content _ _ Hi1 Hd) as [cd' Hcd'].
  destruct (probed_dir found x dst ed) as [ed' Hed'].
  assert (cd' = CDir ed') as -> by (destruct (Hc1 dst) as [E|E]; rewrite Hcd' in E; [|done]; rewrite Hcd in E; cbn in E; congruence).
  destruct (rename_move_ok fs1 self src_name dst dst_name c' ed' Hi1 Hs Hd Hc' Hcd') as (r & fs' & Hr' & Hi' & _ & Hcase).
  exists r, fs'. split_and!; [done..|]. destruct c'; [|case_match]; naive_solver.
Qed.

(** A live node's content after the first half *)
Lemma rename_found_content fs fs1 found x y c : fs_inv fs1 [] [] → fs_nodes fs1 = fs_nodes fs →
  (∀ y, content_at fs1 y = probed found x y <$> content_at fs y ∨ content_at fs1 y = None) →
  y ∈ fs_nodes fs → content_at fs y = Some c → content_at fs1 y = Some (probed found x y c).
Proof.
  intros Hi1 Hn1 Hc1 Hy Hc. rewrite <- Hn1 in Hy. destruct (node_content _ _ Hi1 Hy) as [c' Hc'].
  destruct (Hc1 y) as [->|E]; [by rewrite Hc|congruence].
Qed.
Lemma probed_other found x y c : y ≠ x → probed found x y c = c.
Proof. intros Hy. destruct found, c; cbn; [done|by rewrite decide_False|done..]. Qed.

(** An inode whose content is gone was held by no node and no entry. *)
Lemma freed_unheld fs d es name x : fs_inv fs [] [] → content_at fs d = Some (CDir es) → es !! name = Some x →
  ∀ y, content_at fs y = None → (y ∉ fs_nodes fs) ∧ y ≠ x.
Proof.
  intros Hi Hd Hx y Hy. split; [intros [c Hc]%(node_content _ _ Hi); congruence|]. intros ->.
  apply (entry_live _ _ _ _ _ Hi Hd), content_live in Hx as [c Hc]. congruence.
Qed.

Lemma tmp_rename_spec fs self src_name dst dst_name found es ed x : fs_inv fs [] [] →
  self ∈ fs_nodes fs → dst ∈ fs_nodes fs →
  content_at fs self = Some (CDir es) → content_at fs dst = Some (CDir ed) →
  es !! src_name = Some x → x ≠ self →
  ∃ fs', tmp_rename self src_name dst dst_name found fs = (Ok tt, fs')
    ∧ ∀ y, content_at fs' y = renamed fs self src_name es dst dst_name found x y
           ∨ content_at fs' y = None ∧ (y ∉ fs_nodes fs) ∧ y ≠ x.
Proof.
  intros Hi Hs Hd Hc Hcd Hx Hne.
  destruct (rename_found_ok fs self src_name es found x Hi Hc Hx) as (fs1 & Hr & Hi1 & Hn1 & Hc1).
  pose proof (rename_found_content _ _ _ _ _ _ Hi1 Hn1 Hc1 Hs Hc) as Hc1s. rewrite probed_other in Hc1s by done.
  unfold tmp_rename. rewrite (bind_ok _ _ _ _ _ Hr). unfold renamed. cbv beta zeta. rewrite <- Hn1.
  destruct (decide (found = Some x)) as [Hf|Hf].
  { rewrite bool_decide_true by done. exists fs1. split; [done|]. intros y.
    destruct (Hc1 y) as [|Hy]; [by left|right]. split; [done|]. by eapply freed_unheld. }
  rewrite bool_decide_false by done.
  destruct (probed_dir found x dst ed) as [ed' Hed'].
  pose proof (rename_found_content _ _ _ _ _ _ Hi1 Hn1 Hc1 Hd Hcd) as Hc1d. rewrite Hed' in Hc1d.
  rewrite <- Hn1 in Hs, Hd.
  destruct (rename_move_ok fs1 self src_name dst dst_name _ ed' Hi1 Hs Hd Hc1s Hc1d) as (r & fs' & Hr' & Hi' & Hn' & Hcase).
  rewrite Hx in Hcase. destruct Hcase as (-> & Hdst & Hself & Ho). exists fs'. split; [done|]. intros y. rewrite <- Hn'.
  destruct (decide (y = dst)) as [->|Hyd].
  { left. rewrite Hdst. case_decide; cbn; [done|]. rewrite Hcd. cbn. by rewrite Hed'. }
  destruct (decide (y = self)) as [->|Hys]; [left; by apply Hself|].
  assert (content_at fs' y = None → content_at fs' y = None ∧ (y ∉ fs_nodes fs') ∧ y ≠ x) as Hgone.
  { intros Hy. split; [done|]. eapply freed_unheld; [done|exact Hdst|apply lookup_insert_eq|done]. }
  destruct (Ho y Hys Hyd) as [E|]; [|by right; apply Hgone].
  destruct (Hc1 y) as [Hy|Hy]; [by left; rewrite E, Hy|]. right. apply Hgone. congruence.
Qed.

(** ** Runs *)

Inductive tmp_op :=
| OpLookup (self : Z) (name : string)
| OpCreate (self : Z) (name : string) (ty : NodeType) (perm : Z)
| OpLink (self : Z) (name : string) (target : Z)
| OpUnlink (self : Z) (name : string)
| OpRename (self : Z) (src : string) (dst : Z) (dst_name : string) (found : option Z)
| OpDrop (x : Z)
| OpUpdate (self : Z) (update : MetadataUpdate)
| OpSetLen (self len : Z)
| OpSetSymlink (self : Z) (target : string).

Definition tmp_run (o : tmp_op) : M MemoryFs unit :=
  match o with
  | OpLookup self name => tmp_lookup self name;; mret tt
  | OpCreate self name ty perm => tmp_create self name ty perm;; mret tt
  | OpLink self name target => tmp_link self name target;; mret tt
  | OpUnlink self name => tmp_unlink self name
  | OpRename self src dst dst_name found => tmp_rename self src dst dst_name found
  | OpDrop x => MemoryNode_drop x
  | OpUpdate self update => tmp_update_metadata self update
  | OpSetLen self len => tmp_set_len self len
  | OpSetSymlink self target => tmp_set_symlink self target
  end.

(** The operations go through nodes that exist; the destination of a rename is
    a directory; a directory is not asked to unlink itself. *)
Definition op_ok (o : tmp_op) (fs : MemoryFs) : Prop :=
  match o with
  | OpLookup self _ | OpCreate self _ _ _ | OpUpdate self _ | OpSetLen self _ | OpSetSymlink self _ =>
      self ∈ fs_nodes fs
  | OpLink self _ target => self ∈ fs_nodes fs ∧ target ∈ fs_nodes fs
  | OpUnlink self name => self ∈ fs_nodes fs ∧ ∀ es, content_at fs self = Some (CDir es) → es !! name ≠ Some self
  | OpRename self _ dst _ _ => self ∈ fs_nodes fs ∧ dst ∈ fs_nodes fs ∧ ∃ ed, content_at fs dst = Some (CDir ed)
  | OpDrop x => x ∈ fs_nodes fs
  end.

(** Changes of an inode that touch neither its links nor its entries *)
Lemma inode_update_ok fs x i i' : fs_inv fs [] [] → fs_inodes fs !! x = Some i →
  nlink i' = nlink i → targets i' = targets i →
  md_inode (i_metadata i') = md_inode (i_metadata i) →
  md_node_type (i_metadata i') = md_node_type (i_metadata i) →
  ((∃ es, i_content i' = CDir es) ↔ ∃ es, i_content i = CDir es) →
  ∃ fs', fs_set x i' fs = (Ok tt, fs') ∧ fs_inv fs' [] [].
Proof.
  intros Hi Hx Hn Ht Hino Hty Hdir. eexists. split; [done|].
  apply (inv_update _ [] _ _ _ i); try done.
  - intros y. rewrite Ht, Hn, Z.sub_diag. case_decide; lia.
  - rewrite Hn. by apply (inv_unlinked _ _ _ Hi).
Qed.

Lemma update_md_keeps update m :
  md_nlink (update_md update m) = md_nlink m ∧ md_inode (update_md update m) = md_inode m
  ∧ md_node_type (update_md update m) = md_node_type m.
Proof. destruct update as [[?|] [[? ?]|] [?|] [?|]], m; done. Qed.

Lemma tmp_run_ok o fs : fs_inv fs [] [] → op_ok o fs →
  ∃ r fs', tmp_run o fs = (r, fs') ∧ r ≠ Panic ∧ fs_inv fs' [] [].
Proof.
  intros Hi Hok.
  assert (Hbind : ∀ (m : M MemoryFs Z) r fs', m fs = (r, fs') → r ≠ Panic → fs_inv fs' [] [] →
    ∃ r fs', (m;; mret tt) fs = (r, fs') ∧ r ≠ Panic ∧ fs_inv fs' [] []).
  { intros m r fs' Hm Hr Hi'. unfold_m. rewrite Hm. destruct r; [| |done]; by eexists _, _. }
  destruct o as [self name|self name ty perm|self name target|self name|self src dst dst_name found|x
                |self update|self len|self target]; cbn [tmp_run op_ok] in *.
  - destruct (node_content _ _ Hi Hok) as [c Hc].
    destruct (tmp_lookup_ok fs self name c Hi Hc) as (r & fs' & Hr & Hi' & Hcase).
    eapply Hbind; [exact Hr| |done]. destruct c; [|case_match]; naive_solver.
  - destruct (node_content _ _ Hi Hok) as [c Hc].
    destruct (tmp_create_ok fs self name ty perm c Hi Hc) as (r & fs' & Hr & Hi' & Hcase).
    eapply Hbind; [exact Hr| |done]. destruct c; [|case_match]; naive_solver.
  - destruct Hok as [Hs Ht]. destruct (node_content _ _ Hi Hs) as [c Hc], (node_content _ _ Hi Ht) as [ct Hct].
    destruct (tmp_link_ok fs self name target c Hi Hc) as (r & fs' & Hr & Hi' & Hcase); [by rewrite Hct|].
    eapply Hbind; [exact Hr| |done]. destruct c; [|case_match]; naive_solver.
  - destruct Hok as [Hs Hne]. destruct (node_content _ _ Hi Hs) as [c Hc].
    destruct (tmp_unlink_ok fs self name c Hi Hs Hc) as (r & fs' & Hr & Hi' & _ & Hcase).
    { intros es ->. auto. }
    exists r, fs'. split_and!; [done| |done]. destruct c; [|case_match]; naive_solver.
  - destruct Hok as (Hs & Hd & ed & Hcd).
    destruct (tmp_rename_ok fs self src dst dst_name found ed Hi Hs Hd Hcd) as (r & fs' & Hr & Hi' & Hp). eauto 6.
  - destruct (MemoryNode_drop_ok fs x Hi Hok) as (fs' & Hr & Hi' & _). exists (Ok tt), fs'. done.
  - destruct (inv_nodes _ _ _ Hi _ Hok) as [i Hx]. unfold tmp_update_metadata.
    rewrite (bind_ok _ _ _ _ _ (fs_get_run _ _ _ Hx)).
    destruct (update_md_keeps update (i_metadata i)) as (H1 & H2 & H3).
    edestruct (inode_update_ok fs self i) as (fs' & Hr & Hi'); [done|done|..|by exists (Ok tt), fs'];
      [exact H1|done|exact H2|exact H3|done].
  - destruct (inv_nodes _ _ _ Hi _ Hok) as [i Hx]. unfold tmp_set_len, as_file.
    rewrite (bind_ok _ _ _ _ _ (fs_get_run _ _ _ Hx)).
    destruct (i_content i) as [l sym|es] eqn:Hc; [|by eexists _, _].
    edestruct (inode_update_ok fs self i) as (fs' & Hr & Hi'); [done|done|..|exists (Ok tt), fs'; split; [exact Hr|done]];
      try done; unfold targets; cbn; rewrite Hc; [done|naive_solver].
  - destruct (inv_nodes _ _ _ Hi _ Hok) as [i Hx]. unfold tmp_set_symlink, as_file.
    rewrite (bind_ok _ _ _ _ _ (fs_get_run _ _ _ Hx)).
    destruct (i_content i) as [l sym|es] eqn:Hc; [|by eexists _, _].
    edestruct (inode_update_ok fs self i) as (fs' & Hr & Hi'); [done|done|..|exists (Ok tt), fs'; split; [exact Hr|done]];
      try done; unfold targets; cbn; rewrite Hc; [done|naive_solver].
Qed.

Inductive tmp_reach : MemoryFs → Prop :=
| TrNew root fs : MemoryFs_new (mkMemoryFs ∅ [] []) = (Ok root, fs) → tmp_reach fs
| TrOp fs o r fs' : tmp_reach fs → op_ok o fs → tmp_run o fs = (r, fs') → tmp_reach fs'.

Lemma MemoryFs_new_ok : ∃ root fs, MemoryFs_new (mkMemoryFs ∅ [] []) = (Ok root, fs) ∧ fs_inv fs [] [].
Proof.
  assert (Hi : fs_inv (mkMemoryFs ∅ [] []) [] []).
  { assert (Hr : ∀ x, refs x (∅ : gmap Z Inode) = 0) by (intros; apply msum_empty).
    split; cbn [fs_inodes fs_nodes]; intros x; rewrite ?lookup_empty, ?Hr; try done.
    - by intros ?%elem_of_nil. }
  destruct (Inode_new_ok _ None Directory 493 Hi) as (fs1 & Hr1 & Hi1 & _ & Hc1 & _); [done|].
  set (x := vacant_ino _ _) in *.
  destruct (MemoryNode_new_ok fs1 x Hi1) as [Hr2 Hi2].
  { apply content_live. by rewrite Hc1, decide_True. }
  eexists _, _. split; [|exact Hi2]. unfold MemoryFs_new. rewrite (bind_ok _ _ _ _ _ Hr1). exact Hr2.
Qed.

Lemma tmp_reach_inv fs : tmp_reach fs → fs_inv fs [] [].
Proof.
  induction 1 as [root fs Hn|fs o r fs' _ IH Hok Hr].
  - destruct MemoryFs_new_ok as (root' & fs' & Hn' & Hi). rewrite Hn in Hn'. by simplify_eq.
  - destruct (tmp_run_ok o fs IH Hok) as (r' & fs'' & Hr' & _ & Hi). rewrite Hr in Hr'. by simplify_eq.
Qed.

(** C2: after any sequence of lookups, creations, links, removals, renames,
    metadata changes and drops of nodes, an inode's link count is the number
    of directory entries that refer to it, and the inodes in the slab are
    exactly those that an entry refers to or a node holds: none is freed too
    early, so that no entry dangles, and none is kept too long.  The content
    of an inode agrees with its type, and no operation panics. *)
Theorem tmpfs_inodes_exact fs : tmp_reach fs →
  (∀ x i, fs_inodes fs !! x = Some i → nlink i = refs x (fs_inodes fs))
  ∧ (∀ x, is_Some (fs_inodes fs !! x) ↔ 0 < refs x (fs_inodes fs) ∨ x ∈ fs_nodes fs)
  ∧ (∀ x i, fs_inodes fs !! x = Some i →
       md_node_type (i_metadata i) = Directory ↔ ∃ es, i_content i = CDir es)
  ∧ ∀ o, op_ok o fs → (tmp_run o fs).1 ≠ Panic.
Proof.
  intros Hi%tmp_reach_inv. pose proof Hi as [Hn Hl Hnd Hu Hino Ht].
  change (count_of ?x []) with 0 in *. split_and!; [..|done|].
  - intros x i Hx. specialize (Hn x i Hx). change (count_of x []) with 0 in Hn. lia.
  - intros x. split.
    + intros [i Hx]. specialize (Hn x i Hx). change (count_of x []) with 0 in Hn.
      pose proof (refs_nonneg x (fs_inodes fs)).
      destruct (decide (nlink i = 0)) as [Hz|]; [|left; lia].
      right. by destruct (Hu x i Hx Hz) as [|?%elem_of_nil].
    + intros [Hr|Hx]; [|by apply Hnd]. apply Hl. change (count_of x []) with 0. lia.
  - intros o Hok. by destruct (tmp_run_ok o fs Hi Hok) as (r & fs' & -> & Hp & _).
Qed.

(** C24: the directories of a tmpfs are maps from names to inodes.  Creating or
    linking adds the name, and fails with [AlreadyExists] when it is there;
    unlinking removes it, fails with [NotFound] when it is not, and with
    [DirectoryNotEmpty] exactly for a directory with more than two entries.  A
    rename moves the entry, also within a directory, and replaces what the
    destination name refers to; nothing moves when both names are of one inode;
    it fails with [NotFound] when the source is not there ([renamed]).  Whenever
    the destination exists, the renamed inode, if it is a directory, loses its
    entries ([probed]).  Every other content stays as it is, except that of
    inodes that are freed, and every failure leaves the file system as it is.
    Unlinking or renaming a directory's own [.] is left out. *)
Theorem tmpfs_directories_are_maps fs self es : tmp_reach fs → self ∈ fs_nodes fs →
  content_at fs self = Some (CDir es) →
  (∀ name ty perm r fs', tmp_create self name ty perm fs = (r, fs') →
     match es !! name with
     | Some _ => r = Err AlreadyExists ∧ fs' = fs
     | None => ∃ x, r = Ok x ∧ content_at fs x = None
         ∧ ∀ y, content_at fs' y =
             if decide (y = self) then Some (CDir (<[name := x]> es))
             else if decide (y = x) then Some (new_content x (Some self) ty) else content_at fs y
     end)
  ∧ (∀ name target r fs', target ∈ fs_nodes fs → tmp_link self name target fs = (r, fs') →
     match es !! name with
     | Some _ => r = Err AlreadyExists ∧ fs' = fs
     | None => r = Ok target ∧ ∀ y, content_at fs' y =
         if decide (y = self) then Some (CDir (<[name := target]> es)) else content_at fs y
     end)
  ∧ (∀ name r fs', es !! name ≠ Some self → tmp_unlink self name fs = (r, fs') →
     match es !! name with
     | None => r = Err NotFound ∧ fs' = fs
     | Some x =>
         (r = Err DirectoryNotEmpty ∧ fs' = fs ∧ ∃ es', content_at fs x = Some (CDir es') ∧ (2 < size es')%nat)
         ∨ (r = Ok tt ∧ content_at fs' self = Some (CDir (delete name es))
            ∧ (∀ es', content_at fs x = Some (CDir es') → (size es' ≤ 2)%nat)
            ∧ ∀ y, y ≠ self → content_at fs' y = content_at fs y ∨ content_at fs' y = None)
     end)
  ∧ (∀ src dst dst_name ed found r fs', dst ∈ fs_nodes fs → content_at fs dst = Some (CDir ed) →
     es !! src ≠ Some self → tmp_rename self src dst dst_name found fs = (r, fs') →
     match es !! src with
     | None => r = Err NotFound ∧ fs' = fs
     | Some x => r = Ok tt ∧ ∀ y,
         content_at fs' y = renamed fs self src es dst dst_name found x y
         ∨ content_at fs' y = None ∧ (y ∉ fs_nodes fs) ∧ y ≠ x
     end).
Proof.
  intros Hi%tmp_reach_inv Hs Hc. split_and!.
  - intros name ty perm r fs' Hr.
    destruct (tmp_create_ok fs self name ty perm _ Hi Hc) as (r1 & fs1 & Hr1 & _ & Hcase).
    rewrite Hr in Hr1. injection Hr1 as <- <-. destruct (es !! name); naive_solver.
  - intros name target r fs' Ht Hr. destruct (node_content _ _ Hi Ht) as [ct Hct].
    destruct (tmp_link_ok fs self name target _ Hi Hc) as (r1 & fs1 & Hr1 & _ & Hcase); [by rewrite Hct|].
    rewrite Hr in Hr1. injection Hr1 as <- <-. destruct (es !! name); naive_solver.
  - intros name r fs' Hne Hr.
    destruct (tmp_unlink_ok fs self name _ Hi Hs Hc) as (r1 & fs1 & Hr1 & _ & _ & Hcase).
    { by intros es' [= <-]. }
    rewrite Hr in Hr1. by injection Hr1 as <- <-.
  - intros src dst dst_name ed found r fs' Hd Hcd Hne Hr. destruct (es !! src) as [x|] eqn:Hx.
    + destruct (tmp_rename_spec fs self src dst dst_name found es ed x Hi Hs Hd Hc Hcd Hx) as (fs1 & Hr1 & Hy); [congruence|].
      rewrite Hr in Hr1. by injection Hr1 as -> <-.
    + rewrite (rename_not_found fs self src es) in Hr by done. by injection Hr as <- <-.
Qed.

(** A node of a tmpfs stores the metadata it is given, as [FsCtl] asks of the
    nodes whose changes [stat] reports. *)
Lemma tmp_update_stored fs self u m : tmp_metadata self fs = (Ok m, fs) →
  ∃ fs', tmp_update_metadata self u fs = (Ok tt, fs') ∧ tmp_metadata self fs' = (Ok (update_md u m), fs').
Proof.
  unfold tmp_metadata, tmp_update_metadata, fs_get, fs_set. unfold_m.
  destruct (fs_inodes fs !! self) as [[md c]|] eqn:Hx; [|done]. intros [= <-]. eexists. split; [done|]. cbn.
  rewrite lookup_insert_eq. by destruct c, u as [[] [[]|] [] []], md.
Qed.

(** [read_dir]: the entries in the order of the hash map's iteration *)
Definition tmp_read_dir {K} (accept : string → Z → Z → Z → K → bool * K) (ty_code : NodeType → Z)
    (iter : gmap string Z → list string) (self : Z) (offset : nat) (k : K) : M MemoryFs (res Z * K) :=
  entries ← dir_entries self;
  fs ← getM;
  mret (read_entries accept
    (λ name, ino ← unwrap (entries !! name); i ← unwrap (fs_inodes fs !! ino);
             Ok (ino, ty_code (md_node_type (i_metadata i))))
    (drop offset (iter entries)) (Z.of_nat offset) 0 k).

(** Listing a directory never meets an entry without an inode. *)
Lemma tmp_read_dir_no_panic {K} (accept : string → Z → Z → Z → K → bool * K) ty_code iter self offset k fs es :
  tmp_reach fs → content_at fs self = Some (CDir es) →
  (∀ name, name ∈ iter es → is_Some (es !! name)) →
  ∃ n k', tmp_read_dir accept ty_code iter self offset k fs = (Ok (Ok n, k'), fs).
Proof.
  intros Hi%tmp_reach_inv Hc Hit. unfold tmp_read_dir.
  rewrite (bind_ok _ _ _ _ _ (dir_entries_dir _ _ _ Hc)). unfold_m. cbn [fst snd].
  assert (Hnames : ∀ name, name ∈ drop offset (iter es) → is_Some (es !! name)).
  { intros name Hn. by apply Hit, (elem_of_drop_names offset). }
  generalize 0, (Z.of_nat offset). revert k Hnames.
  induction (drop offset (iter es)) as [|name l IH]; intros k Hnames c o; cbn [read_entries]; [by eexists _, _|].
  destruct (Hnames name) as [x Hx]; [left|]. rewrite Hx. cbn.
  destruct (entry_live _ _ _ _ _ Hi Hc Hx) as [i ->]. cbn.
  destruct (accept name x _ (o + 1) k) as [[] k']; cbn [negb]; [|by eexists _, _].
  apply IH. intros n Hn. apply Hnames. by right.
Qed.
End Tmpfs.

(** ** Witnesses *)

(** The key freed last if it is vacant, otherwise one above all keys in use *)
Definition first_ino (s : gset Z) (h : list Z) : Z :=
  match h with
  | x :: _ => if decide (x ∈ s) then set_fold Z.max 0 s + 1 else x
  | [] => set_fold Z.max 0 s + 1
  end.
Lemma first_ino_fresh s h : first_ino s h ∉ s.
Proof.
  assert (Hm : set_fold Z.max 0 s + 1 ∉ s) by (intros Hi%(set_max_bound 0); lia).
  destruct h as [|x h]; cbn; [done|]. by case_decide.
Qed.

(** A file system with a directory [/a] that holds a file *)
Definition sample_fs : MemoryFs :=
  ((MemoryFs_new first_ino;;
    tmp_create first_ino 1 "a" Directory 493;;
    tmp_create first_ino 2 "f" RegularFile 420) (mkMemoryFs ∅ [] [])).2.

Lemma sample_reach : tmp_reach first_ino sample_fs.
Proof.
  pose (fs0 := (MemoryFs_new first_ino (mkMemoryFs ∅ [] [])).2).
  pose (fs1 := (tmp_run first_ino (OpCreate 1 "a" Directory 493) fs0).2).
  assert (H0 : tmp_reach first_ino fs0) by (by eapply (TrNew _ 1)).
  assert (H1 : tmp_reach first_ino fs1).
  { eapply (TrOp _ fs0 (OpCreate 1 "a" Directory 493) (Ok tt)); [done| |by vm_compute].
    cbn [op_ok]. apply (bool_decide_unpack _). by vm_compute. }
  eapply (TrOp _ fs1 (OpCreate 2 "f" RegularFile 420) (Ok tt)); [done| |by vm_compute].
  cbn [op_ok]. apply (bool_decide_unpack _). by vm_compute.
Qed.

Lemma tmpfs_inodes_exact_witness :
  is_Some (fs_inodes sample_fs !! 3) ↔ 0 < refs 3 (fs_inodes sample_fs) ∨ 3 ∈ fs_nodes sample_fs.
Proof. apply (tmpfs_inodes_exact first_ino first_ino_fresh sample_fs sample_reach). Defined.

Lemma tmpfs_directories_are_maps_witness :
  (tmp_create first_ino 2 "f" RegularFile 420 sample_fs).1 = Err AlreadyExists
  ∧ (tmp_unlink 2 "g" sample_fs).1 = Err NotFound.
Proof.
  destruct (tmpfs_directories_are_maps first_ino first_ino_fresh sample_fs 2 {["." := 2; ".." := 1; "f" := 3]} sample_reach)
    as (Hc & _ & Hu & _); [apply (bool_decide_unpack _); by vm_compute|by vm_compute|].
  destruct (tmp_create first_ino 2 "f" RegularFile 420 sample_fs) as [r fs'] eqn:E.
  destruct (tmp_unlink 2 "g" sample_fs) as [r' fs''] eqn:E'.
  split; [exact (proj1 (Hc _ _ _ _ _ E))|]. exact (proj1 (Hu "g"%string _ _ ltac:(by vm_compute) E')).
Defined.

(** Renaming a directory over an existing name drops a second node of it, and
    with it all its entries, the file in it included. *)
Example rename_over_existing_empties :
  let '(r, fs') := (tmp_create first_ino 1 "b" Directory 493;;
                    tmp_rename 1 "a" 1 "b" (Some 4)) sample_fs in
  r = Ok tt ∧ content_at fs' 2 = Some (CDir ∅) ∧ content_at sample_fs 2 = Some (CDir {["." := 2; ".." := 1; "f" := 3]}).
Proof. by vm_compute. Qed.

(** A directory that is moved keeps its old parent under [..]. *)
Example rename_keeps_old_parent :
  let '(r, fs') := (tmp_create first_ino 2 "d" Directory 493;;
                    tmp_rename 2 "d" 1 "d" None) sample_fs in
  r = Ok tt ∧ content_at fs' 1 = Some (CDir {["." := 1; ".." := 1; "a" := 2; "d" := 4]})
  ∧ content_at fs' 4 = Some (CDir {["." := 4; ".." := 2]}).
Proof. by vm_compute. Qed.
