(* ===== verification/PollSelect.v ===== *)
(** * [poll] and [select]

    [api/src/syscall/io_mpx/poll.rs] and [select.rs] with the signal mask
    around the wait ([with_replacen_blocked] of [api/src/signal.rs]).

    A wait evaluates its closure on the files' readiness until it has a
    result, the timeout fires or a signal interrupts it.  [snaps] are the
    readiness states the closure sees, in order, and [fin] is what ends the
    wait if none of them gives a result.  The descriptor table is the lookup
    [get_file]; [poll f] of a state is the events of file [f]; [known] are the
    bits of [IoEvents]. *)

From S2P Require Import Prelude.

Definition IO_IN : Z := 2 ^ 0.
Definition IO_OUT : Z := 2 ^ 2.
Definition IO_ERR : Z := 2 ^ 3.
Definition IO_HUP : Z := 2 ^ 4.
Definition IO_RDNORM : Z := 2 ^ 6.
Definition IO_WRNORM : Z := 2 ^ 8.
Definition ALWAYS_POLL : Z := Z.lor IO_ERR IO_HUP.
Definition POLLNVAL : Z := 0x20.

Lemma has_flag_pow2 x i : 0 ≤ i → has_flag x (2 ^ i) = Z.testbit x i.
Proof.
  intros Hi. pose proof (any_bit_pow2 x i Hi) as Ha. unfold has_flag, any_bit in *.
  destruct (Z.testbit x i) eqn:Hb.
  - apply Z.eqb_eq, Z.bits_inj. intros j. rewrite Z.land_spec, Z.pow2_bits_eqb by done.
    destruct (Z.eqb_spec i j); [subst; by rewrite Hb|by rewrite andb_false_r].
  - apply Z.eqb_neq. intros He. rewrite He in Ha.
    destruct (Z.eqb_spec (2 ^ i) 0) as [E|]; [|done]. apply Z.pow_eq_0 in E; lia.
Qed.

Lemma land_bounded n a b : 0 ≤ n → 0 ≤ a < 2 ^ n → 0 ≤ Z.land a b < 2 ^ n.
Proof.
  intros Hn Ha. assert (0 ≤ Z.land a b) by (apply Z.land_nonneg; lia). split; [done|].
  apply Z.bounded_iff_bits_nonneg; [done|done|]. intros i Hi. rewrite Z.land_spec.
  by rewrite (proj1 (Z.bounded_iff_bits_nonneg n a Hn ltac:(lia)) ltac:(lia) i Hi).
Qed.

(** What ends a wait without a result *)
Inductive WaitEnd := TimedOut_ | Interrupted_.

Section Wait.
Context {S E A : Type}.

(** [block_on(timeout(.., poll_io(.., attempt)))] *)
Fixpoint wait_for (attempt : E → M S A) (snaps : list E) (fin : WaitEnd) (zero : A) : M S A :=
  match snaps with
  | [] => match fin with TimedOut_ => mret zero | Interrupted_ => failM Interrupted end
  | e :: snaps => λ s,
      match attempt e s with
      | (Err WouldBlock, s') => wait_for attempt snaps fin zero s'
      | r => r
      end
  end.

(** [with_replacen_blocked] on a state with the mask of blocked signals *)
Definition with_replacen_blocked (blocked : option Z) (f : M S A) : M (Z * S) A := λ '(mask, s),
  let mask' := match blocked with Some set => set | None => mask end in
  match f s with
  | (Ok r, s') => (Ok r, (mask, s'))
  | (Err e, s') => (Err e, (mask', s'))
  | (Panic, s') => (Panic, (mask', s'))
  end.
End Wait.

(** ** [poll] *)

Record pollfd := mkPollfd { pfd_fd : Z; pfd_events : Z; pfd_revents : Z }.
#[export] Instance eta_pollfd : Eta pollfd := λ p, mkPollfd (pfd_fd p) (pfd_events p) (pfd_revents p).

Section Poll.
Context {F : Type} (get_file : Z → option F) (known : Z).

(** The first loop.  Each entry is paired with the file to wait for and its
    events; [None] when it is skipped or invalid.  The count is that of the
    invalid ones. *)
Fixpoint poll_collect (l : list pollfd) : res (list (pollfd * option (F * Z)) * Z) * list pollfd :=
  match l with
  | [] => (Ok ([], 0), [])
  | p :: l' =>
      if pfd_fd p =? -1 then
        match poll_collect l' with
        | (Ok (w, n), l'') => (Ok ((p, None) :: w, n), p :: l'')
        | (r, l'') => (r, p :: l'')
        end
      else
        match get_file (pfd_fd p) with
        | Some f =>
            let bits := as_u32 (pfd_events p) in
            if negb (Z.land bits known =? bits) then (Err InvalidInput, l)
            else
              match poll_collect l' with
              | (Ok (w, n), l'') => (Ok ((p, Some (f, Z.lor bits ALWAYS_POLL)) :: w, n), p :: l'')
              | (r, l'') => (r, p :: l'')
              end
        | None =>
            let p := p <| pfd_revents := POLLNVAL |> in
            match poll_collect l' with
            | (Ok (w, n), l'') => (Ok ((p, None) :: w, n + 1), p :: l'')
            | (r, l'') => (r, p :: l'')
            end
        end
  end.

(** The events of a file as [poll] reports them *)
Definition poll_result (events result : Z) : Z :=
  let result := if has_flag result IO_IN then Z.lor result IO_RDNORM else result in
  let result := if has_flag result IO_OUT then Z.lor result IO_WRNORM else result in
  Z.land result events.

(** The closure: one pass over the files *)
Fixpoint poll_pass (poll : F → Z) (w : list (pollfd * option (F * Z))) : Z * list (pollfd * option (F * Z)) :=
  match w with
  | [] => (0, [])
  | (p, None) :: w => let '(n, w') := poll_pass poll w in (n, (p, None) :: w')
  | (p, Some (f, events)) :: w =>
      let revents := wraps 16 (poll_result events (poll f)) in
      let '(n, w') := poll_pass poll w in
      ((if negb (revents =? 0) then n + 1 else n), (p <| pfd_revents := revents |>, Some (f, events)) :: w')
  end.

Definition poll_attempt (poll : F → Z) : M (list (pollfd * option (F * Z))) Z := λ w,
  let '(n, w') := poll_pass poll w in
  (if n >? 0 then Ok n else Err WouldBlock, w').

(** The result, the mask of blocked signals and the entries after the call *)
Definition do_poll (sigmask : option Z) (snaps : list (F → Z)) (fin : WaitEnd) (mask : Z) (poll_fds : list pollfd)
    : res Z * Z * list pollfd :=
  match poll_collect poll_fds with
  | (Ok (w, n), l) =>
      if n >? 0 then (Ok n, mask, l)
      else
        let '(r, (mask', w')) := with_replacen_blocked sigmask (wait_for poll_attempt snaps fin 0) (mask, w) in
        (r, mask', w'.*1)
  | (Err e, l) => (Err e, mask, l)
  | (Panic, l) => (Panic, mask, l)
  end.

(** *** What is reported *)

Definition wanted (p : pollfd) : option (F * Z) :=
  if pfd_fd p =? -1 then None
  else f ← get_file (pfd_fd p); Some (f, Z.lor (as_u32 (pfd_events p)) ALWAYS_POLL).

Definition invalid (p : pollfd) : bool :=
  negb (pfd_fd p =? -1) && negb (bool_decide (is_Some (get_file (pfd_fd p)))).
Definition events_ok (p : pollfd) : Prop :=
  pfd_fd p = -1 ∨ get_file (pfd_fd p) = None ∨ Z.land (as_u32 (pfd_events p)) known = as_u32 (pfd_events p).

(** The entry after a pass *)
Definition report (poll : F → Z) (p : pollfd) : pollfd :=
  match wanted p with
  | Some (f, events) => p <| pfd_revents := poll_result events (poll f) |>
  | None => p
  end.
Definition ready (poll : F → Z) (p : pollfd) : bool :=
  match wanted p with
  | Some (f, events) => negb (poll_result events (poll f) =? 0)
  | None => false
  end.
Definition mark (p : pollfd) : pollfd := if invalid p then p <| pfd_revents := POLLNVAL |> else p.

Lemma entry_cases p :
  (pfd_fd p = -1 ∧ wanted p = None ∧ invalid p = false)
  ∨ (pfd_fd p ≠ -1 ∧ get_file (pfd_fd p) = None ∧ wanted p = None ∧ invalid p = true)
  ∨ (∃ f, pfd_fd p ≠ -1 ∧ get_file (pfd_fd p) = Some f ∧ invalid p = false
       ∧ wanted p = Some (f, Z.lor (as_u32 (pfd_events p)) ALWAYS_POLL)).
Proof.
  unfold wanted, invalid. destruct (Z.eqb_spec (pfd_fd p) (-1)) as [E|E]; [by left|].
  destruct (get_file (pfd_fd p)) as [f|] eqn:Hf; right; [right|left]; eauto.
Qed.

Lemma poll_collect_ok l : Forall events_ok l →
  poll_collect l = (Ok ((λ p, (mark p, wanted p)) <$> l, zlen (filter (λ p, invalid p = true) l)), mark <$> l).
Proof.
  induction 1 as [|p l Hp _ IH]; [done|]. cbn [poll_collect]. rewrite IH, !fmap_cons, filter_cons.
  destruct (entry_cases p) as [(E & -> & Hi)|[(E & Hf & -> & Hi)|(f & E & Hf & Hi & ->)]].
  - assert (mark p = p) as -> by (unfold mark; by rewrite Hi).
    rewrite E, decide_False by (by rewrite Hi). done.
  - assert (mark p = p <| pfd_revents := POLLNVAL |>) as -> by (unfold mark; by rewrite Hi).
    apply Z.eqb_neq in E as ->. rewrite Hf, decide_True by done. rewrite zlen_cons, Z.add_comm. done.
  - assert (mark p = p) as -> by (unfold mark; by rewrite Hi).
    destruct Hp as [?|[?|Hk]]; [done|congruence|]. apply Z.eqb_neq in E as ->.
    rewrite Hf, Hk, Z.eqb_refl, decide_False by (by rewrite Hi). done.
Qed.

Context (Hknown : 0 ≤ known < 2 ^ 15).

Lemma wanted_small p f events : events_ok p → wanted p = Some (f, events) → 0 ≤ events < 2 ^ 15.
Proof.
  intros Hp Hw. destruct (entry_cases p) as [(E & Hw' & _)|[(E & Hf & Hw' & _)|(g & E & Hf & _ & Hw')]]; [congruence..|].
  rewrite Hw' in Hw. injection Hw as <- <-. destruct Hp as [?|[?|Hk]]; [done|congruence|].
  set (b := as_u32 (pfd_events p)) in *. assert (0 ≤ b) by apply as_u32_in.
  assert (b < 2 ^ 15) by (rewrite <- Hk, Z.land_comm; apply land_bounded; lia).
  split; [by apply Z.lor_nonneg|].
  apply Z.bounded_iff_bits_nonneg; [lia|by apply Z.lor_nonneg|]. intros i Hi. rewrite Z.lor_spec.
  rewrite (proj1 (Z.bounded_iff_bits_nonneg 15 b ltac:(lia) ltac:(lia)) ltac:(lia) i Hi).
  by rewrite (proj1 (Z.bounded_iff_bits_nonneg 15 ALWAYS_POLL ltac:(lia) ltac:(done)) ltac:(done) i Hi).
Qed.

Lemma poll_result_small events r : 0 ≤ events < 2 ^ 15 → wraps 16 (poll_result events r) = poll_result events r.
Proof.
  intros He. apply wraps_small; [lia|]. unfold poll_result.
  set (x := if has_flag _ _ then _ else _). rewrite Z.land_comm.
  pose proof (land_bounded 15 events x). lia.
Qed.

(** One pass over entries of which only [revents] has changed *)
Lemma poll_pass_ok poll l g : Forall events_ok l →
  (∀ p, (g p) <| pfd_revents := 0 |> = p <| pfd_revents := 0 |>) → (∀ p, wanted p = None → g p = p) →
  poll_pass poll ((λ p, (g p, wanted p)) <$> l)
  = (zlen (filter (λ p, ready poll p = true) l), (λ p, (report poll p, wanted p)) <$> l).
Proof.
  intros Hok Hg Hn. induction Hok as [|p l Hp _ IH]; [done|]. rewrite !fmap_cons, filter_cons.
  cbn [poll_pass]. destruct (wanted p) as [[f events]|] eqn:Hw; rewrite IH.
  - rewrite poll_result_small by (by eapply wanted_small).
    assert ((g p) <| pfd_revents := poll_result events (poll f) |> = report poll p) as ->.
    { unfold report. rewrite Hw. pose proof (Hg p) as Hgp. destruct (g p), p as [q1 q2 q3]. cbn in *. by simplify_eq. }
    assert (ready poll p = negb (poll_result events (poll f) =? 0)) as Hr by (unfold ready; by rewrite Hw).
    destruct (poll_result events (poll f) =? 0); cbn [negb] in *; [by rewrite decide_False by congruence|].
    by rewrite decide_True, zlen_cons, Z.add_comm.
  - rewrite decide_False by (unfold ready; by rewrite Hw).
    assert (report poll p = p) as -> by (unfold report; by rewrite Hw). by rewrite Hn.
Qed.

Lemma report_frame poll p : (report poll p) <| pfd_revents := 0 |> = p <| pfd_revents := 0 |>.
Proof. unfold report. by destruct (wanted p) as [[f e]|]. Qed.
Lemma report_none poll p : wanted p = None → report poll p = p.
Proof. unfold report. by intros ->. Qed.
Lemma ready_none poll l : (∀ p, p ∈ l → ready poll p = false) → filter (λ p, ready poll p = true) l = [].
Proof.
  induction l as [|p l IH]; [done|]. intros Hn. rewrite filter_cons, decide_False.
  - apply IH. intros. apply Hn. by right.
  - rewrite Hn; [done|left].
Qed.

Lemma poll_wait_idle l rest fin pre : Forall events_ok l →
  (∀ q p, q ∈ pre → p ∈ l → ready q p = false) → ∀ g,
  (∀ p, (g p) <| pfd_revents := 0 |> = p <| pfd_revents := 0 |>) → (∀ p, wanted p = None → g p = p) →
  ∃ g', (∀ p, (g' p) <| pfd_revents := 0 |> = p <| pfd_revents := 0 |>) ∧ (∀ p, wanted p = None → g' p = p)
    ∧ wait_for poll_attempt (pre ++ rest) fin 0 ((λ p, (g p, wanted p)) <$> l)
      = wait_for poll_attempt rest fin 0 ((λ p, (g' p, wanted p)) <$> l).
Proof.
  intros Hok. induction pre as [|q pre IH]; intros Hpre g Hg Hn; [by exists g|].
  cbn [app wait_for]. unfold poll_attempt at 1 3. rewrite poll_pass_ok by done.
  rewrite ready_none by (intros; apply Hpre; [left|done]). cbn [zlen length Z.of_nat Z.gtb Z.compare].
  apply IH; [|apply report_frame|apply report_none].
  intros q' p Hq. apply Hpre. by right.
Qed.

(** C27: [poll] reports exactly the readiness of the first state in which an
    entry is ready: each entry gets the events of its file that it asked for
    or that are always reported, the result is the number of entries with
    events, and skipped entries are left alone.  Entries without an open file
    are reported at once.  Without a ready entry the call times out with 0 or
    is interrupted; the mask of blocked signals is the old one after every
    successful call, but an interrupted call leaves its temporary mask. *)
Theorem poll_reports l sigmask fin mask : Forall events_ok l →
  (∀ snaps, filter (λ p, invalid p = true) l ≠ [] →
     do_poll sigmask snaps fin mask l = (Ok (zlen (filter (λ p, invalid p = true) l)), mask, mark <$> l))
  ∧ (filter (λ p, invalid p = true) l = [] → ∀ pre,
     (∀ q p, q ∈ pre → p ∈ l → ready q p = false) →
     (∀ poll post p, p ∈ l → ready poll p = true →
        do_poll sigmask (pre ++ poll :: post) fin mask l
        = (Ok (zlen (filter (λ p, ready poll p = true) l)), mask, report poll <$> l))
     ∧ ∃ l', (λ p, p <| pfd_revents := 0 |>) <$> l' = (λ p, p <| pfd_revents := 0 |>) <$> l
         ∧ do_poll sigmask pre fin mask l
           = match fin with
             | TimedOut_ => (Ok 0, mask, l')
             | Interrupted_ => (Err Interrupted, default mask sigmask, l')
             end).
Proof.
  intros Hok. unfold do_poll. rewrite (poll_collect_ok l Hok). split.
  - intros snaps Hne. destruct (filter _ l) as [|x k]; [done|]. rewrite zlen_cons.
    pose proof (zlen_nonneg k). by destruct (Z.gtb_spec (1 + zlen k) 0); [|lia].
  - intros Hv pre Hpre. rewrite Hv. cbn [zlen length Z.of_nat Z.gtb Z.compare].
    assert (Hg : ∀ p, p ∈ l → mark p = p).
    { intros p Hp. unfold mark. destruct (invalid p) eqn:E; [|done].
      assert (p ∈ filter (λ p, invalid p = true) l) as Hi by (by apply list_elem_of_filter).
      rewrite Hv in Hi. by apply elem_of_nil in Hi. }
    assert ((λ p, (mark p, wanted p)) <$> l = (λ p, (p, wanted p)) <$> l) as ->.
    { apply list_fmap_ext. intros i p Hp%list_elem_of_lookup_2. by rewrite Hg. }
    split.
    + intros poll post p Hp Hr.
      destruct (poll_wait_idle l (poll :: post) fin pre Hok Hpre (λ p, p)) as (g' & Hf & Hn & Hw); [done..|].
      unfold with_replacen_blocked. rewrite Hw. cbn [wait_for]. unfold poll_attempt. rewrite poll_pass_ok by done.
      destruct (filter (λ p, ready poll p = true) l) as [|x k] eqn:Ef.
      { exfalso. assert (p ∈ filter (λ p, ready poll p = true) l) as Hi by (by apply list_elem_of_filter).
        rewrite Ef in Hi. by apply elem_of_nil in Hi. }
      rewrite zlen_cons. pose proof (zlen_nonneg k). destruct (Z.gtb_spec (1 + zlen k) 0); [|lia].
      f_equal. rewrite <- list_fmap_compose. done.
    + destruct (poll_wait_idle l [] fin pre Hok Hpre (λ p, p)) as (g' & Hf & Hn & Hw); [done..|].
      rewrite app_nil_r in Hw. exists (g' <$> l). split.
      { rewrite <- list_fmap_compose. apply list_fmap_ext. intros i p _. apply Hf. }
      unfold with_replacen_blocked. rewrite Hw.
      destruct fin; cbn [wait_for mret M_ret failM]; f_equal; rewrite <- list_fmap_compose; done.
Qed.
End Poll.

(** ** [select]

    A set of descriptors ([fd_set], and the bitmap [FdSet]) is an integer;
    descriptor [i] is its bit [i]. *)

Definition FD_SETSIZE : Z := 1024.

(** [FD_SET] for the members of a list that satisfy [h] *)
Definition set_bits (h : Z → bool) (l : list Z) (s : Z) : Z :=
  foldl (λ s i, if h i then Z.setbit s i else s) s l.

Lemma set_bits_spec h l s j : Forall (Z.le 0) l → 0 ≤ j →
  Z.testbit (set_bits h l s) j = Z.testbit s j || (bool_decide (j ∈ l) && h j).
Proof.
  intros Hl Hj. revert s. unfold set_bits. induction Hl as [|i l Hi Hl IH]; intros s; cbn [foldl].
  { rewrite bool_decide_eq_false_2; [by rewrite orb_false_r|]. by intros ?%elem_of_nil. }
  rewrite IH. destruct (h i) eqn:Hh.
  - rewrite Z.setbit_eqb by done. destruct (Z.eqb_spec i j) as [->|Hne].
    + rewrite (bool_decide_eq_true_2 (j ∈ j :: l)) by left. rewrite Hh. cbn. by rewrite orb_true_r.
    + rewrite (bool_decide_ext (j ∈ i :: l) (j ∈ l)); [done|].
      rewrite elem_of_cons. split; [intros [->|]; done|auto].
  - destruct (decide (j = i)) as [->|Hne].
    + by rewrite Hh, !andb_false_r.
    + rewrite (bool_decide_ext (j ∈ i :: l) (j ∈ l)); [done|].
      rewrite elem_of_cons. split; [intros [->|]; done|auto].
Qed.

Definition FdSet_new (nfds : Z) (fds : option Z) : Z :=
  match fds with
  | Some fds => set_bits (Z.testbit fds) (seqZ 0 nfds) 0
  | None => 0
  end.

Section Select.
Context {F : Type} (get_file : Z → option F).

(** The loop over the bitmap *)
Fixpoint select_collect (read_set write_set except_set : Z) (l : list Z) : res (list (F * Z * Z)) :=
  match l with
  | [] => Ok []
  | fd :: l =>
      f ← ok_or BadFileDescriptor (get_file fd);
      let events := 0 in
      let events := if Z.testbit read_set fd then Z.lor events IO_IN else events in
      let events := if Z.testbit write_set fd then Z.lor events IO_OUT else events in
      let events := if Z.testbit except_set fd then Z.lor events IO_ERR else events in
      rest ← select_collect read_set write_set except_set l;
      Ok (if events =? 0 then rest else (f, events, fd) :: rest)
  end.

Record FdSets := mkFdSets { fs_read : option Z; fs_write : option Z; fs_except : option Z }.

(** One of the three tests of the closure *)
Definition select_set (events flag index : Z) (set : option Z) (res : Z) : Z * option Z :=
  match set with
  | Some s => if has_flag events flag then (res + 1, Some (Z.setbit s index)) else (res, set)
  | None => (res, set)
  end.

Fixpoint select_pass (poll : F → Z) (fds : list (F * Z * Z)) (res : Z) (sets : FdSets) : Z * FdSets :=
  match fds with
  | [] => (res, sets)
  | (fd, interested, index) :: fds =>
      let events := Z.land (poll fd) interested in
      let '(res, r) := select_set events IO_IN index (fs_read sets) res in
      let '(res, w) := select_set events IO_OUT index (fs_write sets) res in
      let '(res, e) := select_set events IO_ERR index (fs_except sets) res in
      select_pass poll fds res (mkFdSets r w e)
  end.

Definition select_attempt (fds : list (F * Z * Z)) (poll : F → Z) : M FdSets Z := λ sets,
  let '(res, sets') := select_pass poll fds 0 sets in
  (if res >? 0 then Ok res else Err WouldBlock, sets').

(** [FD_ZERO] on the sets that are given *)
Definition fd_zero (sets : FdSets) : FdSets :=
  mkFdSets ((λ _, 0) <$> fs_read sets) ((λ _, 0) <$> fs_write sets) ((λ _, 0) <$> fs_except sets).

Definition do_select (nfds : Z) (sigmask : option Z) (snaps : list (F → Z)) (fin : WaitEnd)
    : M (Z * FdSets) Z := λ '(mask, sets),
  if nfds >? FD_SETSIZE then (Err InvalidInput, (mask, sets))
  else
    let read_set := FdSet_new nfds (fs_read sets) in
    let write_set := FdSet_new nfds (fs_write sets) in
    let except_set := FdSet_new nfds (fs_except sets) in
    let fd_bitmap := Z.lor (Z.lor read_set write_set) except_set in
    match select_collect read_set write_set except_set
            (filter (λ i, Z.testbit fd_bitmap i = true) (seqZ 0 FD_SETSIZE)) with
    | Ok fds =>
        with_replacen_blocked sigmask (wait_for (select_attempt fds) snaps fin 0) (mask, fd_zero sets)
    | Err e => (Err e, (mask, sets))
    | Panic => (Panic, (mask, sets))
    end.

(** *** What is reported *)

Definition in_set (nfds : Z) (set : option Z) (i : Z) : bool :=
  match set with Some s => bool_decide (0 ≤ i < nfds) && Z.testbit s i | None => false end.

Lemma FdSet_new_spec nfds set i : 0 ≤ i → Z.testbit (FdSet_new nfds set) i = in_set nfds set i.
Proof.
  intros Hi. destruct set as [s|]; cbn; [|by rewrite Z.bits_0].
  rewrite set_bits_spec; [|apply Forall_forall; intros x Hx%elem_of_seqZ; lia|done].
  rewrite Z.bits_0. cbn. f_equal. apply bool_decide_ext. rewrite elem_of_seqZ. lia.
Qed.

(** Descriptor [i] is ready for the event with bit [k]. *)
Definition file_ready (poll : F → Z) (k i : Z) : bool :=
  match get_file i with Some f => Z.testbit (poll f) k | None => false end.
Definition hit (nfds : Z) (poll : F → Z) (k : Z) (set : option Z) (i : Z) : bool :=
  in_set nfds set i && file_ready poll k i.
Definition hits (nfds : Z) (poll : F → Z) (sets : FdSets) (i : Z) : Z :=
  Z.b2z (hit nfds poll 0 (fs_read sets) i) + Z.b2z (hit nfds poll 2 (fs_write sets) i)
  + Z.b2z (hit nfds poll 3 (fs_except sets) i).
Definition out_set (nfds : Z) (poll : F → Z) (k : Z) (set : option Z) (idx : list Z) (s : option Z) : option Z :=
  set_bits (hit nfds poll k set) idx <$> s.
Definition watched (nfds : Z) (sets : FdSets) (i : Z) : bool :=
  in_set nfds (fs_read sets) i || in_set nfds (fs_write sets) i || in_set nfds (fs_except sets) i.

Section Spec.
Context (nfds : Z) (Hnfds : nfds ≤ FD_SETSIZE) (sets : FdSets).

Abbreviation RS := (FdSet_new nfds (fs_read sets)).
Abbreviation WS := (FdSet_new nfds (fs_write sets)).
Abbreviation ES := (FdSet_new nfds (fs_except sets)).

Definition interest (i : Z) : Z :=
  Z.lor (Z.lor (if in_set nfds (fs_read sets) i then IO_IN else 0)
               (if in_set nfds (fs_write sets) i then IO_OUT else 0))
        (if in_set nfds (fs_except sets) i then IO_ERR else 0).
Definition watch_entry (i : Z) : option (F * Z * Z) := f ← get_file i; Some (f, interest i, i).

Lemma interest_bits i :
  Z.testbit (interest i) 0 = in_set nfds (fs_read sets) i
  ∧ Z.testbit (interest i) 2 = in_set nfds (fs_write sets) i
  ∧ Z.testbit (interest i) 3 = in_set nfds (fs_except sets) i
  ∧ (interest i =? 0) = negb (watched nfds sets i).
Proof.
  unfold interest, watched.
  by destruct (in_set nfds (fs_read sets) i), (in_set nfds (fs_write sets) i), (in_set nfds (fs_except sets) i).
Qed.

Lemma select_collect_ok idx : Forall (Z.le 0) idx →
  (∀ i, i ∈ idx → watched nfds sets i = true) →
  select_collect RS WS ES idx =
  if forallb (λ i, bool_decide (is_Some (get_file i))) idx then Ok (omap watch_entry idx) else Err BadFileDescriptor.
Proof.
  induction idx as [|i idx IH]; intros Hp Hw; [done|]. inversion Hp as [|?? Hi Hp']; subst.
  cbn [select_collect forallb]. rewrite IH by (done || (intros; apply Hw; by right)).
  rewrite !FdSet_new_spec by done. cbn [omap list_omap]. unfold watch_entry at 2.
  destruct (get_file i) as [f|] eqn:Hf; cbn [ok_or mbind res_bind option_bind]; [|done].
  rewrite bool_decide_eq_true_2 by done. cbn [andb].
  destruct (forallb _ idx); cbn [mbind res_bind]; [|done].
  destruct (interest_bits i) as (_ & _ & _ & Hz). rewrite (Hw i) in Hz by left. cbn [negb] in Hz.
  assert (∀ a b c : bool,
    (let events := if a then Z.lor 0 IO_IN else 0 in
     let events := if b then Z.lor events IO_OUT else events in
     if c then Z.lor events IO_ERR else events) =
    Z.lor (Z.lor (if a then IO_IN else 0) (if b then IO_OUT else 0)) (if c then IO_ERR else 0)) as He
    by (by intros [] [] []).
  cbv zeta in He. rewrite He. fold (interest i). by rewrite Hz.
Qed.

Lemma select_set_ok poll f i k flag set s res :
  0 ≤ k → flag = 2 ^ k → get_file i = Some f → Z.testbit (interest i) k = in_set nfds set i →
  (is_Some set → is_Some s) →
  select_set (Z.land (poll f) (interest i)) flag i s res
  = (res + Z.b2z (hit nfds poll k set i), (λ x, if hit nfds poll k set i then Z.setbit x i else x) <$> s).
Proof.
  intros Hk -> Hf Hb Hs. unfold select_set. rewrite has_flag_pow2, Z.land_spec, Hb by done.
  unfold hit, file_ready. rewrite Hf, andb_comm.
  destruct s as [x|]; cbn.
  - destruct (in_set nfds set i && Z.testbit (poll f) k); cbn; [done|]. by rewrite Z.add_0_r.
  - destruct set; [destruct Hs; [done|]; congruence|]. cbn. by rewrite Z.add_0_r.
Qed.

Definition result_sets (poll : F → Z) (idx : list Z) (cur : FdSets) : FdSets :=
  mkFdSets (out_set nfds poll 0 (fs_read sets) idx (fs_read cur))
           (out_set nfds poll 2 (fs_write sets) idx (fs_write cur))
           (out_set nfds poll 3 (fs_except sets) idx (fs_except cur)).

Definition same_given (cur : FdSets) : Prop :=
  (is_Some (fs_read sets) → is_Some (fs_read cur)) ∧ (is_Some (fs_write sets) → is_Some (fs_write cur))
  ∧ (is_Some (fs_except sets) → is_Some (fs_except cur)).

Lemma select_pass_ok poll idx : ∀ res cur, same_given cur →
  (∀ i, i ∈ idx → is_Some (get_file i)) →
  select_pass poll (omap watch_entry idx) res cur = (res + zsum (hits nfds poll sets) idx, result_sets poll idx cur).
Proof.
  induction idx as [|i idx IH]; intros res cur (Hr & Hw & He) Ho.
  { unfold result_sets, out_set, set_bits. cbn. destruct cur as [r w e]; cbn.
    rewrite Z.add_0_r. by destruct r, w, e. }
  destruct (Ho i) as [f Hf]; [left|]. cbn [omap list_omap]. unfold watch_entry at 1. rewrite Hf.
  cbn [mbind option_bind select_pass]. destruct (interest_bits i) as (H1 & H2 & H3 & _).
  rewrite (select_set_ok poll f i 0 _ (fs_read sets)) by done.
  rewrite (select_set_ok poll f i 2 _ (fs_write sets)) by done.
  rewrite (select_set_ok poll f i 3 _ (fs_except sets)) by done.
  rewrite IH.
  - f_equal.
    + change (zsum ?h (i :: idx)) with (h i + zsum h idx). cbv beta.
      set (z := zsum _ idx). unfold hits. lia.
    + unfold result_sets, out_set. cbn [fs_read fs_write fs_except].
      destruct (fs_read cur), (fs_write cur), (fs_except cur); done.
  - split_and!; cbn; rewrite fmap_is_Some; done.
  - intros. apply Ho. by right.
Qed.
End Spec.

Lemma zsum_filter {A} (h : A → Z) (P : A → Prop) `{∀ x, Decision (P x)} l :
  (∀ x, ¬ P x → h x = 0) → zsum h (filter P l) = zsum h l.
Proof.
  intros Hz. induction l as [|x l IH]; [done|]. rewrite filter_cons. case_decide as Hp; cbn; unfold zsum in *.
  - by rewrite IH.
  - rewrite (Hz x Hp). lia.
Qed.
Lemma zsum_zero {A} (h : A → Z) l : (∀ x, x ∈ l → h x = 0) → zsum h l = 0.
Proof.
  induction l as [|x l IH]; [done|]. intros Hz. change (h x + zsum h l = 0).
  rewrite (Hz x) by left. rewrite IH; [done|]. intros. apply Hz. by right.
Qed.
Lemma zsum_pos {A} (h : A → Z) l x : (∀ x, 0 ≤ h x) → x ∈ l → 0 < h x → 0 < zsum h l.
Proof.
  intros Hn. induction l as [|y l IH]; [by intros ?%elem_of_nil|]. change (zsum h (y :: l)) with (h y + zsum h l).
  pose proof (Hn y). pose proof (zsum_nonneg h l (λ x _, Hn x)).
  intros [->|Hx]%elem_of_cons Hp; [lia|]. specialize (IH Hx Hp). lia.
Qed.

Section Report.
Context (nfds : Z) (Hnfds : nfds ≤ FD_SETSIZE) (sets : FdSets).

Definition fd_list : list Z :=
  filter (λ i, Z.testbit (Z.lor (Z.lor (FdSet_new nfds (fs_read sets)) (FdSet_new nfds (fs_write sets)))
                                (FdSet_new nfds (fs_except sets))) i = true) (seqZ 0 FD_SETSIZE).

Lemma in_set_range set i : in_set nfds set i = true → 0 ≤ i < nfds.
Proof. destruct set as [s|]; cbn; [|done]. by intros [?%bool_decide_eq_true _]%andb_true_iff. Qed.
Lemma watched_range i : watched nfds sets i = true → 0 ≤ i < nfds.
Proof.
  unfold watched. intros [[Hi|Hi]%orb_true_iff|Hi]%orb_true_iff; by apply in_set_range in Hi.
Qed.
Lemma elem_of_fd_list i : i ∈ fd_list ↔ watched nfds sets i = true.
Proof.
  unfold fd_list. rewrite list_elem_of_filter, elem_of_seqZ. split.
  - intros [Hb Hi]. rewrite !Z.lor_spec, !FdSet_new_spec in Hb by lia. exact Hb.
  - intros Hw. pose proof (watched_range i Hw). split; [|lia].
    rewrite !Z.lor_spec, !FdSet_new_spec by lia. exact Hw.
Qed.
Lemma fd_list_nonneg : Forall (Z.le 0) fd_list.
Proof. apply Forall_forall. intros i Hi%elem_of_fd_list%watched_range. lia. Qed.

Lemma hit_watched poll i :
  (hit nfds poll 0 (fs_read sets) i = true ∨ hit nfds poll 2 (fs_write sets) i = true
   ∨ hit nfds poll 3 (fs_except sets) i = true) → i ∈ fd_list.
Proof. rewrite elem_of_fd_list. unfold hit, watched. rewrite !andb_true_iff, !orb_true_iff. tauto. Qed.
Lemma hits_nonneg poll i : 0 ≤ hits nfds poll sets i.
Proof. unfold hits. repeat destruct (hit _ _ _ _ _); cbn; lia. Qed.
Lemma hits_zero poll i : hits nfds poll sets i = 0 →
  hit nfds poll 0 (fs_read sets) i = false ∧ hit nfds poll 2 (fs_write sets) i = false
  ∧ hit nfds poll 3 (fs_except sets) i = false.
Proof. unfold hits. repeat destruct (hit _ _ _ _ _); cbn; (split_and!; done) || lia. Qed.
Lemma hits_outside poll i : i ∉ fd_list → hits nfds poll sets i = 0.
Proof.
  intros Hi. unfold hits.
  destruct (hit nfds poll 0 (fs_read sets) i) eqn:H1; [destruct Hi; apply (hit_watched poll); auto|].
  destruct (hit nfds poll 2 (fs_write sets) i) eqn:H2; [destruct Hi; apply (hit_watched poll); auto|].
  destruct (hit nfds poll 3 (fs_except sets) i) eqn:H3; [destruct Hi; apply (hit_watched poll); auto|]. done.
Qed.

(** A set after the call: exactly the ready descriptors of the set before *)
Definition reports (poll : F → Z) (k : Z) (set out : option Z) : Prop :=
  match set, out with
  | Some _, Some o => ∀ i, 0 ≤ i → Z.testbit o i = hit nfds poll k set i
  | None, None => True
  | _, _ => False
  end.

Lemma out_set_reports poll k set : (∀ i, hit nfds poll k set i = true → i ∈ fd_list) →
  reports poll k set (out_set nfds poll k set fd_list ((λ _, 0) <$> set)).
Proof.
  intros Hin. destruct set as [s|]; cbn; [|done]. intros i Hi.
  rewrite set_bits_spec by (done || apply fd_list_nonneg). rewrite Z.bits_0. cbn [orb].
  destruct (hit nfds poll k (Some s) i) eqn:Hh; [|by rewrite andb_false_r].
  by rewrite bool_decide_eq_true_2 by auto.
Qed.

Lemma idle_sets poll cur : (∀ i, hits nfds poll sets i = 0) → result_sets nfds sets poll fd_list cur = cur.
Proof.
  intros Hz. assert (∀ k set s, (∀ i, hit nfds poll k set i = false) → out_set nfds poll k set fd_list s = s) as Ho.
  { intros k set s Hh. unfold out_set. destruct s as [x|]; [|done]. cbn. f_equal. unfold set_bits.
    induction fd_list as [|i l IH] in x |- *; [done|]. cbn. by rewrite Hh. }
  unfold result_sets. destruct cur as [r w e]. cbn [fs_read fs_write fs_except].
  rewrite !Ho; [done|intros i; by destruct (hits_zero poll i (Hz i)) as (? & ? & ?)..].
Qed.

Lemma select_wait_idle pre rest fin cur : same_given sets cur →
  (∀ i, watched nfds sets i = true → is_Some (get_file i)) →
  (∀ q i, q ∈ pre → hits nfds q sets i = 0) →
  wait_for (select_attempt (omap (watch_entry nfds sets) fd_list)) (pre ++ rest) fin 0 cur
  = wait_for (select_attempt (omap (watch_entry nfds sets) fd_list)) rest fin 0 cur.
Proof.
  intros Hg Ho Hz. induction pre as [|q pre IH]; [done|]. cbn [app wait_for]. unfold select_attempt at 1.
  rewrite select_pass_ok by (done || (intros i Hi; by apply Ho, elem_of_fd_list)).
  rewrite zsum_zero by (intros; apply Hz; left). cbn [Z.add Z.gtb Z.compare].
  rewrite idle_sets by (intros; apply Hz; left). apply IH. intros q' i Hq. apply Hz. by right.
Qed.
End Report.

(** [select] reports exactly the readiness of the first state in which a
    watched descriptor is ready: a bit is set in an output set iff the
    descriptor is below [nfds], in the input set, and its file has the event,
    and the result is the number of bits set.  Too large a number of
    descriptors is invalid, a watched descriptor that is not open is a bad
    one, and both leave the sets as they are; without a ready descriptor the
    sets are empty and the call times out with 0 or is interrupted. *)
Lemma select_reports nfds sets sigmask fin mask :
  (FD_SETSIZE < nfds → ∀ snaps, do_select nfds sigmask snaps fin (mask, sets) = (Err InvalidInput, (mask, sets)))
  ∧ (nfds ≤ FD_SETSIZE →
     (∀ i snaps, watched nfds sets i = true → get_file i = None →
        do_select nfds sigmask snaps fin (mask, sets) = (Err BadFileDescriptor, (mask, sets)))
     ∧ ((∀ i, watched nfds sets i = true → is_Some (get_file i)) →
        ∀ pre, (∀ q i, q ∈ pre → hits nfds q sets i = 0) →
        (∀ poll post i, 0 < hits nfds poll sets i → ∃ out,
           do_select nfds sigmask (pre ++ poll :: post) fin (mask, sets)
           = (Ok (zsum (hits nfds poll sets) (seqZ 0 FD_SETSIZE)), (mask, out))
           ∧ reports nfds poll 0 (fs_read sets) (fs_read out)
           ∧ reports nfds poll 2 (fs_write sets) (fs_write out)
           ∧ reports nfds poll 3 (fs_except sets) (fs_except out))
        ∧ do_select nfds sigmask pre fin (mask, sets)
          = match fin with
            | TimedOut_ => (Ok 0, (mask, fd_zero sets))
            | Interrupted_ => (Err Interrupted, (default mask sigmask, fd_zero sets))
            end)).
Proof.
  unfold do_select. split.
  { intros Hn snaps. by destruct (Z.gtb_spec nfds FD_SETSIZE); [|lia]. }
  intros Hn. destruct (Z.gtb_spec nfds FD_SETSIZE); [lia|]. fold (fd_list nfds sets).
  rewrite select_collect_ok by (first [by apply fd_list_nonneg | intros i Hi; by apply elem_of_fd_list]).
  assert (Hall : forallb (λ i, bool_decide (is_Some (get_file i))) (fd_list nfds sets) = true
    ↔ ∀ i, watched nfds sets i = true → is_Some (get_file i)).
  { rewrite forallb_forall. split.
    - intros Hf i Hi. apply (elem_of_fd_list nfds Hn) in Hi. apply list_elem_of_In, Hf in Hi.
      by apply bool_decide_eq_true in Hi.
    - intros Hf i Hi%list_elem_of_In. apply bool_decide_eq_true. apply Hf. by apply (elem_of_fd_list nfds Hn). }
  destruct (forallb _ _).
  - split.
    { intros i snaps Hi Hf. destruct (proj1 Hall eq_refl i Hi). congruence. }
    intros Ho pre Hpre.
    assert (same_given sets (fd_zero sets)) as Hg by (split_and!; cbn; rewrite fmap_is_Some; done).
    split.
    + intros poll post i Hi. unfold with_replacen_blocked.
      rewrite select_wait_idle by done. cbn [wait_for]. unfold select_attempt.
      rewrite select_pass_ok by (done || (intros j Hj; by apply Ho, (elem_of_fd_list nfds Hn))).
      assert (i ∈ fd_list nfds sets) as Hin.
      { destruct (decide (i ∈ fd_list nfds sets)) as [|Hni]; [done|]. rewrite hits_outside in Hi by done. lia. }
      pose proof (zsum_pos (hits nfds poll sets) (fd_list nfds sets) i (hits_nonneg nfds sets poll) Hin Hi).
      rewrite Z.add_0_l. destruct (Z.gtb_spec (zsum (hits nfds poll sets) (fd_list nfds sets)) 0); [|lia].
      eexists. split.
      { do 2 f_equal. unfold fd_list at 1. apply zsum_filter. intros j Hj.
        destruct (decide (j ∈ fd_list nfds sets)) as [Hjl|]; [|by apply hits_outside].
        exfalso. apply Hj. by apply list_elem_of_filter in Hjl as [? _]. }
      split_and!; apply out_set_reports; try done; intros j Hj; apply (hit_watched nfds Hn sets poll); auto.
    + unfold with_replacen_blocked. rewrite <- (app_nil_r pre), select_wait_idle by done. by destruct fin.
  - split; [done|]. intros Ho. exfalso. by apply Hall in Ho.
Qed.
End Select.

(** ** Witnesses

    Three open descriptors; in the second state file 1 can be read. *)
Definition some_files (fd : Z) : option Z := if (0 <=? fd) && (fd <? 3) then Some fd else None.
Definition quiet (f : Z) : Z := 0.
Definition readable (f : Z) : Z := if f =? 1 then IO_IN else 0.
Definition io_known : Z := 0x3dff.

Definition some_fds : list pollfd := [mkPollfd (-1) IO_IN 7; mkPollfd 1 IO_IN 7; mkPollfd 2 IO_OUT 7].

Lemma poll_reports_witness :
  do_poll some_files io_known (Some 5) [quiet; readable] TimedOut_ 9 some_fds
  = (Ok 1, 9, [mkPollfd (-1) IO_IN 7; mkPollfd 1 IO_IN IO_IN; mkPollfd 2 IO_OUT 0])
  ∧ (do_poll some_files io_known (Some 5) [quiet] Interrupted_ 9 some_fds).1.2 = 5.
Proof.
  assert (Forall (events_ok some_files io_known) some_fds) as Hok.
  { apply Forall_cons; split; [by left|]. do 2 (apply Forall_cons; split; [by right; right|]). constructor. }
  assert (0 ≤ io_known < 2 ^ 15) as Hk by (unfold io_known; lia).
  destruct (poll_reports some_files io_known Hk some_fds (Some 5) TimedOut_ 9 Hok) as [_ Ht].
  destruct (poll_reports some_files io_known Hk some_fds (Some 5) Interrupted_ 9 Hok) as [_ Hi].
  assert (∀ q p, q ∈ [quiet] → p ∈ some_fds → ready some_files q p = false) as Hq.
  { intros q p ->%list_elem_of_singleton Hp. unfold some_fds in Hp.
    repeat (apply elem_of_cons in Hp as [->|Hp]; [done|]). by apply elem_of_nil in Hp. }
  split.
  - apply (proj1 (Ht eq_refl [quiet] Hq) readable [] (mkPollfd 1 IO_IN 7)); [|done]. right. left.
  - destruct (proj2 (Hi eq_refl [quiet] Hq)) as (l' & _ & ->). done.
Defined.

