(* ===== verification/Pollable.v ===== *)
(** * Files that can be waited for

    The contract between files and those who wait for them ([Pollable] of
    [axpoll]): [poll] says what a file is ready for, [register] puts a waker
    into poll sets of the file, and an operation that makes the file ready
    wakes one of these sets.  Event counters ([api/src/file/event.rs]) and
    pipes ([api/src/file/pipe.rs]) implement it; [Epoll] relies on it
    ([EpollWait]). *)

From S2P Require Import Prelude Epoll EventFd Pipe PollSelect.

(** The [PollSet]s of a file *)
Inductive pset := poll_rx | poll_tx | poll_close.
#[export] Instance pset_eq : EqDecision pset.
Proof. solve_decision. Defined.

(** [F] are the objects behind files, [V] the ways a file looks at its object
    (the ends of a pipe), [O] the operations.  [po_step] gives the new state
    and the sets that are woken, [po_drop] is the operation when a file goes
    away.  [po_quiet] are operations that may break the contract. *)
Class Pollable (F V O : Type) := {
  po_poll : V → F → Z;
  po_register : V → Z → list pset;
  po_step : O → F → F * list pset;
  po_drop : V → option O;
  po_quiet : O → bool;
}.

Class PollableOk (F V O : Type) `{Pollable F V O} := {
  po_wakes op v f events : po_quiet op = false →
    Z.land (po_poll v f) events = 0 → Z.land (po_poll v (po_step op f).1) events ≠ 0 →
    ∃ x, x ∈ po_register v events ∧ x ∈ (po_step op f).2;
  po_drop_wakes v op : po_drop v = Some op → po_quiet op = false;
}.

(** ** Event masks *)

Definition io_events (inp out hup : bool) : Z :=
  Z.lor (Z.lor (if inp then IO_IN else 0) (if out then IO_OUT else 0)) (if hup then IO_HUP else 0).

Lemma testbit_pow2_if (b : bool) k i : 0 ≤ k → 0 ≤ i → Z.testbit (if b then 2 ^ k else 0) i = b && (i =? k).
Proof.
  intros Hk Hi. destruct b; [|by rewrite Z.testbit_0_l]. rewrite Z.pow2_bits_eqb by done. cbn. apply Z.eqb_sym.
Qed.
Lemma io_events_bit inp out hup i : 0 ≤ i →
  Z.testbit (io_events inp out hup) i = inp && (i =? 0) || out && (i =? 2) || hup && (i =? 4).
Proof. intros Hi. unfold io_events, IO_IN, IO_OUT, IO_HUP. rewrite !Z.lor_spec, !testbit_pow2_if by lia. done. Qed.

Lemma io_events_land inp out hup events :
  Z.land (io_events inp out hup) events ≠ 0 ↔
  inp && has_flag events IO_IN || out && has_flag events IO_OUT || hup && has_flag events IO_HUP = true.
Proof.
  unfold IO_IN, IO_OUT, IO_HUP. rewrite !has_flag_pow2 by lia. split.
  - intros Hne. destruct (_ || _) eqn:E; [done|]. destruct Hne. apply Z.bits_inj_0. intros i.
    destruct (Z.ltb_spec i 0); [by rewrite Z.testbit_neg_r|]. rewrite Z.land_spec, io_events_bit by done.
    destruct (Z.eqb_spec i 0) as [->|]; [|destruct (Z.eqb_spec i 2) as [->|]; [|destruct (Z.eqb_spec i 4) as [->|]]];
      cbn; destruct inp, out, hup; cbn in *; rewrite ?orb_false_r, ?orb_false_iff in E; naive_solver.
  - intros Hor Hz. assert (∀ i, Z.testbit (Z.land (io_events inp out hup) events) i = false) as Hb
      by (intros i; by rewrite Hz, Z.testbit_0_l).
    pose proof (Hb 0) as H0. pose proof (Hb 2) as H2. pose proof (Hb 4) as H4.
    rewrite Z.land_spec, io_events_bit in H0, H2, H4 by lia. cbn in H0, H2, H4.
    destruct inp, out, hup; cbn in *; rewrite ?orb_false_r in *; try congruence;
      repeat match goal with H : _ || _ = true |- _ => apply orb_true_iff in H as [H|H] end; congruence.
Qed.

(** The events for which a file has become ready *)
Lemma io_events_new inp out hup inp' out' hup' events :
  Z.land (io_events inp out hup) events = 0 → Z.land (io_events inp' out' hup') events ≠ 0 →
  (inp = false ∧ inp' = true ∧ has_flag events IO_IN = true)
  ∨ (out = false ∧ out' = true ∧ has_flag events IO_OUT = true)
  ∨ (hup = false ∧ hup' = true ∧ has_flag events IO_HUP = true).
Proof.
  intros Hz Hn%io_events_land. assert (¬ (Z.land (io_events inp out hup) events ≠ 0)) as Hz' by auto.
  rewrite io_events_land in Hz'. apply not_true_is_false in Hz'.
  destruct inp, out, hup, inp', out', hup', (has_flag events IO_IN), (has_flag events IO_OUT), (has_flag events IO_HUP);
    cbn in *; naive_solver.
Qed.

(** ** Event counters *)

(** [EvRead false]: the value cannot be stored.  The count is taken all the
    same, but nobody is told. *)
Inductive event_io := EvRead (stored : bool) (remaining : Z) | EvWrite (remaining value : Z) | EvNonblocking (b : bool).

Definition event_step (o : event_io) (s : EventFd) : EventFd * list pset :=
  match o with
  | EvRead stored n =>
      let '(r, s') := eventfd_read n (λ _, if stored then Ok tt else Err BadAddress) s in (s', if is_ok r then [poll_tx] else [])
  | EvWrite n v => let '(r, s') := eventfd_write n (Ok (as_u64 v)) s in (s', if is_ok r then [poll_rx] else [])
  | EvNonblocking b => (set_nonblocking b s, [])
  end.

#[export] Instance eventfd_pollable : Pollable EventFd unit event_io := {
  po_poll _ s := io_events (ev_in (eventfd_poll s)) (ev_out (eventfd_poll s)) false;
  po_register _ events :=
    (if has_flag events IO_IN then [poll_rx] else []) ++ (if has_flag events IO_OUT then [poll_tx] else []);
  po_step := event_step;
  po_drop _ := None;
  po_quiet o := match o with EvRead stored _ => negb stored | _ => false end;
}.
#[export] Instance eventfd_pollable_ok : PollableOk EventFd unit event_io.
Proof.
  split; [|done]. intros op [] f events Hq Hz Hn. cbn [po_poll po_register po_step eventfd_pollable] in *.
  destruct (io_events_new _ _ _ _ _ _ _ Hz Hn) as [(H0 & H1 & Hf)|[(H0 & H1 & Hf)|(_ & ? & _)]]; [| |done];
    rewrite Hf; cbn [eventfd_poll ev_in ev_out] in H0, H1; rewrite Z.gtb_ltb in H0, H1; apply Z.ltb_ge in H0;
    apply Z.ltb_lt in H1; clear Hz Hn;
    destruct op as [[] n|n v|b]; cbn [po_quiet eventfd_pollable negb] in Hq; try done; cbn [event_step set_nonblocking ef_count fst] in *;
    unfold eventfd_read, eventfd_write, read_update, write_update in *; unfold_m; try (cbn in *; lia);
    repeat (case_match; cbn in *; try lia); simplify_eq; cbn in *; try lia; rewrite ?Z.gtb_ltb, ?Z.ltb_lt, ?Z.ltb_ge in *.
  all: try (eexists; split; [|left]; set_solver).
  all: try (pose proof (as_u64_in v); unfold in_u64 in *; lia).
Qed.

(** ** Pipes *)

Section Pipes.
Context {R D S : Type} `{RingBufOk R} `{IoDstOk D} `{IoSrcOk S}.

(** The view of a file is its end; a change of the capacity wakes nobody. *)
Definition pipe_step (o : @pipe_op D S) (p : Pipe R) : Pipe R * list pset :=
  match o with
  | PRead d =>
      match pipe_read true d p with
      | (Ok n, _, p') => (p', if (0 <? n)%nat then [poll_tx] else [])
      | (_, _, p') => (p', [])
      end
  | PWrite nb size total s =>
      match pipe_write_attempt nb size total s p with
      | (_, total', _, p') => (p', if (total <? total')%nat then [poll_rx] else [])
      end
  | PResize n => ((resize n p).2, [])
  | PDrop side => (pipe_drop side p, [poll_close])
  end.

#[export] Instance pipe_pollable : Pollable (Pipe R) bool (@pipe_op D S) := {
  po_poll side p := io_events (pe_in (pipe_poll side p)) (pe_out (pipe_poll side p)) (pe_hup (pipe_poll side p));
  po_register _ events :=
    (if has_flag events IO_IN then [poll_rx] else []) ++ (if has_flag events IO_OUT then [poll_tx] else []) ++ [poll_close];
  po_step := pipe_step;
  po_drop side := Some (PDrop side);
  po_quiet o := match o with PResize _ => true | _ => false end;
}.

(** What a read and a write do to the buffer *)
Lemma pipe_step_read d p :
  let '(p', woken) := pipe_step (PRead d) p in
  p_read_open p' = p_read_open p ∧ p_write_open p' = p_write_open p
  ∧ (rb_occupied_len (p_buffer p') ≤ rb_occupied_len (p_buffer p))%nat
  ∧ (woken = [] → rb_vacant_len (p_buffer p') = rb_vacant_len (p_buffer p)) ∧ (woken ≠ [] → woken = [poll_tx]).
Proof.
  cbn [pipe_step]. unfold pipe_read. cbn [negb]. destruct (dst_room d =? 0)%nat; [done|].
  destruct (rb_slices (p_buffer p)) as [lft rgt] eqn:Hs. destruct (copy_out lft rgt d) as [[c|e|] d'] eqn:Hc; [|done..].
  apply copy_out_ok in Hc as [Hn _]. set (b := rb_advance_read c (p_buffer p)).
  assert (rb_content (p_buffer p) = lft ++ rgt) as Hrb by (unfold rb_content; by rewrite Hs).
  assert (rb_occupied_len b = rb_occupied_len (p_buffer p) - c)%nat as Ho.
  { unfold rb_occupied_len, b. rewrite rb_advance_content, length_drop; [done|]. unfold rb_occupied_len. rewrite Hrb. lia. }
  assert (c = 0%nat → rb_vacant_len b = rb_vacant_len (p_buffer p)) as Hv.
  { intros ->. pose proof (rb_vacant_spec b) as Hb. pose proof (rb_vacant_spec (p_buffer p)) as Hp.
    unfold b in Hb. rewrite rb_advance_capacity in Hb. fold b in Hb. lia. }
  destruct (Nat.ltb_spec 0 c) as [Hlt|Hlt].
  - rewrite (proj2 (Nat.ltb_lt 0 c)) by done. cbn. fold b. split_and!; [done..|lia|done|done].
  - destruct (closed true _); cbn; fold b; (split_and!; [done..|lia|intros; apply Hv; lia|done]).
Qed.
Lemma pipe_step_write nb size total s p :
  let '(p', woken) := pipe_step (PWrite nb size total s) p in
  p_read_open p' = p_read_open p ∧ p_write_open p' = p_write_open p
  ∧ (rb_vacant_len (p_buffer p') ≤ rb_vacant_len (p_buffer p))%nat
  ∧ (woken = [] → rb_occupied_len (p_buffer p') = rb_occupied_len (p_buffer p)) ∧ (woken ≠ [] → woken = [poll_rx]).
Proof.
  cbn [pipe_step]. unfold pipe_write_attempt. destruct (closed false p); [by rewrite Nat.ltb_irrefl|].
  destruct (rb_vacant (p_buffer p)) as [vl vr] eqn:Hv. destruct (copy_in vl vr s) as [[[l l']|e|] s'] eqn:Hc;
    [|by rewrite Nat.ltb_irrefl..]. apply copy_in_ok in Hc as (_ & Hll & Hlr & Hor).
  set (b := rb_commit l l' (p_buffer p)).
  assert (rb_occupied_len b = rb_occupied_len (p_buffer p) + (length l + length l'))%nat as Ho.
  { unfold rb_occupied_len, b. rewrite rb_commit_content by (by rewrite Hv). by rewrite !length_app. }
  assert (rb_vacant_len b ≤ rb_vacant_len (p_buffer p))%nat as Hle.
  { pose proof (rb_vacant_spec b) as Hb. pose proof (rb_vacant_spec (p_buffer p)) as Hp.
    unfold b in Hb. rewrite rb_commit_capacity in Hb. fold b in Hb. lia. }
  destruct (Nat.ltb_spec 0 (length l + length l')) as [Hlt|Hlt].
  - destruct (_ || nb); rewrite (proj2 (Nat.ltb_lt total _)) by lia; cbn; fold b; by split_and!.
  - rewrite Nat.ltb_irrefl. cbn. fold b. split_and!; [done..|intros; lia|done].
Qed.

#[export] Instance pipe_pollable_ok : PollableOk (Pipe R) bool (@pipe_op D S).
Proof.
  split; [|by intros v op [= <-]]. intros op side p events Hq Hz Hn. cbn [po_poll po_register po_step pipe_pollable] in *.
  pose proof (io_events_new _ _ _ _ _ _ _ Hz Hn) as Hnew. clear Hz Hn. destruct op as [d|nb size total s|n|side']; [| |done|].
  - pose proof (pipe_step_read d p) as Hs. destruct (pipe_step (PRead d) p) as [p' woken]. cbn [fst snd] in *.
    destruct Hs as (Hr & Hw & Ho & Hv & Hx). destruct (decide (woken = [])) as [->|Hne].
    + specialize (Hv eq_refl). revert Hnew. destruct side; cbn -[Nat.ltb]; rewrite ?Hw, ?Hv;
        destruct (Nat.ltb_spec 0 (rb_occupied_len (p_buffer p))), (Nat.ltb_spec 0 (rb_occupied_len (p_buffer p')));
        try lia; intros [(?&?&_)|[(?&?&_)|(?&?&_)]]; congruence.
    + rewrite (Hx Hne). exists poll_tx. split; [|left]. destruct Hnew as [(Hb & Ha & _)|[(_ & _ & ->)|(Hb & Ha & _)]].
      * exfalso. destruct side; cbn -[Nat.ltb] in Hb, Ha; [|done]. apply Nat.ltb_ge in Hb. apply Nat.ltb_lt in Ha. lia.
      * set_solver.
      * exfalso. destruct side; cbn -[Nat.ltb] in Hb, Ha; [|done]. congruence.
  - pose proof (pipe_step_write nb size total s p) as Hs. destruct (pipe_step (PWrite nb size total s) p) as [p' woken]. cbn [fst snd] in *.
    destruct Hs as (Hr & Hw & Ho & Hv & Hx). destruct (decide (woken = [])) as [->|Hne].
    + specialize (Hv eq_refl). revert Hnew. destruct side; cbn -[Nat.ltb]; rewrite ?Hw, ?Hv;
        destruct (Nat.ltb_spec 0 (rb_vacant_len (p_buffer p))), (Nat.ltb_spec 0 (rb_vacant_len (p_buffer p')));
        try lia; intros [(?&?&_)|[(?&?&_)|(?&?&_)]]; congruence.
    + rewrite (Hx Hne). exists poll_rx. split; [|left]. destruct Hnew as [(_ & _ & ->)|[(Hb & Ha & _)|(Hb & Ha & _)]].
      * set_solver.
      * exfalso. destruct side; cbn -[Nat.ltb] in Hb, Ha; [done|]. apply Nat.ltb_ge in Hb. apply Nat.ltb_lt in Ha. lia.
      * exfalso. destruct side; cbn -[Nat.ltb] in Hb, Ha; [|done]. congruence.
  - exists poll_close. split; [set_solver|left].
Qed.
End Pipes.

(** ** Both kinds *)

Section Sum.
Context {F1 V1 O1 F2 V2 O2 : Type} `{PollableOk F1 V1 O1} `{PollableOk F2 V2 O2}.

(** An operation or a view of the other kind does nothing. *)
#[export] Instance sum_pollable : Pollable (F1 + F2) (V1 + V2) (O1 + O2) := {
  po_poll v f := match v, f with inl v, inl f => po_poll v f | inr v, inr f => po_poll v f | _, _ => 0 end;
  po_register v events := match v with inl v => po_register v events | inr v => po_register v events end;
  po_step o f := match o, f with
    | inl o, inl f => let '(f, l) := po_step o f in (inl f, l)
    | inr o, inr f => let '(f, l) := po_step o f in (inr f, l)
    | _, _ => (f, [])
    end;
  po_drop v := match v with inl v => inl <$> po_drop v | inr v => inr <$> po_drop v end;
  po_quiet o := match o with inl o => po_quiet o | inr o => po_quiet o end;
}.
#[export] Instance sum_pollable_ok : PollableOk (F1 + F2) (V1 + V2) (O1 + O2).
Proof.
  split.
  - intros [op|op] [v|v] [f|f] events; cbn; intros Hq Hz Hn; try done.
    + pose proof (po_wakes op v f events Hq Hz) as Hw. destruct (po_step op f). by apply Hw.
    + by destruct (po_step op f).
    + by destruct (po_step op f).
    + pose proof (po_wakes op v f events Hq Hz) as Hw. destruct (po_step op f). by apply Hw.
  - intros [v|v] op; cbn; intros (op' & Hd & ->)%fmap_Some; by eapply po_drop_wakes.
Qed.
End Sum.
