(* ===== verification/Mmap.v ===== *)
(** * Memory mappings

    [api/src/syscall/mm/mmap.rs] and [mincore.rs].  The address space (crate
    [axmm]), the kinds of files and the page table are interfaces; addresses
    are [u64] and their additions wrap around, as in a release build. *)

From S2P Require Import Prelude Brk Pipe UserMem.

(** ** Flags *)

Definition PROT_READ : Z := 1.
Definition PROT_WRITE : Z := 2.
Definition PROT_EXEC : Z := 4.
Definition PROT_GROWSDOWN : Z := 0x1000000.
Definition PROT_GROWSUP : Z := 0x2000000.
Definition MmapProt_all : Z :=
  Z.lor (Z.lor (Z.lor (Z.lor PROT_READ PROT_WRITE) PROT_EXEC) PROT_GROWSDOWN) PROT_GROWSUP.

(** [From<MmapProt> for MappingFlags] *)
Definition prot_flags (value : Z) : MappingFlags :=
  mkMappingFlags (has_flag value PROT_READ) (has_flag value PROT_WRITE) (has_flag value PROT_EXEC) true.

Definition MAP_SHARED : Z := 1.
Definition MAP_PRIVATE : Z := 2.
Definition MAP_SHARED_VALIDATE : Z := 3.
Definition MAP_TYPE : Z := 0xf.
Definition MAP_FIXED : Z := 0x10.
Definition MAP_ANONYMOUS : Z := 0x20.
Definition MAP_DENYWRITE : Z := 0x800.
Definition MAP_NORESERVE : Z := 0x4000.
Definition MAP_POPULATE : Z := 0x8000.
Definition MAP_STACK : Z := 0x20000.
Definition MAP_HUGETLB : Z := 0x40000.
Definition MAP_FIXED_NOREPLACE : Z := 0x100000.
Definition MAP_HUGE_1GB : Z := 0x78000000.
Definition MmapFlags_all : Z :=
  foldr Z.lor 0 [MAP_TYPE; MAP_FIXED; MAP_FIXED_NOREPLACE; MAP_ANONYMOUS; MAP_POPULATE; MAP_NORESERVE;
                 MAP_STACK; MAP_HUGETLB; MAP_HUGE_1GB; MAP_DENYWRITE].

(** [from_bits]: no bit outside the known ones *)
Definition from_bits (all flags : Z) : option Z := if Z.land flags all =? flags then Some flags else None.
Definition from_bits_truncate (all flags : Z) : Z := Z.land flags all.

Inductive PageSize := Size4K | Size2M | Size1G.
Definition page_bytes (p : PageSize) : Z :=
  match p with Size4K => 0x1000 | Size2M => 0x200000 | Size1G => 0x40000000 end.

(** [align_down] and [align_up] on [usize] *)
Definition align_down (a align : Z) : Z := a / align * align.
Definition align_up (a align : Z) : Z := align_down (add_u64 a (align - 1)) align.

(** ** The address space *)

Inductive Backend :=
| BAlloc (page : PageSize) | BShared (size : Z) | BFile (offset : Z)
| BCow (page : PageSize) (offset : Z) (file_end : option Z)
| BLinear (pa_va_offset : Z).

Inductive DeviceMmap := DmNone | DmReadOnly | DmPhysical (start size : Z) | DmCache.
(** [FileBackend]: cached, or direct on a location that may be a device *)
Inductive FileBackend := FbCached | FbDirect (device : option DeviceMmap).

Class MmapSpace (A : Type) := {
  mm_map : Z → Z → MappingFlags → bool → Backend → M A unit;
  mm_unmap : Z → Z → M A unit;
  mm_protect : Z → Z → MappingFlags → M A unit;
  mm_find_free_area : A → Z → Z → Z → option Z;     (* hint, size, alignment *)
  mm_find_area : A → Z → option MappingFlags;
  mm_base : A → Z;
}.

(** Each call changes its range or fails and changes nothing; a new mapping
    never overlaps an old one; a free area is aligned, and nothing is mapped
    in it. *)
Class MmapSpaceOk (A : Type) `{MmapSpace A} := {
  mm_perm : A → Z → option MappingFlags;
  mm_map_ok start size f pop b a r a' : mm_map start size f pop b a = (r, a') →
    r ≠ Panic ∧ ∀ x, mm_perm a' x =
      if is_ok r && bool_decide (start ≤ x < start + size) then Some f else mm_perm a x;
  mm_map_fresh start size f pop b a a' : mm_map start size f pop b a = (Ok tt, a') →
    ∀ x, start ≤ x < start + size → mm_perm a x = None;
  mm_unmap_ok start size a r a' : mm_unmap start size a = (r, a') →
    r ≠ Panic ∧ ∀ x, mm_perm a' x =
      if is_ok r && bool_decide (start ≤ x < start + size) then None else mm_perm a x;
  mm_protect_ok start size f a r a' : mm_protect start size f a = (r, a') →
    r ≠ Panic ∧ ∀ x, mm_perm a' x =
      if is_ok r && bool_decide (start ≤ x < start + size) then (λ _, f) <$> mm_perm a x else mm_perm a x;
  mm_free_ok a hint size align start : mm_find_free_area a hint size align = Some start →
    (align | start) ∧ ∀ x, start ≤ x < start + size → mm_perm a x = None;
}.

Section Mmap.
Context {A : Type} `{MmapSpace A}.
(** [File::from_fd] and [backend()] of the file; [SharedPages::new] *)
Context (file_of : Z → res (res FileBackend)) (shared_pages : Z → res unit).

(** The kind of the mapping after the checks of the flags *)
Definition mmap_flags (flags : Z) : res Z :=
  match from_bits MmapFlags_all flags with
  | Some flags => Ok flags
  | None =>
      if Z.land flags MAP_TYPE =? MAP_SHARED_VALIDATE then Err OperationNotSupported
      else Ok (from_bits_truncate MmapFlags_all flags)
  end.

Definition mmap_page_size (map_flags : Z) : PageSize :=
  if has_flag map_flags (Z.lor MAP_HUGETLB MAP_HUGE_1GB) then Size1G
  else if has_flag map_flags MAP_HUGETLB then Size2M
  else Size4K.

(** The backend of a mapping, and its length *)
Definition mmap_backend (map_type : Z) (page_size : PageSize) (start length offset : Z) (file : option (res FileBackend))
    : res (Backend * Z) :=
  if (map_type =? MAP_SHARED) || (map_type =? MAP_SHARED_VALIDATE) then
    match file with
    | Some file =>
        backend ← file;
        match backend with
        | FbCached => Ok (BFile offset, length)
        | FbDirect None => Err NoSuchDevice
        | FbDirect (Some DmNone) => Err NoSuchDevice
        | FbDirect (Some DmReadOnly) => Ok (BCow page_size offset None, length)
        | FbDirect (Some (DmPhysical range_start range_size)) =>
            let range_end := range_start + range_size in
            let range_start := range_start + offset in
            if range_end <=? range_start then Err InvalidInput
            else Ok (BLinear (start - range_start),
                     Z.min length (align_down (range_end - range_start) (page_bytes page_size)))
        | FbDirect (Some DmCache) => Ok (BFile offset, length)
        end
    | None => shared_pages length;; Ok (BShared length, length)
    end
  else if map_type =? MAP_PRIVATE then
    match file with
    | Some file => file;; Ok (BCow page_size offset None, length)
    | None => Ok (BAlloc page_size, length)
    end
  else Err InvalidInput.

(** The range in whole pages *)
Definition mmap_start (addr map_flags : Z) : Z := align_down addr (page_bytes (mmap_page_size map_flags)).
Definition mmap_length (addr length map_flags : Z) : Z :=
  sub_u64 (align_up (add_u64 addr length) (page_bytes (mmap_page_size map_flags))) (mmap_start addr map_flags).

(** Where the mapping goes: a fixed place, the old mappings of which are
    removed unless they are to be kept, or a free area near the address or
    anywhere. *)
Definition mmap_choose (map_flags start length : Z) : M A Z :=
  if any_bit map_flags (Z.lor MAP_FIXED MAP_FIXED_NOREPLACE) then
    (if negb (has_flag map_flags MAP_FIXED_NOREPLACE) then mm_unmap start length else mret tt);;
    mret start
  else
    let align := page_bytes (mmap_page_size map_flags) in
    aspace ← getM;
    liftR (ok_or NoMemory
      match mm_find_free_area aspace start length align with
      | Some x => Some x
      | None => mm_find_free_area aspace (mm_base aspace) length align
      end).

Definition mmap_place (map_flags map_type addr length prot fd offset : Z) : M A Z :=
  let length := mmap_length addr length map_flags in
  start ← mmap_choose map_flags (mmap_start addr map_flags) length;
  file ← (if fd >? 0 then f ← liftR (file_of fd); mret (Some f) else mret None);
  bl ← liftR (mmap_backend map_type (mmap_page_size map_flags) start length offset file);
  let '(backend, length) := bl in
  mm_map start length (prot_flags prot) (has_flag map_flags MAP_POPULATE) backend;;
  mret start.

Definition sys_mmap (addr length prot flags fd offset : Z) : M A Z :=
  if length =? 0 then failM InvalidInput
  else
    let permission_flags := from_bits_truncate MmapProt_all prot in
    map_flags ← liftR (mmap_flags flags);
    let map_type := Z.land map_flags MAP_TYPE in
    if negb ((map_type =? MAP_PRIVATE) || (map_type =? MAP_SHARED) || (map_type =? MAP_SHARED_VALIDATE)) then
      failM InvalidInput
    else if negb (Bool.eqb (has_flag map_flags MAP_ANONYMOUS) (fd <=? 0)) then failM InvalidInput
    else if (fd <=? 0) && negb (offset =? 0) then failM InvalidInput
    else if offset <? 0 then failM InvalidInput
    else if negb (offset mod 4096 =? 0) then failM InvalidInput
    else mmap_place map_flags map_type addr length permission_flags fd offset.

Definition sys_munmap (addr length : Z) : M A Z :=
  mm_unmap addr (align_up length 4096);; mret 0.

Definition sys_mprotect (addr length prot : Z) : M A Z :=
  match from_bits MmapProt_all prot with
  | None => failM InvalidInput
  | Some permission_flags =>
      if has_flag permission_flags (Z.lor PROT_GROWSDOWN PROT_GROWSUP) then failM InvalidInput
      else mm_protect addr (align_up length 4096) (prot_flags permission_flags);; mret 0
  end.

(** [flag_bits] is [MappingFlags::bits]; [copy new_addr addr n] is the copy of
    the old content through user memory. *)
Definition sys_mremap (flag_bits : MappingFlags → Z) (copy : Z → Z → Z → M A unit) (addr old_size new_size flags : Z)
    : M A Z :=
  if negb (addr mod 4096 =? 0) then failM InvalidInput
  else
    aspace ← getM;
    let old_size := align_up old_size 4096 in
    let new_size := align_up new_size 4096 in
    area ← liftR (ok_or NoMemory (mm_find_area aspace addr));
    new_addr ← sys_mmap addr new_size (flag_bits area) MAP_PRIVATE (-1) 0;
    copy new_addr addr (Z.min new_size old_size);;
    sys_munmap addr old_size;;
    mret new_addr.

(** ** What a mapping covers *)

Definition replaces (map_flags : Z) : bool :=
  any_bit map_flags (Z.lor MAP_FIXED MAP_FIXED_NOREPLACE) && negb (has_flag map_flags MAP_FIXED_NOREPLACE).
Definition fixed (map_flags : Z) : bool := any_bit map_flags (Z.lor MAP_FIXED MAP_FIXED_NOREPLACE).

Lemma page_bytes_pos p : 0 < page_bytes p ≤ 0x40000000.
Proof. destruct p; cbn; lia. Qed.

Lemma align_down_spec a n : 0 < n → (n | align_down a n) ∧ align_down a n ≤ a < align_down a n + n.
Proof.
  intros Hn. unfold align_down. split; [by exists (a / n)|].
  pose proof (Z.div_mod a n). pose proof (Z.mod_pos_bound a n). lia.
Qed.

(** Away from the end of the address space the range covers the request, in
    whole pages. *)
Lemma mmap_range_covers addr length map_flags :
  let page := page_bytes (mmap_page_size map_flags) in
  0 ≤ addr → 0 < length → addr + length + page ≤ 2 ^ 64 →
  mmap_start addr map_flags ≤ addr
  ∧ addr + length ≤ mmap_start addr map_flags + mmap_length addr length map_flags < addr + length + page
  ∧ (page | mmap_start addr map_flags) ∧ (page | mmap_length addr length map_flags).
Proof.
  intros page Ha Hl Hb. unfold mmap_length, mmap_start, align_up, sub_u64, add_u64. fold page.
  pose proof (page_bytes_pos (mmap_page_size map_flags)) as Hp. fold page in Hp.
  rewrite (as_u64_small (addr + length)) by (unfold in_u64; lia).
  rewrite (as_u64_small (addr + length + (page - 1))) by (unfold in_u64; lia).
  destruct (align_down_spec addr page ltac:(lia)) as [Hd1 Hb1].
  destruct (align_down_spec (addr + length + (page - 1)) page ltac:(lia)) as [Hd2 Hb2].
  assert (0 ≤ align_down addr page) by (unfold align_down; apply Z.mul_nonneg_nonneg; [apply Z.div_pos; lia|lia]).
  rewrite as_u64_small by (unfold in_u64; lia).
  split_and!; [lia|lia|lia|done|]. by apply Z.divide_sub_r.
Qed.

(** The mapping of [map_type] has at most the length asked for; only that of a
    device is shorter. *)
Lemma mmap_backend_length ty ps start length offset file b len :
  mmap_backend ty ps start length offset file = Ok (b, len) → len ≤ length ∧ (file = None → len = length).
Proof.
  unfold mmap_backend. destruct ((ty =? MAP_SHARED) || (ty =? MAP_SHARED_VALIDATE)).
  - destruct file as [[[|[[| |rs rz|]|]]|e|]|]; cbn; try naive_solver lia.
    + case_match; [done|]. intros [= <- <-]. split; [lia|done].
    + destruct (shared_pages length); naive_solver lia.
  - destruct (ty =? MAP_PRIVATE); [|done].
    destruct file as [[?|e|]|]; cbn; naive_solver lia.
Qed.

Context `{!MmapSpaceOk A}.

(** A call fails in its checks, or comes to its placement. *)
Lemma sys_mmap_cases addr length prot flags fd offset a :
  (∃ e, sys_mmap addr length prot flags fd offset a = (Err e, a))
  ∨ ∃ map_flags, mmap_flags flags = Ok map_flags ∧ 0 ≤ offset ∧ (offset mod 4096 = 0) ∧ length ≠ 0
      ∧ has_flag map_flags MAP_ANONYMOUS = (fd <=? 0)
      ∧ sys_mmap addr length prot flags fd offset a
        = mmap_place map_flags (Z.land map_flags MAP_TYPE) addr length (from_bits_truncate MmapProt_all prot) fd offset a.
Proof.
  unfold sys_mmap. destruct (Z.eqb_spec length 0); [left; by eexists|].
  destruct (mmap_flags flags) as [mf|e|] eqn:Hf; [|left; by eexists|].
  2:{ exfalso. revert Hf. unfold mmap_flags. by repeat case_match. }
  rewrite (bind_ok (liftR (Ok mf)) _ a mf a) by done.
  destruct (negb _); [left; by eexists|].
  destruct (Bool.eqb (has_flag mf MAP_ANONYMOUS) (fd <=? 0)) eqn:Ha; cbn [negb]; [|left; by eexists].
  destruct ((fd <=? 0) && negb (offset =? 0)); [left; by eexists|].
  destruct (Z.ltb_spec offset 0); [left; by eexists|].
  destruct (Z.eqb_spec (offset mod 4096) 0); cbn [negb]; [|left; by eexists].
  right. exists mf. apply eqb_prop in Ha. split_and!; done.
Qed.

(** The place: what it does to the mappings, and what holds of it *)
Lemma mmap_choose_ok mf start len a r a' : mmap_choose mf start len a = (r, a') →
  r ≠ Panic
  ∧ (∀ x, mm_perm a' x = if is_ok r && replaces mf && bool_decide (start ≤ x < start + len) then None else mm_perm a x)
  ∧ ∀ s, r = Ok s → (fixed mf = true → s = start)
      ∧ (fixed mf = false → (page_bytes (mmap_page_size mf) | s) ∧ ∀ x, s ≤ x < s + len → mm_perm a x = None).
Proof.
  unfold mmap_choose, replaces, fixed. destruct (any_bit mf _).
  - destruct (has_flag mf MAP_FIXED_NOREPLACE); cbn [negb andb].
    + intros [= <- <-]. split_and!; try done. by intros s [= <-].
    + unfold_m. destruct (mm_unmap start len a) as [ru a1] eqn:Hu. apply mm_unmap_ok in Hu as [Hnp Hu].
      destruct ru as [[]|e|]; [| |done]; intros [= <- <-]; (split_and!; try done). by intros s [= <-].
  - unfold_m. cbn [andb]. set (o := match mm_find_free_area _ _ _ _ with Some x => _ | None => _ end).
    destruct o as [x|] eqn:Ho; intros [= <- <-]; (split_and!; try done).
    intros s [= <-]. split; [done|]. intros _. unfold o in Ho.
    destruct (mm_find_free_area a start len _) eqn:E1; [injection Ho as ->|]; by eapply mm_free_ok.
Qed.

(** What the address space looks like when a call has failed or succeeded *)
Lemma mmap_place_ok mf ty addr length prot fd offset a r a' :
  mmap_place mf ty addr length prot fd offset a = (r, a') →
  let start := mmap_start addr mf in
  let len := mmap_length addr length mf in
  match r with
  | Ok s =>
      ∃ n, n ≤ len ∧ (fd ≤ 0 → n = len) ∧ (fixed mf = true → s = start)
      ∧ (fixed mf = false → (page_bytes (mmap_page_size mf) | s) ∧ ∀ x, s ≤ x < s + len → mm_perm a x = None)
      ∧ (∀ x, s ≤ x < s + n → replaces mf = true ∨ mm_perm a x = None)
      ∧ ∀ x, mm_perm a' x =
          if bool_decide (s ≤ x < s + n) then Some (prot_flags prot)
          else if replaces mf && bool_decide (start ≤ x < start + len) then None else mm_perm a x
  | _ => ∀ x, mm_perm a' x = mm_perm a x ∨ replaces mf = true ∧ start ≤ x < start + len ∧ mm_perm a' x = None
  end.
Proof.
  unfold mmap_place. set (start := mmap_start addr mf). set (len := mmap_length addr length mf). cbv zeta.
  unfold_m. destruct (mmap_choose mf start len a) as [[s|e|] a1] eqn:Hc;
    apply mmap_choose_ok in Hc as (Hnp & Hx & Hs); cbn [is_ok andb] in Hx.
  2:{ intros [= <- <-] x. left. by rewrite Hx. }
  2:{ done. }
  assert (Hfail : ∀ x, mm_perm a1 x = mm_perm a x ∨ replaces mf = true ∧ start ≤ x < start + len ∧ mm_perm a1 x = None).
  { intros x. rewrite Hx. destruct (replaces mf); cbn [andb]; [case_bool_decide; auto|auto]. }
  set (fl := if fd >? 0 then _ else _).
  assert (∃ rf, fl a1 = (rf, a1) ∧ (fd ≤ 0 → rf = Ok None)) as (rf & -> & Hrf).
  { unfold fl. destruct (Z.gtb_spec fd 0); [destruct (file_of fd)|]; eexists; split; done || lia. }
  destruct rf as [file|e|]; [|by intros [= <- <-]..].
  destruct (mmap_backend ty _ s len offset file) as [[b n]|e|] eqn:Hb; [|by intros [= <- <-]..].
  apply mmap_backend_length in Hb as [Hn Hn0].
  destruct (mm_map s n _ _ b a1) as [rm a2] eqn:Hmap0. pose proof (mm_map_ok _ _ _ _ _ _ _ _ Hmap0) as [Hnm Hmap].
  destruct (Hs s eq_refl) as [Hs1 Hs2]. destruct rm as [[]|e|]; [| |done]; intros [= <- <-].
  - exists n. split_and!; [done| |done..| |].
    + intros Hfd. apply Hn0. by injection (Hrf Hfd).
    + intros x Hin. apply (mm_map_fresh _ _ _ _ _ _ _ Hmap0) in Hin. rewrite Hx in Hin.
      destruct (replaces mf); auto.
    + intros x. by rewrite Hmap, Hx.
  - intros x. rewrite Hmap. apply Hfail.
Qed.

(** C22: [mmap] and the mappings that exist.  Unless [MAP_FIXED] asks for a
    replacement no byte that was mapped changes, whether the call succeeds or
    fails, and with it no byte outside the page range of the request.  A call
    that succeeds returns a page boundary (the page of the request for a fixed
    mapping) and maps an area there with the permissions asked for; without a
    file the area is the whole page range, which covers the request. *)
Theorem mmap_protects_mappings addr length prot flags mf fd offset a r a' :
  let start := mmap_start addr mf in
  let len := mmap_length addr length mf in
  let page := page_bytes (mmap_page_size mf) in
  0 ≤ addr → 0 ≤ length → addr + length + page ≤ 2 ^ 64 →
  mmap_flags flags = Ok mf → sys_mmap addr length prot flags fd offset a = (r, a') →
  (∀ x p, mm_perm a x = Some p → replaces mf = false ∨ ¬ (start ≤ x < start + len) → mm_perm a' x = Some p)
  ∧ match r with
    | Ok s =>
        (page | s) ∧ (fixed mf = true → s = start ∧ s ≤ addr ∧ addr + length ≤ s + len)
        ∧ ∃ n, n ≤ len ∧ (fd ≤ 0 → n = len ∧ length ≤ n)
          ∧ (∀ x, s ≤ x < s + n → mm_perm a' x = Some (prot_flags (from_bits_truncate MmapProt_all prot)))
          ∧ ∀ x, ¬ (s ≤ x < s + n) → mm_perm a x = None → mm_perm a' x = None
    | _ => ∀ x, mm_perm a x = None → mm_perm a' x = None
    end.
Proof.
  intros start len page Ha Hl Hb Hf Hcall.
  destruct (sys_mmap_cases addr length prot flags fd offset a) as [[e He]|(mf' & Hf' & Ho & Ho4 & Hl0 & Hanon & He)];
    rewrite He in Hcall; [by injection Hcall as <- <-|].
  assert (mf' = mf) as -> by congruence.
  destruct (mmap_range_covers addr length mf Ha ltac:(lia) Hb) as (Hc1 & Hc2 & Hc3 & Hc4).
  fold start len page in Hc1, Hc2, Hc3, Hc4.
  apply mmap_place_ok in Hcall. fold start len page in Hcall. destruct r as [s|e|].
  { destruct Hcall as (n & Hn & Hn0 & Hfix & Hfree & Hfresh & Hx). split; [|split_and!].
    + intros x p Hp Hr. rewrite Hx. case_bool_decide as Hin.
      * destruct (Hfresh x Hin) as [Hrep|]; [|congruence]. destruct Hr as [|Hr]; [congruence|].
        assert (s = start) as -> by (apply Hfix; revert Hrep; unfold replaces; by intros [? _]%andb_prop). lia.
      * destruct Hr as [->|Hr]; [done|]. by rewrite (bool_decide_eq_false_2 _ Hr), andb_false_r.
    + destruct (fixed mf); [by rewrite Hfix|by apply Hfree].
    + intros ->%Hfix. lia.
    + exists n. split_and!; [done| | |].
      * intros ->%Hn0. lia.
      * intros x Hin. by rewrite Hx, bool_decide_eq_true_2.
      * intros x Hin Hp. rewrite Hx, bool_decide_eq_false_2, Hp by done. by destruct (_ && _). }
  all: split; [intros x p Hp Hr|intros x Hp]; destruct (Hcall x) as [->|(? & ? & ->)]; try done.
  all: destruct Hr; congruence || done.
Qed.

(** [mremap] never moves a mapping: it asks [mmap] for a private mapping
    with neither [MAP_ANONYMOUS] nor a file, which [mmap] refuses, so every
    call fails and changes nothing. *)
Lemma mremap_always_fails flag_bits copy addr old_size new_size flags a :
  ∃ e, sys_mremap flag_bits copy addr old_size new_size flags a = (Err e, a).
Proof.
  unfold sys_mremap. destruct (negb _); [by eexists|]. unfold_m.
  destruct (mm_find_area a addr) as [area|]; cbn; [|by eexists].
  unfold sys_mmap. destruct (_ =? 0); by eexists.
Qed.
End Mmap.

(** ** An address space: a list of areas *)

Abbreviation areas := (list (Z * Z * MappingFlags)).

Fixpoint areas_perm (l : areas) (x : Z) : option MappingFlags :=
  match l with
  | [] => None
  | (s, e, f) :: l => if bool_decide (s ≤ x < e) then Some f else areas_perm l x
  end.
Definition areas_carve (u v : Z) (a : Z * Z * MappingFlags) : areas :=
  [(a.1.1, Z.min a.1.2 u, a.2); (Z.max a.1.1 v, a.1.2, a.2)].
Definition areas_overlap (u v : Z) (a : Z * Z * MappingFlags) : bool := bool_decide (Z.max a.1.1 u < Z.min a.1.2 v).
Definition areas_unmap (u v : Z) (l : areas) : areas := l ≫= areas_carve u v.
Definition areas_protect (u v : Z) (g : MappingFlags) (l : areas) : areas :=
  l ≫= λ a, areas_carve u v a ++ [(Z.max a.1.1 u, Z.min a.1.2 v, g)].
Definition areas_free (l : areas) (hint size align : Z) : option Z :=
  let up x := (x + align - 1) / align * align in
  find (λ x, negb (existsb (areas_overlap x (x + size)) l)) (up hint :: ((λ a, up a.1.2) <$> l)).

#[export] Instance areas_space : MmapSpace areas := {
  mm_map start size f _ _ := λ l,
    if existsb (areas_overlap start (start + size)) l then (Err AlreadyExists, l)
    else (Ok tt, (start, start + size, f) :: l);
  mm_unmap start size := λ l, (Ok tt, areas_unmap start (start + size) l);
  mm_protect start size f := λ l, (Ok tt, areas_protect start (start + size) f l);
  mm_find_free_area := areas_free;
  mm_find_area := areas_perm;
  mm_base _ := USER_SPACE_BASE;
}.

Lemma areas_perm_app l l' x :
  areas_perm (l ++ l') x = match areas_perm l x with Some f => Some f | None => areas_perm l' x end.
Proof. induction l as [|[[s e] f] l IH]; cbn; [done|]. by case_bool_decide. Qed.

Lemma areas_no_overlap l u v x : existsb (areas_overlap u v) l = false → u ≤ x < v → areas_perm l x = None.
Proof.
  intros Ho Hx. induction l as [|[[s e] f] l IH]; cbn [existsb areas_perm] in *; [done|].
  apply orb_false_iff in Ho as [Ho ?]. apply bool_decide_eq_false in Ho. cbn [fst snd] in Ho.
  rewrite bool_decide_eq_false_2 by lia. auto.
Qed.

Lemma areas_unmap_perm u v l x :
  areas_perm (areas_unmap u v l) x = if bool_decide (u ≤ x < v) then None else areas_perm l x.
Proof.
  induction l as [|[[s e] f] l IH]; [by case_bool_decide|]. change (areas_unmap u v ((s, e, f) :: l))
    with (areas_carve u v (s, e, f) ++ areas_unmap u v l).
  rewrite areas_perm_app, IH. cbn. repeat case_bool_decide; done || lia.
Qed.

Lemma areas_protect_perm u v g l x :
  areas_perm (areas_protect u v g l) x =
    if bool_decide (u ≤ x < v) then (λ _, g) <$> areas_perm l x else areas_perm l x.
Proof.
  induction l as [|[[s e] f] l IH]; [by case_bool_decide|]. change (areas_protect u v g ((s, e, f) :: l))
    with ((areas_carve u v (s, e, f) ++ [(Z.max s u, Z.min e v, g)]) ++ areas_protect u v g l).
  rewrite areas_perm_app, IH. cbn. repeat case_bool_decide; done || lia.
Qed.

#[export] Instance areas_space_ok : MmapSpaceOk areas.
Proof.
  apply (Build_MmapSpaceOk areas _ areas_perm).
  - intros start size f pop b a r a'. cbn. destruct (existsb _ _); intros [= <- <-]; by split.
  - intros start size f pop b a a'. cbn. destruct (existsb _ _) eqn:Ho; intros [= <-] x Hx.
    by eapply areas_no_overlap.
  - intros start size a r a' [= <- <-]. split; [done|]. intros x. apply areas_unmap_perm.
  - intros start size f a r a' [= <- <-]. split; [done|]. intros x. apply areas_protect_perm.
  - intros a hint size align start [Hin Hf]%find_some. apply negb_true_iff in Hf. split.
    + destruct Hin as [<-|Hin]; [by eexists|]. apply in_map_iff in Hin as (? & <- & _). by eexists.
    + intros x. by apply areas_no_overlap.
Defined.

(** An address space with one page, and no open file *)
Definition rw : MappingFlags := mkMappingFlags true true false true.
Definition one_page : areas := [(0x10000, 0x11000, rw)].
Definition no_file (fd : Z) : res (res FileBackend) := Err BadFileDescriptor.
Definition any_pages (len : Z) : res unit := Ok tt.
Definition anonymous : Z := Z.lor MAP_PRIVATE MAP_ANONYMOUS.

Lemma mmap_protects_mappings_witness :
  ∃ a', sys_mmap no_file any_pages 0x10000 100 PROT_READ anonymous (-1) 0 one_page = (Ok 0x11000, a')
    ∧ mm_perm a' 0x10000 = Some rw.
Proof.
  eexists. split; [by vm_compute|].
  eapply (mmap_protects_mappings no_file any_pages 0x10000 100 PROT_READ anonymous anonymous (-1) 0 one_page
            (Ok 0x11000)).
  all: try by vm_compute.
  left. by vm_compute.
Defined.

(** A fixed mapping of a file that is not open destroys what was mapped there
    before it fails: the old range is unmapped before the descriptor is looked
    up. *)
Example fixed_bad_file_unmaps :
  let r := sys_mmap no_file any_pages 0x10000 4096 PROT_READ (Z.lor MAP_PRIVATE MAP_FIXED) 5 0 one_page in
  r.1 = Err BadFileDescriptor ∧ mm_perm one_page 0x10000 = Some rw ∧ mm_perm r.2 0x10000 = None.
Proof. split_and!; by vm_compute. Qed.

(** At the end of the address space the sum of address and length wraps
    around: the page range of a huge request is empty. *)
Example huge_mmap_range_empty : mmap_length 0 (2 ^ 64 - 1) anonymous = 0.
Proof. by vm_compute. Qed.

(** [mprotect] refuses the growth flags only when both are given. *)
Example mprotect_takes_growsdown :
  (sys_mprotect 0x10000 4096 (Z.lor PROT_READ PROT_GROWSDOWN) one_page).1 = Ok 0.
Proof. by vm_compute. Qed.
