(* ===== verification/Devices.v ===== *)
(** * Devices

    [core/src/vfs/dev.rs]: device nodes, which hand their operations to a
    [DeviceOps]; [api/src/vfs/dev/mod.rs]: the memory devices and the
    directory [/dev]; [loop.rs], [fb.rs] and [rtc.rs]: loop devices, the frame
    buffer and the clock.

    A device is a [DeviceOps] over the type of the state it works on.  A read
    yields the count and the buffer afterwards.  Generators of random numbers,
    the backends of open files, the display and the calendar come from other
    crates and are interfaces. *)

From S2P Require Import Prelude Vm Mmap SimpleVfs FdTable FsPath PollSelect.
Open Scope Z_scope.

Record NodeFlags := mkNodeFlags { NON_CACHEABLE : bool; STREAM : bool }.

Record DeviceOps (S : Type) := mkDeviceOps {
  dev_read_at : bytes → Z → M S (Z * bytes);
  dev_write_at : bytes → Z → M S Z;
  dev_ioctl : Z → Z → M S Z;
  dev_pollable : option (M S Z);
  dev_mmap : S → DeviceMmap;
  dev_flags : NodeFlags;
}.
Arguments mkDeviceOps {S}.
Arguments dev_read_at {S}.
Arguments dev_write_at {S}.
Arguments dev_ioctl {S}.
Arguments dev_pollable {S}.
Arguments dev_mmap {S}.
Arguments dev_flags {S}.

(** The methods a device need not have *)
Definition default_ioctl {S} (cmd arg : Z) : M S Z := failM NotATty.
Definition default_mmap {S} (_ : S) : DeviceMmap := DmNone.

(** ** Device nodes *)

Section Node.
Context {S : Type} (ops : DeviceOps S).

Definition Device_append (buf : bytes) : M S (Z * Z) := failM NotATty.
(** A device can be truncated if it can be written. *)
Definition Device_set_len (len : Z) : M S unit := λ s,
  match dev_write_at ops [] 0 s with
  | (Ok _, s) => (Ok tt, s)
  | (Err _, s) => (Err BadFileDescriptor, s)
  | (Panic, s) => (Panic, s)
  end.
Definition Device_set_symlink (target : bytes) : M S unit := failM BadFileDescriptor.
Definition Device_sync (data_only : bool) : M S unit := failM InvalidInput.
Definition Device_len : M S Z := mret 0.
Definition Device_poll : M S Z :=
  match dev_pollable ops with Some poll => poll | None => mret (Z.lor IO_IN IO_OUT) end.
End Node.

(** The node in the file system; [O] are the devices there are.  The default
    permissions are those of [axfs_ng_vfs]. *)
Record Device (O : Type) := mkDevice { dv_node : SimpleFsNode; dv_ops : O }.
Arguments mkDevice {O}.
Arguments dv_node {O}.
Arguments dv_ops {O}.
#[export] Instance eta_Device O : Eta (Device O) := λ d, mkDevice (dv_node d) (dv_ops d).

Definition set_device_id {O} (device_id : Z) (d : Device O) : Device O :=
  d <| dv_node ::= λ n, n <| sn_metadata ::= λ m, m <| md_rdev := device_id |> |> |>.
Definition Device_new {O} (vacant : gset Z → Z) (default_mode : Z) (node_type : NodeType) (device_id : Z) (ops : O) :
    M (gset Z) (Device O) :=
  node ← SimpleFsNode_new vacant node_type default_mode;
  mret (set_device_id device_id (mkDevice node ops)).

(** ** Memory devices *)

Definition stream_flags : NodeFlags := mkNodeFlags true true.
Definition plain_flags : NodeFlags := mkNodeFlags true false.

Definition swallow {S} (buf : bytes) (_ : Z) : M S Z := mret (zlen buf).
Definition zeros {S} (buf : bytes) (_ : Z) : M S (Z * bytes) := mret (zlen buf, replicate (length buf) 0).

Definition Null {S} : DeviceOps S :=
  mkDeviceOps (λ buf _, mret (0, buf)) swallow default_ioctl None default_mmap stream_flags.
Definition Zero {S} : DeviceOps S := mkDeviceOps zeros swallow default_ioctl None default_mmap stream_flags.
Definition Full {S} : DeviceOps S :=
  mkDeviceOps zeros (λ _ _, failM StorageFull) default_ioctl None default_mmap stream_flags.
Definition CpuDmaLatency {S} : DeviceOps S :=
  mkDeviceOps (λ _ _, failM InvalidInput) swallow default_ioctl None default_mmap plain_flags.

(** [SmallRng] *)
Class SmallRng (R : Type) := {
  from_seed : bytes → R;
  fill_bytes : nat → R → bytes * R;
}.
Definition RANDOM_SEED : bytes := concat (replicate 2 (seqZ 48 10 ++ seqZ 97 6)).

Definition Random_new {R} `{SmallRng R} : R := from_seed RANDOM_SEED.
Definition Random {R} `{SmallRng R} : DeviceOps R :=
  mkDeviceOps (λ buf _ rng, let '(out, rng) := fill_bytes (length buf) rng in (Ok (zlen buf, out), rng))
    swallow default_ioctl None default_mmap stream_flags.

(** ** The clock *)

(** What [chrono] says of a number of nanoseconds since 1970 *)
Record DateTime := mkDateTime { second : Z; minute : Z; hour : Z; day : Z; month0 : Z; year : Z }.
Record rtc_time := mkRtcTime {
  tm_sec : Z; tm_min : Z; tm_hour : Z; tm_mday : Z; tm_mon : Z; tm_year : Z; tm_wday : Z; tm_yday : Z; tm_isdst : Z;
}.
Definition RTC_RD_TIME : Z := 0x80247009.

Section Rtc.
Context {V : Type} `{VmPtr V rtc_time} (from_timestamp_nanos : Z → DateTime) (wall_time_nanos : Z).

Definition rtc_ioctl (cmd arg : Z) : M V Z :=
  if cmd =? RTC_RD_TIME then
    let wall := from_timestamp_nanos (as_i64 wall_time_nanos) in
    vm_write arg (mkRtcTime (as_i32 (second wall)) (as_i32 (minute wall)) (as_i32 (hour wall)) (as_i32 (day wall))
                    (as_i32 (month0 wall)) (as_i32 (year wall - 1900)) 0 0 0);;
    mret 0
  else failM NotATty.
Definition Rtc : DeviceOps V :=
  mkDeviceOps (λ buf _, mret (0, buf)) (λ _ _, mret 0) rtc_ioctl None default_mmap stream_flags.
End Rtc.

(** ** The frame buffer *)

Record DisplayInfo := mkDisplayInfo { di_width : Z; di_height : Z; fb_base_vaddr : Z; fb_size : Z }.
Record FrameBufferBitfield := mkBitfield { bf_offset : Z; bf_length : Z; msb_right : Z }.
(** Fields that are always 0 are left out: [xoffset], [yoffset], [grayscale],
    [nonstd], [activate], [height], [width], [accel_flags], [sync], [vmode],
    [rotate], [colorspace] and [reserved]. *)
Record VarScreenInfo := mkVarScreenInfo {
  xres : Z; yres : Z; xres_virtual : Z; yres_virtual : Z; bits_per_pixel : Z;
  red : FrameBufferBitfield; green : FrameBufferBitfield; blue : FrameBufferBitfield; transp : FrameBufferBitfield;
  pixclock : Z; left_margin : Z; right_margin : Z; upper_margin : Z; lower_margin : Z; hsync_len : Z; vsync_len : Z;
}.
(** The other fields are 0, but [visual] is 2. *)
Record FixScreenInfo := mkFixScreenInfo { fix_id : bytes; smem_start : Z; smem_len : Z; visual : Z; line_length : Z }.

(** [a / b], which panics for 0 *)
Definition div_checked (a b : Z) : res Z := if b =? 0 then Panic else Ok (a / b).

(** The memory of the display ([size] bytes from [base]), and user memory *)
Record FbSt (V : Type) := mkFbSt { fb_base : Z; fb_mem : bytes; fb_user : V }.
Arguments mkFbSt {V}.
Arguments fb_base {V}.
Arguments fb_mem {V}.
Arguments fb_user {V}.
#[export] Instance eta_FbSt V : Eta (FbSt V) := λ s, mkFbSt (fb_base s) (fb_mem s) (fb_user s).

Section FrameBuffer.
Context {V : Type} `{VmPtr V VarScreenInfo, VmPtr V FixScreenInfo} (info : DisplayInfo) (virt_to_phys : Z → Z).
Abbreviation S := (FbSt V).

Definition fb_store {X} `{VmPtr V X} (p : Z) (x : X) : M S unit := λ s,
  let '(r, v) := vm_write p x (fb_user s) in (r, s <| fb_user := v |>).

Definition fb_read_at (buf : bytes) (offset : Z) : M S (Z * bytes) :=
  s ← getM;
  let slice := fb_mem s in
  let len := zlen buf `min` (0 `max` (zlen slice - offset)) in
  mret (len, take (Z.to_nat len) slice ++ drop (Z.to_nat len) buf).

Definition fb_write_at (buf : bytes) (offset : Z) : M S Z :=
  s ← getM;
  let slice := fb_mem s in
  if offset >=? zlen slice then failM StorageFull
  else
    let len := zlen buf `min` (zlen slice - offset) in
    modifyM (λ s : S, s <| fb_mem := take (Z.to_nat len) buf ++ drop (Z.to_nat len) slice |>);;
    mret len.

Definition var_screen_info : res VarScreenInfo :=
  line_length ← div_checked (fb_size info) (di_height info);
  let line_length := as_u32 line_length in
  bpp ← div_checked line_length (di_width info);
  clock ← div_checked 10000000 (di_width info);
  pixclock ← div_checked (as_u32 (clock * 1000)) (di_height info);
  let margin := Z.land (di_width info / 8) 0xf8 in
  Ok (mkVarScreenInfo (di_width info) (di_height info) (di_width info) (di_height info) (as_u32 (bpp * 8))
        (mkBitfield 16 8 0) (mkBitfield 8 8 0) (mkBitfield 0 8 0) (mkBitfield 24 8 0)
        pixclock margin 32 16 4 margin 4).

(** [b"Virtio Framebuf\0"] *)
Definition fb_id : bytes := [86; 105; 114; 116; 105; 111; 32; 70; 114; 97; 109; 101; 98; 117; 102; 0].
Definition fix_screen_info : res FixScreenInfo :=
  line_length ← div_checked (fb_size info) (di_height info);
  Ok (mkFixScreenInfo fb_id (fb_base_vaddr info) (as_u32 (fb_size info)) 2 (as_u32 line_length)).

Definition fb_ioctl (cmd arg : Z) : M S Z :=
  match cmd with
  | 0x4600 => i ← liftR var_screen_info; fb_store arg i;; mret 0
  | 0x4601 => mret 0
  | 0x4602 => i ← liftR fix_screen_info; fb_store arg i;; mret 0
  | 0x4604 | 0x4605 => mret 0
  | 0x4606 | 0x4611 => failM InvalidInput
  | _ => failM NotATty
  end.

Definition FrameBuffer : DeviceOps S :=
  mkDeviceOps fb_read_at fb_write_at fb_ioctl None (λ s, DmPhysical (virt_to_phys (fb_base s)) (zlen (fb_mem s))) plain_flags.

(** The offset bounds the length but does not say where the bytes go. *)
Lemma fb_write_at_start (buf : bytes) offset (s : S) : 0 ≤ offset → offset + zlen buf ≤ zlen (fb_mem s) → buf ≠ [] →
  fb_write_at buf offset s = (Ok (zlen buf), s <| fb_mem := buf ++ drop (length buf) (fb_mem s) |>).
Proof.
  intros Ho Hl Hne. assert (0 < zlen buf) by (destruct buf; [done|unfold zlen; cbn; lia]).
  unfold fb_write_at. unfold_m. destruct (Z.geb_spec offset (zlen (fb_mem s))); [lia|].
  rewrite Z.min_l by lia. unfold zlen at 2 3. by rewrite !Nat2Z.id, firstn_all.
Qed.
End FrameBuffer.

(** ** Loop devices *)

Definition LOOP_SET_FD : Z := 0x4C00.
Definition LOOP_CLR_FD : Z := 0x4C01.
Definition LOOP_SET_STATUS : Z := 0x4C02.
Definition LOOP_GET_STATUS : Z := 0x4C03.
Definition BLKROSET : Z := 0x125D.
Definition BLKROGET : Z := 0x125E.
Definition BLKGETSIZE : Z := 0x1260.
Definition BLKRASET : Z := 0x1262.
Definition BLKRAGET : Z := 0x1263.
Definition BLKGETSIZE64 : Z := 0x80081272.

(** [FileBackend] of [axfs]: what an open file reads and writes *)
Class Backends (W : Type) := {
  file_backend : W → Z → res Z;                      (* [axfs::File::backend] *)
  be_read_at : Z → bytes → Z → M W (Z * bytes);
  be_write_at : Z → bytes → Z → M W Z;
  be_len : W → Z → res Z;                            (* [location().len()] *)
  be_cached : W → Z → bool;                          (* [FileBackend::Cached] *)
}.

Record LoopDevice := mkLoopDevice { lo_num : Z; lo_dev_id : Z; lo_file : option Z; lo_ro : bool; lo_ra : Z }.
#[export] Instance eta_LoopDevice : Eta LoopDevice := λ d,
  mkLoopDevice (lo_num d) (lo_dev_id d) (lo_file d) (lo_ro d) (lo_ra d).
Definition LoopDevice_new (number dev_id : Z) : LoopDevice := mkLoopDevice number dev_id None false 512.

(** The other fields of [loop_info] are 0. *)
Record loop_info := mkLoopInfo { lo_number : Z; lo_rdevice : Z }.

(** A loop device, the files, user memory and the descriptors of the caller *)
Record LoopSt (W V F : Type) := mkLoopSt {
  lp_dev : LoopDevice; lp_files : W; lp_vm : V; lp_fd : FdState F (gmap Z FileObj);
}.
Arguments mkLoopSt {W V F}.
Arguments lp_dev {W V F}.
Arguments lp_files {W V F}.
Arguments lp_vm {W V F}.
Arguments lp_fd {W V F}.
#[export] Instance eta_LoopSt W V F : Eta (LoopSt W V F) := λ s, mkLoopSt (lp_dev s) (lp_files s) (lp_vm s) (lp_fd s).

Section Loop.
Context {W V F : Type} `{Backends W, FlattenObjects F, VmPtr V loop_info, VmPtr V (uint 32), VmPtr V (uint 64)}.
Abbreviation S := (LoopSt W V F).

Definition lp_on_files {A} (m : M W A) : M S A := λ s,
  let '(r, w) := m (lp_files s) in (r, s <| lp_files := w |>).
Definition lp_store {X} `{VmPtr V X} (p : Z) (x : X) : M S unit := λ s,
  let '(r, v) := vm_write p x (lp_vm s) in (r, s <| lp_vm := v |>).
Definition lp_load {X} `{VmPtr V X} (p : Z) : M S X := λ s, (vm_read (lp_vm s) p, s).

Definition get_info (d : LoopDevice) : res loop_info :=
  match lo_file d with
  | None => Err (Linux ENXIO)
  | Some _ => Ok (mkLoopInfo (as_i32 (lo_num d)) (as_u64 (lo_dev_id d)))
  end.
Definition set_info (src : loop_info) : res unit := Ok tt.
Definition clone_file (d : LoopDevice) : res Z := ok_or (Linux ENXIO) (lo_file d).

Definition loop_read_at (buf : bytes) (offset : Z) : M S (Z * bytes) :=
  s ← getM;
  file ← liftR (ok_or OperationNotPermitted (lo_file (lp_dev s)));
  lp_on_files (be_read_at file buf offset).

Definition loop_write_at (buf : bytes) (offset : Z) : M S Z :=
  s ← getM;
  if lo_ro (lp_dev s) then failM ReadOnlyFilesystem
  else
    file ← liftR (ok_or OperationNotPermitted (lo_file (lp_dev s)));
    lp_on_files (be_write_at file buf offset).

Definition loop_set_fd (arg : Z) : M S unit :=
  let fd := as_i32 arg in
  if fd <? 0 then failM BadFileDescriptor
  else
    s ← getM;
    f ← liftR (get_file_like fd (lp_fd s)).1;
    match default OOther (fs_files (lp_fd s) !! f) with
    | OFile inner _ =>
        match lo_file (lp_dev s) with
        | Some _ => failM ResourceBusy
        | None =>
            backend ← liftR (file_backend (lp_files s) inner);
            modifyM (λ s : S, s <| lp_dev ::= λ d, d <| lo_file := Some backend |> |>)
        end
    | _ => failM InvalidInput
    end.

Definition loop_get_size (cmd arg : Z) : M S unit :=
  s ← getM;
  file ← liftR (clone_file (lp_dev s));
  len ← liftR (be_len (lp_files s) file);
  let sectors := len / 512 in
  if cmd =? BLKGETSIZE then lp_store arg (mkUint (w := 32) (as_u32 sectors))
  else lp_store arg (mkUint (w := 64) (as_u64 (sectors * 512))).

Definition loop_ioctl (cmd arg : Z) : M S Z :=
  s ← getM;
  let d := lp_dev s in
  (if cmd =? LOOP_SET_FD then loop_set_fd arg
   else if cmd =? LOOP_CLR_FD then
     match lo_file d with
     | None => failM (Linux ENXIO)
     | Some _ => modifyM (λ s : S, s <| lp_dev ::= λ d, d <| lo_file := None |> |>)
     end
   else if cmd =? LOOP_GET_STATUS then info ← liftR (get_info d); lp_store arg info
   else if cmd =? LOOP_SET_STATUS then info ← lp_load arg; liftR (set_info info)
   else if (cmd =? BLKGETSIZE) || (cmd =? BLKGETSIZE64) then loop_get_size cmd arg
   else if cmd =? BLKROGET then lp_store arg (mkUint (w := 32) (Z.b2z (lo_ro d)))
   else if cmd =? BLKROSET then
     ro ← lp_load (X := uint 32) arg;
     if negb (uint_val ro =? 0) && negb (uint_val ro =? 1) then failM InvalidInput
     else modifyM (λ s : S, s <| lp_dev ::= λ d, d <| lo_ro := negb (uint_val ro =? 0) |> |>)
   else if cmd =? BLKRAGET then lp_store arg (mkUint (w := 32) (lo_ra d))
   else if cmd =? BLKRASET then
     ra ← lp_load (X := uint 32) arg;
     modifyM (λ s : S, s <| lp_dev ::= λ d, d <| lo_ra := uint_val ra |> |>)
   else failM NotATty);;
  mret 0.

(** [DmCache]: the pages of the file *)
Definition loop_mmap (s : S) : DeviceMmap :=
  match lo_file (lp_dev s) with
  | Some file => if be_cached (lp_files s) file then DmCache else DmNone
  | None => DmNone
  end.

Definition LoopDevice_ops : DeviceOps S :=
  mkDeviceOps loop_read_at loop_write_at loop_ioctl None loop_mmap plain_flags.

(** *** A loop device is its backing file *)

Create HintDb loops.

Inductive LoopOp := LoRead (buf : bytes) (offset : Z) | LoWrite (buf : bytes) (offset : Z) | LoIoctl (cmd arg : Z).

Definition loop_op (ops : DeviceOps S) (o : LoopOp) : M S (Z * bytes) :=
  match o with
  | LoRead buf offset => dev_read_at ops buf offset
  | LoWrite buf offset => n ← dev_write_at ops buf offset; mret (n, [])
  | LoIoctl cmd arg => n ← dev_ioctl ops cmd arg; mret (n, [])
  end.
(** The results of the reads and writes *)
Fixpoint loop_run (l : list LoopOp) (s : S) : list (res (Z * bytes)) * S :=
  match l with
  | [] => ([], s)
  | o :: l =>
      let '(r, s) := loop_op LoopDevice_ops o s in
      let '(rs, s) := loop_run l s in
      (match o with LoIoctl _ _ => rs | _ => r :: rs end, s)
  end.

(** The reference: the reads and writes on the file itself *)
Fixpoint file_run (ro : bool) (file : Z) (l : list LoopOp) (w : W) : list (res (Z * bytes)) * W :=
  match l with
  | [] => ([], w)
  | LoRead buf offset :: l =>
      let '(r, w) := be_read_at file buf offset w in
      let '(rs, w) := file_run ro file l w in (r :: rs, w)
  | LoWrite buf offset :: l =>
      let '(r, w) := if ro then (Err ReadOnlyFilesystem, w) else be_write_at file buf offset w in
      let '(rs, w) := file_run ro file l w in (((λ n, (n, [])) <$> r) :: rs, w)
  | LoIoctl _ _ :: l => file_run ro file l w
  end.

(** Commands that neither detach the file nor change whether it is written *)
Definition keeps_setup (o : LoopOp) : Prop :=
  match o with LoIoctl cmd _ => cmd ≠ LOOP_CLR_FD ∧ cmd ≠ BLKROSET | _ => True end.

(** The part of the state that reads and writes depend on *)
Definition setup (s : S) : option Z * bool * W := (lo_file (lp_dev s), lo_ro (lp_dev s), lp_files s).
Definition same_setup {A} (m : M S A) : Prop := ∀ s, is_Some (lo_file (lp_dev s)) → setup (m s).2 = setup s.

Lemma same_setup_ret {A} (a : A) : same_setup (mret a).
Proof. done. Qed.
Lemma same_setup_fail {A} e : same_setup (failM (A := A) e).
Proof. done. Qed.
Lemma same_setup_lift {A} (r : res A) : same_setup (liftR r).
Proof. by destruct r. Qed.
Lemma same_setup_bind {A B} (m : M S A) (f : A → M S B) :
  same_setup m → (∀ a, same_setup (f a)) → same_setup (m ≫= f).
Proof.
  intros Hm Hf s Hs. specialize (Hm s Hs). unfold mbind, M_bind. destruct (m s) as [[a|e|] s1]; cbn in *; [|done..].
  rewrite (Hf a s1); [done|]. unfold setup in Hm. simplify_eq. congruence.
Qed.
Lemma same_setup_get {A} (f : S → M S A) : (∀ s0, same_setup (f s0)) → same_setup (getM ≫= f).
Proof. intros Hf s Hs. by apply Hf. Qed.
Lemma same_setup_store {X} `{VmPtr V X} p (x : X) : same_setup (lp_store p x).
Proof. intros s _. unfold lp_store. by destruct (vm_write _ _ _). Qed.
Lemma same_setup_load {X} `{VmPtr V X} p : same_setup (lp_load (X := X) p).
Proof. done. Qed.
Lemma same_setup_ra ra : same_setup (modifyM (λ s : S, s <| lp_dev ::= λ d, d <| lo_ra := ra |> |>)).
Proof. done. Qed.
Hint Resolve same_setup_ret same_setup_fail same_setup_lift same_setup_bind same_setup_store same_setup_load
  same_setup_ra : loops.

Lemma same_setup_set_fd arg : same_setup (loop_set_fd arg).
Proof.
  intros s [file Hf]. unfold loop_set_fd. case_match; [done|]. unfold_m.
  destruct (get_file_like _ _).1 as [f|e|]; [|done..]. destruct (default _ _); [|done..]. by rewrite Hf.
Qed.
Lemma same_setup_size cmd arg : same_setup (loop_get_size cmd arg).
Proof. apply same_setup_get. intros s. repeat (apply same_setup_bind; [auto with loops|intros]). case_match; auto with loops. Qed.

Lemma same_setup_ioctl cmd arg : keeps_setup (LoIoctl cmd arg) → same_setup (loop_ioctl cmd arg).
Proof.
  intros [Hc Hr]. apply Z.eqb_neq in Hc, Hr. apply same_setup_get. intros s. rewrite Hc, Hr.
  apply same_setup_bind; [|auto with loops].
  repeat case_match; auto 6 using same_setup_set_fd, same_setup_size with loops.
Qed.

Lemma loop_run_file l file ro : ∀ s, Forall keeps_setup l → lo_file (lp_dev s) = Some file → lo_ro (lp_dev s) = ro →
  let '(rs, s') := loop_run l s in
  file_run ro file l (lp_files s) = (rs, lp_files s') ∧ lo_file (lp_dev s') = Some file.
Proof.
  induction l as [|o l IH]; intros s Hl Hf Hro; [done|]. apply Forall_cons in Hl as [Ho Hl].
  cbn [loop_run file_run]. destruct (loop_op LoopDevice_ops o s) as [r s1] eqn:E.
  destruct o as [buf offset|buf offset|cmd arg]; cbn in E.
  - revert E. unfold loop_read_at. unfold_m. rewrite Hf. unfold lp_on_files. cbn -[setf].
    destruct (be_read_at _ _ _ _) as [x w]. intros [= <- <-].
    specialize (IH (s <| lp_files := w |>) Hl). specialize (IH Hf Hro). destruct (loop_run _ _) as [rs s']. destruct IH as [IH ?]. change (lp_files (s <| lp_files := w |>)) with w in IH. by rewrite IH.
  - revert E. unfold loop_write_at. unfold_m. rewrite Hro. destruct ro.
    + intros [= <- <-]. specialize (IH s Hl Hf Hro). destruct (loop_run _ _) as [rs s']. destruct IH as [IH ?]. by rewrite IH.
    + rewrite Hf. unfold lp_on_files. cbn -[setf]. destruct (be_write_at _ _ _ _) as [x w].
      intros E. assert (r = (λ n, (n, [])) <$> x ∧ s1 = s <| lp_files := w |>) as [-> ->] by (destruct x; by simplify_eq).
      specialize (IH (s <| lp_files := w |>) Hl). specialize (IH Hf Hro). destruct (loop_run _ _) as [rs s']. destruct IH as [IH ?]. change (lp_files (s <| lp_files := w |>)) with w in IH. by rewrite IH.
  - pose proof (same_setup_ioctl cmd arg Ho s (mk_is_Some _ _ Hf)) as Hs.
    assert (s1 = (loop_ioctl cmd arg s).2) as ->.
    { revert E. unfold mbind, M_bind. destruct (loop_ioctl cmd arg s) as [[]?]; cbn; by intros [= <- <-]. }
    unfold setup in Hs. simplify_eq. specialize (IH (loop_ioctl cmd arg s).2 Hl ltac:(congruence) ltac:(congruence)).
    destruct (loop_run _ _) as [rs s']. replace (lp_files s) with (lp_files (loop_ioctl cmd arg s).2) by congruence.
    destruct IH as [IH ?]. by rewrite IH.
Qed.

Lemma loop_set_fd_inv arg (s s1 : S) : loop_ioctl LOOP_SET_FD arg s = (Ok 0, s1) →
  ∃ f inner nonblock file,
    (get_file_like (as_i32 arg) (lp_fd s)).1 = Ok f ∧ fs_files (lp_fd s) !! f = Some (OFile inner nonblock)
    ∧ lo_file (lp_dev s) = None ∧ file_backend (lp_files s) inner = Ok file
    ∧ s1 = s <| lp_dev ::= λ d, d <| lo_file := Some file |> |>.
Proof.
  unfold loop_ioctl, loop_set_fd. unfold_m. rewrite Z.eqb_refl. destruct (as_i32 _ <? 0); [done|].
  destruct (get_file_like _ _).1 as [f|e|]; [|done..].
  destruct (fs_files (lp_fd s) !! f) as [[inner nb|d o|]|] eqn:Hobj; cbn -[setf]; [|done..].
  destruct (lo_file (lp_dev s)) eqn:Hno; [done|]. destruct (file_backend _ _) as [file|e|] eqn:Hbe; [|done..].
  intros [= <-]. by exists f, inner, nb, file.
Qed.

Lemma loop_set_fd_busy arg file (s : S) : lo_file (lp_dev s) = Some file →
  is_ok (loop_ioctl LOOP_SET_FD arg s).1 = false.
Proof.
  intros Hf. unfold loop_ioctl, loop_set_fd. unfold_m. rewrite Z.eqb_refl. destruct (as_i32 _ <? 0); [done|].
  destruct (get_file_like _ _).1 as [f|e|]; [|done..]. destruct (default _ _); [|done..]. by rewrite Hf.
Qed.

(** C36: A loop device is its backing file.  After [LOOP_SET_FD] has succeeded
    for a descriptor, any reads and writes of the device, between any ioctl
    that neither detaches the file nor changes the read-only flag, return what
    they return on the file behind the descriptor at the same offsets, and
    leave the files in the same state; on a read-only device every write is
    refused and changes nothing.  Meanwhile no other file can be attached. *)
Theorem loop_is_backing_file arg l (s s1 : S) :
  loop_ioctl LOOP_SET_FD arg s = (Ok 0, s1) → Forall keeps_setup l →
  ∃ f inner nonblock file,
    (get_file_like (as_i32 arg) (lp_fd s)).1 = Ok f ∧ fs_files (lp_fd s) !! f = Some (OFile inner nonblock)
    ∧ lo_file (lp_dev s) = None ∧ file_backend (lp_files s) inner = Ok file
    ∧ let '(rs, s') := loop_run l s1 in
      file_run (lo_ro (lp_dev s)) file l (lp_files s) = (rs, lp_files s')
      ∧ ∀ arg', is_ok (loop_ioctl LOOP_SET_FD arg' s').1 = false.
Proof.
  intros E Hl. apply loop_set_fd_inv in E as (f & inner & nb & file & Hf & Hobj & Hno & Hbe & ->).
  exists f, inner, nb, file. do 4 (split; [done|]).
  pose proof (loop_run_file l file (lo_ro (lp_dev s)) (s <| lp_dev ::= λ d, d <| lo_file := Some file |> |>) Hl) as H'.
  specialize (H' eq_refl eq_refl). destruct (loop_run _ _) as [rs s']. destruct H' as [Hrun Hfile]. split; [done|].
  intros arg'. by eapply loop_set_fd_busy.
Qed.
End Loop.

(** ** Evaluations *)

(** Files of at most eight bytes; the backend of a file is the file. *)
#[export] Instance tiny_backends : Backends (gmap Z bytes) := {
  file_backend w f := match w !! f with Some _ => Ok f | None => Err NotFound end;
  be_read_at f buf offset := λ w,
    let data := take (length buf) (drop (Z.to_nat offset) (default [] (w !! f))) in
    (Ok (zlen data, data ++ drop (length data) buf), w);
  be_write_at f buf offset := λ w,
    if offset + zlen buf >? 8 then (Err StorageFull, w)
    else (Ok (zlen buf), <[f := file_write (Z.to_nat offset) buf (default [] (w !! f))]> w);
  be_len w f := Ok (zlen (default [] (w !! f)));
  be_cached _ _ := true;
}.

(** Descriptor 3 is file 40, and 4 a directory. *)
Definition loop_sample : LoopSt (gmap Z bytes) unmapped table :=
  mkLoopSt (LoopDevice_new 2 7) {[ 40 := [1; 2; 3] ]} mkUnmapped
    (mkFdState {[ 3 := mkFd 70 false; 4 := mkFd 71 false ]} {[ 70 := OFile 40 false; 71 := ODirectory 41 0 ]}).

Lemma loop_is_backing_file_witness :
  let s1 := (loop_ioctl LOOP_SET_FD 3 loop_sample).2 in
  let l := [LoWrite [9; 9] 2; LoIoctl LOOP_SET_FD 3; LoRead [0; 0; 0; 0] 1] in
  loop_run l s1 = ([Ok (2, []); Ok (3, [2; 9; 9; 0])], s1 <| lp_files := {[ 40 := [1; 2; 9; 9] ]} |>)
  ∧ ∃ f inner nonblock file,
    (get_file_like 3 (lp_fd loop_sample)).1 = Ok f
    ∧ fs_files (lp_fd loop_sample) !! f = Some (OFile inner nonblock)
    ∧ lo_file (lp_dev loop_sample) = None ∧ file_backend (lp_files loop_sample) inner = Ok file
    ∧ let '(rs, s') := loop_run l s1 in
      file_run false file l (lp_files loop_sample) = (rs, lp_files s')
      ∧ ∀ arg', is_ok (loop_ioctl LOOP_SET_FD arg' s').1 = false.
Proof.
  intros s1 l. split; [reflexivity|].
  refine (loop_is_backing_file 3 l loop_sample s1 _ _); [reflexivity|]. by repeat constructor.
Defined.

(** A picture drawn line by line ends up in the first line. *)
Example fb_overwrites_start :
  let s := mkFbSt 0 [0; 0; 0; 0] mkUnmapped in
  fb_mem (fb_write_at [5; 6] 2 s).2 = [5; 6; 0; 0].
Proof. reflexivity. Qed.
