(* ===== verification/Evdev.v ===== *)
(** * Input devices

    [api/src/vfs/dev/event.rs]: the event devices of [/dev/input].  The driver
    of a device, the kinds of events ([EventType]), the bit sets of the crate
    [bitmaps] and the clock are interfaces. *)

From stdpp Require Import pretty.
From S2P Require Import Prelude Bytes Text Vm Time Mmap SimpleVfs PollSelect FsPath Devices.
Open Scope Z_scope.

(** [EventType] of [axdriver], as numbers *)
Class EventTypes := {
  EV_KEY : Z; EV_LED : Z; EV_SND : Z; EV_SW : Z;
  ET_COUNT : Z; ET_MAX : Z;
  et_from_repr : Z → bool;
  bits_count : Z → Z;
}.

Record Event := mkEvent { event_type : Z; code : Z; value : Z }.
Inductive DevError := Again | Fault.

(** [AxInputDevice]; a buffer that is passed for output is returned. *)
Class InputDevice (D : Type) := {
  read_event : D → (Event + DevError) * D;
  drv_event_bits : Z → bytes → D → (bool + DevError) * bytes * D;
  device_id : D → bytes;
  device_name : D → bytes;
  physical_location : D → bytes;
  unique_id : D → bytes;
}.

(** [Bitmap<SIZE>]: what happens beyond the size is left open. *)
Class Bitmap (B : Type) := {
  bm_new : B;
  bm_set : Z → bool → B → res B;
  bm_as_bytes : B → bytes;
  bm_size : Z;
}.
Definition bm_bit `{Bitmap B} (b : B) (i : Z) : bool :=
  (0 <=? i) && Z.testbit (nth (Z.to_nat (i / 8)) (bm_as_bytes b) 0) (i mod 8).
Class BitmapOk (B : Type) `{Bitmap B} := {
  bm_new_bit i : bm_bit bm_new i = false;
  bm_set_bit i v b : 0 ≤ i < bm_size →
    ∃ b', bm_set i v b = Ok b' ∧ ∀ j, bm_bit b' j = if decide (i = j) then v else bm_bit b j;
}.

Class WallClock (T : Type) := { wall_time : T → TimeValue * T }.

(** The device with the event that was read ahead, the bits of its kinds of
    events, user memory and the clock *)
Record EvSt (D B E V T : Type) := mkEvSt {
  ev_device : D;
  ev_read_ahead : option (TimeValue * Event);
  ev_key_state : B;
  ev_bits : E;
  ev_user : V;
  ev_clock : T;
}.
Arguments mkEvSt {D B E V T}.
Arguments ev_device {D B E V T}.
Arguments ev_read_ahead {D B E V T}.
Arguments ev_key_state {D B E V T}.
Arguments ev_bits {D B E V T}.
Arguments ev_user {D B E V T}.
Arguments ev_clock {D B E V T}.
#[export] Instance eta_EvSt D B E V T : Eta (EvSt D B E V T) := λ s,
  mkEvSt (ev_device s) (ev_read_ahead s) (ev_key_state s) (ev_bits s) (ev_user s) (ev_clock s).

Section Evdev.
Context {D B E V T : Type} `{EventTypes, InputDevice D, Bitmap B, Bitmap E, UserBytesMut V, WallClock T}.
Abbreviation S := (EvSt D B E V T).

(** A key that goes down or up *)
Definition key_update (event : Event) (keys : B) : res B :=
  if event_type event =? EV_KEY then
    if value event =? 0 then bm_set (code event) false keys
    else if value event =? 1 then bm_set (code event) true keys
    else Ok keys
  else Ok keys.

Definition has_event : M S bool := λ s,
  match ev_read_ahead s with
  | Some _ => (Ok true, s)
  | None =>
      match read_event (ev_device s) with
      | (inl event, d) =>
          match key_update event (ev_key_state s) with
          | Ok keys =>
              let '(now, t) := wall_time (ev_clock s) in
              (Ok true, s <| ev_device := d |> <| ev_key_state := keys |> <| ev_clock := t |>
                          <| ev_read_ahead := Some (now, event) |>)
          | Err e => (Err e, s <| ev_device := d |>)
          | Panic => (Panic, s <| ev_device := d |>)
          end
      | (inr _, d) => (Ok false, s <| ev_device := d |>)
      end
  end.

(** [EventDev::new]: the kinds of events the device has *)
Fixpoint probe_kinds (kinds : list Z) (device : D) (bits : E) : res (D * E) :=
  match kinds with
  | [] => Ok (device, bits)
  | i :: kinds =>
      if et_from_repr i then
        let '(r, _, device) := drv_event_bits i [] device in
        match r with
        | inl true => bits ← bm_set i true bits; probe_kinds kinds device bits
        | _ => probe_kinds kinds device bits
        end
      else probe_kinds kinds device bits
  end.
Definition EventDev_new (device : D) (user : V) (clock : T) : res S :=
  '(device, bits) ← probe_kinds (seqZ 0 ET_COUNT) device bm_new;
  Ok (mkEvSt device None bm_new bits user clock).

(** [copy_bytes]: the length and the destination afterwards *)
Definition copy_bytes (src dst : bytes) : nat * bytes :=
  let len := (length src `min` length dst)%nat in (len, take len src ++ drop len dst).

Definition user_slice (align arg : Z) (size : nat) : M S bytes := λ s, (ub_get_mut (ev_user s) align arg size, s).
Definition user_put (arg : Z) (l : bytes) : M S unit := λ s,
  let '(r, v) := ub_put arg l (ev_user s) in (r, s <| ev_user := v |>).

Definition return_bytes (arg : Z) (size : nat) (src : bytes) : M S Z :=
  slice ← user_slice 1 arg size;
  let '(len, slice) := copy_bytes src slice in
  user_put arg slice;;
  mret (Z.of_nat len).

Definition div_ceil_8 (bits : Z) : Z := (bits + 7) / 8.
Definition return_zero_bits (arg : Z) (size : nat) (bits : Z) : M S Z :=
  slice ← user_slice 1 arg size;
  let len := (Z.to_nat (div_ceil_8 bits) `min` length slice)%nat in
  user_put arg (replicate len 0 ++ drop len slice);;
  mret (Z.of_nat len).

Definition get_event_bits (arg : Z) (size : nat) (ty : Z) : M S Z :=
  bits ← user_slice 1 arg size;
  s ← getM;
  if ty =? 0 then
    let '(len, bits) := copy_bytes (bm_as_bytes (ev_bits s)) bits in
    user_put arg bits;;
    mret (Z.of_nat len)
  else if et_from_repr ty then
    let '(_, bits, d) := drv_event_bits ty bits (ev_device s) in
    modifyM (λ s : S, s <| ev_device := d |>);;
    user_put arg bits;;
    mret (Z.of_nat size `min` div_ceil_8 (bits_count ty))
  else failM InvalidInput.

(** ** Reading events *)

Definition input_event (time : TimeValue) (event : Event) : bytes :=
  le_bytes 8 (as_u64 (as_secs time)) ++ le_bytes 8 (as_u64 (subsec_micros time))
  ++ le_bytes 2 (event_type event) ++ le_bytes 2 (code event) ++ le_bytes 4 (value event).
Definition EVENT_SIZE : nat := 24.

(** The loop over [n] chunks of the buffer: the bytes that fill them *)
Fixpoint read_events (n : nat) : M S bytes :=
  match n with
  | O => mret []
  | Datatypes.S n =>
      has ← has_event;
      if negb has then mret []
      else
        s ← getM;
        match ev_read_ahead s with
        | None => mret []
        | Some (time, event) =>
            modifyM (λ s : S, s <| ev_read_ahead := None |>);;
            rest ← read_events n;
            mret (input_event time event ++ rest)
        end
  end.

Definition event_read_at (buf : bytes) (offset : Z) : M S (Z * bytes) :=
  if (length buf =? 0)%nat then mret (0, buf)
  else if (length buf <? EVENT_SIZE)%nat then failM InvalidInput
  else
    out ← read_events (length buf / EVENT_SIZE);
    if (length out =? 0)%nat then failM WouldBlock
    else mret (zlen out, out ++ drop (length out) buf).

Definition event_poll : M S Z :=
  has ← has_event;
  mret (if has : bool then IO_IN else 0).

(** ** [ioctl] *)

Definition EVIOCGVERSION : Z := 0x80044501.
Definition EVIOCGID : Z := 0x80084502.
Definition EVIOCGRAB : Z := 0x40044590.

Definition ioctl_read (nr arg : Z) (size : nat) : M S Z :=
  s ← getM;
  let d := ev_device s in
  match nr with
  | 0x06 => return_bytes arg size (device_name d)
  | 0x07 => return_bytes arg size (physical_location d)
  | 0x08 => return_bytes arg size (unique_id d)
  | 0x09 => mret 0
  | 0x18 => return_bytes arg size (bm_as_bytes (ev_key_state s))
  | 0x19 => return_zero_bits arg size (bits_count EV_LED)
  | 0x1a => return_zero_bits arg size (bits_count EV_SND)
  | 0x1b => return_zero_bits arg size (bits_count EV_SW)
  | _ =>
      if Z.land nr (255 - ET_MAX) =? ET_COUNT then get_event_bits arg size (Z.land nr ET_MAX)
      else if Z.land nr (255 - 0x3f) =? 0x40 then mret 0
      else failM InvalidInput
  end.

Definition event_ioctl (cmd arg : Z) : M S Z :=
  if cmd =? EVIOCGVERSION then user_slice 4 arg 4;; user_put arg (le_bytes 4 0x10001);; mret 0
  else if cmd =? EVIOCGID then s ← getM; user_slice 2 arg 8;; user_put arg (device_id (ev_device s));; mret 0
  else if cmd =? EVIOCGRAB then mret 0
  else
    let nr := Z.land cmd 0xff in
    let ty := Z.land (Z.shiftr cmd 8) 0xff in
    let size := Z.to_nat (Z.land (Z.shiftr cmd 16) 0x3fff) in
    let dir := Z.land (Z.shiftr cmd 30) 3 in
    if negb (ty =? 69) then failM InvalidInput
    else if dir =? 1 then failM InvalidInput
    else if dir =? 2 then ioctl_read nr arg size
    else failM InvalidInput.

Definition EventDev : DeviceOps S :=
  mkDeviceOps event_read_at (λ _ _, failM InvalidInput) event_ioctl (Some event_poll) default_mmap stream_flags.

(** ** No event is lost *)

(** A driver is a queue: events [arrive] at its end and are read from its
    beginning; asking for bits does not touch it. *)
Class InputQueue := {
  pending : D → list Event;
  arrive : list Event → D → D;
  pending_arrive es d : pending (arrive es d) = pending d ++ es;
  read_event_empty d : pending d = [] → ∃ e d', read_event d = (inr e, d') ∧ pending d' = [];
  read_event_next d e es : pending d = e :: es → ∃ d', read_event d = (inl e, d') ∧ pending d' = es;
  event_bits_pending ty l d : pending (drv_event_bits ty l d).2 = pending d;
  event_bits_length ty l d : length (drv_event_bits ty l d).1.2 = length l;
  device_id_length d : length (device_id d) = 8%nat;
}.
Context `{!InputQueue, !BitmapOk B}.

Inductive EvOp := EvArrive (es : list Event) | EvRead (buf : bytes) | EvPoll | EvIoctl (cmd arg : Z).

(** The bytes an operation delivers; an error delivers none. *)
Definition delivers {A} (out : A → bytes) (m : M S A) : M S bytes := λ s,
  match m s with (Ok a, s) => (Ok (out a), s) | (Err _, s) => (Ok [], s) | (Panic, s) => (Panic, s) end.
Definition ev_op (o : EvOp) : M S bytes :=
  match o with
  | EvArrive es => modifyM (λ s : S, s <| ev_device ::= arrive es |>);; mret []
  | EvRead buf => delivers (λ r, take (Z.to_nat r.1) r.2) (dev_read_at EventDev buf 0)
  | EvPoll => delivers (λ _, []) (Device_poll EventDev)
  | EvIoctl cmd arg => delivers (λ _, []) (dev_ioctl EventDev cmd arg)
  end.
Fixpoint ev_run (l : list EvOp) : M S bytes :=
  match l with [] => mret [] | o :: l => out ← ev_op o; rest ← ev_run l; mret (out ++ rest) end.
Definition arrivals (l : list EvOp) : list Event :=
  concat ((λ o, match o with EvArrive es => es | _ => [] end) <$> l).

(** The keys that are down after some events *)
Definition key_change (event : Event) (i : Z) (down : bool) : bool :=
  if (event_type event =? EV_KEY) && (code event =? i) then
    if value event =? 0 then false else if value event =? 1 then true else down
  else down.
Definition key_down (evs : list Event) (i : Z) : bool := foldl (λ down e, key_change e i down) false evs.

Definition key_ok (e : Event) : Prop := 0 ≤ code e < bm_size (B := B).

Definition ahead (s : S) : list Event := option_list (snd <$> ev_read_ahead s).
(** [evs] have been delivered, of all events [all] so far. *)
Definition ev_inv (all evs : list Event) (s : S) : Prop :=
  evs ++ ahead s ++ pending (ev_device s) = all ∧ Forall key_ok all
  ∧ ∀ i, bm_bit (ev_key_state s) i = key_down (evs ++ ahead s) i.

(** Operations that leave the events alone *)
Definition events_of (s : S) : option (TimeValue * Event) * B * list Event :=
  (ev_read_ahead s, ev_key_state s, pending (ev_device s)).
Definition quiet {A} (m : M S A) : Prop := ∀ s, (m s).1 ≠ Panic ∧ events_of (m s).2 = events_of s.

Lemma ev_quiet_ret {A} (a : A) : quiet (mret a).
Proof. done. Qed.
Lemma ev_quiet_fail {A} e : quiet (failM (A := A) e).
Proof. done. Qed.
Lemma ev_quiet_get {A} (f : S → M S A) : (∀ s, quiet (f s)) → quiet (getM ≫= f).
Proof. intros Hf s. apply (Hf s). Qed.

(** A slice is written back. *)
Lemma quiet_put align arg n l (s : S) slice {A} (a : A) :
  ub_get_mut (ev_user s) align arg n = Ok slice → (length l ≤ n)%nat →
  ((user_put arg l;; mret a) s).1 ≠ Panic ∧ events_of ((user_put arg l;; mret a) s).2 = events_of s.
Proof.
  intros Hs Hl. pose proof (ub_put_mut _ _ _ _ _ _ Hs Hl) as Hp. unfold user_put. unfold_m.
  destruct (ub_put _ _ _) as [r v]. cbn in Hp. by subst r.
Qed.
Lemma quiet_fill {A} align arg n (f : bytes → bytes) (a : bytes → A) :
  (∀ slice, length slice = n → (length (f slice) ≤ n)%nat) →
  quiet (slice ← user_slice align arg n; user_put arg (f slice);; mret (a slice)).
Proof.
  intros Hf s. unfold user_slice at 1 2. unfold mbind at 1 3, M_bind at 1 3.
  destruct (ub_get_mut _ _ _ _) as [slice|e|] eqn:Hs; [|done|by apply ub_get_mut_no_panic in Hs].
  eapply quiet_put; [exact Hs|]. by apply Hf, (ub_get_mut_length _ _ _ _ _ Hs).
Qed.

Lemma copy_bytes_length src dst : length (copy_bytes src dst).2 = length dst.
Proof. cbn. rewrite length_app, length_take, length_drop. lia. Qed.
Lemma quiet_return_bytes arg n src : quiet (return_bytes arg n src).
Proof.
  apply (quiet_fill 1 arg n (λ slice, (copy_bytes src slice).2) (λ slice, Z.of_nat (copy_bytes src slice).1)).
  intros slice <-. by rewrite copy_bytes_length.
Qed.
Lemma quiet_zero_bits arg n bits : quiet (return_zero_bits arg n bits).
Proof. apply quiet_fill. intros slice <-. rewrite length_app, length_replicate, length_drop. lia. Qed.
Lemma quiet_event_bits arg n ty : quiet (get_event_bits arg n ty).
Proof.
  intros s. unfold get_event_bits, user_slice. unfold_m.
  destruct (ub_get_mut _ _ _ _) as [bits|e|] eqn:Hs; [|done|by apply ub_get_mut_no_panic in Hs].
  pose proof (ub_get_mut_length _ _ _ _ _ Hs) as Hn. destruct (ty =? 0).
  { refine (quiet_put 1 arg n (copy_bytes _ bits).2 s bits (Z.of_nat (copy_bytes _ bits).1) Hs _).
    by rewrite copy_bytes_length, Hn. }
  destruct (et_from_repr ty); [|done].
  pose proof (event_bits_pending ty bits (ev_device s)) as Hp. pose proof (event_bits_length ty bits (ev_device s)) as Hl.
  destruct (drv_event_bits ty bits (ev_device s)) as [[r bits'] d]. cbn in Hp, Hl.
  destruct (quiet_put 1 arg n bits' (s <| ev_device := d |>) bits (Z.of_nat n `min` div_ceil_8 (bits_count ty)))
    as [Hnp He]; [exact Hs|lia|]. split; [exact Hnp|]. etrans; [exact He|]. unfold events_of. cbn. by rewrite Hp.
Qed.

Lemma quiet_ioctl cmd arg : quiet (event_ioctl cmd arg).
Proof.
  unfold event_ioctl. destruct (cmd =? EVIOCGVERSION).
  { apply (quiet_fill 4 arg 4 (λ _, _) (λ _, _)). intros. by rewrite le_bytes_length. }
  destruct (cmd =? EVIOCGID).
  { apply ev_quiet_get. intros s. apply (quiet_fill 2 arg 8 (λ _, _) (λ _, _)). intros. by rewrite device_id_length. }
  repeat case_match; auto using ev_quiet_ret, ev_quiet_fail.
  apply ev_quiet_get. intros s. 
  repeat case_match; auto using ev_quiet_ret, ev_quiet_fail, quiet_return_bytes, quiet_zero_bits, quiet_event_bits.
Qed.

Lemma key_update_spec e keys : key_ok e →
  ∃ keys', key_update e keys = Ok keys' ∧ ∀ i, bm_bit keys' i = key_change e i (bm_bit keys i).
Proof.
  intros He. unfold key_update, key_change.
  destruct (event_type e =? EV_KEY); [|by exists keys].
  assert (Hset : ∀ v, ∃ k, bm_set (code e) v keys = Ok k ∧ ∀ i, bm_bit k i = if code e =? i then v else bm_bit keys i).
  { intros v. destruct (bm_set_bit (code e) v keys He) as (k & -> & Hk). exists k. split; [done|]. intros i.
    rewrite Hk. case_decide as Hi; [by apply Z.eqb_eq in Hi as ->|by apply Z.eqb_neq in Hi as ->]. }
  destruct (value e =? 0); [apply Hset|]. destruct (value e =? 1); [apply Hset|].
  exists keys. split; [done|]. intros i. by destruct (code e =? i).
Qed.

Lemma has_event_spec all evs s : ev_inv all evs s → ∃ b s', has_event s = (Ok b, s') ∧ ev_inv all evs s'
  ∧ (if b : bool then is_Some (ev_read_ahead s') else ev_read_ahead s' = None ∧ pending (ev_device s') = [])
  ∧ ahead s' ++ pending (ev_device s') = ahead s ++ pending (ev_device s).
Proof.
  intros (Hall & Hok & Hkeys). unfold has_event, ev_inv, ahead in *.
  destruct (ev_read_ahead s) as [x|] eqn:Ha.
  { exists true, s. rewrite Ha. naive_solver. }
  cbn in *. destruct (pending (ev_device s)) as [|e es] eqn:Hp.
  - destruct (read_event_empty _ Hp) as (err & d & -> & Hd). exists false, (s <| ev_device := d |>). cbn.
    rewrite Ha, Hd. cbn. naive_solver.
  - destruct (read_event_next _ _ _ Hp) as (d & -> & Hd).
    assert (He : key_ok e) by (rewrite <- Hall in Hok; apply Forall_app in Hok as [_ Hok]; by inversion Hok).
    destruct (key_update_spec e (ev_key_state s) He) as (keys & -> & Hk).
    destruct (wall_time (ev_clock s)) as [now t]. eexists true, _. split; [done|]. cbn. rewrite Hd.
    split_and!; [done|done| |eauto|done]. intros i. rewrite Hk, Hkeys, app_nil_r. unfold key_down. by rewrite foldl_app.
Qed.

Lemma read_events_spec all n : ∀ evs s, ev_inv all evs s → ∃ l s',
  read_events n s = (Ok (concat (uncurry input_event <$> l)), s') ∧ ev_inv all (evs ++ l.*2) s'
  ∧ l.*2 = take n (ahead s ++ pending (ev_device s)).
Proof.
  induction n as [|n IH]; intros evs s Hinv.
  { exists [], s. cbn. by rewrite app_nil_r. }
  destruct (has_event_spec all evs s Hinv) as (b & s1 & Hh & Hinv1 & Hb & Hs1). cbn [read_events].
  unfold mbind, M_bind. rewrite Hh. destruct b; cbn [negb].
  - destruct Hb as [[time event] Hra]. unfold getM. rewrite Hra. unfold modifyM. cbn -[setf].
    destruct (IH (evs ++ [event]) (s1 <| ev_read_ahead := None |>)) as (l & s' & -> & Hinv' & Hl).
    { destruct Hinv1 as (Hall & Hok & Hk). unfold ev_inv, ahead in *. rewrite Hra in *. cbn in *.
      rewrite <- !app_assoc. by rewrite app_nil_r. }
    exists ((time, event) :: l), s'. split; [done|]. cbn. rewrite cons_middle, app_assoc. split; [done|].
    rewrite <- Hs1. unfold ahead in *. rewrite Hra. cbn in *. by rewrite Hl.
  - destruct Hb as [Hra Hp]. exists [], s1. cbn. rewrite app_nil_r. split_and!; [done|done|].
    rewrite <- Hs1. unfold ahead. rewrite Hra, Hp. by destruct n.
Qed.

(** What a read of a buffer for [n] events delivers of the events there are *)
Definition read_result (n : nat) (avail : list Event) (l : list (TimeValue * Event)) (r : res (Z * bytes)) : Prop :=
  l.*2 = take n avail ∧
  match r with
  | Ok (k, buf) => avail ≠ [] ∧ take (Z.to_nat k) buf = concat (uncurry input_event <$> l)
  | Err e => e = WouldBlock ∧ avail = []
  | Panic => False
  end.

Lemma input_event_length t e : length (input_event t e) = EVENT_SIZE.
Proof. unfold input_event. by rewrite !length_app, !le_bytes_length. Qed.

Lemma event_read_at_spec all evs buf s : ev_inv all evs s → (EVENT_SIZE ≤ length buf)%nat →
  let '(r, s') := event_read_at buf 0 s in
  ∃ l, read_result (length buf / EVENT_SIZE) (ahead s ++ pending (ev_device s)) l r ∧ ev_inv all (evs ++ l.*2) s'.
Proof.
  intros Hinv Hlen. unfold event_read_at.
  rewrite (proj2 (Nat.eqb_neq (length buf) 0)) by (unfold EVENT_SIZE in *; lia).
  rewrite (proj2 (Nat.ltb_ge (length buf) EVENT_SIZE)) by done.
  assert (Hn : (0 < length buf / EVENT_SIZE)%nat) by (apply Nat.div_str_pos; unfold EVENT_SIZE in *; lia).
  destruct (read_events_spec all (length buf / EVENT_SIZE) evs s Hinv) as (l & s' & Hr & Hinv' & Hl).
  unfold mbind, M_bind. rewrite Hr. destruct (Nat.eqb_spec (length (concat (uncurry input_event <$> l))) 0) as [Hz|Hz].
  - exists l. split; [|done]. split; [done|]. split; [done|]. destruct l as [|[t e] l].
    + destruct (length buf / EVENT_SIZE)%nat; [lia|]. by destruct (ahead s ++ _).
    + cbn -[input_event] in Hz. by rewrite length_app, input_event_length in Hz.
  - exists l. split; [|done]. split; [done|]. split.
    + intros Ha. rewrite Ha, take_nil in Hl. by destruct l.
    + unfold zlen. rewrite Nat2Z.id. by apply take_app_length'.
Qed.

Lemma quiet_inv {A} (m : M S A) all evs s : quiet m → ev_inv all evs s →
  ∃ s', delivers (λ _, []) m s = (Ok [], s') ∧ ev_inv all evs s'.
Proof.
  intros Hq Hinv. destruct (Hq s) as [Hp He]. unfold delivers. destruct (m s) as [[a|e|] s1]; cbn in *; [| |done].
  all: exists s1; split; [done|]; unfold ev_inv, ahead, events_of in *; injection He as Hr Hk Hd; by rewrite Hr, Hk, Hd.
Qed.

Lemma ev_op_spec all evs o s : ev_inv all evs s → Forall key_ok (arrivals [o]) →
  ∃ l s', ev_op o s = (Ok (concat (uncurry input_event <$> l)), s') ∧ ev_inv (all ++ arrivals [o]) (evs ++ l.*2) s'.
Proof.
  intros Hinv Hok. unfold arrivals in *. cbn in *. rewrite app_nil_r in *. destruct o as [es|buf| |cmd arg]; cbn [ev_op].
  - exists [], (s <| ev_device ::= arrive es |>). split; [done|]. rewrite app_nil_r.
    destruct Hinv as (<- & Ha & Hk). unfold ev_inv, ahead in *. cbn. rewrite pending_arrive, <- !app_assoc.
    split_and!; [done| |done]. rewrite !app_assoc in *. by apply Forall_app.
  - rewrite app_nil_r. unfold delivers. cbn [dev_read_at EventDev]. destruct (decide (EVENT_SIZE ≤ length buf)%nat) as [Hl|Hl].
    + pose proof (event_read_at_spec all evs buf s Hinv Hl) as Hr.
      destruct (event_read_at buf 0 s) as [[[k b]|e|] s'], Hr as (l & [Hl' Hr] & Hinv'); [| |done].
      * destruct Hr as [_ Hr]. exists l, s'. cbn [fst snd]. by rewrite Hr.
      * destruct Hr as [_ Ha]. rewrite Ha, take_nil in Hl'. destruct l; [|done]. by exists [], s'.
    + exists [], s. rewrite app_nil_r. split; [|done]. unfold event_read_at.
      destruct (length buf =? 0)%nat; [done|]. by rewrite (proj2 (Nat.ltb_lt (length buf) EVENT_SIZE)) by lia.
  - rewrite app_nil_r. destruct (has_event_spec all evs s Hinv) as (b & s' & Hh & Hinv' & _).
    exists [], s'. rewrite app_nil_r. split; [|done]. unfold delivers. cbn. unfold event_poll, mbind, M_bind. by rewrite Hh.
  - rewrite app_nil_r. destruct (quiet_inv (event_ioctl cmd arg) all evs s (quiet_ioctl cmd arg) Hinv) as (s' & He & Hinv').
    exists [], s'. by rewrite app_nil_r.
Qed.

Lemma ev_run_spec l : ∀ all evs s, ev_inv all evs s → Forall key_ok (arrivals l) →
  ∃ got s', ev_run l s = (Ok (concat (uncurry input_event <$> got)), s') ∧ ev_inv (all ++ arrivals l) (evs ++ got.*2) s'.
Proof.
  induction l as [|o l IH]; intros all evs s Hinv Hok.
  { exists [], s. unfold arrivals. cbn. by rewrite !app_nil_r. }
  assert (Ha : arrivals (o :: l) = arrivals [o] ++ arrivals l) by (unfold arrivals; cbn; by rewrite app_nil_r).
  rewrite Ha in *. apply Forall_app in Hok as [Ho Hok].
  destruct (ev_op_spec all evs o s Hinv Ho) as (l1 & s1 & E1 & Hinv1).
  destruct (IH _ _ s1 Hinv1 Hok) as (l2 & s2 & E2 & Hinv2). exists (l1 ++ l2), s2. cbn [ev_run].
  unfold mbind, M_bind. rewrite E1, E2. rewrite !fmap_app, concat_app, !app_assoc in *. done.
Qed.

Lemma probe_kinds_pending kinds : ∀ d bits d' bits', probe_kinds kinds d bits = Ok (d', bits') → pending d' = pending d.
Proof.
  induction kinds as [|i kinds IH]; intros d bits d' bits'; cbn [probe_kinds]; [by intros [= <- <-]|].
  destruct (et_from_repr i); [|apply IH]. pose proof (event_bits_pending i [] d) as Hp.
  destruct (drv_event_bits i [] d) as [[r b] d1]. cbn in Hp. rewrite <- Hp.
  destruct r as [[]|]; [|apply IH..]. destruct (bm_set i true bits); cbn; [apply IH|done..].
Qed.

(** C37: No input is lost.  For a driver that is a queue and keys below the size
    of the key bitmap, after any sequence of arriving events, reads, polls and
    ioctls on a new device: the operations do not panic; the bytes delivered
    are the records of events in the order of their arrival; these, the event
    read ahead and the events in the driver are all events there were; a key
    is reported down exactly if its last event taken from the driver says so.
    The next read delivers as many events as there are and fit, and would
    block exactly if there are none. *)
Theorem evdev_delivers_all device user clock l (s : S) :
  EventDev_new device user clock = Ok s → Forall key_ok (pending device ++ arrivals l) →
  ∃ got s', ev_run l s = (Ok (concat (uncurry input_event <$> got)), s')
    ∧ got.*2 ++ ahead s' ++ pending (ev_device s') = pending device ++ arrivals l
    ∧ (∀ i, bm_bit (ev_key_state s') i = key_down (got.*2 ++ ahead s') i)
    ∧ ∀ buf, (EVENT_SIZE ≤ length buf)%nat → ∃ next,
        read_result (length buf / EVENT_SIZE) (ahead s' ++ pending (ev_device s')) next (event_read_at buf 0 s').1.
Proof.
  unfold EventDev_new. intros Hs Hok.
  destruct (probe_kinds _ _ _) as [[d bits]|e|] eqn:Hp; [|done..]. injection Hs as <-.
  apply probe_kinds_pending in Hp. apply Forall_app in Hok as [Hpend Hok].
  destruct (ev_run_spec l (pending device) [] (mkEvSt d None bm_new bits user clock)) as (got & s' & Hrun & Hinv); [|done|].
  { split_and!; [done|done|]. intros i. apply bm_new_bit. }
  exists got, s'. split; [done|]. split; [apply Hinv|]. split; [apply Hinv|]. intros buf Hbuf.
  pose proof (event_read_at_spec _ _ buf s' Hinv Hbuf) as Hr. destruct (event_read_at buf 0 s') as [r s2].
  destruct Hr as (next & Hr & _). by exists next.
Qed.
End Evdev.

(** ** The directory [/dev/input]

    [take_inputs] gives the devices; a device with a button of a mouse is
    [mice].  The bytes of [keys] carry over from one device to the next. *)

Definition BTN_MOUSE : nat := 0x110.
Definition KEY_BYTES : nat := 96.

Section Inputs.
Context {D B E V T : Type} `{EventTypes, InputDevice D, Bitmap B, Bitmap E, UserBytesMut V, WallClock T}.
Context `{NodeCodes} (vacant : gset Z → Z) (default_mode : Z) (user : V) (clock : T).
Abbreviation Dev := (Device (EvSt D B E V T)).

Fixpoint add_inputs (devices : list D) (i input_id : Z) (keys : bytes) (inputs : DirMapping Dev) :
    M (gset Z) (DirMapping Dev) :=
  match devices with
  | [] => mret inputs
  | device :: devices =>
      let '(r, keys, device) := drv_event_bits EV_KEY keys device in
      match r with
      | inl true =>
          ops ← liftR (EventDev_new device user clock);
          dev ← Device_new vacant default_mode CharacterDevice (dev_new 13 (as_u32 (i + 1))) ops;
          if Z.testbit (nth (BTN_MOUSE / 8) keys 0) (Z.of_nat (BTN_MOUSE mod 8)) then
            add_inputs devices (i + 1) input_id keys (DirMapping_add "mice" dev inputs)
          else
            add_inputs devices (i + 1) (input_id + 1) keys
              (DirMapping_add ("event" +:+ pretty input_id)%string dev inputs)
      | _ => panicM
      end
  end.
Definition input_devices (devices : list D) : M (gset Z) (DirMapping Dev) :=
  add_inputs devices 0 0 (replicate KEY_BYTES 0) ∅.
End Inputs.

(** ** Evaluations *)

(** Bit sets of 32 bits, as numbers *)
Record mask := mkMask { mask_bits : Z }.
#[export] Instance mask_bitmap : Bitmap mask := {
  bm_new := mkMask 0;
  bm_set i v b :=
    if (0 <=? i) && (i <? 32) then
      Ok (mkMask (if v then Z.setbit (mask_bits b) i else Z.clearbit (mask_bits b) i))
    else Panic;
  bm_as_bytes b := le_bytes 4 (mask_bits b);
  bm_size := 32;
}.

Lemma le_bytes_nth n z k : (k < n)%nat → nth k (le_bytes n z) 0 = z / 256 ^ Z.of_nat k mod 256.
Proof.
  revert z k. induction n as [|n IH]; intros z k Hk; [lia|]. destruct k as [|k]; cbn [le_bytes nth].
  - by rewrite Z.div_1_r.
  - rewrite IH by lia. rewrite Z.div_div by lia. f_equal. f_equal. rewrite Nat2Z.inj_succ, Z.pow_succ_r; lia.
Qed.
Lemma mask_bit b i : bm_bit b i = (0 <=? i) && (i <? 32) && Z.testbit (mask_bits b) i.
Proof.
  unfold bm_bit. cbn [bm_as_bytes mask_bitmap]. destruct (Z.leb_spec 0 i) as [Hi|]; [|done]. cbn [andb].
  pose proof (Z.div_mod i 8 ltac:(lia)). pose proof (Z.mod_pos_bound i 8 ltac:(lia)).
  destruct (Z.ltb_spec i 32) as [Hlt|Hge]; cbn [andb].
  - rewrite le_bytes_nth by lia. rewrite Z2Nat.id by (apply Z.div_pos; lia).
    change 256 with (2 ^ 8) at 2. rewrite Z.mod_pow2_bits_low by lia.
    change (256 ^ (i / 8)) with ((2 ^ 8) ^ (i / 8)). rewrite <- Z.pow_mul_r by lia. rewrite Z.div_pow2_bits by lia. f_equal. lia.
  - rewrite nth_overflow; [apply Z.bits_0|]. rewrite le_bytes_length. lia.
Qed.
#[export] Instance mask_bitmap_ok : BitmapOk mask.
Proof.
  split.
  - intros i. rewrite mask_bit. cbn. by rewrite Z.bits_0, andb_false_r.
  - intros i v b [Hi Hlt]. cbn [bm_size mask_bitmap] in Hlt. cbn [bm_set mask_bitmap].
    rewrite (proj2 (Z.leb_le 0 i)), (proj2 (Z.ltb_lt i 32)) by done. eexists. split; [reflexivity|]. intros j.
    rewrite !mask_bit. cbn [mask_bits]. destruct (Z.leb_spec 0 j), (Z.ltb_spec j 32); cbn [andb].
    1: destruct v; rewrite ?Z.setbit_eqb, ?Z.clearbit_eqb by lia.
    all: case_decide as Hj; subst; try lia.
    all: rewrite ?Z.eqb_refl, ?andb_false_r; try done.
    all: apply Z.eqb_neq in Hj; by rewrite Hj, ?andb_true_r.
Defined.

(** A keyboard, or a mouse, with the events it has *)
Record toy_input := mkToyInput { ti_mouse : bool; ti_queue : list Event }.
#[export] Instance toy_driver : InputDevice toy_input := {
  read_event d := match ti_queue d with [] => (inr Again, d) | e :: es => (inl e, mkToyInput (ti_mouse d) es) end;
  drv_event_bits _ l d := (inl true, if ti_mouse d then (λ _, 255) <$> l else l, d);
  device_id _ := replicate 8 0; device_name _ := []; physical_location _ := []; unique_id _ := [];
}.
#[export] Instance linux_events : EventTypes := {
  EV_KEY := 1; EV_LED := 0x11; EV_SND := 0x12; EV_SW := 5; ET_COUNT := 0x20; ET_MAX := 0x1f;
  et_from_repr i := (i <=? 5) || (0x11 <=? i) && (i <=? 0x17); bits_count _ := 32;
}.
#[export] Instance toy_queue : InputQueue (D := toy_input).
Proof.
  refine {| pending := ti_queue; arrive es d := mkToyInput (ti_mouse d) (ti_queue d ++ es) |}; try done.
  - intros d Hd. cbn. rewrite Hd. eauto.
  - intros d e es Hd. cbn. rewrite Hd. eauto.
  - intros ty l d. cbn. destruct (ti_mouse d); [by rewrite length_fmap|done].
Defined.
#[export] Instance ticks : WallClock Z := { wall_time t := (t, t + 1000) }.

Definition key (c v : Z) : Event := mkEvent 1 c v.
Abbreviation ToySt := (EvSt toy_input mask mask unmapped Z).
Definition toy_new (mouse : bool) (es : list Event) : res ToySt := EventDev_new (mkToyInput mouse es) mkUnmapped 0.
Definition toy_ops : list EvOp := [EvPoll; EvArrive [key 30 0; key 31 1]; EvRead (replicate 50 0)].

Lemma evdev_delivers_all_witness :
  ∃ s : ToySt, toy_new false [key 30 1] = Ok s ∧
  (ev_run toy_ops s).1 = Ok (input_event 0 (key 30 1) ++ input_event 1000 (key 30 0)) ∧
  ∃ got s', ev_run toy_ops s = (Ok (concat (uncurry input_event <$> got)), s')
    ∧ got.*2 ++ ahead s' ++ pending (ev_device s') = [key 30 1; key 30 0; key 31 1]
    ∧ (∀ i, bm_bit (ev_key_state s') i = key_down (got.*2 ++ ahead s') i)
    ∧ ∀ buf, (EVENT_SIZE ≤ length buf)%nat → ∃ next,
        read_result (length buf / EVENT_SIZE) (ahead s' ++ pending (ev_device s')) next (event_read_at buf 0 s').1.
Proof.
  eexists. split; [reflexivity|]. split; [vm_compute; reflexivity|].
  refine (evdev_delivers_all (mkToyInput false [key 30 1]) mkUnmapped 0 toy_ops _ _ _); [reflexivity|].
  by repeat constructor.
Defined.

#[local] Instance toy_codes : NodeCodes := {
  dev_new a b := a * 256 + b; dev_major d := d / 256; dev_minor d := d mod 256; node_type_u8 _ := 1;
}.

(** Of two mice only the second has a name in [/dev/input]. *)
Example two_mice :
  match input_devices (B := mask) (E := mask) (λ s, Z.of_nat (size s)) 0x1b6 mkUnmapped 0
          [mkToyInput true []; mkToyInput true []] ∅ with
  | (Ok inputs, _) => (md_rdev ∘ sn_metadata ∘ dv_node) <$> inputs = {[ "mice" := 13 * 256 + 2 ]}
  | _ => False
  end.
Proof. vm_compute. reflexivity. Qed.
