(* ===== verification/DevFs.v ===== *)
(** * The directory [/dev]

    [builder] of [api/src/vfs/dev/mod.rs], which makes the device nodes of
    [devfs].  Features of the build and what the drivers say are arguments. *)

From stdpp Require Import pretty.
From S2P Require Import Prelude Bytes Text Vm Time Mmap SimpleVfs PollSelect FsPath Devices Evdev.
Open Scope Z_scope.

(** The devices [devfs] can hold; [R] are random number generators. *)
Inductive DevOps (R : Type) :=
| ONull | OZero | OFull | ORandom (rng : R) | ORtc | OFrameBuffer (base size : Z) | OCurrentTty | ONTty | OPtmx
| OMemTrack | OCpuDmaLatency | OLoop (d : LoopDevice).
Arguments ONull {R}.
Arguments OZero {R}.
Arguments OFull {R}.
Arguments ORandom {R}.
Arguments ORtc {R}.
Arguments OFrameBuffer {R}.
Arguments OCurrentTty {R}.
Arguments ONTty {R}.
Arguments OPtmx {R}.
Arguments OMemTrack {R}.
Arguments OCpuDmaLatency {R}.
Arguments OLoop {R}.

(** [NodeOpsMux]: devices, the file [log], and directories; [I] is the type of
    the directory of input devices. *)
Inductive DevNode (R I : Type) :=
| NDevice (d : Device (DevOps R)) | NFile (node : SimpleFsNode) | NPtsDir | NMapping | NInputs (inputs : I).
Arguments NDevice {R I}.
Arguments NFile {R I}.
Arguments NPtsDir {R I}.
Arguments NMapping {R I}.
Arguments NInputs {R I}.

Record DevConfig (I : Type) := mkDevConfig {
  display : option DisplayInfo;                   (* [axdisplay::has_display] *)
  dev_log : bool;
  memtrack : bool;
  inputs : option (M (gset Z) I);                 (* [event::input_devices] *)
}.
Arguments mkDevConfig {I}.
Arguments display {I}.
Arguments dev_log {I}.
Arguments memtrack {I}.
Arguments inputs {I}.

Definition RTC0_DEVICE_ID `{NodeCodes} : Z := dev_new 250 0.

Section DevFs.
Context {R I : Type} `{SmallRng R, NodeCodes} (vacant : gset Z → Z) (default_mode : Z) (cfg : DevConfig I).
Abbreviation Root := (DirMapping (DevNode R I)).

(** [root.add(name, Device::new(fs.clone(), CharacterDevice, id, ops))] *)
Definition add_device (name : string) (id : Z) (ops : DevOps R) (root : Root) : M (gset Z) Root :=
  d ← Device_new vacant default_mode CharacterDevice id ops;
  mret (DirMapping_add name (NDevice d) root).

Fixpoint add_loops (n : nat) (i : Z) (root : Root) : M (gset Z) Root :=
  match n with
  | O => mret root
  | S n =>
      let dev_id := dev_new 7 0 in
      d ← Device_new vacant default_mode BlockDevice dev_id (OLoop (LoopDevice_new i dev_id));
      add_loops n (i + 1) (DirMapping_add ("loop" +:+ pretty i) (NDevice d) root)
  end.

Definition dev_builder : M (gset Z) Root :=
  root ← add_device "null" (dev_new 1 3) ONull ∅;
  root ← add_device "zero" (dev_new 1 5) OZero root;
  root ← add_device "full" (dev_new 1 7) OFull root;
  root ← add_device "random" (dev_new 1 8) (ORandom Random_new) root;
  root ← add_device "urandom" (dev_new 1 9) (ORandom Random_new) root;
  root ← add_device "rtc0" RTC0_DEVICE_ID ORtc root;
  root ← match display cfg with
         | Some info => add_device "fb0" (dev_new 29 0) (OFrameBuffer (fb_base_vaddr info) (fb_size info)) root
         | None => mret root
         end;
  root ← add_device "tty" (dev_new 5 0) OCurrentTty root;
  root ← add_device "console" (dev_new 5 1) ONTty root;
  root ← add_device "ptmx" (dev_new 5 2) OPtmx root;
  let root := DirMapping_add "pts" NPtsDir root in
  root ← (if dev_log cfg then
            node ← SimpleFsNode_new vacant Socket default_mode; mret (DirMapping_add "log" (NFile node) root)
          else mret root);
  root ← (if memtrack cfg then add_device "memtrack" (dev_new 114 514) OMemTrack root else mret root);
  root ← add_device "cpu_dma_latency" (dev_new 10 1024) OCpuDmaLatency root;
  let root := DirMapping_add "shm" NMapping root in
  root ← add_loops 16 0 root;
  match inputs cfg with
  | Some input_devices => i ← input_devices; mret (DirMapping_add "input" (NInputs i) root)
  | None => mret root
  end.

(** ** Inode numbers *)

Definition node_ino (n : DevNode R I) : option Z :=
  match n with NDevice d => Some (sn_ino (dv_node d)) | NFile node => Some (sn_ino node) | _ => None end.

(** The nodes of the directory have different numbers, all of them taken. *)
Definition inodes_fresh (root : Root) (s : gset Z) : Prop :=
  (∀ name n i, root !! name = Some n → node_ino n = Some i → i - 1 ∈ s)
  ∧ ∀ x y n m i, root !! x = Some n → root !! y = Some m → node_ino n = Some i → node_ino m = Some i → x = y.

Context (vacant_fresh : ∀ s, vacant s ∉ s).

Lemma inodes_fresh_none name n root s : node_ino n = None → inodes_fresh root s →
  inodes_fresh (DirMapping_add name n root) s.
Proof.
  intros Hn [Ha Hb]. unfold DirMapping_add. split.
  - intros x m i. rewrite lookup_insert_Some. naive_solver.
  - intros x y m m' i. rewrite !lookup_insert_Some. naive_solver.
Qed.
Lemma inodes_fresh_mono root s s' : s ⊆ s' → inodes_fresh root s → inodes_fresh root s'.
Proof. intros Hs [Ha Hb]. split; [|done]. intros x n i Hx Hi. eapply Hs, Ha; eauto. Qed.
Lemma inodes_fresh_some name n root s : node_ino n = Some (vacant s + 1) → inodes_fresh root s →
  inodes_fresh (DirMapping_add name n root) ({[vacant s]} ∪ s).
Proof.
  intros Hn [Ha Hb]. pose proof (vacant_fresh s) as Hf. unfold DirMapping_add.
  assert (Hnew : ∀ x m, root !! x = Some m → node_ino m ≠ Some (vacant s + 1)).
  { intros x m Hx Hm. apply (Ha x m _ Hx) in Hm. replace (vacant s + 1 - 1) with (vacant s) in Hm by lia. done. }
  split.
  - intros x m i. rewrite lookup_insert_Some, elem_of_union, elem_of_singleton.
    intros [[<- <-]|[? Hx]] Hi; [left; simplify_eq; lia|right; eauto].
  - intros x y m m' i. rewrite !lookup_insert_Some. naive_solver.
Qed.

(** Run from [s], the computation yields a directory with different numbers. *)
Definition yields_fresh (s : gset Z) (m : M (gset Z) Root) : Prop :=
  ∀ root s', m s = (Ok root, s') → inodes_fresh root s'.

Lemma fresh_ret root s : inodes_fresh root s → yields_fresh s (mret root).
Proof. by intros ? root' s' [= <- <-]. Qed.
Lemma fresh_bind m k s : yields_fresh s m → (∀ root s1, inodes_fresh root s1 → yields_fresh s1 (k root)) →
  yields_fresh s (m ≫= k).
Proof.
  intros Hm Hk root s'. unfold mbind, M_bind. destruct (m s) as [[r|e|] s1] eqn:E; [|done..].
  apply Hk. by apply Hm.
Qed.
Lemma fresh_add_device name id ops root s : inodes_fresh root s → yields_fresh s (add_device name id ops root).
Proof. intros Hr root' s' [= <- <-]. by apply inodes_fresh_some. Qed.
Lemma fresh_loops n : ∀ i root s, inodes_fresh root s → yields_fresh s (add_loops n i root).
Proof.
  induction n as [|n IH]; intros i root s Hr; [by apply fresh_ret|].
  intros root' s' E. eapply IH; [|exact E]. by apply inodes_fresh_some.
Qed.

Ltac fresh_step :=
  lazymatch goal with
  | |- yields_fresh _ (_ ≫= _) => apply fresh_bind; [|intros ???]
  | |- yields_fresh _ (add_device _ _ _ _) => apply fresh_add_device
  | |- yields_fresh _ (add_loops _ _ _) => apply fresh_loops
  | |- yields_fresh _ (mret _) => apply fresh_ret
  | |- yields_fresh _ (match _ with _ => _ end) => case_match
  | |- inodes_fresh (DirMapping_add _ _ _) _ => apply inodes_fresh_none; [reflexivity|]
  | H : inodes_fresh ?r ?s |- inodes_fresh ?r ?s => exact H
  end.

(** Every device of [/dev] has an inode number of its own. *)
Lemma devfs_inodes_unique root s' :
  (∀ m s r s1, inputs cfg = Some m → m s = (r, s1) → s ⊆ s1) →
  dev_builder ∅ = (Ok root, s') → inodes_fresh root s'.
Proof.
  intros Hin. enough (yields_fresh ∅ dev_builder) as Hf by apply Hf. unfold dev_builder.
  cbv zeta. repeat fresh_step.
  - by split; intros *; rewrite lookup_empty.
  - intros ?? [= <- <-]. apply inodes_fresh_some; [done|]. by apply inodes_fresh_none.
  - intros ??. unfold mbind, M_bind. destruct (m _) as [[i|e|] st] eqn:E; [|done..].
    intros [= <- <-]. apply inodes_fresh_none; [done|]. eapply inodes_fresh_mono; [by eapply Hin|done].
Qed.
End DevFs.

(** ** Evaluation *)

#[local] Instance no_rng : SmallRng unit := { from_seed _ := tt; fill_bytes n r := (replicate n 4, r) }.
#[local] Instance plain_codes : NodeCodes := {
  dev_new a b := a * 65536 + b; dev_major d := d / 65536; dev_minor d := d mod 65536; node_type_u8 _ := 1;
}.

(** Without optional parts: the names in order, and the numbers of two loop
    devices, which are the same. *)
Example devfs_names :
  match dev_builder (R := unit) (I := unit) (λ s, Z.of_nat (size s)) 0x1b6 (mkDevConfig None false false None) ∅ with
  | (Ok root, _) =>
      child_names (DirMapping_ops root) =
        (["console"; "cpu_dma_latency"; "full"; "loop0"; "loop1"; "loop10"; "loop11"; "loop12"; "loop13"; "loop14";
         "loop15"; "loop2"; "loop3"; "loop4"; "loop5"; "loop6"; "loop7"; "loop8"; "loop9"; "null"; "ptmx"; "pts";
         "random"; "rtc0"; "shm"; "tty"; "urandom"; "zero"])%string
      ∧ (λ n, match n with Some (NDevice d) => md_rdev (sn_metadata (dv_node d)) | _ => 0 end)
          <$> [root !! "loop0"; root !! "loop9"]%string = [7 * 65536; 7 * 65536]
  | _ => False
  end.
Proof. vm_compute. split; reflexivity. Qed.
