(* ===== verification/Mincore.v ===== *)
(** * Resident pages

    [sys_mincore] of [api/src/syscall/mm/mincore.rs]: a loop over the pages of
    a range that advances by the size of the page the page table finds.  The
    areas of the address space and the page table (crates [axmm] and
    [page_table_multiarch]) are interfaces. *)

From S2P Require Import Prelude Bytes Pipe UserMem Mmap.

Class PageTable (A : Type) := {
  pt_find_area : A → Z → option MappingFlags;
  pt_query : A → Z → option PageSize;              (* the page an address is in, if it is present *)
}.

(** The addresses of a page that is present are all in it, and in one area. *)
Class PageTableOk (A : Type) `{PageTable A} := {
  pt_block a x y sz : pt_query a x = Some sz → align_down y (page_bytes sz) = align_down x (page_bytes sz) →
    pt_query a y = Some sz ∧ pt_find_area a y = pt_find_area a x;
}.

Section Mincore.
Context {A V : Type} `{PageTable A} `{VmSlices V}.

(** [result[i..end].fill(1)] *)
Definition fill_ones (i end_ : nat) (result : bytes) : bytes := store i (replicate (end_ - i) 1) result.

(** [None]: the loop has not ended after [fuel] rounds. *)
Fixpoint mincore_loop (fuel : nat) (aspace : A) (start_addr : Z) (page_count i : nat) (result : bytes)
    : option (res bytes) :=
  match fuel with
  | O => None
  | S fuel =>
      if bool_decide (i < page_count)%nat then
        let addr := add_u64 start_addr (Z.of_nat i * 4096) in
        match pt_find_area aspace addr with
        | None => Some (Err NoMemory)
        | Some flags =>
            if negb (mf_user flags) then Some (Err NoMemory)
            else
              let '(is_resident, size) :=
                match pt_query aspace addr with Some size => (true, page_bytes size) | None => (false, 4096) end in
              let n := Z.to_nat (size / 4096) in
              let result := if is_resident then fill_ones i (Nat.min (i + n) page_count) result else result in
              mincore_loop fuel aspace start_addr page_count (i + n) result
        end
      else Some (Ok result)
  end.

Definition sys_mincore (fuel : nat) (aspace : A) (addr length vec : Z) (t : UThread V) : option (res Z * UThread V) :=
  if negb (addr mod 4096 =? 0) then Some (Err InvalidInput, t)
  else if vec =? 0 then Some (Err BadAddress, t)
  else if length =? 0 then Some (Ok 0, t)
  else
    let page_count := Z.to_nat ((length + 4095) / 4096) in
    match mincore_loop fuel aspace addr page_count 0 (replicate page_count 0) with
    | None => None
    | Some r => Some ((result ← liftR r; vm_write_slice vec result;; mret 0) t)
    end.

(** ** Page by page *)

Definition page_mapped (a : A) (x : Z) : bool :=
  match pt_find_area a x with Some f => mf_user f | None => false end.
Definition page_resident (a : A) (x : Z) : Z := match pt_query a x with Some _ => 1 | None => 0 end.

(** The answer for [n] pages from [x] on: each page is looked up. *)
Fixpoint mincore_ref (a : A) (x : Z) (n : nat) : res bytes :=
  match n with
  | O => Ok []
  | S n =>
      if page_mapped a x then l ← mincore_ref a (x + 4096) n; Ok (page_resident a x :: l)
      else Err NoMemory
  end.

Lemma mincore_ref_cases a x n : (∃ l, mincore_ref a x n = Ok l ∧ length l = n) ∨ mincore_ref a x n = Err NoMemory.
Proof.
  revert x. induction n as [|n IH]; intros x; cbn [mincore_ref]; [by left; exists []|].
  destruct (page_mapped a x); [|by right]. destruct (IH (x + 4096)) as [(l & -> & <-)| ->]; [|by right].
  left. by eexists.
Qed.

Lemma page_bytes_le_divide s s' : page_bytes s ≤ page_bytes s' → (page_bytes s | page_bytes s').
Proof.
  destruct s, s'; intros Hle; try (exfalso; by apply Hle);
    [exists 1|exists 512|exists 262144|exists 1|exists 512|exists 1]; done.
Qed.
Lemma page_bytes_4k s : ∃ k : nat, (0 < k)%nat ∧ page_bytes s = Z.of_nat k * 4096 ∧ Z.to_nat (page_bytes s / 4096) = k.
Proof.
  destruct s; [exists 1%nat|exists (Z.to_nat 512)|exists (Z.to_nat 262144)]; (split_and!; [lia|rewrite ?Z2Nat.id by lia; done|done]).
Qed.

Lemma align_down_divide x n : 0 < n → (n | x) → align_down x n = x.
Proof. intros Hn [k ->]. unfold align_down. by rewrite Z.div_mul by lia. Qed.

(** The multiple below is the only multiple within reach. *)
Lemma align_down_unique x n q : 0 < n → (n | q) → q ≤ x < q + n → align_down x n = q.
Proof.
  intros Hn [k ->] Hb. unfold align_down. f_equal. symmetry. apply (Z.div_unique_pos x n k (x - k * n)); lia.
Qed.

Context `{!PageTableOk A}.

(** An address is at the start of its page: where the loop lands *)
Definition page_start (a : A) (x : Z) : Prop := ∀ sz, pt_query a x = Some sz → (page_bytes sz | x).

Lemma page_start_next a p sz : (page_bytes sz | p) →
  (∀ sz', pt_query a p = Some sz' → sz' = sz) →
  page_start a (p + page_bytes sz).
Proof.
  intros Hp Hsz sz' Hq'. pose proof (page_bytes_pos sz) as Hs. pose proof (page_bytes_pos sz') as Hs'.
  assert (Hpp : (page_bytes sz | p + page_bytes sz)) by (apply Z.divide_add_r; done).
  destruct (decide (page_bytes sz' ≤ page_bytes sz)) as [Hle|Hgt].
  { etrans; [by apply page_bytes_le_divide|done]. }
  destruct (align_down_spec (p + page_bytes sz) (page_bytes sz') ltac:(lia)) as [Hqd Hqb].
  set (q := align_down _ _) in *. destruct (decide (q = p + page_bytes sz)) as [<-|Hne]; [done|exfalso].
  assert (page_bytes sz | q) as [k Hk] by (apply (Z.divide_trans _ (page_bytes sz')); [apply page_bytes_le_divide; lia|done]).
  destruct Hp as [j Hj]. assert (k ≤ j) by nia.
  destruct (pt_block _ _ p _ Hq') as [Hpq _].
  { fold q. apply align_down_unique; [lia|done|nia]. }
  apply Hsz in Hpq as ->. lia.
Qed.

(** A run of pages of one state: what the reference says of it *)
Lemma mincore_ref_app a x n m :
  mincore_ref a x (n + m) = l ← mincore_ref a x n; l' ← mincore_ref a (x + Z.of_nat n * 4096) m; Ok (l ++ l').
Proof.
  revert x. induction n as [|n IH]; intros x; cbn [mincore_ref Nat.add].
  - replace (x + Z.of_nat 0 * 4096) with x by lia. by destruct (mincore_ref a x m).
  - destruct (page_mapped a x); [|done]. rewrite IH.
    replace (x + 4096 + Z.of_nat n * 4096) with (x + Z.of_nat (S n) * 4096) by lia.
    destruct (mincore_ref a (x + 4096) n); [|done..]. cbn. by destruct (mincore_ref a _ m).
Qed.

Lemma mincore_ref_block a p sz n : pt_query a p = Some sz → (page_bytes sz | p) → page_mapped a p = true →
  Z.of_nat n * 4096 ≤ page_bytes sz → mincore_ref a p n = Ok (replicate n 1).
Proof.
  intros Hq Hd Hm Hn. enough (Hoff : ∀ k, 0 ≤ k → k + Z.of_nat n * 4096 ≤ page_bytes sz →
    mincore_ref a (p + k) n = Ok (replicate n 1)) by (rewrite <- (Z.add_0_r p); apply Hoff; lia).
  clear Hn. induction n as [|n IH]; intros k Hk Hkn; [done|]. cbn [mincore_ref replicate].
  destruct (pt_block a p (p + k) sz Hq) as [Hqk Hfk].
  { rewrite (align_down_divide p) by (done || apply page_bytes_pos). apply align_down_unique; [|done|lia].
    apply page_bytes_pos. }
  unfold page_mapped, page_resident in *. rewrite Hfk, Hqk, Hm.
  rewrite <- Z.add_assoc, IH by lia. done.
Qed.

Lemma fill_ones_app i n pc (l : bytes) : length l = i → (n ≤ pc - i)%nat → (i ≤ pc)%nat →
  fill_ones i (i + n) (l ++ replicate (pc - i) 0) = (l ++ replicate n 1) ++ replicate (pc - (i + n)) 0.
Proof.
  intros <- Hn Hi. unfold fill_ones, store. rewrite take_app_length, <- app_assoc. f_equal.
  replace (length l + n - length l)%nat with n by lia. f_equal.
  rewrite length_replicate, drop_app_add', drop_replicate by done. f_equal. lia.
Qed.

Lemma mincore_loop_done fuel a start pc i result : (0 < fuel)%nat → (pc ≤ i)%nat →
  mincore_loop fuel a start pc i result = Some (Ok result).
Proof. intros Hf Hi. destruct fuel; [lia|]. cbn [mincore_loop]. by rewrite bool_decide_eq_false_2 by lia. Qed.

Lemma mincore_loop_step fuel a start pc i result p : (i < pc)%nat → p = start + Z.of_nat i * 4096 → in_u64 p →
  mincore_loop (S fuel) a start pc i result =
    if page_mapped a p then
      match pt_query a p with
      | Some sz =>
          let n := Z.to_nat (page_bytes sz / 4096) in
          mincore_loop fuel a start pc (i + n) (fill_ones i (Nat.min (i + n) pc) result)
      | None => mincore_loop fuel a start pc (i + 1) result
      end
    else Some (Err NoMemory).
Proof.
  intros Hi -> Hp. cbn [mincore_loop]. rewrite bool_decide_eq_true_2 by done.
  unfold add_u64. rewrite as_u64_small by done. unfold page_mapped.
  destruct (pt_find_area a _) as [f|]; [|done]. destruct (mf_user f); [|done]. cbn [negb].
  by destruct (pt_query a _).
Qed.

(** The loop from page [i] on, with the answers [l] of the pages before *)
Lemma mincore_loop_spec fuel a start pc : 0 ≤ start → (4096 | start) → start + Z.of_nat pc * 4096 ≤ 2 ^ 64 →
  ∀ i l, length l = i → (i ≤ pc)%nat → (pc - i < fuel)%nat → page_start a (start + Z.of_nat i * 4096) →
  mincore_loop fuel a start pc i (l ++ replicate (pc - i) 0) =
    Some (l' ← mincore_ref a (start + Z.of_nat i * 4096) (pc - i); Ok (l ++ l')).
Proof.
  intros Hs Hs4 Hend. induction fuel as [|fuel IH]; intros i l Hl Hi Hfuel Hps; [lia|].
  destruct (decide (i = pc)) as [->|Hne].
  { rewrite mincore_loop_done, Nat.sub_diag by lia. done. }
  set (p := start + Z.of_nat i * 4096) in *.
  rewrite (mincore_loop_step _ _ _ _ _ _ p) by (done || unfold in_u64; lia).
  destruct (page_mapped a p) eqn:Hm.
  2:{ replace (pc - i)%nat with (S (pc - S i)) by lia. cbn [mincore_ref]. by rewrite Hm. }
  destruct (pt_query a p) as [sz|] eqn:Hq.
  - destruct (page_bytes_4k sz) as (k & Hk & Hsz & ->). cbv zeta.
    destruct (decide (i + k < pc)%nat) as [Hlt|Hge].
    + rewrite Nat.min_l, fill_ones_app by lia. rewrite IH; [|rewrite ?length_app, ?length_replicate; lia..|].
      * replace (pc - i)%nat with (k + (pc - (i + k)))%nat by lia.
        rewrite mincore_ref_app, (mincore_ref_block a p sz _ Hq (Hps _ Hq) Hm) by lia. cbn.
        replace (start + Z.of_nat (i + k) * 4096) with (p + Z.of_nat k * 4096) by lia.
        destruct (mincore_ref a _ _); [|done..]. cbn. by rewrite app_assoc.
      * replace (start + Z.of_nat (i + k) * 4096) with (p + page_bytes sz) by lia.
        apply page_start_next; [exact (Hps _ Hq)|]. intros sz'. rewrite Hq. congruence.
    + rewrite mincore_loop_done by lia. replace (Nat.min (i + k) pc) with (i + (pc - i))%nat by lia.
      rewrite fill_ones_app by lia. rewrite (mincore_ref_block a p sz _ Hq (Hps _ Hq) Hm) by lia.
      replace (pc - (i + (pc - i)))%nat with O by lia. by rewrite app_nil_r.
  - replace (l ++ replicate (pc - i) 0) with ((l ++ [0]) ++ replicate (pc - (i + 1)) 0)
      by (rewrite <- app_assoc; f_equal; replace (pc - i)%nat with (S (pc - (i + 1))) by lia; done).
    rewrite IH; [|rewrite ?length_app; cbn; lia..|].
    + replace (start + Z.of_nat (i + 1) * 4096) with (p + 4096) by lia.
      replace (pc - i)%nat with (S (pc - (i + 1)))%nat by lia. cbn [mincore_ref]. rewrite Hm.
      unfold page_resident. rewrite Hq. destruct (mincore_ref a (p + 4096) _); [|done..]. cbn. by rewrite <- app_assoc.
    + replace (start + Z.of_nat (i + 1) * 4096) with (p + page_bytes Size4K) by (cbn; lia).
      apply page_start_next; [apply Z.divide_add_r; [done|by eexists]|]. intros sz'. by rewrite Hq.
Qed.

(** C21: [mincore] on a range that does not begin inside a huge page gives what
    a lookup of every single page gives, though it skips the pages of a block:
    [NoMemory] and no write if a page of the range is not mapped, and otherwise
    one byte per page at [vec], 1 if the page is present (or [BadAddress] when
    the vector cannot be written).  One round per page is fuel enough, and
    nothing outside the vector is written. *)
Theorem mincore_reports_pages `{UserCopy V, !VmSlicesOk V} fuel a addr length vec (t : UThread V) :
  let pages := Z.to_nat ((length + 4095) / 4096) in
  0 ≤ addr → addr mod 4096 = 0 → 0 < length → vec ≠ 0 → addr + Z.of_nat pages * 4096 ≤ 2 ^ 64 →
  page_start a addr → (pages < fuel)%nat →
  ∃ r t', sys_mincore fuel a addr length vec t = Some (r, t')
    ∧ match mincore_ref a addr pages with
      | Ok l => r = Ok 0 ∧ user_bytes (u_mem t') vec pages = l ∨ r = Err BadAddress
      | _ => r = Err NoMemory ∧ t' = t
      end
    ∧ ∀ x, ¬ (vec ≤ x < vec + Z.of_nat pages) → uc_byte (u_mem t') x = uc_byte (u_mem t) x.
Proof.
  intros pages Ha Ha4 Hl Hv Hend Hps Hfuel. unfold sys_mincore. fold pages.
  rewrite Ha4, (proj2 (Z.eqb_neq vec 0) Hv), (proj2 (Z.eqb_neq length 0)) by lia. cbn [negb Z.eqb].
  pose proof (mincore_loop_spec fuel a addr pages Ha ltac:(by apply Z.mod_divide) Hend 0 [] eq_refl) as Hloop.
  rewrite Nat.sub_0_r, Z.add_0_r in Hloop. cbn [app] in Hloop. rewrite Hloop by (done || lia).
  destruct (mincore_ref_cases a addr pages) as [(l & -> & Hlen)| ->]; [|by eexists _, _].
  cbn. unfold_m. destruct (vm_write_slice vec l t) as [r t'] eqn:Hw.
  apply vm_write_slice_cases in Hw as [Hr Hx]. unfold zlen in Hx. rewrite Hlen in *.
  destruct Hr as [->|(-> & Hb & _)]; eexists _, _; (split_and!; [done| |done]); auto.
Qed.
End Mincore.

(** ** A huge page with nothing behind it *)

Record huge_table := mkHuge {}.
Definition huge_start : Z := 0x200000.
#[export] Instance huge_page_table : PageTable huge_table := {
  pt_find_area _ x := if bool_decide (huge_start ≤ x < 0x800000) then Some rw else None;
  pt_query _ x := if align_down x 0x200000 =? huge_start then Some Size2M else None;
}.
#[export] Instance huge_page_table_ok : PageTableOk huge_table.
Proof.
  split. intros a x y sz. cbn. destruct (Z.eqb_spec (align_down x 0x200000) huge_start) as [Hx|]; [|done].
  intros [= <-]. cbn [page_bytes]. intros Hy. rewrite Hy, Hx. cbn [Z.eqb]. split; [by vm_compute|].
  pose proof (align_down_spec x 0x200000 ltac:(lia)). pose proof (align_down_spec y 0x200000 ltac:(lia)).
  unfold huge_start in *. by rewrite !bool_decide_eq_true_2 by lia.
Qed.

Definition vec_thread : UThread umem := mkUThread false (umem_store 0x3000 [7; 7; 7] ∅).

Lemma mincore_reports_pages_witness :
  ∃ r t', sys_mincore 4 (mkHuge) 0x400000 0x2001 0x3000 vec_thread = Some (r, t') ∧
    (r = Ok 0 ∧ user_bytes (u_mem t') 0x3000 3 = [0; 0; 0] ∨ r = Err BadAddress).
Proof.
  edestruct (mincore_reports_pages (V := umem) 4 mkHuge 0x400000 0x2001 0x3000 vec_thread) as (r & t' & Hr & Hl & _).
  all: try (done || lia || by vm_compute).
  exists r, t'. split; [exact Hr|]. exact Hl.
Defined.

(** A range that begins inside a huge page: the step by a whole huge page runs
    over the pages behind it, and pages that are not present, or not even
    mapped, are reported as present. *)
Example mincore_inside_huge_page :
  mincore_loop 4 mkHuge 0x3ff000 3 0 [0; 0; 0] = Some (Ok [1; 1; 1])
  ∧ mincore_ref mkHuge 0x3ff000 3 = Ok [1; 0; 0].
Proof. split; by vm_compute. Qed.
