(* ===== verification/FileIo.v ===== *)
(** * File input and output

    [api/src/syscall/fs/io.rs]: positioned reads and writes, lengths and
    offsets of files, and the transfer loop [do_send] that [sendfile],
    [copy_file_range] and [splice] share, with [File::from_fd] of
    [api/src/file/fs.rs].

    The open files (crate [axfs], and the other implementations of
    [FileLike]), the descriptor table and the user's memory are one state [W]
    with the operations of [FileWorld]. *)

From S2P Require Import Prelude Vm Pipe.

(** The types a file is downcast to *)
Inductive FileKind := KFile | KDirectory | KPipe (is_read : bool) | KDummy | KOther.
#[export] Instance FileKind_eq_dec : EqDecision FileKind.
Proof. solve_decision. Defined.

(** The user's buffer of a call: [VmBytes] and [VmBytesMut], or the array of
    an [IoVectorBuf] *)
Inductive UBuf := UBytes (buf len : Z) | UVec (iov iovcnt : Z).

Inductive SeekFrom := SeekStart (n : Z) | SeekCurrent (n : Z) | SeekEnd (n : Z).

Class FileWorld (W : Type) := {
  get_file_like : W → Z → res Z;
  file_kind : W → Z → FileKind;
  poll_in : W → Z → bool;                         (* [poll] contains [IN] *)
  file_read : Z → nat → M W bytes;                (* into a kernel buffer *)
  file_write : Z → bytes → M W nat;
  read_at : Z → nat → Z → M W bytes;
  write_at : Z → bytes → Z → M W nat;
  file_read_user : Z → UBuf → M W Z;              (* into a user buffer *)
  file_write_user : Z → UBuf → M W Z;
  read_at_user : Z → UBuf → Z → M W Z;
  write_at_user : Z → UBuf → Z → M W Z;
  vec_check : W → Z → Z → res unit;               (* [IoVectorBuf::new] *)
  file_seek : Z → SeekFrom → M W Z;
  access_write : W → Z → res unit;                (* [access(FileFlags::WRITE)] *)
  access_append : W → Z → res unit;
  is_path : W → Z → bool;
  file_len : W → Z → res Z;
  set_len : Z → Z → M W unit;
  open_write : W → Z → res Z;                     (* [OpenOptions] on a path *)
  get_as_str : W → Z → res unit;
  file_sync : Z → bool → M W unit;
}.

Section FileIo.
Context {W : Type} `{FileWorld W} `{VmPtr W Z}.

Definition File_from_fd (fd : Z) : M W Z :=
  w ← getM;
  f ← liftR (get_file_like w fd);
  match file_kind w f with
  | KFile => mret f
  | KDirectory => failM IsADirectory
  | _ => failM BrokenPipe
  end.

Definition from_fd_is_ok (k : FileKind → bool) (w : W) (fd : Z) : bool :=
  match get_file_like w fd with Ok f => k (file_kind w f) | _ => false end.
Definition is_pipe (k : FileKind) : bool := match k with KPipe _ => true | _ => false end.
Definition is_dummy (k : FileKind) : bool := match k with KDummy => true | _ => false end.

Definition sys_read (fd buf len : Z) : M W Z :=
  w ← getM; f ← liftR (get_file_like w fd); file_read_user f (UBytes buf len).
Definition sys_write (fd buf len : Z) : M W Z :=
  w ← getM; f ← liftR (get_file_like w fd); file_write_user f (UBytes buf len).
Definition sys_readv (fd iov iovcnt : Z) : M W Z :=
  w ← getM; f ← liftR (get_file_like w fd); liftR (vec_check w iov iovcnt);; file_read_user f (UVec iov iovcnt).
Definition sys_writev (fd iov iovcnt : Z) : M W Z :=
  w ← getM; f ← liftR (get_file_like w fd); liftR (vec_check w iov iovcnt);; file_write_user f (UVec iov iovcnt).

Definition sys_lseek (fd offset whence : Z) : M W Z :=
  pos ← liftR (if whence =? 0 then Ok (SeekStart (as_u64 offset))
               else if whence =? 1 then Ok (SeekCurrent offset)
               else if whence =? 2 then Ok (SeekEnd offset)
               else Err InvalidInput);
  f ← File_from_fd fd; file_seek f pos.

Definition sys_truncate (path length : Z) : M W Z :=
  w ← getM; liftR (get_as_str w path);;
  if length <? 0 then failM InvalidInput
  else
    f ← liftR (open_write w path);
    liftR (access_write w f);; set_len f (as_u64 length);; mret 0.

Definition sys_ftruncate (fd length : Z) : M W Z :=
  f ← File_from_fd fd;
  w ← getM; liftR (access_write w f);; set_len f (as_u64 length);; mret 0.

Definition sys_fallocate (fd mode offset len : Z) : M W Z :=
  if negb (mode =? 0) then failM InvalidInput
  else
    f ← File_from_fd fd;
    w ← getM; liftR (access_write w f);;
    old ← liftR (file_len w f);
    set_len f (Z.max old (add_u64 (as_u64 offset) (as_u64 len)));; mret 0.

Definition sys_fsync (fd : Z) : M W Z := f ← File_from_fd fd; file_sync f false;; mret 0.
Definition sys_fdatasync (fd : Z) : M W Z := f ← File_from_fd fd; file_sync f true;; mret 0.

Definition sys_fadvise64 (fd advice : Z) : M W Z :=
  w ← getM;
  if from_fd_is_ok is_pipe w fd then failM BrokenPipe
  else if advice >? 5 then failM InvalidInput
  else mret 0.

Definition sys_pread64 (fd buf len offset : Z) : M W Z :=
  f ← File_from_fd fd;
  if offset <? 0 then failM InvalidInput else read_at_user f (UBytes buf len) (as_u64 offset).
Definition sys_pwrite64 (fd buf len offset : Z) : M W Z :=
  if len =? 0 then mret 0
  else f ← File_from_fd fd; write_at_user f (UBytes buf len) (as_u64 offset).

Definition sys_preadv2 (fd iov iovcnt offset : Z) : M W Z :=
  f ← File_from_fd fd;
  w ← getM; liftR (vec_check w iov iovcnt);; read_at_user f (UVec iov iovcnt) (as_u64 offset).
(** It reads, too. *)
Definition sys_pwritev2 (fd iov iovcnt offset : Z) : M W Z :=
  f ← File_from_fd fd;
  w ← getM; liftR (vec_check w iov iovcnt);; read_at_user f (UVec iov iovcnt) (as_u64 offset).
Definition sys_preadv (fd iov iovcnt offset : Z) : M W Z := sys_preadv2 fd iov iovcnt offset.
Definition sys_pwritev (fd iov iovcnt offset : Z) : M W Z := sys_pwritev2 fd iov iovcnt offset.

(** ** The transfer loop *)

(** A file with its own position, or with one in user memory *)
Inductive SendFile := Direct (file : Z) | Offset (file offset : Z).

Definition has_data (s : SendFile) (w : W) : bool :=
  match s with Direct file => poll_in w file | Offset file _ => poll_in w file end.

Definition SendFile_read (s : SendFile) (n : nat) : M W bytes :=
  match s with
  | Direct file => file_read file n
  | Offset file offset =>
      w ← getM; off ← liftR (vm_read w offset);
      l ← read_at file n off;
      vm_write offset (add_u64 off (zlen l));; mret l
  end.

Definition SendFile_write (s : SendFile) (buf : bytes) : M W nat :=
  match s with
  | Direct file => file_write file buf
  | Offset file offset =>
      w ← getM; off ← liftR (vm_read w offset);
      n ← write_at file buf off;
      vm_write offset (add_u64 off (Z.of_nat n));; mret n
  end.

Definition SEND_BUF : nat := Z.to_nat 0x1000.

(** [None]: the loop has not ended after [fuel] rounds. *)
Fixpoint send_loop (fuel : nat) (src dst : SendFile) (total_written remaining : nat) (w : W) : option (res nat * W) :=
  match fuel with
  | O => None
  | S fuel =>
      if (remaining =? 0)%nat then Some (Ok total_written, w)
      else if (0 <? total_written)%nat && negb (has_data src w) then Some (Ok total_written, w)
      else
        match SendFile_read src (Nat.min SEND_BUF remaining) w with
        | (Ok buf, w) =>
            if (length buf =? 0)%nat then Some (Ok total_written, w)
            else
              match SendFile_write dst buf w with
              | (Ok bytes_written, w) =>
                  if (bytes_written <? length buf)%nat then Some (Ok total_written, w)
                  else send_loop fuel src dst (total_written + bytes_written) (remaining - bytes_written) w
              | (Err e, w) => Some (Err e, w)
              | (Panic, w) => Some (Panic, w)
              end
        | (Err e, w) =>
            if bool_decide (e = WouldBlock) && (0 <? total_written)%nat then Some (Ok total_written, w)
            else Some (Err e, w)
        | (Panic, w) => Some (Panic, w)
        end
  end.

Definition do_send (fuel : nat) (src dst : SendFile) (len : nat) (w : W) : option (res nat * W) :=
  send_loop fuel src dst 0 len w.

(** [do_send] after the checks of a system call *)
Definition checked_send (fuel : nat) (check : M W (SendFile * SendFile)) (len : nat) (w : W) : option (res Z * W) :=
  match check w with
  | (Ok (src, dst), w) =>
      match do_send fuel src dst len w with
      | Some (Ok n, w) => Some (Ok (Z.of_nat n), w)
      | Some (Err e, w) => Some (Err e, w)
      | Some (Panic, w) => Some (Panic, w)
      | None => None
      end
  | (Err e, w) => Some (Err e, w)
  | (Panic, w) => Some (Panic, w)
  end.

Definition direct (fd : Z) : M W SendFile :=
  w ← getM; f ← liftR (get_file_like w fd); mret (Direct f).

Definition sendfile_files (out_fd in_fd offset : Z) : M W (SendFile * SendFile) :=
  src ← (if negb (offset =? 0) then
           w ← getM; off ← liftR (vm_read w offset);
           if off >? 2 ^ 32 - 1 then failM InvalidInput
           else f ← File_from_fd in_fd; mret (Offset f offset)
         else direct in_fd);
  dst ← direct out_fd;
  mret (src, dst).
Definition sys_sendfile (fuel : nat) (out_fd in_fd offset : Z) (len : nat) : W → option (res Z * W) :=
  checked_send fuel (sendfile_files out_fd in_fd offset) len.

Definition copy_file (fd off : Z) : M W SendFile :=
  if negb (off =? 0) then f ← File_from_fd fd; mret (Offset f off) else direct fd.
Definition sys_copy_file_range (fuel : nat) (fd_in off_in fd_out off_out : Z) (len : nat) : W → option (res Z * W) :=
  checked_send fuel (src ← copy_file fd_in off_in; dst ← copy_file fd_out off_out; mret (src, dst)) len.

(** An end of [splice], and whether it is a pipe *)
Definition splice_src (fd_in off_in : Z) : M W (SendFile * bool) :=
  w ← getM;
  if negb (off_in =? 0) then
    off ← liftR (vm_read w off_in);
    if as_i64 off <? 0 then failM InvalidInput
    else f ← File_from_fd fd_in; mret (Offset f off_in, false)
  else if from_fd_is_ok (λ k, bool_decide (k = KPipe false)) w fd_in then failM BadFileDescriptor
  else
    let has_pipe := from_fd_is_ok is_pipe w fd_in in
    if (match File_from_fd fd_in w with (Ok f, _) => is_path w f | _ => false end) then failM InvalidInput
    else src ← direct fd_in; mret (src, has_pipe).

Definition splice_dst (fd_out off_out : Z) : M W (SendFile * bool) :=
  w ← getM;
  if negb (off_out =? 0) then
    off ← liftR (vm_read w off_out);
    if as_i64 off <? 0 then failM InvalidInput
    else f ← File_from_fd fd_out; mret (Offset f off_out, false)
  else if from_fd_is_ok (λ k, bool_decide (k = KPipe true)) w fd_out then failM BadFileDescriptor
  else
    let has_pipe := from_fd_is_ok is_pipe w fd_out in
    if (match File_from_fd fd_out w with (Ok f, _) => is_ok (access_append w f) | _ => false end)
    then failM InvalidInput
    else
      f ← liftR (get_file_like w fd_out);
      file_write f [];; mret (Direct f, has_pipe).

Definition splice_files (fd_in off_in fd_out off_out : Z) : M W (SendFile * SendFile) :=
  w ← getM;
  if from_fd_is_ok is_dummy w fd_in || from_fd_is_ok is_dummy w fd_out then failM BadFileDescriptor
  else
    s ← splice_src fd_in off_in;
    d ← splice_dst fd_out off_out;
    if negb (s.2 || d.2) then failM InvalidInput else mret (s.1, d.1).
Definition sys_splice (fuel : nat) (fd_in off_in fd_out off_out : Z) (len : nat) : W → option (res Z * W) :=
  checked_send fuel (splice_files fd_in off_in fd_out off_out) len.

(** ** What a transfer moves

    [rem] is what the source still gives and [log] what the destination has
    taken; a read takes a prefix of the one, a write appends to the other. *)

Definition is_source (s : SendFile) (rem log : W → bytes) : Prop := ∀ n w r w', SendFile_read s n w = (r, w') →
  log w' = log w ∧
  match r with
  | Ok l => (length l ≤ n)%nat ∧ rem w = l ++ rem w'
  | Err _ => rem w' = rem w
  | Panic => False
  end.
Definition is_sink (d : SendFile) (rem log : W → bytes) : Prop := ∀ l w r w', SendFile_write d l w = (r, w') →
  rem w' = rem w ∧
  match r with
  | Ok n => (n ≤ length l)%nat ∧ log w' = log w ++ take n l
  | Err _ => ∃ n, (n ≤ length l)%nat ∧ log w' = log w ++ take n l
  | Panic => False
  end.

Section Send.
Context (src dst : SendFile) (rem log : W → bytes).
Context (Hsrc : is_source src rem log) (Hdst : is_sink dst rem log).

(** [moved] has gone from the source to the destination and [lost] was read
    and not written. *)
Definition transferred (w w' : W) (moved lost : bytes) : Prop :=
  rem w = moved ++ lost ++ rem w' ∧ log w' = log w ++ moved.

Lemma transferred_step w w1 w2 w' buf moved lost :
  rem w = buf ++ rem w1 → log w1 = log w → rem w2 = rem w1 → log w2 = log w1 ++ buf →
  transferred w2 w' moved lost → transferred w w' (buf ++ moved) lost.
Proof.
  intros Hr Hl Hr2 Hl2 [Hr' Hl']. split.
  - by rewrite Hr, <- Hr2, Hr', <- app_assoc.
  - by rewrite Hl', Hl2, Hl, <- app_assoc.
Qed.

Lemma transferred_partial w w1 w2 buf n : (n ≤ length buf)%nat →
  rem w = buf ++ rem w1 → log w1 = log w → rem w2 = rem w1 → log w2 = log w1 ++ take n buf →
  transferred w w2 (take n buf) (drop n buf).
Proof.
  intros Hn Hr Hl Hr2 Hl2. split; [by rewrite Hr2, app_assoc, take_drop|]. by rewrite Hl2, Hl.
Qed.

(** How a transfer ends *)
Definition send_outcome (len total : nat) (r : res nat) (moved lost : bytes) : Prop :=
  (length moved + length lost ≤ len)%nat ∧
  match r with
  | Ok n => (lost = [] ∧ n = total + length moved
             ∨ lost ≠ [] ∧ total ≤ n ≤ total + length moved ∧ length (moved ++ lost) ≤ n - total + SEND_BUF)%nat
  | Err _ => (length lost ≤ SEND_BUF)%nat
  | Panic => False
  end.

Lemma send_loop_spec fuel : ∀ total remaining w, (remaining < fuel)%nat →
  ∃ r w' moved lost, send_loop fuel src dst total remaining w = Some (r, w')
    ∧ transferred w w' moved lost ∧ send_outcome remaining total r moved lost.
Proof.
  induction fuel as [|fuel IH]; intros total remaining w Hfuel; [lia|]. cbn [send_loop].
  assert (Hstop : ∀ w', rem w' = rem w → log w' = log w → ∃ r' w'' moved lost, Some (Ok total, w') = Some (r', w'')
    ∧ transferred w w'' moved lost ∧ send_outcome remaining total r' moved lost).
  { intros w' Hr Hl. exists (Ok total), w', [], []. unfold transferred, send_outcome. rewrite Hr, Hl, app_nil_r.
    cbn. split_and!; auto; lia. }
  destruct (Nat.eqb_spec remaining 0); [by apply Hstop|].
  destruct (_ && _); [by apply Hstop|].
  destruct (SendFile_read src _ w) as [[buf|e|] w1] eqn:Hread; apply Hsrc in Hread as [Hlog1 Hread]; [| |done].
  2:{ destruct (_ && _); [by apply Hstop|]. exists (Err e), w1, [], []. unfold transferred, send_outcome.
      rewrite Hread, Hlog1, app_nil_r. cbn. split_and!; auto; lia. }
  destruct Hread as [Hlen Hrem]. destruct (Nat.eqb_spec (length buf) 0) as [->%nil_length_inv|Hne].
  { apply Hstop; [by rewrite Hrem|done]. }
  destruct (SendFile_write dst buf w1) as [[k|e|] w2] eqn:Hwrite; apply Hdst in Hwrite as [Hrem2 Hwrite]; [| |done].
  - destruct Hwrite as [Hk Hlog2]. destruct (Nat.ltb_spec k (length buf)).
    + exists (Ok total), w2, (take k buf), (drop k buf). split_and!; [done|by eapply transferred_partial|].
      split; [rewrite length_take, length_drop; lia|]. right. rewrite take_drop, length_take. split_and!; try lia.
      intros Hd%(f_equal length). rewrite length_drop in Hd. cbn in Hd. lia.
    + rewrite take_ge in Hlog2 by lia. assert (k = length buf) as -> by lia.
      destruct (IH (total + length buf)%nat (remaining - length buf)%nat w2 ltac:(lia))
        as (r & w' & moved & lost & -> & Ht & Hb & Hout).
      exists r, w', (buf ++ moved), lost. split_and!; [done|by eapply transferred_step|].
      split; [rewrite length_app; lia|]. destruct r as [n'| |]; [|done..].
      rewrite <- app_assoc, !length_app in *. destruct Hout as [[-> ->]|(? & ? & ?)]; [left|right]; split_and!; done || lia.
  - destruct Hwrite as (k & Hk & Hlog2). exists (Err e), w2, (take k buf), (drop k buf).
    split_and!; [done|by eapply transferred_partial|]. split; [rewrite length_take, length_drop; lia|].
    rewrite length_drop. lia.
Qed.
End Send.

(** C12: The transfer loop of [sendfile], [copy_file_range] and [splice] between
    a source and a destination that do not share data: it ends ([len + 1] rounds
    of fuel suffice), and the bytes that arrive are exactly the next bytes of
    the source, in order.  If all that was read has been written, the number
    returned is the number of bytes moved; otherwise a write has been short, the
    rest of its buffer (at most 4096 bytes) is lost and what it did write is not
    counted.  Never more than [len] bytes are taken from the source. *)
Theorem send_moves_prefix src dst rem log fuel len w :
  is_source src rem log → is_sink dst rem log → (len < fuel)%nat →
  ∃ r w' moved lost, do_send fuel src dst len w = Some (r, w')
    ∧ rem w = moved ++ lost ++ rem w' ∧ log w' = log w ++ moved ∧ (length (moved ++ lost) ≤ len)%nat
    ∧ match r with
      | Ok n => lost = [] ∧ n = length moved
                ∨ lost ≠ [] ∧ (n ≤ length moved)%nat ∧ (length (moved ++ lost) ≤ n + SEND_BUF)%nat
      | Err _ => (length lost ≤ SEND_BUF)%nat
      | Panic => False
      end.
Proof.
  intros Hsrc Hdst Hfuel.
  destruct (send_loop_spec src dst rem log Hsrc Hdst fuel 0 len w Hfuel)
    as (r & w' & moved & lost & Hs & [Hr Hl] & Hb & Hout).
  exists r, w', moved, lost. rewrite length_app in *. split_and!; [done..|].
  destruct r; [|done..]. destruct Hout as [[-> ->]|(? & ? & ?)]; [by left|right; split_and!; done || lia].
Qed.

(** A regular file with a position in user memory is a source: it gives its
    content from that position on. *)
Definition offset_pos (p : Z) (w : W) : nat := match vm_read w p with Ok off => Z.to_nat off | _ => O end.

Lemma offset_is_source `{!VmPtrOk W Z} file p (content log : W → bytes) :
  (∀ w, zlen (content w) < 2 ^ 64) → (∀ w off, vm_read w p = Ok off → in_u64 off) →
  (∀ n off w r w', read_at file n off w = (r, w') →
     content w' = content w ∧ log w' = log w ∧ vm_read w' p = vm_read w p ∧ r ≠ Panic
     ∧ ∀ l, r = Ok l → (length l ≤ n)%nat ∧ l = take (length l) (drop (Z.to_nat off) (content w))) →
  (∀ v w r w', vm_write p v w = (r, w') →
     content w' = content w ∧ log w' = log w ∧ (r = Ok tt ∨ vm_read w' p = vm_read w p)) →
  is_source (Offset file p) (λ w, drop (offset_pos p w) (content w)) log.
Proof.
  intros Hc Hpos Hread Hwrite n w r w'. cbn [SendFile_read]. unfold_m. unfold offset_pos.
  destruct (vm_read w p) as [off|e|] eqn:Hoff; [|by intros [= <- <-]; rewrite Hoff|by apply vm_read_no_panic in Hoff].
  destruct (read_at file n off w) as [rr w1] eqn:Hr. apply Hread in Hr as (Hc1 & Hl1 & Hp1 & Hnp & Hok).
  destruct rr as [l|e|]; [|by intros [= <- <-]; rewrite Hl1, Hc1, Hp1, Hoff|done].
  destruct (Hok l eq_refl) as [Hn Hl].
  destruct (vm_write p _ w1) as [rw w2] eqn:Hw. pose proof (Hwrite _ _ _ _ Hw) as (Hc2 & Hl2 & Hp2).
  destruct rw as [[]|e|]; [|destruct Hp2 as [|Hp2]; [done|]; intros [= <- <-]; by rewrite Hl2, Hl1, Hc2, Hc1, Hp2, Hp1, Hoff|].
  2:{ by pose proof (vm_write_no_panic w1 p (add_u64 off (zlen l))) as Hx; rewrite Hw in Hx. }
  intros [= <- <-]. split; [congruence|]. split; [done|].
  rewrite (vm_read_write _ _ _ _ Hw), Hc2, Hc1. pose proof (Hpos w off Hoff) as Hu. specialize (Hc w).
  unfold zlen, in_u64 in *.
  assert (Hlen : (length l ≤ length (content w) - Z.to_nat off)%nat).
  { rewrite Hl, length_take, length_drop. lia. }
  unfold add_u64. rewrite as_u64_small by (unfold in_u64; lia).
  rewrite Z2Nat.inj_add, Nat2Z.id by lia. rewrite <- drop_drop. rewrite Hl at 1. by rewrite take_drop.
Qed.
End FileIo.

(** ** A file of three bytes, and a stream that has room for two *)

Record sworld := mkSworld { sw_pos : Z; sw_out : bytes; sw_room : nat }.
Definition sw_content : bytes := [10; 20; 30].

Definition fits_u64 (x : Z) : bool := (0 <=? x) && (x <? 2 ^ 64).
#[export] Instance sworld_vm : VmPtr sworld Z := {|
  vm_read w _ := if fits_u64 (sw_pos w) then Ok (sw_pos w) else Err BadAddress;
  vm_write _ x := λ w, if fits_u64 x then (Ok tt, mkSworld x (sw_out w) (sw_room w)) else (Err BadAddress, w);
|}.
#[export] Instance sworld_vm_ok : VmPtrOk sworld Z.
Proof.
  split; cbn.
  - intros v p. by destruct (fits_u64 (sw_pos v)).
  - intros v p x. by destruct (fits_u64 x).
  - intros v v' p x. destruct (fits_u64 x) eqn:Hx; [|done]. intros [= <-]. cbn. by rewrite Hx.
Qed.
#[export] Instance sworld_files : FileWorld sworld := {
  get_file_like _ fd := Ok fd;
  file_kind _ f := if f =? 1 then KFile else KOther;
  poll_in _ _ := true;
  file_read _ _ := mret [];
  file_write _ l := λ w,
    let n := Nat.min (length l) (sw_room w) in
    (Ok n, mkSworld (sw_pos w) (sw_out w ++ take n l) (sw_room w - n));
  read_at _ n off := mret (take n (drop (Z.to_nat off) sw_content));
  write_at _ _ _ := failM InvalidInput;
  file_read_user _ _ := mret 0;
  file_write_user _ _ := mret 0;
  read_at_user _ _ _ := mret 0;
  write_at_user _ _ _ := mret 0;
  vec_check _ _ _ := Ok tt;
  file_seek _ _ := mret 0;
  access_write _ _ := Ok tt;
  access_append _ _ := Err BadFileDescriptor;
  is_path _ _ := false;
  file_len _ _ := Ok 3;
  set_len _ _ := mret tt;
  open_write _ _ := Err NotFound;
  get_as_str _ _ := Ok tt;
  file_sync _ _ := mret tt;
}.

Definition sw_rem (w : sworld) : bytes := drop (offset_pos 8 w) sw_content.

Lemma take_self_length n (l : bytes) : take n l = take (length (take n l)) l.
Proof.
  rewrite length_take. destruct (decide (n ≤ length l)%nat); [by rewrite Nat.min_l|].
  by rewrite Nat.min_r, !take_ge by lia.
Qed.

Lemma sworld_source : is_source (Offset 1 8) sw_rem sw_out.
Proof.
  apply (offset_is_source 1 8 (λ _, sw_content) sw_out); [done|..].
  - intros w off. cbn. unfold fits_u64. destruct (Z.leb_spec 0 (sw_pos w)), (Z.ltb_spec (sw_pos w) (2 ^ 64));
      intros [= <-]; done.
  - intros n off w r w'. cbn. intros [= <- <-]. split_and!; [done..|]. intros l [= <-].
    split; [rewrite length_take; lia|]. apply take_self_length.
  - intros v w r w'. cbn. destruct (fits_u64 v); intros [= <- <-]; auto.
Qed.
Lemma sworld_sink : is_sink (Direct 2) sw_rem sw_out.
Proof. intros l w r w'. cbn. intros [= <- <-]. split; [done|]. split; [lia|done]. Qed.

Lemma send_moves_prefix_witness :
  ∃ r w' moved lost, do_send 4 (Offset 1 8) (Direct 2) 3 (mkSworld 1 [] 5) = Some (r, w')
    ∧ sw_rem (mkSworld 1 [] 5) = moved ++ lost ++ sw_rem w' ∧ sw_out w' = moved.
Proof.
  destruct (send_moves_prefix (Offset 1 8) (Direct 2) sw_rem sw_out 4 3 (mkSworld 1 [] 5) sworld_source sworld_sink)
    as (r & w' & moved & lost & Hr & Hrem & Hlog & _); [lia|].
  exists r, w', moved, lost. split_and!; done.
Defined.

(** A destination that takes a part of a buffer: the bytes it took are not
    counted, and the rest is gone: the position has moved on by three. *)
Example short_write_not_counted :
  do_send 4 (Offset 1 8) (Direct 2) 3 (mkSworld 0 [] 2) = Some (Ok 0%nat, mkSworld 3 [10; 20] 0).
Proof. by vm_compute. Qed.

(** [pwritev] does what [preadv] does. *)
Example pwritev_reads fd iov iovcnt offset (w : sworld) :
  sys_pwritev fd iov iovcnt offset w = sys_preadv fd iov iovcnt offset w.
Proof. done. Qed.
