(* ===== verification/Process.v ===== *)
(** * Processes

    The tables of tasks, processes, groups and sessions and the sending of
    signals ([core/src/task.rs]), the process part of [do_exit]
    ([api/src/task.rs]), [waitpid] ([api/src/syscall/task/wait.rs]), the calls
    on groups and sessions ([api/src/syscall/task/job.rs]) and the calls that
    send signals ([api/src/syscall/signal.rs]).

    The process tree (crate [starry_process]), the signal managers (crate
    [starry_signal]) and user memory are interfaces.  Tasks and processes are
    their numbers; groups and sessions are objects with a number, since two
    groups can have the same one. *)

From S2P Require Import Prelude Vm.

(** [SignalInfo]: the signal, its code and its sender *)
Record SignalInfo := mkSignalInfo { si_signo : Z; si_code : Z; si_pid : Z }.
Definition SI_USER : Z := 0.
Definition SI_TKILL : Z := -6.
Definition SI_KERNEL : Z := 128.
Definition SIGKILL : Z := 9.
Definition new_kernel (signo : Z) : SignalInfo := mkSignalInfo signo SI_KERNEL 0.

(** [parse_signo]: the number is cut to eight bits; signals are 1 to 64. *)
Definition parse_signo (signo : Z) : res Z :=
  let s := as_u8 signo in if (1 <=? s) && (s <=? 64) then Ok s else Err InvalidInput.

(** [starry_process] *)
Class ProcTree (T : Type) := {
  pt_group : T → Z → Z;                     (* the group of a process *)
  pt_pgid : T → Z → Z;                      (* the number of a group *)
  pt_session : T → Z → Z;                   (* the session of a group *)
  pt_sid : T → Z → Z;
  pt_group_alive : T → Z → bool;
  pt_session_alive : T → Z → bool;
  pt_members : T → Z → list Z;              (* [pg.processes()] *)
  pt_children : T → Z → list Z;
  pt_parent : T → Z → option Z;
  pt_threads : T → Z → list Z;
  pt_is_init : T → Z → bool;
  pt_is_zombie : T → Z → bool;
  pt_exit_code : T → Z → Z;
  pt_is_group_exited : T → Z → bool;
  pt_exit_thread : Z → Z → Z → T → bool * T;  (* process, thread, exit code *)
  pt_exit : Z → M T unit;
  pt_free : Z → M T unit;
  pt_group_exit : Z → T → T;
  pt_create_group : Z → T → T;
  pt_create_session : Z → T → option Z * T;
  pt_move_to_group : Z → Z → T → bool * T;
}.

(** [starry_signal]: a thread that is to be interrupted *)
Class SigSys (G : Type) := {
  sg_send_thread : Z → SignalInfo → G → bool * G;
  sg_send_proc : Z → SignalInfo → G → option Z * G;
}.

(** [live_tasks] are the tasks that exist, with the process of a user thread;
    [live_data] the [ProcessData] that exist, with their [exit_signal].  A
    table's entry is found as long as the object it points to exists. *)
Record Sys (T G V : Type) := mkSys {
  tree : T;
  sigs : G;
  user : V;
  live_tasks : gmap Z (option Z);
  live_data : gmap Z (option Z);
  task_table : gset Z;
  process_table : gset Z;
  group_table : gmap Z Z;
  session_table : gmap Z Z;
  interrupted : list Z;                     (* [task.interrupt()] *)
  child_exit_woken : list Z;                (* [child_exit_event.wake()] *)
  exit_woken : list Z;                      (* [exit_event.wake()] *)
  shm_cleared : list Z;                     (* [SHM_MANAGER.lock().clear_proc_shm] *)
  exited : gset Z;                          (* [thr.set_exit()] *)
}.
Arguments mkSys {_ _ _}.
Arguments tree {_ _ _}.
Arguments sigs {_ _ _}.
Arguments user {_ _ _}.
Arguments live_tasks {_ _ _}.
Arguments live_data {_ _ _}.
Arguments task_table {_ _ _}.
Arguments process_table {_ _ _}.
Arguments group_table {_ _ _}.
Arguments session_table {_ _ _}.
Arguments interrupted {_ _ _}.
Arguments child_exit_woken {_ _ _}.
Arguments exit_woken {_ _ _}.
Arguments shm_cleared {_ _ _}.
Arguments exited {_ _ _}.
#[export] Instance eta_Sys T G V : Eta (Sys T G V) := λ s,
  mkSys (tree s) (sigs s) (user s) (live_tasks s) (live_data s) (task_table s) (process_table s) (group_table s)
    (session_table s) (interrupted s) (child_exit_woken s) (exit_woken s) (shm_cleared s) (exited s).

Section Process.
Context {T G V : Type} `{ProcTree T, SigSys G, VmPtr V Z}.
Abbreviation S := (Sys T G V).

(** An operation of the tree *)
Definition on_tree {A} (f : M T A) : M S A := λ s, let '(r, t) := f (tree s) in (r, s <| tree := t |>).

(** ** The tables *)

Definition group_found (s : S) (pgid : Z) : option Z :=
  match group_table s !! pgid with Some g => if pt_group_alive (tree s) g then Some g else None | None => None end.
Definition session_found (s : S) (sid : Z) : option Z :=
  match session_table s !! sid with Some x => if pt_session_alive (tree s) x then Some x else None | None => None end.
Definition data_found (s : S) (pid : Z) : bool :=
  bool_decide (pid ∈ process_table s) && bool_decide (is_Some (live_data s !! pid)).
Definition task_found (s : S) (tid : Z) : bool :=
  bool_decide (tid ∈ task_table s) && bool_decide (is_Some (live_tasks s !! tid)).

(** Thread [tid] of process [pid] has been created. *)
Definition add_task_to_table (tid pid : Z) (s : S) : S :=
  let s := s <| task_table ::= λ t, {[tid]} ∪ t |> in
  if data_found s pid then s
  else
    let s := s <| process_table ::= λ t, {[pid]} ∪ t |> in
    let g := pt_group (tree s) pid in
    let pgid := pt_pgid (tree s) g in
    if bool_decide (is_Some (group_found s pgid)) then s
    else
      let s := s <| group_table ::= λ t, <[pgid := g]> t |> in
      let x := pt_session (tree s) g in
      let sid := pt_sid (tree s) x in
      if bool_decide (is_Some (session_found s sid)) then s
      else s <| session_table ::= λ t, <[sid := x]> t |>.

(** The tables without their dead entries *)
Definition cleanup_task_tables (s : S) : S :=
  s <| task_table ::= filter (λ t, is_Some (live_tasks s !! t)) |>
    <| process_table ::= filter (λ p, is_Some (live_data s !! p)) |>
    <| group_table ::= filter (λ e, pt_group_alive (tree s) e.2 = true) |>
    <| session_table ::= filter (λ e, pt_session_alive (tree s) e.2 = true) |>.

(** The calling thread and its process *)
Context (cur_tid cur_pid : Z).

Definition get_task (tid : Z) (s : S) : res Z :=
  if tid =? 0 then Ok cur_tid else if task_found s tid then Ok tid else Err NoSuchProcess.
Definition get_process_data (pid : Z) (s : S) : res Z :=
  if pid =? 0 then Ok cur_pid else if data_found s pid then Ok pid else Err NoSuchProcess.
Definition get_process_group (pgid : Z) (s : S) : res Z := ok_or NoSuchProcess (group_found s pgid).
Definition get_session (sid : Z) (s : S) : res Z := ok_or NoSuchProcess (session_found s sid).
Definition tasks (s : S) : list Z := filter (λ t, is_Some (live_tasks s !! t)) (elements (task_table s)).
Definition processes (s : S) : list Z := filter (λ p, is_Some (live_data s !! p)) (elements (process_table s)).

(** ** Sending signals *)

Definition interrupt (tid : Z) : M S unit := modifyM (λ s, s <| interrupted ::= λ l, l ++ [tid] |>).

Definition send_signal_thread_inner (tid : Z) (sig : SignalInfo) : M S unit :=
  s ← getM;
  let '(b, g) := sg_send_thread tid sig (sigs s) in
  putM (s <| sigs := g |>);;
  if b then interrupt tid else mret tt.

Definition send_signal_to_thread (tgid : option Z) (tid : Z) (sig : option SignalInfo) : M S unit :=
  s ← getM;
  task ← liftR (get_task tid s);
  pid ← liftR (ok_or OperationNotPermitted (mjoin (live_tasks s !! task)));
  if match tgid with Some tgid => negb (pid =? tgid) | None => false end then failM NoSuchProcess
  else match sig with Some sig => send_signal_thread_inner task sig | None => mret tt end.

Definition send_signal_to_process (pid : Z) (sig : option SignalInfo) : M S unit :=
  s ← getM;
  p ← liftR (get_process_data pid s);
  match sig with
  | None => mret tt
  | Some sig =>
      let '(o, g) := sg_send_proc p sig (sigs s) in
      putM (s <| sigs := g |>);;
      match o with
      | Some tid => s ← getM; match get_task tid s with Ok task => interrupt task | _ => mret tt end
      | None => mret tt
      end
  end.

(** [for proc in pg.processes() { send_signal_to_process(..)?; }] *)
Fixpoint send_each (l : list Z) (sig : SignalInfo) : M S unit :=
  match l with
  | [] => mret tt
  | pid :: l => send_signal_to_process pid (Some sig);; send_each l sig
  end.

Definition send_signal_to_process_group (pgid : Z) (sig : option SignalInfo) : M S unit :=
  s ← getM;
  pg ← liftR (get_process_group pgid s);
  match sig with None => mret tt | Some sig => send_each (pt_members (tree s) pg) sig end.

(** The same with [let _ =]: errors are ignored. *)
Definition ignore {A} (m : M S A) : M S unit := λ s,
  match m s with (Panic, s') => (Panic, s') | (_, s') => (Ok tt, s') end.
Fixpoint each_ignored (f : Z → M S unit) (l : list Z) : M S unit :=
  match l with [] => mret tt | x :: l => ignore (f x);; each_ignored f l end.

Definition make_siginfo (signo code : Z) : res (option SignalInfo) :=
  if signo =? 0 then Ok None else signo ← parse_signo signo; Ok (Some (mkSignalInfo signo code cur_pid)).

Definition sys_kill (pid signo : Z) : M S Z :=
  sig ← liftR (make_siginfo signo SI_USER);
  (if 1 <=? pid then send_signal_to_process pid sig
   else if pid =? 0 then
     s ← getM; send_signal_to_process_group (pt_pgid (tree s) (pt_group (tree s) cur_pid)) sig
   else if pid =? -1 then
     match sig with
     | Some sig =>
         s ← getM;
         each_ignored (λ p, send_signal_to_process p (Some sig))
           (filter (λ p, negb (pt_is_init (tree s) p || (p =? cur_pid))) (processes s))
     | None => mret tt
     end
   else send_signal_to_process_group (as_u32 (as_i32 (- pid))) sig);;
  mret 0.

Definition sys_tkill (tid signo : Z) : M S Z :=
  sig ← liftR (make_siginfo signo SI_TKILL); send_signal_to_thread None tid sig;; mret 0.
Definition sys_tgkill (tgid tid signo : Z) : M S Z :=
  sig ← liftR (make_siginfo signo SI_TKILL); send_signal_to_thread (Some tgid) tid sig;; mret 0.

(** [read_info] is the read of the caller's [SignalInfo]. *)
Definition make_queue_signal_info (read_info : res SignalInfo) (tgid signo : Z) : res (option SignalInfo) :=
  if signo =? 0 then Ok None
  else
    signo ← parse_signo signo;
    sig ← read_info;
    if negb (cur_pid =? tgid) && ((0 <=? si_code sig) || (si_code sig =? SI_TKILL)) then Err OperationNotPermitted
    else Ok (Some (mkSignalInfo signo (si_code sig) (si_pid sig))).

Definition check_sigset_size (size : Z) : res unit :=
  if negb (size =? 8) && negb (size =? 0) then Err InvalidInput else Ok tt.

Definition sys_rt_sigqueueinfo (read_info : res SignalInfo) (tgid signo sigsetsize : Z) : M S Z :=
  liftR (check_sigset_size sigsetsize);;
  sig ← liftR (make_queue_signal_info read_info tgid signo);
  send_signal_to_process tgid sig;; mret 0.
Definition sys_rt_tgsigqueueinfo (read_info : res SignalInfo) (tgid tid signo sigsetsize : Z) : M S Z :=
  liftR (check_sigset_size sigsetsize);;
  sig ← liftR (make_queue_signal_info read_info tgid signo);
  send_signal_to_thread (Some tgid) tid sig;; mret 0.

(** ** Exit *)

(** [do_exit] of the calling thread from [exit_thread] on; what it does before
    is in the files on futexes, and what the call to the shared memory manager
    does in that on shared memory. *)
Definition notify_parent (pid : Z) : M S unit :=
  s ← getM;
  match pt_parent (tree s) pid with
  | None => mret tt
  | Some parent =>
      match mjoin (live_data s !! pid) with
      | Some signo => ignore (send_signal_to_process parent (Some (new_kernel signo)))
      | None => mret tt
      end;;
      s ← getM;
      match get_process_data parent s with
      | Ok data => modifyM (λ s, s <| child_exit_woken ::= λ l, l ++ [data] |>)
      | _ => mret tt
      end
  end.

(** The other threads are told to stop. *)
Definition stop_group (group_exit : bool) : M S unit :=
  s ← getM;
  if group_exit && negb (pt_is_group_exited (tree s) cur_pid) then
    modifyM (λ s, s <| tree ::= pt_group_exit cur_pid |>);;
    s ← getM;
    each_ignored (λ tid, send_signal_to_thread None tid (Some (new_kernel SIGKILL))) (pt_threads (tree s) cur_pid)
  else mret tt.

Definition exit_process (exit_code : Z) (group_exit : bool) : M S unit :=
  s ← getM;
  let '(last, t) := pt_exit_thread cur_pid cur_tid exit_code (tree s) in
  putM (s <| tree := t |>);;
  (if (last : bool) then
     on_tree (pt_exit cur_pid);;
     notify_parent cur_pid;;
     modifyM (λ s, s <| exit_woken ::= λ l, l ++ [cur_pid] |> <| shm_cleared ::= λ l, l ++ [cur_pid] |>)
   else mret tt);;
  stop_group group_exit;;
  modifyM (λ s, s <| exited ::= λ x, {[cur_tid]} ∪ x |>).

(** ** Waiting for a child *)

Definition WNOHANG : Z := 1.
Definition WNOWAIT : Z := 0x1000000.

Inductive WaitPid := WaitAny | WaitOne (pid : Z) | WaitGroup (pgid : Z).
Definition WaitPid_apply (t : T) (w : WaitPid) (child : Z) : bool :=
  match w with
  | WaitAny => true
  | WaitOne pid => child =? pid
  | WaitGroup pgid => pt_pgid t (pt_group t child) =? pgid
  end.

Definition wait_target (t : T) (pid : Z) : WaitPid :=
  if pid =? -1 then WaitAny
  else if pid =? 0 then WaitGroup (pt_pgid t (pt_group t cur_pid))
  else if pid >? 0 then WaitOne pid
  else WaitGroup (as_u32 (as_i32 (- pid))).

Definition wait_children (t : T) (pid : Z) : list Z :=
  filter (WaitPid_apply t (wait_target t pid)) (pt_children t cur_pid).

(** [check_children]: [Ok None] if there is nothing to report yet *)
Definition check_children (children : list Z) (options exit_code : Z) : M S (option Z) :=
  s ← getM;
  match find (pt_is_zombie (tree s)) children with
  | Some child =>
      (if negb (has_flag options WNOWAIT) then on_tree (pt_free child) else mret tt);;
      (if negb (exit_code =? 0) then
         s ← getM;
         let '(r, v) := vm_write exit_code (pt_exit_code (tree s) child) (user s) in
         putM (s <| user := v |>);; liftR r
       else mret tt);;
      mret (Some child)
  | None => if has_flag options WNOHANG then mret (Some 0) else mret None
  end.

(** The wait: [env] are the changes by others before each new attempt; when
    they are used up, a signal interrupts the wait. *)
Fixpoint wait_loop (children : list Z) (options exit_code : Z) (env : list (S → S)) : M S Z :=
  o ← check_children children options exit_code;
  match o with
  | Some r => mret r
  | None =>
      match env with
      | [] => failM Interrupted
      | f :: env => modifyM f;; wait_loop children options exit_code env
      end
  end.

Definition sys_waitpid (pid exit_code options : Z) (env : list (S → S)) : M S Z :=
  s ← getM;
  let children := wait_children (tree s) pid in
  match children with
  | [] => failM (Linux ECHILD)
  | _ => wait_loop children options exit_code env
  end.

(** ** Groups and sessions *)

Definition sys_getsid (pid : Z) : M S Z :=
  s ← getM;
  p ← liftR (get_process_data pid s);
  mret (pt_sid (tree s) (pt_session (tree s) (pt_group (tree s) p))).

Definition sys_getpgid (pid : Z) : M S Z :=
  s ← getM;
  p ← liftR (get_process_data pid s);
  mret (pt_pgid (tree s) (pt_group (tree s) p)).

Definition sys_setsid : M S Z :=
  s ← getM;
  if is_ok (get_process_group cur_pid s) then failM OperationNotPermitted
  else
    let '(o, t) := pt_create_session cur_pid (tree s) in
    putM (s <| tree := t |>);;
    match o with Some session => mret (pt_sid t session) | None => mret cur_pid end.

Definition sys_setpgid (pid pgid : Z) : M S Z :=
  s ← getM;
  p ← liftR (get_process_data pid s);
  if pgid =? 0 then modifyM (λ s, s <| tree ::= pt_create_group p |>);; mret 0
  else
    g ← liftR (get_process_group pgid s);
    let '(b, t) := pt_move_to_group p g (tree s) in
    putM (s <| tree := t |>);;
    if (b : bool) then mret 0 else failM OperationNotPermitted.

Definition sys_getpid : M S Z := mret cur_pid.
Definition sys_getppid : M S Z := s ← getM; liftR (ok_or NoSuchProcess (pt_parent (tree s) cur_pid)).
Definition sys_gettid : M S Z := mret cur_tid.
End Process.

(** ** What the interfaces promise *)

(** [exit_thread] sets the exit code unless the group has exited, and tells the
    last thread; [exit] makes a process a zombie (not [init]); [free] removes a
    zombie from its parent. *)
Class ProcTreeOk (T : Type) `{ProcTree T} := {
  pt_exit_thread_ok pid tid code t b t' : pt_exit_thread pid tid code t = (b, t') →
    (pt_threads t pid = [tid] → b = true)
    ∧ pt_exit_code t' pid = (if pt_is_group_exited t pid then pt_exit_code t pid else code)
    ∧ (∀ p, pt_children t' p = pt_children t p) ∧ (∀ p, pt_is_zombie t' p = pt_is_zombie t p)
    ∧ (∀ p, pt_is_init t' p = pt_is_init t p) ∧ (∀ p, pt_parent t' p = pt_parent t p);
  pt_exit_ok pid t r t' : pt_exit pid t = (r, t') → pt_is_init t pid = false →
    r = Ok tt ∧ (∀ p, pt_is_zombie t' p = bool_decide (p = pid) || pt_is_zombie t p)
    ∧ (∀ p, pt_exit_code t' p = pt_exit_code t p) ∧ (∀ p, p ≠ pid → pt_children t p ⊆ pt_children t' p)
    ∧ pt_parent t' pid = pt_parent t pid;
  pt_group_exit_ok pid t p :
    pt_children (pt_group_exit pid t) p = pt_children t p ∧ pt_is_zombie (pt_group_exit pid t) p = pt_is_zombie t p
    ∧ pt_exit_code (pt_group_exit pid t) p = pt_exit_code t p;
  pt_free_ok pid t r t' : pt_free pid t = (r, t') → pt_is_zombie t pid = true →
    r = Ok tt ∧ (∀ p, pt_children t' p = filter (λ c, c ≠ pid) (pt_children t p))
    ∧ (∀ p, pt_is_zombie t' p = pt_is_zombie t p) ∧ ∀ p, pt_exit_code t' p = pt_exit_code t p;
}.

(** The signals sent to processes so far *)
Class SigSysOk (G : Type) `{SigSys G} := {
  sg_log : G → list (Z * SignalInfo);
  sg_send_proc_log p sig g : sg_log (sg_send_proc p sig g).2 = sg_log g ++ [(p, sig)];
}.

Section Facts.
Context {T G V : Type} `{ProcTreeOk T, SigSysOk G, VmPtrOk V Z}.
Abbreviation S := (Sys T G V).
Implicit Types (s : S) (cur_tid cur_pid : Z).

(** Sending a signal changes neither the tree, user memory nor the tables. *)
Definition only_signals s s' : Prop :=
  tree s' = tree s ∧ user s' = user s ∧ live_tasks s' = live_tasks s ∧ live_data s' = live_data s
  ∧ task_table s' = task_table s ∧ process_table s' = process_table s ∧ group_table s' = group_table s.
#[local] Instance only_signals_refl : Reflexive only_signals.
Proof. intros s. by split_and!. Qed.
#[local] Instance only_signals_trans : Transitive only_signals.
Proof. intros s1 s2 s3 (?&?&?&?&?&?&?) (?&?&?&?&?&?&?). split_and!; congruence. Qed.

Lemma send_signal_to_process_only ct cp pid sig s : only_signals s (send_signal_to_process ct cp pid sig s).2.
Proof.
  unfold send_signal_to_process. unfold_m. destruct (get_process_data _ _ _) as [p| |]; [|done..].
  destruct sig as [sig|]; [|done]. destruct (sg_send_proc p sig (sigs s)) as [[tid|] g]; [|by split_and!].
  destruct (get_task _ _ _); by split_and!.
Qed.

Lemma send_signal_to_thread_only ct tgid tid sig s : only_signals s (send_signal_to_thread ct tgid tid sig s).2.
Proof.
  unfold send_signal_to_thread, send_signal_thread_inner. unfold_m. destruct (get_task _ _ _) as [t| |]; [|done..].
  destruct (ok_or _ _); [|done..]. destruct (match tgid with Some _ => _ | None => _ end); [done|].
  destruct sig as [sig|]; [|done]. destruct (sg_send_thread t sig (sigs s)) as [[] g]; by split_and!.
Qed.

Lemma ignore_only {A} (m : M S A) s : only_signals s (m s).2 → only_signals s (ignore m s).2.
Proof. unfold ignore. by destruct (m s) as [[]]. Qed.
Lemma each_ignored_only f l s : (∀ x s, only_signals s (f x s).2) → only_signals s (each_ignored f l s).2.
Proof.
  intros Hf. revert s. induction l as [|x l IH]; intros s; cbn [each_ignored]; [done|]. unfold_m.
  pose proof (ignore_only (f x) s (Hf x s)) as Hx. destruct (ignore (f x) s) as [[[]| |] s1]; cbn in *; [|done..].
  etrans; [exact Hx|apply IH].
Qed.

Lemma send_signal_to_process_no_panic ct cp pid sig s : (send_signal_to_process ct cp pid sig s).1 ≠ Panic.
Proof.
  unfold send_signal_to_process, get_process_data. unfold_m. repeat (case_match; try done; simplify_eq).
Qed.
Lemma send_signal_to_thread_no_panic ct tgid tid sig s : (send_signal_to_thread ct tgid tid sig s).1 ≠ Panic.
Proof.
  unfold send_signal_to_thread, send_signal_thread_inner, get_task, ok_or. unfold_m.
  repeat (case_match; try done; simplify_eq).
Qed.
Lemma ignore_ok {A} (m : M S A) s : (m s).1 ≠ Panic → (ignore m s).1 = Ok tt.
Proof. unfold ignore. by destruct (m s) as [[]]. Qed.
Lemma each_ignored_ok f l s : (∀ x s, (f x s).1 ≠ Panic) → (each_ignored f l s).1 = Ok tt.
Proof.
  intros Hf. revert s. induction l as [|x l IH]; intros s; cbn [each_ignored]; [done|]. unfold_m.
  pose proof (ignore_ok (f x) s (Hf x s)) as Hx. destruct (ignore (f x) s) as [r s1]. cbn in Hx. subst r. apply IH.
Qed.

Lemma notify_parent_spec ct cp pid s :
  (notify_parent ct cp pid s).1 = Ok tt ∧ only_signals s (notify_parent ct cp pid s).2.
Proof.
  unfold notify_parent. unfold_m. destruct (pt_parent (tree s) pid) as [parent|]; [|done].
  destruct (mjoin (live_data s !! pid)) as [signo|].
  2:{ destruct (get_process_data _ _ _); by split_and!. }
  set (m := send_signal_to_process _ _ _ _).
  pose proof (ignore_ok m s (send_signal_to_process_no_panic _ _ _ _ _)) as Hr.
  pose proof (ignore_only m s (send_signal_to_process_only _ _ _ _ _)) as Ho.
  destruct (ignore m s) as [r s1]. cbn in Hr, Ho. subst r.
  destruct (get_process_data _ _ _); (split; [done|]); [|done..]. etrans; [exact Ho|by split_and!].
Qed.

Lemma stop_group_spec ct cp group_exit s :
  ∃ s', stop_group ct cp group_exit s = (Ok tt, s')
    ∧ user s' = user s
    ∧ ∀ p, pt_children (tree s') p = pt_children (tree s) p ∧ pt_is_zombie (tree s') p = pt_is_zombie (tree s) p
           ∧ pt_exit_code (tree s') p = pt_exit_code (tree s) p.
Proof.
  unfold stop_group. unfold_m. destruct (_ && _); [|by eexists]. set (s1 := setf tree _ _). set (f := λ tid : Z, _). set (l := pt_threads _ _).
  pose proof (each_ignored_ok f l s1 (λ x s, send_signal_to_thread_no_panic _ _ _ _ _)) as Hr.
  pose proof (each_ignored_only f l s1 (λ x s, send_signal_to_thread_only _ _ _ _ _)) as (Ht & Hu & _).
  destruct (each_ignored f l s1) as [r s2]. cbn [fst snd] in Hr, Ht, Hu. subst r. exists s2. split_and!; [done|by rewrite Hu|].
  intros p. rewrite Ht. apply pt_group_exit_ok.
Qed.

(** A thread that exits as the last one of its process leaves a zombie with
    its exit code, a child of its parent. *)
Lemma exit_process_spec ct cp code group_exit s :
  pt_threads (tree s) cp = [ct] → pt_is_group_exited (tree s) cp = false → pt_is_init (tree s) cp = false →
  ∃ s', exit_process ct cp code group_exit s = (Ok tt, s') ∧ user s' = user s
    ∧ pt_is_zombie (tree s') cp = true ∧ pt_exit_code (tree s') cp = code
    ∧ ∀ p, p ≠ cp → pt_children (tree s) p ⊆ pt_children (tree s') p.
Proof.
  intros Hthr Hg Hinit. unfold exit_process. unfold_m.
  destruct (pt_exit_thread cp ct code (tree s)) as [b t1] eqn:He.
  apply pt_exit_thread_ok in He as (Hb & Hcode & Hch & Hz & Hi & _). rewrite (Hb Hthr). rewrite Hg in Hcode.
  unfold on_tree. change (tree (s <| tree := t1 |>)) with t1. destruct (pt_exit cp t1) as [r t2] eqn:Hx.
  apply pt_exit_ok in Hx as (-> & Hz2 & Hc2 & Hch2 & _); [|by rewrite Hi].
  set (s2 := setf tree _ _). destruct (notify_parent_spec ct cp cp s2) as [Hn1 Hn2].
  destruct (notify_parent ct cp cp s2) as [rn s3]. cbn in Hn1, Hn2. subst rn.
  set (s3' := setf shm_cleared _ _). destruct (stop_group_spec ct cp group_exit s3') as (s4 & -> & Hu4 & Hf4).
  change (user s3') with (user s3) in Hu4. change (tree s3') with (tree s3) in Hf4.
  eexists. split; [done|]. destruct Hn2 as (Ht3 & Hu3 & _). cbn. cbn in Ht3, Hu3.
  split_and!; [by rewrite Hu4, Hu3|..].
  - rewrite (proj1 (proj2 (Hf4 cp))), Ht3, Hz2. by rewrite bool_decide_eq_true_2.
  - by rewrite (proj2 (proj2 (Hf4 cp))), Ht3, Hc2.
  - intros p Hp. rewrite (proj1 (Hf4 p)), Ht3, <- Hch. by apply Hch2.
Qed.

(** ** Waiting *)

Definition reaped (options c : Z) s s' : Prop :=
  (∀ p, pt_exit_code (tree s') p = pt_exit_code (tree s) p) ∧
  if has_flag options WNOWAIT then tree s' = tree s
  else ∀ p, pt_children (tree s') p = filter (λ x, x ≠ c) (pt_children (tree s) p).

(** The report of child [c]: it is taken from the tree, and then its exit code
    is written; the write can fail. *)
Definition reports (options ptr c : Z) s (r : res Z) s' : Prop :=
  reaped options c s s' ∧
  (r = Ok c ∧ (ptr ≠ 0 → vm_read (user s') ptr = Ok (pt_exit_code (tree s) c))
   ∨ ∃ e, r = Err e ∧ ptr ≠ 0 ∧ (vm_write ptr (pt_exit_code (tree s) c) (user s)).1 = Err e).

Lemma check_children_zombie children options ptr s c :
  find (pt_is_zombie (tree s)) children = Some c →
  ∃ r s', check_children children options ptr s = (x ← r; Ok (Some x), s') ∧ reports options ptr c s r s'.
Proof.
  intros Hf. unfold check_children. unfold_m. rewrite Hf. apply find_some in Hf as [Hin Hz].
  assert (∃ s1, (if negb (has_flag options WNOWAIT) then on_tree (pt_free c) else λ s : S, (Ok (), s)) s = (Ok (), s1)
    ∧ user s1 = user s ∧ reaped options c s s1) as (s1 & -> & Hu & Hr).
  { unfold reaped. destruct (has_flag options WNOWAIT); [by exists s|]. cbn [negb]. unfold on_tree.
    destruct (pt_free c (tree s)) as [r t] eqn:Hfree. apply pt_free_ok in Hfree as (-> & ? & _ & ?); [|done].
    by eexists. }
  destruct (Z.eqb_spec ptr 0) as [->|Hp]; cbn [negb].
  { exists (Ok c), s1. split; [done|]. split; [done|by left]. }
  rewrite (proj1 Hr c), Hu. destruct (vm_write ptr (pt_exit_code (tree s) c) (user s)) as [w v] eqn:Hw.
  destruct w as [[]|e|].
  - eexists (Ok c), _. split; [done|]. split; [exact Hr|]. left. split; [done|]. intros _. by eapply vm_read_write.
  - eexists (Err e), _. split; [done|]. split; [exact Hr|]. right. exists e. by rewrite Hw.
  - exfalso. apply (vm_write_no_panic (user s) ptr (pt_exit_code (tree s) c)). by rewrite Hw.
Qed.

Lemma check_children_none children options ptr s : find (pt_is_zombie (tree s)) children = None →
  check_children children options ptr s = (Ok (if has_flag options WNOHANG then Some 0 else None), s).
Proof. intros Hf. unfold check_children. unfold_m. rewrite Hf. by destruct (has_flag options WNOHANG). Qed.

Definition after (env : list (S → S)) s : S := foldl (λ s f, f s) s env.

(** A wait comes to the first state in which there is something to report. *)
Lemma wait_loop_spec children options ptr env : ∀ s,
  ∃ k r s', wait_loop children options ptr env s = (r, s') ∧ (k ≤ length env)%nat
    ∧ (∀ j, (j < k)%nat → find (pt_is_zombie (tree (after (take j env) s))) children = None)
    ∧ let s0 := after (take k env) s in
      match find (pt_is_zombie (tree s0)) children with
      | Some c => reports options ptr c s0 r s'
      | None => s' = s0 ∧ if has_flag options WNOHANG then r = Ok 0 else k = length env ∧ r = Err Interrupted
      end.
Proof.
  induction env as [|f env IH]; intros s; cbn [wait_loop];
    destruct (find (pt_is_zombie (tree s)) children) as [c|] eqn:Hf.
  1,3: destruct (check_children_zombie children options ptr s c Hf) as (r & s' & Hc & Hr); exists O, r, s';
    unfold mbind, M_bind; rewrite Hc; cbn [take after foldl]; rewrite Hf;
    (split_and!; [by destruct r|lia|lia|done]).
  all: rewrite (bind_ok _ _ _ _ _ (check_children_none children options ptr s Hf)).
  - exists O. cbn [take after foldl]. rewrite Hf.
    destruct (has_flag options WNOHANG); eexists _, s; (split_and!; [done|done|lia|..]); done.
  - destruct (has_flag options WNOHANG) eqn:Hn.
    { exists O, (Ok 0), s. cbn [take after foldl]. rewrite Hf. split_and!; done || lia. }
    destruct (IH (f s)) as (k & r & s' & Hw & Hk & Hj & Hend). exists (Datatypes.S k), r, s'.
    split_and!; [done|cbn; lia| |].
    + intros [|j] Hjk; [done|]. apply Hj. lia.
    + change (after (take (Datatypes.S k) (f :: env)) s) with (after (take k env) (f s)). cbv zeta in *.
      destruct (find (pt_is_zombie (tree (after (take k env) (f s)))) children); [done|].
      destruct Hend as (? & ? & ?). split_and!; [done|cbn; lia|done].
Qed.

(** [waitpid].  Without a matching child it fails with [ECHILD].  Otherwise
    it sees the states [after (take k env) s] one after the other until one of
    its children is a zombie: the first such child in the list is removed from
    the tree (with [WNOWAIT] it stays), its exit code is stored at [ptr] and its
    number returned.  If there is none, [WNOHANG] returns 0 at once, and
    without it the call goes on until a signal interrupts it.  The child is
    removed also when the store fails: then its exit code is lost. *)
Lemma waitpid_reports cp pid ptr options env s :
  let children := wait_children cp (tree s) pid in
  let zombie s := find (pt_is_zombie (tree s)) children in
  match children with
  | [] => sys_waitpid cp pid ptr options env s = (Err (Linux ECHILD), s)
  | _ =>
      ∃ k r s', sys_waitpid cp pid ptr options env s = (r, s') ∧ (k ≤ length env)%nat
        ∧ (∀ j, (j < k)%nat → zombie (after (take j env) s) = None)
        ∧ let s0 := after (take k env) s in
          match zombie s0 with
          | Some c =>
              (∀ p, pt_exit_code (tree s') p = pt_exit_code (tree s0) p)
              ∧ (if has_flag options WNOWAIT then tree s' = tree s0
                 else ∀ p, pt_children (tree s') p = filter (λ x, x ≠ c) (pt_children (tree s0) p))
              ∧ (r = Ok c ∧ (ptr ≠ 0 → vm_read (user s') ptr = Ok (pt_exit_code (tree s0) c))
                 ∨ ∃ e, r = Err e ∧ ptr ≠ 0 ∧ (vm_write ptr (pt_exit_code (tree s0) c) (user s0)).1 = Err e)
          | None => s' = s0 ∧ if has_flag options WNOHANG then r = Ok 0 else k = length env ∧ r = Err Interrupted
          end
  end.
Proof.
  cbv zeta. unfold sys_waitpid. unfold_m. destruct (wait_children cp (tree s) pid) as [|c l] eqn:Hc; [done|].
  destruct (wait_loop_spec (c :: l) options ptr env s) as (k & r & s' & Hw & Hk & Hj & Hend).
  exists k, r, s'. split_and!; [done..|]. cbv zeta in Hend.
  destruct (find (pt_is_zombie (tree (after (take k env) s))) (c :: l)); [|done]. destruct Hend as [[Hr1 Hr2] Hr].
  split_and!; done.
Qed.

(** ** Recipients of a signal *)

Lemma only_signals_found s s' p : only_signals s s' → data_found s' p = data_found s p.
Proof. intros (_ & _ & _ & Hl & _ & Hp & _). unfold data_found. by rewrite Hl, Hp. Qed.

Definition signalled s s' (l : list Z) (sig : SignalInfo) : Prop :=
  sg_log (sigs s') = sg_log (sigs s) ++ ((λ p, (p, sig)) <$> l).

Lemma signalled_cons s s1 s' p l sig :
  signalled s s1 [p] sig → signalled s1 s' l sig → signalled s s' (p :: l) sig.
Proof. unfold signalled. intros Hs ->. by rewrite Hs, <- app_assoc. Qed.

Lemma send_signal_to_process_log ct cp p sig s : p ≠ 0 →
  let '(r, s') := send_signal_to_process ct cp p (Some sig) s in
  if data_found s p then r = Ok tt ∧ signalled s s' [p] sig else r = Err NoSuchProcess ∧ s' = s.
Proof.
  intros Hp. unfold send_signal_to_process, get_process_data. unfold_m. rewrite (proj2 (Z.eqb_neq p 0) Hp).
  destruct (data_found s p); [|done]. pose proof (sg_send_proc_log p sig (sigs s)) as Hlog.
  destruct (sg_send_proc p sig (sigs s)) as [[tid|] g]; cbn in *; [destruct (get_task _ _ _)|]; by split.
Qed.

(** A group: its members get the signal up to the first one that is not found. *)
Lemma send_each_log ct cp sig l : ∀ s, 0 ∉ l →
  let '(r, s') := send_each ct cp l sig s in
  r = Ok tt ∧ signalled s s' l sig ∧ Forall (λ p, data_found s p = true) l
  ∨ ∃ l1 p l2, l = l1 ++ p :: l2 ∧ Forall (λ p, data_found s p = true) l1 ∧ data_found s p = false
      ∧ r = Err NoSuchProcess ∧ signalled s s' l1 sig.
Proof.
  induction l as [|p l IH]; intros s Hz0; cbn [send_each].
  { left. split_and!; [done| |done]. unfold signalled. by rewrite app_nil_r. }
  apply not_elem_of_cons in Hz0 as [Hp Hz0]. unfold mbind, M_bind.
  pose proof (send_signal_to_process_log ct cp p sig s ltac:(done)) as Hs.
  pose proof (send_signal_to_process_only ct cp p (Some sig) s) as Ho.
  destruct (send_signal_to_process ct cp p (Some sig) s) as [r1 s1]. cbn [snd] in Ho.
  destruct (data_found s p) eqn:Hd.
  - destruct Hs as [-> Hs]. specialize (IH s1 Hz0). destruct (send_each ct cp l sig s1) as [r s'].
    setoid_rewrite (only_signals_found _ _ _ Ho) in IH.
    destruct IH as [(-> & Hl & Hf)|(l1 & d & l2 & -> & Hf & Hd' & -> & Hl)].
    + left. split_and!; [done|by eapply signalled_cons|by constructor].
    + right. exists (p :: l1), d, l2. split_and!; [done|by constructor|done|done|by eapply signalled_cons].
  - destruct Hs as [-> ->]. right. exists [], p, l. split_and!; [done..|]. unfold signalled. by rewrite app_nil_r.
Qed.

Lemma each_ignored_log ct cp sig l : ∀ s, Forall (λ p, p ≠ 0 ∧ data_found s p = true) l →
  let '(r, s') := each_ignored (λ p, send_signal_to_process ct cp p (Some sig)) l s in
  r = Ok tt ∧ signalled s s' l sig.
Proof.
  induction l as [|p l IH]; intros s Hl; cbn [each_ignored].
  { split; [done|]. unfold signalled. by rewrite app_nil_r. }
  apply Forall_cons in Hl as [[Hp Hd] Hl]. unfold mbind, M_bind, ignore.
  pose proof (send_signal_to_process_log ct cp p sig s Hp) as Hs.
  pose proof (send_signal_to_process_only ct cp p (Some sig) s) as Ho.
  destruct (send_signal_to_process ct cp p (Some sig) s) as [r1 s1]. cbn [snd] in Ho.
  rewrite Hd in Hs. destruct Hs as [-> Hs].
  specialize (IH s1 ltac:(by setoid_rewrite (only_signals_found _ _ _ Ho))).
  destruct (each_ignored _ l s1) as [r s']. destruct IH as [-> Hl']. split; [done|by eapply signalled_cons].
Qed.

(** The processes of the group [pgid] that a signal to it reaches, and the
    answer *)
Definition group_signalled s (pgid : Z) (l : list Z) (r : res unit) : Prop :=
  match group_found s pgid with
  | None => r = Err NoSuchProcess ∧ l = []
  | Some g =>
      r = Ok tt ∧ l = pt_members (tree s) g ∧ Forall (λ p, data_found s p = true) l
      ∨ ∃ p l2, pt_members (tree s) g = l ++ p :: l2 ∧ Forall (λ p, data_found s p = true) l
          ∧ data_found s p = false ∧ r = Err NoSuchProcess
  end.

Lemma send_group_log ct cp pgid sig s : (∀ g, 0 ∉ pt_members (tree s) g) →
  let '(r, s') := send_signal_to_process_group ct cp pgid (Some sig) s in
  ∃ l, signalled s s' l sig ∧ group_signalled s pgid l r.
Proof.
  intros Hm0. unfold send_signal_to_process_group, get_process_group, group_signalled. unfold_m.
  destruct (group_found s pgid) as [g|]; cbn [ok_or].
  2:{ exists []. split; [|done]. unfold signalled. by rewrite app_nil_r. }
  pose proof (send_each_log ct cp sig (pt_members (tree s) g) s (Hm0 g)) as Hs.
  destruct (send_each _ _ _ _ _) as [r s'].
  destruct Hs as [(-> & Hl & Hf)|(l1 & p & l2 & E & Hf & Hd & -> & Hl)].
  - eexists. split; [exact Hl|]. by left.
  - exists l1. split; [done|]. right. by exists p, l2.
Qed.

Lemma kill_all_members cp s p :
  p ∈ filter (λ p, negb (pt_is_init (tree s) p || (p =? cp))) (processes s)
  ↔ data_found s p = true ∧ pt_is_init (tree s) p = false ∧ p ≠ cp.
Proof.
  unfold processes, data_found.
  rewrite !list_elem_of_filter, elem_of_elements, andb_true_iff, !bool_decide_eq_true, Is_true_true, negb_true_iff,
    orb_false_iff, Z.eqb_neq. tauto.
Qed.

(** C29: Who gets the signal of a [kill] call.  A positive number: that process,
    or nobody and [NoSuchProcess].  [-1]: every process that is found except
    [init] and the caller, each once, and the call succeeds.  Zero and numbers
    below [-1]: the members of the caller's group or of the group with that
    number, in order, but only up to the first member that is not found (a
    zombie's data is gone): the members behind it get nothing, and the call
    fails with [NoSuchProcess]. *)
Theorem kill_recipients ct cp pid signo sig s r s' :
  0 ∉ process_table s → (∀ g, 0 ∉ pt_members (tree s) g) → in_i32 pid →
  make_siginfo cp signo SI_USER = Ok (Some sig) → sys_kill ct cp pid signo s = (r, s') →
  ∃ l r0, r = (x ← r0; Ok 0) ∧ sg_log (sigs s') = sg_log (sigs s) ++ ((λ p, (p, sig)) <$> l)
    ∧ (1 ≤ pid → if data_found s pid then r0 = Ok tt ∧ l = [pid] else r0 = Err NoSuchProcess ∧ l = [])
    ∧ (pid = -1 → r0 = Ok tt ∧ NoDup l ∧
         ∀ p, p ∈ l ↔ data_found s p = true ∧ pt_is_init (tree s) p = false ∧ p ≠ cp)
    ∧ (pid = 0 → group_signalled s (pt_pgid (tree s) (pt_group (tree s) cp)) l r0)
    ∧ (pid < -1 → group_signalled s (- pid) l r0).
Proof.
  intros Hp0 Hm0 Hpid Hsig. unfold sys_kill. rewrite (bind_ok _ _ _ (Some sig) s) by (unfold liftR; by rewrite Hsig).
  unfold in_i32 in Hpid. destruct (Z.leb_spec 1 pid).
  { unfold mbind, M_bind. pose proof (send_signal_to_process_log ct cp pid sig s ltac:(lia)) as Hs.
    destruct (send_signal_to_process _ _ _ _ _) as [r1 s1]. intros Hr.
    exists (if data_found s pid then [pid] else []), r1.
    destruct (data_found s pid); destruct Hs as [-> Hs]; injection Hr as <- <-;
      (split_and!; [done| |intros; split; done|lia..]); [done|]. subst s1. by rewrite app_nil_r. }
  destruct (Z.eqb_spec pid 0) as [->|].
  { unfold_m. pose proof (send_group_log ct cp (pt_pgid (tree s) (pt_group (tree s) cp)) sig s Hm0) as Hs.
    destruct (send_signal_to_process_group _ _ _ _ _) as [r1 s1]. destruct Hs as (l & Hl & Hg). intros Hr.
    exists l, r1. split_and!; [by destruct r1; injection Hr as <- <-| |lia|lia|done|lia].
    by destruct r1; injection Hr as <- <-. }
  destruct (Z.eqb_spec pid (-1)) as [->|].
  { unfold_m. set (l := filter _ (processes s)).
    pose proof (kill_all_members cp s : ∀ p, p ∈ l ↔ _) as Hin.
    assert (NoDup l) by (apply NoDup_filter, NoDup_filter, NoDup_elements).
    pose proof (each_ignored_log ct cp sig l s) as Hs. destruct (each_ignored _ l s) as [r1 s1].
    destruct Hs as [-> Hs].
    { apply Forall_forall. intros p [Hd _]%Hin. split; [|done]. intros ->. revert Hd. unfold data_found.
      by rewrite bool_decide_eq_false_2. }
    intros [= <- <-]. exists l, (Ok tt). split_and!; done || lia. }
  assert (as_u32 (as_i32 (- pid)) = - pid) as ->.
  { unfold as_u32, as_i32, wraps, wrapu. rewrite (Z.mod_small (- pid)) by lia.
    destruct (Z.ltb_spec (- pid) (2 ^ (32 - 1))); [apply Z.mod_small; lia|].
    replace (- pid) with (2 ^ 31) by lia. done. }
  unfold_m. pose proof (send_group_log ct cp (- pid) sig s Hm0) as Hs.
  destruct (send_signal_to_process_group _ _ _ _ _) as [r1 s1]. destruct Hs as (l & Hl & Hg). intros Hr.
  exists l, r1. split_and!; [by destruct r1; injection Hr as <- <-| |lia|lia|lia|done].
  by destruct r1; injection Hr as <- <-.
Qed.

(** A wait for one process *)
Lemma wait_children_one (t : T) parent c : 0 < c →
  (∀ x, x ∈ wait_children parent t c ↔ x = c ∧ c ∈ pt_children t parent).
Proof.
  intros Hc x. unfold wait_children, wait_target.
  rewrite (proj2 (Z.eqb_neq c (-1))), (proj2 (Z.eqb_neq c 0)), (proj2 (Z.gtb_lt c 0)) by lia.
  rewrite list_elem_of_filter. cbn. split.
  - intros [->%Is_true_true%Z.eqb_eq ?]. done.
  - intros [-> ?]. by rewrite Z.eqb_refl.
Qed.

Lemma find_only (f : Z → bool) l c : l ≠ [] → (∀ x, x ∈ l → x = c) → find f l = if f c then Some c else None.
Proof.
  intros Hne Hl. induction l as [|x l IH]; [done|]. cbn. assert (x = c) as -> by (apply Hl; left).
  destruct (f c) eqn:Hf; [done|]. destruct l; [done|]. apply IH; [done|]. intros y Hy. apply Hl. by right.
Qed.
End Facts.

(** C14: A parent that waits for its child gets the child's exit status: the
    last thread of the child exits with [code] while the parent waits; the wait
    returns the child's number with [code] stored at [ptr], and the child can
    be waited for only once: a second call fails with [ECHILD]. *)
Theorem exit_status_reaches_parent {T G V} `{ProcTreeOk T, SigSysOk G, VmPtrOk V Z}
    parent c ctid code group_exit ptr options (s : Sys T G V) :
  c ∈ pt_children (tree s) parent → 0 < c → parent ≠ c → pt_is_zombie (tree s) c = false →
  pt_threads (tree s) c = [ctid] → pt_is_group_exited (tree s) c = false → pt_is_init (tree s) c = false →
  has_flag options WNOHANG = false → has_flag options WNOWAIT = false →
  ptr ≠ 0 → (∀ x, is_ok (vm_write ptr x (user s)).1 = true) →
  ∃ s', sys_waitpid parent c ptr options [λ s, (exit_process ctid c code group_exit s).2] s = (Ok c, s')
    ∧ vm_read (user s') ptr = Ok code
    ∧ ∀ env, (sys_waitpid parent c ptr options env s').1 = Err (Linux ECHILD).
Proof.
  intros Hin Hc Hpc Hz Hthr Hg Hi Hnh Hnw Hp Hwr.
  unfold sys_waitpid at 1. unfold_m.
  pose proof (wait_children_one (tree s) parent c Hc) as Hl. set (l := wait_children parent (tree s) c) in *.
  assert (Hne : l ≠ []) by (intros E; by apply (elem_of_nil (A := Z) c); rewrite <- E; apply Hl).
  assert (Hfind : ∀ f, find f l = if f c then Some c else None) by (intros f; apply find_only; naive_solver).
  destruct (exit_process_spec ctid c code group_exit s Hthr Hg Hi) as (s1 & He & Hu & Hz1 & Hcode & Hsub).
  assert (Hw : wait_loop l options ptr [λ s, (exit_process ctid c code group_exit s).2] s
               = (o ← check_children l options ptr; mret (default 0 o)) s1).
  { cbn [wait_loop]. rewrite (bind_ok _ _ _ _ _ (check_children_none l options ptr s ltac:(by rewrite Hfind, Hz))).
    rewrite Hnh. unfold_m. rewrite He. cbn [snd].
    destruct (check_children_zombie l options ptr s1 c ltac:(by rewrite Hfind, Hz1)) as ([x|e|] & s' & -> & _); done. }
  destruct l as [|x l'] eqn:El; [done|]. rewrite <- El in *. rewrite Hw. unfold_m.
  destruct (check_children_zombie l options ptr s1 c ltac:(by rewrite Hfind, Hz1)) as (r & s' & -> & [Hr Hrep]).
  destruct Hrep as [[-> Hread]|(e & -> & _ & Hbad)].
  2:{ specialize (Hwr (pt_exit_code (tree s1) c)). rewrite <- Hu, Hbad in Hwr. done. }
  exists s'. split_and!; [done|by rewrite Hread, Hcode|].
  intros env. unfold sys_waitpid. unfold_m. destruct (wait_children parent (tree s') c) as [|y l2] eqn:Hl2; [done|].
  exfalso. assert (Hy : y ∈ wait_children parent (tree s') c) by (rewrite Hl2; left).
  apply (wait_children_one _ _ _ Hc) in Hy as [_ Hy].
  destruct Hr as [_ Hr]. rewrite Hnw in Hr. rewrite Hr in Hy. apply list_elem_of_filter in Hy. naive_solver.
Qed.

(** ** A process tree *)

Record ptree := mkPtree {
  tr_children : Z → list Z;
  tr_parent : Z → option Z;
  tr_threads : Z → list Z;
  tr_zombie : Z → bool;
  tr_code : Z → Z;
  tr_gexit : Z → bool;
  tr_group : Z → Z;                          (* a group is its number *)
  tr_members : Z → list Z;
}.
#[export] Instance eta_ptree : Eta ptree := λ t,
  mkPtree (tr_children t) (tr_parent t) (tr_threads t) (tr_zombie t) (tr_code t) (tr_gexit t) (tr_group t) (tr_members t).

Definition upd {A} (k : Z) (v : A) (f : Z → A) : Z → A := λ x, if bool_decide (x = k) then v else f x.
Definition without (p : Z) (l : list Z) : list Z := filter (λ x, x ≠ p) l.
Definition tr_move (p g : Z) (t : ptree) : ptree :=
  t <| tr_members ::= λ m x, if bool_decide (x = g) then p :: without p (m x) else without p (m x) |>
    <| tr_group ::= upd p g |>.

#[export] Instance ptree_tree : ProcTree ptree := {
  pt_group := tr_group;
  pt_pgid _ g := g;
  pt_session _ _ := 1;
  pt_sid _ x := x;
  pt_group_alive t g := match tr_members t g with [] => false | _ => true end;
  pt_session_alive _ _ := true;
  pt_members := tr_members;
  pt_children := tr_children;
  pt_parent := tr_parent;
  pt_threads := tr_threads;
  pt_is_init _ p := p =? 1;
  pt_is_zombie := tr_zombie;
  pt_exit_code := tr_code;
  pt_is_group_exited := tr_gexit;
  pt_exit_thread pid tid code t :=
    let rest := without tid (tr_threads t pid) in
    (match rest with [] => true | _ => false end,
     t <| tr_threads ::= upd pid rest |> <| tr_code ::= if tr_gexit t pid then id else upd pid code |>);
  pt_exit pid := λ t,
    if pid =? 1 then (Panic, t)
    else (Ok tt, t <| tr_zombie ::= upd pid true |>
                   <| tr_children ::= λ f, upd 1 (f 1 ++ f pid) (upd pid [] f) |>);
  pt_free pid := λ t,
    if tr_zombie t pid then (Ok tt, t <| tr_children ::= λ f x, without pid (f x) |>) else (Panic, t);
  pt_group_exit pid t := t <| tr_gexit ::= upd pid true |>;
  pt_create_group pid := tr_move pid pid;
  pt_create_session pid t := (None, t);
  pt_move_to_group pid g t := (true, tr_move pid g t);
}.
#[export] Instance ptree_ok : ProcTreeOk ptree.
Proof.
  split.
  - intros pid tid code t b t' [= <- <-]. cbn. split_and!; try done.
    + intros ->. unfold without. rewrite filter_cons_False by (by intros []). done.
    + destruct (tr_gexit t pid); [done|]. unfold upd. by rewrite bool_decide_eq_true_2.
  - intros pid t r t'. cbn. intros Hx Hi. rewrite Hi in Hx. injection Hx as <- <-. cbn. split_and!; try done.
    intros p Hp. unfold upd. repeat case_bool_decide; subst; done || set_solver.
  - done.
  - intros pid t r t'. cbn. intros Hx Hz. rewrite Hz in Hx. by injection Hx as <- <-.
Qed.

(** Signal managers that keep a log and interrupt nobody *)
Abbreviation siglog := (list (Z * SignalInfo)).
#[export] Instance siglog_sigs : SigSys siglog := {
  sg_send_thread _ _ g := (false, g);
  sg_send_proc p sig g := (None, g ++ [(p, sig)]);
}.
#[export] Instance siglog_ok : SigSysOk siglog := {| sg_log g := g; sg_send_proc_log _ _ _ := eq_refl |}.

(** Process 2 with children 3, 4 and 5 in its group, of which 4 has lost its
    data *)
Definition family : ptree := mkPtree
  (λ p, if p =? 2 then [3; 4; 5] else []) (λ p, if (3 <=? p) && (p <=? 5) then Some 2 else None) (λ p, [p * 10])
  (λ _, false) (λ _, 0) (λ _, false) (λ _, 2) (λ g, if g =? 2 then [2; 3; 4; 5] else []).
Definition family_sys : Sys ptree siglog (cells Z) :=
  mkSys family [] ∅ ∅ {[2 := Some 17; 3 := Some 17; 5 := Some 17]} ∅ {[2; 3; 4; 5]} {[2 := 2]} ∅ [] [] [] [] ∅.

Lemma exit_status_reaches_parent_witness :
  ∃ s', sys_waitpid 2 3 0x1000 0 [λ s, (exit_process 30 3 0x700 false s).2] family_sys = (Ok 3, s')
    ∧ vm_read (user s') 0x1000 = Ok 0x700
    ∧ ∀ env, (sys_waitpid 2 3 0x1000 0 env s').1 = Err (Linux ECHILD).
Proof. apply (exit_status_reaches_parent 2 3 30 0x700 false 0x1000 0 family_sys); done || (cbn; set_solver). Defined.

Definition sigterm : SignalInfo := mkSignalInfo 15 SI_USER 2.
Lemma kill_recipients_witness :
  ∃ l r0, Err NoSuchProcess = (x ← r0; Ok 0)
    ∧ sg_log (sigs (sys_kill 20 2 (-2) 15 family_sys).2) = (λ p, (p, sigterm)) <$> l
    ∧ group_signalled family_sys 2 l r0.
Proof.
  destruct (kill_recipients 20 2 (-2) 15 sigterm family_sys (Err NoSuchProcess) (sys_kill 20 2 (-2) 15 family_sys).2)
    as (l & r0 & Hr & Hl & _ & _ & _ & Hg).
  - apply (bool_decide_unpack _). by vm_compute.
  - intros g. cbn. destruct (g =? 2); set_solver.
  - unfold in_i32. lia.
  - by vm_compute.
  - by vm_compute.
  - exists l, r0. split_and!; [exact Hr|exact Hl|apply Hg; lia].
Defined.

(** The members of a group behind one whose data is gone get no signal. *)
Example group_signal_stops :
  let '(r, s') := sys_kill 20 2 (-2) 15 family_sys in
  r = Err NoSuchProcess ∧ sg_log (sigs s') = [(2, sigterm); (3, sigterm)] ∧ data_found family_sys 5 = true.
Proof. by vm_compute. Qed.

(** A group made by [setpgid] is not in the table: a signal to it finds no
    process, though the process is in it. *)
Example new_group_not_found :
  let s := (sys_setpgid 3 0 0 family_sys).2 in
  pt_members (tree s) (pt_group (tree s) 3) = [3] ∧ sys_getpgid 3 0 s = (Ok 3, s)
  ∧ (sys_kill 30 3 (-3) 15 s).1 = Err NoSuchProcess ∧ (sys_setpgid 2 3 3 s).1 = Err NoSuchProcess.
Proof. split_and!; by vm_compute. Qed.

(** The list of children is made before the wait: a child another thread of the
    parent has reaped in the meantime is reported again. *)
Example child_reported_twice :
  let other s := (sys_waitpid 2 3 0 0 [] (exit_process 30 3 7 false s).2).2 in
  (sys_waitpid 2 3 0 0 [] (exit_process 30 3 7 false family_sys).2).1 = Ok 3
  ∧ (sys_waitpid 2 3 0 0 [other] family_sys).1 = Ok 3.
Proof. split; by vm_compute. Qed.

(** The signal number is cut to a byte: 265 is [SIGKILL]. *)
Example signo_cut : parse_signo 265 = Ok SIGKILL.
Proof. done. Qed.
