(* ===== verification/Jobs.v ===== *)
(** * Terminals and job control

    The foreground group and the session of a terminal
    ([api/src/terminal/job.rs]), and the terminal device on top of the line
    discipline: its [ioctl] calls, the binding to a session and the gate in
    front of a read ([api/src/vfs/dev/tty.rs]), with the defaults of
    [api/src/terminal/mod.rs].

    Weak references to groups and sessions are their object numbers; they can
    be followed as long as the process tree says that the object exists.  The
    line discipline is an interface here; it is the subject of the file on the
    line discipline. *)

From S2P Require Import Prelude Vm Pipe Tty Process.

Create HintDb quiet.

Record JobControl := mkJobControl {
  jc_foreground : option Z;
  jc_session : option Z;
  jc_fg_wakes : nat;                        (* [poll_fg.wake()] *)
}.
#[export] Instance eta_JobControl : Eta JobControl := λ j,
  mkJobControl (jc_foreground j) (jc_session j) (jc_fg_wakes j).
Definition JobControl_new : JobControl := mkJobControl None None 0.

(** [Termios2], [WindowSize] and [Terminal] *)
Record Termios2 := mkTermios2 { t2_termios : Termios; c_ispeed : Z; c_ospeed : Z }.
Definition Termios2_new (t : Termios) : Termios2 := mkTermios2 t B38400 B38400.
Record WindowSize := mkWindowSize { ws_row : Z; ws_col : Z; ws_xpixel : Z; ws_ypixel : Z }.
Record Terminal := mkTerminal {
  job_control : JobControl;
  window_size : WindowSize;
  termios : Termios2;
  pty_number : Z;
}.
#[export] Instance eta_Terminal : Eta Terminal := λ t,
  mkTerminal (job_control t) (window_size t) (termios t) (pty_number t).
Definition Terminal_default : Terminal :=
  mkTerminal JobControl_new (mkWindowSize 28 110 0 0) (Termios2_new Termios_default) 0.

(** The part of the line discipline the device uses *)
Class Ldisc (L : Type) := {
  ld_read : nat → M L bytes;
  ld_poll_read : L → bool;
  ld_drain_input : L → L;
}.

(** The session's terminal, by session, is kept in the process tree's crate. *)
Record TtySys (T L V : Type) := mkTtySys {
  ty_tree : T;
  ty_terminals : gmap Z Z;
  ty_term : Terminal;
  ty_ldisc : L;
  ty_user : V;
}.
Arguments mkTtySys {_ _ _}.
Arguments ty_tree {_ _ _}.
Arguments ty_terminals {_ _ _}.
Arguments ty_term {_ _ _}.
Arguments ty_ldisc {_ _ _}.
Arguments ty_user {_ _ _}.
#[export] Instance eta_TtySys T L V : Eta (TtySys T L V) := λ s,
  mkTtySys (ty_tree s) (ty_terminals s) (ty_term s) (ty_ldisc s) (ty_user s).

Definition TCGETS : Z := 0x5401.
Definition TCSETS : Z := 0x5402.
Definition TCSETSW : Z := 0x5403.
Definition TCSETSF : Z := 0x5404.
Definition TIOCSCTTY : Z := 0x540E.
Definition TIOCGPGRP : Z := 0x540F.
Definition TIOCSPGRP : Z := 0x5410.
Definition TIOCGWINSZ : Z := 0x5413.
Definition TIOCSWINSZ : Z := 0x5414.
Definition TIOCNOTTY : Z := 0x5422.
Definition TIOCGPTN : Z := 0x80045430.
Definition TIOCSPTLCK : Z := 0x40045431.
Definition TCGETS2 : Z := 0x802C542A.
Definition TCSETS2 : Z := 0x402C542B.
Definition TCSETSW2 : Z := 0x402C542C.
Definition TCSETSF2 : Z := 0x402C542D.

Section Jobs.
Context {T L V : Type} `{ProcTree T, Ldisc L}.
Context `{VmPtr V Termios, VmPtr V Termios2, VmPtr V WindowSize, VmPtr V Z}.
Abbreviation S := (TtySys T L V).

(** ** Job control *)

Definition foreground (t : T) (j : JobControl) : option Z :=
  match jc_foreground j with Some g => if pt_group_alive t g then Some g else None | None => None end.
Definition session (t : T) (j : JobControl) : option Z :=
  match jc_session j with Some x => if pt_session_alive t x then Some x else None | None => None end.

(** [pid] is the calling process. *)
Definition current_in_foreground (t : T) (pid : Z) (j : JobControl) : bool :=
  match foreground t j with None => true | Some g => pt_group t pid =? g end.

Definition set_foreground (t : T) (pg : Z) : M JobControl unit :=
  j ← getM;
  if bool_decide (jc_foreground j = Some pg) then mret tt
  else
    match session t j with
    | None => failM OperationNotPermitted
    | Some x =>
        if negb (pt_session t pg =? x) then failM OperationNotPermitted
        else putM (j <| jc_foreground := Some pg |> <| jc_fg_wakes ::= Datatypes.S |>)
    end.

Definition set_session (t : T) (x : Z) : M JobControl unit :=
  j ← getM;
  assertM (bool_decide (session t j = None));;
  putM (j <| jc_session := Some x |>).

(** [poll]: whether it is readable *)
Definition JobControl_poll (t : T) (pid : Z) (j : JobControl) : bool := current_in_foreground t pid j.

(** ** The device *)

Context (this : Z) (is_ptm : bool) (pid : Z).

Definition on_jc {A} (f : T → M JobControl A) : M S A := λ s,
  let '(r, j) := f (ty_tree s) (job_control (ty_term s)) in (r, s <| ty_term ::= λ t, t <| job_control := j |> |>).
Definition store {X} `{VmPtr V X} (p : Z) (x : X) : M S unit := λ s,
  let '(r, v) := vm_write p x (ty_user s) in (r, s <| ty_user := v |>).
Definition load {X} `{VmPtr V X} (p : Z) : M S X := λ s, (vm_read (ty_user s) p, s).

(** [m.unwrap()] *)
Definition unwrapM {A} (m : M S A) : M S A := λ s, match m s with (Ok a, s) => (Ok a, s) | (_, s) => (Panic, s) end.

Definition bind_to : M S unit :=
  s ← getM;
  let pg := pt_group (ty_tree s) pid in
  let x := pt_session (ty_tree s) pg in
  if negb (pt_sid (ty_tree s) x =? pid) then failM OperationNotPermitted
  else
    (* [session.set_terminal_with]: the closure runs if there is no terminal yet *)
    (if bool_decide (is_Some (ty_terminals s !! x)) then panicM
     else on_jc (λ t, set_session t x);; modifyM (λ s, s <| ty_terminals ::= <[x := this]> |>));;
    unwrapM (on_jc (λ t, set_foreground t pg)).

Definition tty_ioctl (cmd arg : Z) : M S Z :=
  (if cmd =? TCGETS then s ← getM; store arg (t2_termios (termios (ty_term s)))
   else if cmd =? TCGETS2 then s ← getM; store arg (termios (ty_term s))
   else if (cmd =? TCSETS) || (cmd =? TCSETSF) || (cmd =? TCSETSW) then
     t ← load (X := Termios) arg;
     modifyM (λ s, s <| ty_term ::= λ m, m <| termios := Termios2_new t |> |>);;
     if cmd =? TCSETSF then modifyM (λ s, s <| ty_ldisc ::= ld_drain_input |>) else mret tt
   else if (cmd =? TCSETS2) || (cmd =? TCSETSF2) || (cmd =? TCSETSW2) then
     t ← load (X := Termios2) arg;
     modifyM (λ s, s <| ty_term ::= λ m, m <| termios := t |> |>);;
     if cmd =? TCSETSF2 then modifyM (λ s, s <| ty_ldisc ::= ld_drain_input |>) else mret tt
   else if cmd =? TIOCGPGRP then
     s ← getM;
     g ← liftR (ok_or NoSuchProcess (foreground (ty_tree s) (job_control (ty_term s))));
     store arg (pt_pgid (ty_tree s) g)
   else if cmd =? TIOCSPGRP then on_jc (λ t, set_foreground t (pt_group t pid))
   else if cmd =? TIOCGWINSZ then s ← getM; store arg (window_size (ty_term s))
   else if cmd =? TIOCSWINSZ then
     w ← load (X := WindowSize) arg; modifyM (λ s, s <| ty_term ::= λ m, m <| window_size := w |> |>)
   else if cmd =? TIOCSPTLCK then mret tt
   else if cmd =? TIOCGPTN then s ← getM; store arg (pty_number (ty_term s))
   else if cmd =? TIOCSCTTY then bind_to
   else if cmd =? TIOCNOTTY then
     (* [session.unset_terminal]: only if it is this terminal *)
     modifyM (λ s,
       let x := pt_session (ty_tree s) (pt_group (ty_tree s) pid) in
       if bool_decide (ty_terminals s !! x = Some this) then s <| ty_terminals ::= delete x |> else s)
   else failM NotATty);;
  mret 0.

(** One attempt of [read_at] *)
Definition tty_read_at (len : nat) : M S bytes :=
  s ← getM;
  if is_ptm || current_in_foreground (ty_tree s) pid (job_control (ty_term s)) then
    let '(r, l) := ld_read len (ty_ldisc s) in
    putM (s <| ty_ldisc := l |>);; liftR r
  else failM WouldBlock.

(** [poll]: whether it is readable; it is always writable *)
Definition tty_readable (s : S) : bool :=
  let b := JobControl_poll (ty_tree s) pid (job_control (ty_term s)) in
  if is_ptm || b then ld_poll_read (ty_ldisc s) else b.

(** ** What job control keeps

    A group keeps its session alive, and a process its group. *)
Class JobTree := {
  job_session_alive (t : T) g : pt_group_alive t g = true → pt_session_alive t (pt_session t g) = true;
  job_group_alive (t : T) p : pt_group_alive t (pt_group t p) = true;
}.
Context `{!JobTree, !VmPtrOk V Termios, !VmPtrOk V Termios2, !VmPtrOk V WindowSize, !VmPtrOk V Z}.

(** The foreground group belongs to the session of the terminal. *)
Definition jobs_inv (t : T) (j : JobControl) : Prop :=
  ∀ g, foreground t j = Some g → session t j = Some (pt_session t g).

Lemma set_foreground_inv t g j : jobs_inv t j →
  let '(r, j') := set_foreground t g j in r ≠ Panic ∧ jobs_inv t j' ∧ jc_session j' = jc_session j
    ∧ (r = Ok tt → jc_foreground j' = Some g).
Proof.
  intros Hinv. unfold set_foreground. unfold_m. case_bool_decide; [done|].
  destruct (session t j) as [x|] eqn:Hx; [|done]. destruct (Z.eqb_spec (pt_session t g) x) as [Hg|]; [|done].
  cbn. split_and!; [done| |done|done]. intros g'. unfold foreground, session in *. cbn. destruct (pt_group_alive t g); [|done].
  intros [= <-]. by rewrite Hx, Hg.
Qed.

(** A terminal whose session is gone has no foreground group. *)
Lemma session_none_foreground t j : jobs_inv t j → session t j = None → foreground t j = None.
Proof. intros Hinv Hs. destruct (foreground t j) as [g|] eqn:Hf; [|done]. apply Hinv in Hf. congruence. Qed.

Definition jc (s : S) : JobControl := job_control (ty_term s).

(** A session just bound takes its leader's group as foreground. *)
Lemma set_foreground_bound t j : session t j = None → jobs_inv t j →
  let g := pt_group t pid in
  let j1 := j <| jc_session := Some (pt_session t g) |> in
  ∃ j2, set_foreground t g j1 = (Ok tt, j2) ∧ jobs_inv t j2 ∧ foreground t j2 = Some g.
Proof.
  intros Hs Hinv g j1. pose proof (job_group_alive t pid : pt_group_alive t g = true) as Hg.
  pose proof (job_session_alive t g Hg) as Hx.
  assert (Hs1 : session t j1 = Some (pt_session t g)) by (unfold session; cbn; by rewrite Hx).
  assert (Hinv1 : jobs_inv t j1).
  { intros g' Hf. pose proof (session_none_foreground t j Hinv Hs) as Hn. unfold foreground in *. cbn in Hf. congruence. }
  pose proof (set_foreground_inv t g j1 Hinv1) as Hset. revert Hset. unfold set_foreground. unfold_m.
  rewrite Hs1, Z.eqb_refl. cbn [negb]. case_bool_decide; intros (_ & Hi & _ & Hf); eexists; (split_and!; [done..|]);
    unfold foreground; rewrite (Hf eq_refl), Hg; done.
Qed.

(** When [bind_to] panics *)
Definition bind_panics (s : S) : Prop :=
  let x := pt_session (ty_tree s) (pt_group (ty_tree s) pid) in
  pt_sid (ty_tree s) x = pid ∧ (is_Some (ty_terminals s !! x) ∨ is_Some (session (ty_tree s) (jc s))).

Lemma bind_to_spec s r s' : jobs_inv (ty_tree s) (jc s) → bind_to s = (r, s') →
  ty_tree s' = ty_tree s ∧ (r = Panic ↔ bind_panics s) ∧ jobs_inv (ty_tree s) (jc s')
  ∧ (r = Ok tt → foreground (ty_tree s) (jc s') = Some (pt_group (ty_tree s) pid)).
Proof.
  intros Hinv. unfold bind_to, bind_panics. unfold_m. set (t := ty_tree s) in *. set (g := pt_group t pid) in *.
  destruct (Z.eqb_spec (pt_sid t (pt_session t g)) pid) as [Hsid|Hsid]; cbn [negb].
  2:{ intros [= <- <-]. split_and!; [done|naive_solver|done|done]. }
  case_bool_decide as Hterm.
  { intros [= <- <-]. split_and!; [done|naive_solver|done|done]. }
  unfold on_jc, set_session. unfold_m. fold t. fold (jc s). case_bool_decide as Hs.
  2:{ intros [= <- <-]. split_and!; [done| |done|done]. split; [|done]. intros _. split; [done|]. right.
      by destruct (session t (jc s)). }
  destruct (set_foreground_bound t (jc s) Hs Hinv) as (j2 & Hj2 & Hi2 & Hf2). fold g in Hj2, Hf2.
  unfold unwrapM.
  lazymatch goal with |- context [set_foreground ?u ?g' ?j] =>
    change (set_foreground u g' j) with (set_foreground t g ((jc s) <| jc_session := Some (pt_session t g) |>)) end.
  rewrite Hj2. intros [= <- <-]. split_and!; [done| |done|done].
  split; [done|]. intros [_ [?|Hx]]; [done|]. rewrite Hs in Hx. by destruct Hx.
Qed.

(** Computations that never panic and leave job control alone *)
Definition quiet {A} (m : M S A) : Prop := ∀ s, (m s).1 ≠ Panic ∧ ty_tree (m s).2 = ty_tree s ∧ jc (m s).2 = jc s.

Lemma quiet_ret {A} (a : A) : quiet (mret a).
Proof. intros s. by split_and!. Qed.
Lemma quiet_fail {A} e : quiet (failM (A := A) e).
Proof. intros s. by split_and!. Qed.
Lemma quiet_get : quiet getM.
Proof. intros s. by split_and!. Qed.
Lemma quiet_modify f : (∀ s, ty_tree (f s) = ty_tree s ∧ jc (f s) = jc s) → quiet (modifyM f).
Proof. intros Hf s. destruct (Hf s). by split_and!. Qed.
Lemma quiet_lift {A} (r : res A) : r ≠ Panic → quiet (liftR r).
Proof. intros ? s. by split_and!. Qed.
Lemma quiet_bind {A B} (m : M S A) (f : A → M S B) : quiet m → (∀ a, quiet (f a)) → quiet (m ≫= f).
Proof.
  intros Hm Hf s. destruct (Hm s) as (Hp & Ht & Hj). unfold mbind, M_bind.
  destruct (m s) as [[a|e|] s1]; cbn [fst snd] in *; [|done..].
  destruct (Hf a s1) as (? & ? & ?). split_and!; congruence.
Qed.
Lemma quiet_store {X} `{VmPtrOk V X} p (x : X) : quiet (store p x).
Proof.
  intros s. unfold store. pose proof (vm_write_no_panic (ty_user s) p x).
  by destruct (vm_write p x (ty_user s)) as [[]].
Qed.
Lemma quiet_load {X} `{VmPtrOk V X} p : quiet (load (X := X) p).
Proof. intros s. split_and!; [apply vm_read_no_panic|done..]. Qed.
#[local] Hint Resolve quiet_ret quiet_fail quiet_get quiet_bind quiet_store quiet_load : quiet.

(** A call other than the two on groups and sessions *)
Lemma tty_ioctl_quiet cmd arg : cmd ≠ TIOCSPGRP → cmd ≠ TIOCSCTTY → quiet (tty_ioctl cmd arg).
Proof.
  intros Hp Hc. unfold tty_ioctl. apply quiet_bind; [|auto with quiet].
  rewrite (proj2 (Z.eqb_neq cmd TIOCSPGRP) Hp), (proj2 (Z.eqb_neq cmd TIOCSCTTY) Hc).
  repeat match goal with |- context [if ?b then _ else _] => destruct b; cbn [orb] end;
    repeat (apply quiet_bind; [|intros]); auto with quiet;
    try (apply quiet_modify; intros; by try case_match).
  apply quiet_lift. by destruct (foreground _ _).
Qed.

(** C30: The [ioctl] calls of a terminal.  The foreground group, as long as it
    exists, always belongs to the session of the terminal.  A call panics if
    and only if a session leader asks for a controlling terminal
    ([TIOCSCTTY]) while its session has one or this terminal has a session
    that exists: the kernel stops where [EPERM] is due.  When [TIOCSPGRP] or
    [TIOCSCTTY] succeeds the caller's own group is in the foreground. *)
Theorem tty_ioctl_job_control cmd arg s r s' :
  jobs_inv (ty_tree s) (jc s) → tty_ioctl cmd arg s = (r, s') →
  ty_tree s' = ty_tree s ∧ jobs_inv (ty_tree s') (jc s')
  ∧ (r = Panic ↔ cmd = TIOCSCTTY ∧ bind_panics s)
  ∧ (is_ok r = true → cmd = TIOCSPGRP ∨ cmd = TIOCSCTTY →
       foreground (ty_tree s') (jc s') = Some (pt_group (ty_tree s) pid)
       ∧ current_in_foreground (ty_tree s') pid (jc s') = true).
Proof.
  intros Hinv Hcall.
  destruct (decide (cmd = TIOCSPGRP)) as [->|Hp]; [|destruct (decide (cmd = TIOCSCTTY)) as [->|Hc]].
  - pose proof (set_foreground_inv (ty_tree s) (pt_group (ty_tree s) pid) (jc s) Hinv) as Hset.
    change (tty_ioctl TIOCSPGRP arg s) with ((on_jc (λ t, set_foreground t (pt_group t pid));; mret 0) s) in Hcall.
    revert Hcall. unfold_m. unfold on_jc. fold (jc s).
    destruct (set_foreground _ _ (jc s)) as [r1 j]. destruct Hset as (Hnp & Hi & _ & Hf).
    assert (Hfg : r1 = Ok tt → foreground (ty_tree s) j = Some (pt_group (ty_tree s) pid)).
    { intros Hr. unfold foreground. by rewrite (Hf Hr), job_group_alive. }
    destruct r1 as [[]|e|]; intros [= <- <-]; (split_and!; [done|done|naive_solver|]); [|done..].
    intros _ _. unfold current_in_foreground. cbn. rewrite (Hfg eq_refl). by rewrite Z.eqb_refl.
  - change (tty_ioctl TIOCSCTTY arg s) with ((bind_to;; mret 0) s) in Hcall. revert Hcall. unfold_m.
    destruct (bind_to s) as [r1 s1] eqn:Hb. apply bind_to_spec in Hb as (Ht & Hp' & Hi & Hf); [|done].
    destruct r1 as [[]|e|]; intros [= <- <-]; rewrite Ht; (split_and!; [done|done|naive_solver|]); [|done..].
    intros _ _. unfold current_in_foreground. rewrite (Hf eq_refl). by rewrite Z.eqb_refl.
  - destruct (tty_ioctl_quiet cmd arg Hp Hc s) as (Hn & Ht & Hj). rewrite Hcall in Hn, Ht, Hj. cbn [fst snd] in *.
    rewrite Ht, Hj. split_and!; naive_solver.
Qed.
End Jobs.

(** ** A tree of session leaders, and a memory that is not mapped *)

Record solo := mkSolo {}.
#[export] Instance solo_tree : ProcTree solo := {
  pt_group _ p := p; pt_pgid _ g := g; pt_session _ g := g; pt_sid _ x := x;
  pt_group_alive _ _ := true; pt_session_alive _ _ := true;
  pt_members _ g := [g]; pt_children _ _ := []; pt_parent _ _ := None; pt_threads _ p := [p];
  pt_is_init _ p := p =? 1; pt_is_zombie _ _ := false; pt_exit_code _ _ := 0; pt_is_group_exited _ _ := false;
  pt_exit_thread _ _ _ t := (true, t); pt_exit _ := mret tt; pt_free _ := mret tt; pt_group_exit _ t := t;
  pt_create_group _ t := t; pt_create_session _ t := (None, t); pt_move_to_group _ _ t := (true, t);
}.
#[export] Instance solo_jobs : JobTree (T := solo).
Proof. by split. Qed.

#[export] Instance unit_ldisc : Ldisc unit := {
  ld_read _ := failM WouldBlock; ld_poll_read _ := false; ld_drain_input l := l
}.

Definition fresh_tty : TtySys solo unit unmapped := mkTtySys mkSolo ∅ Terminal_default tt mkUnmapped.

Lemma tty_ioctl_job_control_witness :
  ∃ s', tty_ioctl 0 7 TIOCSCTTY 0 fresh_tty = (Ok 0, s') ∧ foreground (ty_tree s') (jc s') = Some 7.
Proof.
  eexists. split; [by vm_compute|].
  refine (proj1 (proj2 (proj2 (proj2 (tty_ioctl_job_control 0 7 TIOCSCTTY 0 fresh_tty (Ok 0) _ _ _))) _ _)).
  - done.
  - by vm_compute.
  - done.
  - by right.
Defined.

(** A second [TIOCSCTTY] by the same session leader stops the kernel. *)
Example second_ctty_panics :
  (tty_ioctl 0 7 TIOCSCTTY 0 (tty_ioctl 0 7 TIOCSCTTY 0 fresh_tty).2).1 = Panic.
Proof. by vm_compute. Qed.

(** [TIOCSPGRP] does not look at its argument, the group to put into the
    foreground. *)
Example tiocspgrp_ignores_argument a b : tty_ioctl 0 7 TIOCSPGRP a fresh_tty = tty_ioctl 0 7 TIOCSPGRP b fresh_tty.
Proof. done. Qed.
