(* ===== verification/Pty.v ===== *)
(** * Pseudo terminals

    [api/src/vfs/dev/tty/pty.rs]: the two ring buffers between a master and a
    slave; the reader of the master and the processing of its input
    ([SimpleReader], [Processor::None] of [api/src/terminal/ldisc.rs]); the
    slave is a terminal of [Tty].  [ptm.rs] and [pts.rs]: the creation of
    pairs and the directory [/dev/pts]. *)

From S2P Require Import Prelude Bytes Text Vm Time Mmap SimpleVfs PollSelect FsPath Pipe Tty Jobs Devices.
Open Scope Z_scope.

Definition PTY_BUF_SIZE : nat := 4096.

(** ** Master and slave *)

(** The buffers between the sides, the buffer from which the master reads, and
    the input reader of the slave.  The settings of the terminal are shared. *)
Record PtyPair (R : Type) := mkPair {
  master_to_slave : R;
  slave_to_master : R;
  master_buf : R;
  slave_reader : InputReader R;
}.
Arguments mkPair {R}.
Arguments master_to_slave {R}.
Arguments slave_to_master {R}.
Arguments master_buf {R}.
Arguments slave_reader {R}.
#[export] Instance eta_PtyPair R : Eta (PtyPair R) := λ p,
  mkPair (master_to_slave p) (slave_to_master p) (master_buf p) (slave_reader p).

Section Pair.
Context {R : Type} `{RingBuf R}.
Abbreviation P := (PtyPair R).

Definition create_pty_pair : P :=
  mkPair (rb_new PTY_BUF_SIZE) (rb_new PTY_BUF_SIZE) (rb_new BUF_SIZE) (reader_new None).

(** [pop_slice] *)
Definition PtyReader_read (n : nat) (r : R) : bytes * R :=
  let k := (n `min` rb_occupied_len r)%nat in (take k (rb_content r), rb_advance_read k r).
(** What does not fit is discarded. *)
Definition PtyWriter_write (buf : bytes) (r : R) : R := rb_push_slice buf r.

(** [Tty::write_at] of both sides *)
Definition master_write (buf : bytes) : M P Z :=
  modifyM (λ p : P, p <| master_to_slave ::= PtyWriter_write buf |>);; mret (zlen buf).
Definition slave_write (buf : bytes) : M P Z :=
  modifyM (λ p : P, p <| slave_to_master ::= PtyWriter_write buf |>);; mret (zlen buf).

(** [SimpleReader::poll] *)
Definition simple_push (r : R) (ch : Z) : R :=
  let r := if ch =? chr_nl then rb_push_slice [chr_cr] r else r in
  rb_push_slice [ch] r.
Definition SimpleReader_poll (p : P) : P :=
  let '(read, r) := PtyReader_read BUF_SIZE (slave_to_master p) in
  p <| slave_to_master := r |> <| master_buf ::= λ b, foldl simple_push b read |>.

(** [LineDiscipline::poll_read] and [read] of the master *)
Definition master_poll_read : M P bool :=
  modifyM SimpleReader_poll;;
  p ← getM;
  mret (negb (rb_occupied_len (master_buf p) =? 0)%nat).
Definition master_read (n : nat) : M P bytes := λ p,
  if (n =? 0)%nat then (Ok [], p)
  else
    let '(got, r) := PtyReader_read n (master_buf p) in
    let p := p <| master_buf := r |> in
    if (length got =? 0)%nat then (Err WouldBlock, p) else (Ok got, p).

(** A turn of the task that processes the input of the slave: it takes input
    from the ring when it has none, and echoes into the other ring. *)
Definition slave_poll (t : Termios) : M P bool := λ p,
  let s := (slave_reader p) <| ir_echoed := [] |> in
  let input := rb_content (master_to_slave p) in
  let taken := match ir_pending s with [] => (BUF_SIZE `min` length input)%nat | _ => 0%nat end in
  let '(sent, s) := tty_poll t input s in
  (sent, p <| slave_reader := s |> <| master_to_slave ::= rb_advance_read taken |>
           <| slave_to_master ::= PtyWriter_write (ir_echoed s) |>).
(** An attempt of the slave to read *)
Definition slave_pop (n : nat) : M P bytes := λ p,
  let '(got, s) := pop n (slave_reader p) in (Ok got, p <| slave_reader := s |>).

(** ** What arrives on the other side *)

Inductive PtyOp :=
| MasterWrite (buf : bytes) | MasterPoll | MasterRead (n : nat) | SlaveWrite (buf : bytes) | SlavePoll | SlaveRead (n : nat).

(** The bytes given to the two rings, and the bytes read from the two sides *)
Record PtyLog := mkLog { l_in : bytes; l_out : bytes; l_master : bytes; l_slave : bytes }.
#[export] Instance eta_PtyLog : Eta PtyLog := λ l, mkLog (l_in l) (l_out l) (l_master l) (l_slave l).

Definition got_bytes {A} (f : A → bytes) (r : res A) : bytes := match r with Ok a => f a | _ => [] end.

Definition pty_op (t : Termios) (o : PtyOp) (l : PtyLog) (p : P) : PtyLog * P :=
  match o with
  | MasterWrite buf => (l <| l_in ::= λ x, x ++ buf |>, (master_write buf p).2)
  | MasterPoll => (l, (master_poll_read p).2)
  | MasterRead n => let '(r, p) := master_read n p in (l <| l_master ::= λ x, x ++ got_bytes id r |>, p)
  | SlaveWrite buf => (l <| l_out ::= λ x, x ++ buf |>, (slave_write buf p).2)
  | SlavePoll => let '(_, p) := slave_poll t p in (l <| l_out ::= λ x, x ++ ir_echoed (slave_reader p) |>, p)
  | SlaveRead n => let '(r, p) := slave_pop n p in (l <| l_slave ::= λ x, x ++ got_bytes id r |>, p)
  end.
Fixpoint pty_run (t : Termios) (ops : list PtyOp) (l : PtyLog) (p : P) : PtyLog * P :=
  match ops with
  | [] => (l, p)
  | o :: ops => let '(l, p) := pty_op t o l p in pty_run t ops l p
  end.

(** A newline is sent as carriage return and newline. *)
Definition onlcr (l : bytes) : bytes := l ≫= λ ch, if ch =? chr_nl then [chr_cr; ch] else [ch].

Context `{!RingBufOk R}.

(** [got] of the bytes [given] to a ring of [n] bytes or more have arrived, in
    order; all of them if they fit. *)
Definition carried (n : nat) (got given : bytes) : Prop :=
  got `sublist_of` given ∧ ((length given ≤ n)%nat → got = given).

Lemma onlcr_app a b : onlcr (a ++ b) = onlcr a ++ onlcr b.
Proof. apply bind_app. Qed.
Lemma onlcr_length l : (length l ≤ length (onlcr l))%nat.
Proof. induction l as [|ch l IH]; [done|]. cbn. destruct (ch =? chr_nl); cbn; unfold onlcr in IH; lia. Qed.
Lemma onlcr_sublist a b : a `sublist_of` b → onlcr a `sublist_of` onlcr b.
Proof.
  induction 1; [done| |].
  - by apply sublist_app.
  - by apply sublist_inserts_l.
Qed.

Lemma carried_push n a got r buf given : rb_capacity r = n → carried n (a ++ got ++ rb_content r) given →
  carried n (a ++ got ++ rb_content (rb_push_slice buf r)) (given ++ buf).
Proof.
  intros Hc [Hs He]. rewrite rb_push_content. pose proof (rb_vacant_spec r). unfold rb_occupied_len in *. split.
  - rewrite !app_assoc in *. apply sublist_app; [done|apply sublist_take].
  - rewrite length_app. intros Hl. specialize (He ltac:(lia)). rewrite <- He in *. rewrite !length_app in *.
    rewrite take_ge by lia. by rewrite !app_assoc.
Qed.

Lemma simple_push_fold read : ∀ r, ∃ x,
  rb_content (foldl simple_push r read) = rb_content r ++ x ∧ x `sublist_of` onlcr read
  ∧ rb_capacity (foldl simple_push r read) = rb_capacity r
  ∧ ((rb_occupied_len r + length (onlcr read) ≤ rb_capacity r)%nat → x = onlcr read).
Proof.
  induction read as [|ch read IH]; intros r; cbn [foldl].
  { exists []. by rewrite app_nil_r. }
  assert (H1 : ∃ y, rb_content (simple_push r ch) = rb_content r ++ y ∧ y `sublist_of` onlcr [ch]
    ∧ rb_capacity (simple_push r ch) = rb_capacity r
    ∧ ((rb_occupied_len r + length (onlcr [ch]) ≤ rb_capacity r)%nat → y = onlcr [ch])).
  { unfold simple_push, onlcr. cbn [mbind list_bind]. rewrite app_nil_r. pose proof (rb_vacant_spec r).
    destruct (ch =? chr_nl); rewrite !rb_push_content, !rb_push_capacity.
    - exists (take (rb_vacant_len r) [chr_cr] ++ take (rb_vacant_len (rb_push_slice [chr_cr] r)) [ch]).
      rewrite app_assoc. split_and!; [done| |done|].
      + apply (sublist_app _ [chr_cr] _ [ch]); apply sublist_take.
      + cbn [length]. intros Hl. pose proof (rb_vacant_spec (rb_push_slice [chr_cr] r)) as Hv.
        unfold rb_occupied_len in *. rewrite rb_push_content, rb_push_capacity, length_app, length_take in Hv.
        cbn [length] in Hv. rewrite !take_ge by (cbn [length]; lia). done.
    - exists (take (rb_vacant_len r) [ch]). split_and!; [done|apply sublist_take|done|].
      cbn [length]. intros Hl. rewrite take_ge by (cbn [length]; lia). done. }
  destruct H1 as (y & Hy & Hsub & Hcap & Hex). destruct (IH (simple_push r ch)) as (x & Hx & Hsx & Hcx & Hexx).
  exists (y ++ x). rewrite Hx, Hy, app_assoc, Hcx, Hcap. change (ch :: read) with ([ch] ++ read).
  rewrite onlcr_app. split_and!; [done|by apply sublist_app|done|]. rewrite length_app. intros Hl.
  specialize (Hex ltac:(lia)). rewrite <- Hex in *. f_equal. apply Hexx. unfold rb_occupied_len in *.
  rewrite Hy, Hcap, length_app. lia.
Qed.

(** [cs] are the characters the slave has processed. *)
Record pty_inv (t : Termios) (l : PtyLog) (p : P) (cs : bytes) : Prop := mkPtyInv {
  inv_caps : rb_capacity (master_to_slave p) = PTY_BUF_SIZE ∧ rb_capacity (slave_to_master p) = PTY_BUF_SIZE
    ∧ rb_capacity (master_buf p) = BUF_SIZE;
  inv_in : carried PTY_BUF_SIZE (cs ++ ir_pending (slave_reader p) ++ rb_content (master_to_slave p)) (l_in l);
  inv_slave : reader_ok (slave_reader p) ∧ abs (l_slave l) (slave_reader p) = spec_input t cs;
  inv_out : carried BUF_SIZE (l_master l ++ rb_content (master_buf p) ++ onlcr (rb_content (slave_to_master p))) (onlcr (l_out l));
}.

Lemma read_content n (r : R) : (PtyReader_read n r).1 = take n (rb_content r)
  ∧ rb_content (PtyReader_read n r).2 = drop n (rb_content r) ∧ rb_capacity (PtyReader_read n r).2 = rb_capacity r.
Proof.
  unfold PtyReader_read. cbn [fst snd]. rewrite rb_advance_content, rb_advance_capacity by lia.
  unfold rb_occupied_len. destruct (Nat.le_ge_cases n (length (rb_content r))).
  - by rewrite Nat.min_l by done.
  - rewrite Nat.min_r by done. by rewrite !(take_ge (rb_content r)), !(drop_ge (rb_content r)) by lia.
Qed.

Lemma out_push a b buf given (r : R) : rb_capacity r = PTY_BUF_SIZE →
  carried BUF_SIZE (a ++ b ++ onlcr (rb_content r)) (onlcr given) →
  carried BUF_SIZE (a ++ b ++ onlcr (rb_content (rb_push_slice buf r))) (onlcr (given ++ buf)).
Proof.
  intros Hc [Hs He]. rewrite rb_push_content, !onlcr_app. pose proof (rb_vacant_spec r).
  pose proof (onlcr_length buf). pose proof (onlcr_length (rb_content r)). unfold rb_occupied_len, PTY_BUF_SIZE, BUF_SIZE in *. split.
  - rewrite !app_assoc in *. apply sublist_app; [done|]. apply onlcr_sublist, sublist_take.
  - rewrite length_app. intros Hl. specialize (He ltac:(lia)). rewrite <- He in *. rewrite !length_app in *.
    rewrite take_ge by lia. by rewrite !app_assoc.
Qed.

Lemma master_poll_inv t l p cs : pty_inv t l p cs → pty_inv t l (SimpleReader_poll p) cs.
Proof.
  intros [(Hc1 & Hc2 & Hc3) Hin Hsl [Hs He]]. unfold SimpleReader_poll.
  destruct (read_content BUF_SIZE (slave_to_master p)) as (Hr & Hd & Hc). destruct (PtyReader_read _ _) as [read r].
  cbn [fst snd] in *.
  destruct (simple_push_fold read (master_buf p)) as (x & Hx & Hsx & Hcx & Hex).
  split; [cbn; by rewrite Hcx, Hc|done|done|]. cbn. rewrite Hx, Hd. cbn.
  assert (Hsplit : onlcr (rb_content (slave_to_master p)) = onlcr read ++ onlcr (drop BUF_SIZE (rb_content (slave_to_master p)))).
  { by rewrite <- onlcr_app, Hr, take_drop. }
  rewrite Hsplit in Hs, He. split.
  - etrans; [|exact Hs]. rewrite !app_assoc. do 2 (apply sublist_app; [|done]). done.
  - intros Hl. specialize (He Hl). rewrite Hex, <- !app_assoc; [done|]. unfold rb_occupied_len. rewrite Hc3, <- He in *.
    rewrite !length_app in Hl. lia.
Qed.

Lemma master_read_inv t l p cs n : pty_inv t l p cs →
  let '(r, p') := master_read n p in pty_inv t (l <| l_master ::= λ x, x ++ got_bytes id r |>) p' cs.
Proof.
  intros Hinv. unfold master_read. destruct (n =? 0)%nat eqn:Hn.
  { destruct Hinv. split; cbn; try done. by rewrite app_nil_r. }
  destruct Hinv as [(Hc1 & Hc2 & Hc3) Hin Hsl Hout]. destruct (read_content n (master_buf p)) as (Hr & Hd & Hc).
  destruct (PtyReader_read _ _) as [got r]. cbn [fst snd] in *.
  assert (Hm : (l_master l ++ got) ++ rb_content r = l_master l ++ rb_content (master_buf p)).
  { by rewrite <- app_assoc, Hr, Hd, take_drop. }
  destruct (Nat.eqb_spec (length got) 0) as [Hz|Hz].
  - destruct got; [|done]. split; cbn in *; [by rewrite Hc|done|done|]. rewrite !app_assoc in *. by rewrite Hm.
  - split; cbn in *; [by rewrite Hc|done|done|]. rewrite !app_assoc in *. by rewrite Hm.
Qed.

Lemma slave_poll_inv t l p cs : pty_inv t l p cs →
  let '(r, p') := slave_poll t p in r ≠ Panic
  ∧ ∃ cs', pty_inv t (l <| l_out ::= λ x, x ++ ir_echoed (slave_reader p') |>) p' (cs ++ cs').
Proof.
  intros [(Hc1 & Hc2 & Hc3) Hin [Hok Habs] Hout]. unfold slave_poll.
  set (s := (slave_reader p) <| ir_echoed := [] |>). set (input := rb_content (master_to_slave p)).
  destruct (tty_poll_spec t input s Hok) as (b & s' & cs' & -> & Hok' & Hpend & _ & Ha). split; [done|]. exists cs'.
  set (taken := match ir_pending s with [] => (BUF_SIZE `min` length input)%nat | _ => 0%nat end).
  assert (Htaken : (taken ≤ length input)%nat) by (unfold taken; case_match; lia).
  split; cbn -[rb_push_slice].
  - unfold PtyWriter_write. by rewrite rb_push_capacity, rb_advance_capacity.
  - rewrite rb_advance_content by done. fold input. fold input in Hin.
    replace ((cs ++ cs') ++ ir_pending s' ++ drop taken input) with (cs ++ ir_pending (slave_reader p) ++ input); [done|].
    rewrite <- app_assoc. f_equal. rewrite app_assoc, <- Hpend. unfold poll_start, taken.
    destruct Hok as [Hclear _]. change (ir_clear s) with (ir_clear (slave_reader p)). rewrite Hclear. change (ir_pending s) with (ir_pending (slave_reader p)).
    destruct (ir_pending (slave_reader p)) as [|c pend] eqn:Hpd; cbn -[BUF_SIZE].
    2: { change (ir_pending s) with (ir_pending (slave_reader p)). by rewrite Hpd, drop_0. }
    destruct (Nat.le_ge_cases BUF_SIZE (length input)).
    + by rewrite Nat.min_l, take_drop by done.
    + rewrite Nat.min_r, drop_ge, app_nil_r, take_ge by lia. done.
  - split; [done|]. rewrite Ha. unfold spec_input. rewrite foldl_app. f_equal. exact Habs.
  - by apply out_push.
Qed.

Lemma slave_pop_inv t l p cs n : pty_inv t l p cs →
  let '(r, p') := slave_pop n p in pty_inv t (l <| l_slave ::= λ x, x ++ got_bytes id r |>) p' cs.
Proof.
  intros [Hc Hin [Hok Habs] Hout]. unfold slave_pop. pose proof (pop_spec n (slave_reader p) Hok) as Hp.
  assert (Hpend : ir_pending (pop n (slave_reader p)).2 = ir_pending (slave_reader p)) by done.
  destruct (pop n (slave_reader p)) as [got s]. destruct Hp as [Hok' Ha]. cbn [snd] in Hpend.
  split; cbn; [done|by rewrite Hpend| |done]. split; [done|]. by rewrite Ha.
Qed.

Lemma pty_op_inv t o l p cs : pty_inv t l p cs →
  ∃ cs', pty_inv t (pty_op t o l p).1 (pty_op t o l p).2 (cs ++ cs').
Proof.
  intros Hinv. destruct o as [buf| |n|buf| |n]; cbn [pty_op fst snd].
  1-4, 6: exists []; rewrite app_nil_r.
  - destruct Hinv as [(? & ? & ?) ? ? ?]. split; unfold master_write, slave_write, PtyWriter_write; unfold_m; cbn; try done; [by rewrite rb_push_capacity|by apply carried_push].
  - by apply master_poll_inv.
  - pose proof (master_read_inv t l p cs n Hinv) as Hr. by destruct (master_read n p).
  - destruct Hinv as [(? & ? & ?) ? ? ?]. split; unfold master_write, slave_write, PtyWriter_write; unfold_m; cbn; try done; [by rewrite rb_push_capacity|by apply out_push].
  - pose proof (slave_pop_inv t l p cs n Hinv) as Hr. by destruct (slave_pop n p).
  - pose proof (slave_poll_inv t l p cs Hinv) as Hr. destruct (slave_poll t p). destruct Hr as [_ Hr]. exact Hr.
Qed.

Lemma pty_run_inv t ops : ∀ l p cs, pty_inv t l p cs →
  ∃ cs', pty_inv t (pty_run t ops l p).1 (pty_run t ops l p).2 (cs ++ cs').
Proof.
  induction ops as [|o ops IH]; intros l p cs Hinv; cbn [pty_run].
  { exists []. by rewrite app_nil_r. }
  destruct (pty_op_inv t o l p cs Hinv) as [cs1 H1]. destruct (pty_op t o l p) as [l1 p1]. cbn [fst snd] in H1.
  destruct (IH l1 p1 _ H1) as [cs2 H2]. exists (cs1 ++ cs2). by rewrite app_assoc.
Qed.

(** C38: A pseudo terminal carries both directions in order.  After any
    interleaving of operations of the two sides of a new pair: what the slave
    has read, can read and is editing is what the line discipline makes of the
    characters it processed; these with the characters on the way are written
    by the master, in order, all of them if the master wrote at most 4096
    bytes.  What the master has read, can read and will find in the ring, with
    newlines expanded, are bytes the slave wrote or echoed, in order, all of
    them if they are at most 80.  A turn of the input task never panics. *)
Theorem pty_carries_both_ways t ops :
  let '(l, p) := pty_run t ops (mkLog [] [] [] []) create_pty_pair in
  (slave_poll t p).1 ≠ Panic
  ∧ carried BUF_SIZE (l_master l ++ rb_content (master_buf p) ++ onlcr (rb_content (slave_to_master p))) (onlcr (l_out l))
  ∧ ∃ cs, carried PTY_BUF_SIZE (cs ++ ir_pending (slave_reader p) ++ rb_content (master_to_slave p)) (l_in l)
    ∧ abs (l_slave l) (slave_reader p) = spec_input t cs.
Proof.
  destruct (pty_run_inv t ops (mkLog [] [] [] []) create_pty_pair []) as [cs Hinv].
  { split; cbn; rewrite ?rb_new_capacity, ?rb_new_content; try done. }
  destruct (pty_run t ops _ _) as [l p]. cbn [fst snd app] in Hinv.
  pose proof (slave_poll_inv t l p cs Hinv) as Hp. destruct (slave_poll t p). destruct Hinv as [_ Hin [_ Ha] Hout].
  split; [apply Hp|]. split; [done|]. by exists cs.
Qed.

(** A read of the master does not look at the ring: without a poll in between
    it finds nothing, whatever the slave has written. *)
Lemma master_read_without_poll bufs n : n ≠ 0%nat →
  (master_read n (foldl (λ p buf, (slave_write buf p).2) create_pty_pair bufs)).1 = Err WouldBlock.
Proof.
  intros Hn. assert (Hb : ∀ p, rb_content (master_buf p) = [] →
    rb_content (master_buf (foldl (λ p buf, (slave_write buf p).2) p bufs)) = []).
  { induction bufs as [|buf bufs IH]; intros p Hp; [done|]. cbn. by apply IH. }
  specialize (Hb create_pty_pair (rb_new_content _)). set (p := foldl _ _ _) in *. unfold master_read.
  rewrite (proj2 (Nat.eqb_neq n 0)) by done. destruct (read_content n (master_buf p)) as (Hr & _).
  rewrite Hb, take_nil in Hr. destruct (PtyReader_read n _) as [got r]. cbn in Hr. by subst got.
Qed.
End Pair.

(** ** The directory [/dev/pts] *)

Definition PTS_LIMIT : Z := 16.

(** [FlattenObjects<Arc<Device>, 16>]; a device refers to its pair by number.
    [sl_update] is a change of the shared device behind a slot. *)
Class Slots (T : Type) := {
  sl_add : Device Z → T → option Z * T;
  sl_get : Z → T → option (Device Z);
  sl_update : Z → (Device Z → Device Z) → T → T;
  sl_ids : T → list Z;
}.
Class SlotsOk (T : Type) `{Slots T} := {
  sl_view : T → gmap Z (Device Z);
  sl_view_range f i d : sl_view f !! i = Some d → 0 ≤ i < PTS_LIMIT;
  sl_get_view i f : sl_get i f = sl_view f !! i;
  sl_add_some d f i f' : sl_add d f = (Some i, f') →
    sl_view f !! i = None ∧ (∀ j, 0 ≤ j < i → is_Some (sl_view f !! j)) ∧ sl_view f' = <[i := d]> (sl_view f);
  sl_add_none d f f' : sl_add d f = (None, f') →
    sl_view f' = sl_view f ∧ ∀ j, 0 ≤ j < PTS_LIMIT → is_Some (sl_view f !! j);
  sl_update_view i g f : sl_view (sl_update i g f) = alter g i (sl_view f);
  sl_ids_view f i : i ∈ sl_ids f ↔ is_Some (sl_view f !! i);
}.

(** The table of slaves, the inode numbers of [devfs], and the numbers stored
    in the terminals of the pairs *)
Record PtsSt (T : Type) := mkPtsSt { pts_table : T; pts_inodes : gset Z; pty_numbers : gmap Z Z }.
Arguments mkPtsSt {T}.
Arguments pts_table {T}.
Arguments pts_inodes {T}.
Arguments pty_numbers {T}.
#[export] Instance eta_PtsSt T : Eta (PtsSt T) := λ s, mkPtsSt (pts_table s) (pts_inodes s) (pty_numbers s).

Section Pts.
Context {T : Type} `{Slots T, NodeCodes} (vacant : gset Z → Z) (default_mode default_id : Z).
Abbreviation S := (PtsSt T).

Definition on_inodes {A} (m : M (gset Z) A) : M S A := λ s,
  let '(r, i) := m (pts_inodes s) in (r, s <| pts_inodes := i |>).

(** A device that the table refuses is dropped. *)
Definition add_slave (pty : Z) : M S Z :=
  d ← on_inodes (Device_new vacant default_mode CharacterDevice default_id pty);
  s ← getM;
  let '(r, table) := sl_add d (pts_table s) in
  modifyM (λ s : S, s <| pts_table := table |>);;
  match r with
  | None => on_inodes (SimpleFsNode_drop (dv_node d));; failM TooManyOpenFiles
  | Some pty_number =>
      let pty_number := as_u32 pty_number in
      modifyM (λ s : S, s <| pty_numbers ::= <[pty := pty_number]> |>);;
      s ← getM;
      liftR (unwrap (sl_get pty_number (pts_table s)));;
      modifyM (λ s : S, s <| pts_table ::= sl_update pty_number (set_device_id (dev_new 136 pty_number)) |>);;
      mret pty_number
  end.

(** [Ptmx::create_pty]: the device of the master and the number.  The number
    of a terminal is 0 until it is stored. *)
Definition create_pty (pty : Z) : M S (Device Z * Z) :=
  add_slave pty;;
  s ← getM;
  let pty_number := default 0 (pty_numbers s !! pty) in
  d ← on_inodes (Device_new vacant default_mode CharacterDevice (dev_new 128 pty_number) pty);
  mret (d, pty_number).

(** [PtsDir] *)
Definition pts_child_names (s : S) : list text := print_u <$> sl_ids (pts_table s).
Definition pts_lookup_child (name : text) (s : S) : res (Device Z) :=
  id ← ok_or InvalidData (parse_usize name);
  ok_or NotFound (sl_get id (pts_table s)).

(** Names are unique and found: [create_pty] gives the lowest free number and a
    slave under that name in [/dev/pts]; it fails, and changes nothing there,
    exactly if all 16 are taken.  Nothing takes a slave out again. *)
Context `{!SlotsOk T} (vacant_fresh : ∀ s, vacant s ∉ s).

Lemma add_slave_spec pty (s : S) :
  match add_slave pty s with
  | (Ok n, s') =>
      0 ≤ n < PTS_LIMIT ∧ sl_view (pts_table s) !! n = None ∧ (∀ j, 0 ≤ j < n → is_Some (sl_view (pts_table s) !! j))
      ∧ pty_numbers s' = <[pty := n]> (pty_numbers s)
      ∧ ∃ d, sl_view (pts_table s') = <[n := d]> (sl_view (pts_table s)) ∧ dv_ops d = pty
             ∧ md_rdev (sn_metadata (dv_node d)) = dev_new 136 n
  | (Err e, s') => e = TooManyOpenFiles ∧ sl_view (pts_table s') = sl_view (pts_table s)
      ∧ pts_inodes s' = pts_inodes s ∧ ∀ j, 0 ≤ j < PTS_LIMIT → is_Some (sl_view (pts_table s) !! j)
  | (Panic, _) => False
  end.
Proof.
  unfold add_slave, on_inodes, Device_new, SimpleFsNode_new, alloc_inode. unfold_m. cbn -[set_device_id as_u32].
  set (d := set_device_id _ _). destruct (sl_add d (pts_table s)) as [[n|] table] eqn:Hadd; cbn -[set_device_id as_u32].
  - apply sl_add_some in Hadd as (Hnone & Hlow & Hview).
    assert (Hn : 0 ≤ n < PTS_LIMIT) by (eapply sl_view_range; rewrite Hview; apply lookup_insert_eq).
    rewrite (as_u32_small n) by (unfold in_u32, PTS_LIMIT in *; lia).
    rewrite sl_get_view, Hview, lookup_insert_eq. cbn -[set_device_id as_u32]. do 4 (split; [done|]).
    exists (set_device_id (dev_new 136 n) d). cbn -[set_device_id]. rewrite sl_update_view, Hview, alter_insert_eq. done.
  - apply sl_add_none in Hadd as [Hview Hfull]. unfold SimpleFsNode_drop, simple_release_inode. unfold_m. cbn.
    replace (vacant (pts_inodes s) + 1 - 1) with (vacant (pts_inodes s)) by lia.
    rewrite decide_True by set_solver. cbn. split_and!; try done. pose proof (vacant_fresh (pts_inodes s)). set_solver.
Qed.

Lemma lookup_print n (s : S) : in_u64 n → pts_lookup_child (print_u n) s = ok_or NotFound (sl_view (pts_table s) !! n).
Proof. intros Hn. unfold pts_lookup_child. rewrite parse_print_usize by done. cbn. by rewrite sl_get_view. Qed.

Lemma create_pty_name pty (s : S) :
  match create_pty pty s with
  | (Ok (master, n), s') =>
      (∀ j, 0 ≤ j < n → is_ok (pts_lookup_child (print_u j) s) = true)
      ∧ pts_lookup_child (print_u n) s = Err NotFound
      ∧ print_u n ∈ pts_child_names s'
      ∧ (∃ slave, pts_lookup_child (print_u n) s' = Ok slave ∧ dv_ops slave = dv_ops master
                  ∧ md_rdev (sn_metadata (dv_node slave)) = dev_new 136 n)
      ∧ ∀ j, in_u64 j → j ≠ n → pts_lookup_child (print_u j) s' = pts_lookup_child (print_u j) s
  | (Err e, s') => e = TooManyOpenFiles ∧ ∀ j, 0 ≤ j < PTS_LIMIT → is_ok (pts_lookup_child (print_u j) s) = true
  | (Panic, _) => False
  end.
Proof.
  assert (Hsome : ∀ j, 0 ≤ j < PTS_LIMIT → is_Some (sl_view (pts_table s) !! j) → is_ok (pts_lookup_child (print_u j) s) = true).
  { intros j Hj [d Hd]. rewrite lookup_print by (unfold in_u64, PTS_LIMIT in *; lia). by rewrite Hd. }
  pose proof (add_slave_spec pty s) as Hs. unfold create_pty. unfold_m. destruct (add_slave pty s) as [[n|e|] s1]; [| |done].
  2: { destruct Hs as (-> & _ & _ & Hfull). split; [done|]. intros j Hj. apply Hsome; auto. }
  destruct Hs as (Hn & Hnone & Hlow & Hnum & d & Hview & Hops & Hrdev).
  unfold on_inodes, Device_new, SimpleFsNode_new, alloc_inode. unfold_m. cbn -[print_u dev_new].
  rewrite Hnum, lookup_insert_eq. cbn -[print_u dev_new].
  assert (Hn64 : in_u64 n) by (unfold in_u64, PTS_LIMIT in *; lia). split_and!.
  - intros j Hj. apply Hsome; [unfold PTS_LIMIT in *; lia|by apply Hlow].
  - rewrite lookup_print by done. by rewrite Hnone.
  - apply list_elem_of_fmap. exists n. split; [done|]. cbn. apply sl_ids_view. rewrite Hview, lookup_insert_eq. by eexists.
  - exists d. rewrite lookup_print by done. cbn. by rewrite Hview, lookup_insert_eq.
  - intros j Hj Hne. rewrite !lookup_print by done. cbn. by rewrite Hview, lookup_insert_ne.
Qed.
End Pts.

(** ** Devices that only stand for others

    Opening [/dev/ptmx] or [/dev/tty] yields another file (see [open_device]
    in [FsCtl]), so that reads and ioctls of these are [unreachable!]. *)
Definition Ptmx {S} : DeviceOps S :=
  mkDeviceOps (λ _ _, panicM) (λ _ _, panicM) (λ _ _, panicM) None default_mmap (mkNodeFlags false false).
Definition CurrentTty {S} : DeviceOps S :=
  mkDeviceOps (λ _ _, panicM) (λ _ _, mret 0) (λ _ _, panicM) None default_mmap (mkNodeFlags false false).

(** ** Witness *)

(** A line is typed at the master and read by the slave, which answers. *)
Definition pty_session : list PtyOp :=
  [MasterWrite (str "ls" ++ [chr_nl]); SlavePoll; SlaveRead 10; SlaveWrite (str "x" ++ [chr_nl]); MasterPoll; MasterRead 20].

Lemma pty_carries_both_ways_witness :
  let '(l, p) := pty_run (R := ring) Termios_default pty_session (mkLog [] [] [] []) create_pty_pair in
  l_slave l = str "ls" ++ [chr_nl]
  ∧ l_master l = str "ls" ++ [chr_cr; chr_nl] ++ str "x" ++ [chr_cr; chr_nl]
  ∧ (slave_poll Termios_default p).1 ≠ Panic
  ∧ carried BUF_SIZE (l_master l ++ rb_content (master_buf p) ++ onlcr (rb_content (slave_to_master p))) (onlcr (l_out l))
  ∧ ∃ cs, carried PTY_BUF_SIZE (cs ++ ir_pending (slave_reader p) ++ rb_content (master_to_slave p)) (l_in l)
    ∧ abs (l_slave l) (slave_reader p) = spec_input Termios_default cs.
Proof.
  assert (Hr : let '(l, p) := pty_run (R := ring) Termios_default pty_session (mkLog [] [] [] []) create_pty_pair in
    l_slave l = str "ls" ++ [chr_nl] ∧ l_master l = str "ls" ++ [chr_cr; chr_nl] ++ str "x" ++ [chr_cr; chr_nl])
    by (vm_compute; split; reflexivity).
  pose proof (pty_carries_both_ways (R := ring) Termios_default pty_session) as Hp.
  destruct (pty_run _ _ _ _) as [l p]. destruct Hr as [H1 H2]. split; [exact H1|]. split; [exact H2|]. exact Hp.
Defined.
