(* ===== verification/Signals.v ===== *)
(** * Signals of a thread

    The calls on the signal mask, the actions, the alternate stack and pending
    signals ([api/src/syscall/signal.rs]), the check for signals on the way to
    user space ([api/src/signal.rs]), and the signal files
    ([api/src/file/signalfd.rs], [api/src/syscall/fs/signalfd.rs]).

    The managers of pending and blocked signals (crate [starry_signal]) are an
    interface; a [SignalSet] is its 64-bit mask.  Sending is in the file on
    processes. *)

From S2P Require Import Prelude Bytes Vm Pipe Time Process.

Definition SIG_BLOCK : Z := 0.
Definition SIG_UNBLOCK : Z := 1.
Definition SIG_SETMASK : Z := 2.
Definition SIGSTOP : Z := 19.
Definition EINTR : Z := 4.

(** [SignalSet::has]: bit [signo - 1] *)
Definition set_has (set signo : Z) : bool := Z.testbit set (signo - 1).

Record SignalStack := mkSignalStack { ss_sp : Z; ss_flags : Z; ss_size : Z }.

Inductive SignalOSAction := OsTerminate | OsCoreDump | OsStop | OsContinue | OsHandler.

(** [ThreadSignalManager] and [ProcessSignalManager] of the calling thread;
    [X] are the actions, [U] the user's registers. *)
Class SigThread (G X U : Type) := {
  st_blocked : G → Z;
  st_set_blocked : Z → G → G;
  st_pending : G → Z;
  st_dequeue : Z → G → option SignalInfo * G;
  st_check : option Z → U → G → option (SignalInfo * SignalOSAction) * (U * G);
  st_restore : U → G → U * G;
  st_stack : G → SignalStack;
  st_set_stack : SignalStack → G → G;
  st_action : G → Z → X;
  st_set_action : Z → X → G → G;
  u_set_retval : Z → U → U;
  u_retval : U → Z;
}.

(** A signal that is taken out of the queue is one of the set. *)
Class SigThreadOk (G X U : Type) `{SigThread G X U} := {
  st_blocked_set m g : st_blocked (st_set_blocked m g) = m;
  st_dequeue_blocked m g : st_blocked (st_dequeue m g).2 = st_blocked g;
  st_dequeue_in m g sig g' : st_dequeue m g = (Some sig, g') →
    set_has m (si_signo sig) = true ∧ set_has (st_pending g) (si_signo sig) = true;
}.

Record SigState (G U V : Type) := mkSigState {
  sg_mgr : G;
  sg_uctx : U;
  sg_user : V;
  sg_block_next : bool;                     (* [BLOCK_NEXT_SIGNAL_CHECK] *)
}.
Arguments mkSigState {_ _ _}.
Arguments sg_mgr {_ _ _}.
Arguments sg_uctx {_ _ _}.
Arguments sg_user {_ _ _}.
Arguments sg_block_next {_ _ _}.
#[export] Instance eta_SigState G U V : Eta (SigState G U V) := λ s,
  mkSigState (sg_mgr s) (sg_uctx s) (sg_user s) (sg_block_next s).

(** The mask that [how] asks for *)
Definition new_mask (how old set : Z) : res Z :=
  let how := as_u32 how in
  if how =? SIG_BLOCK then Ok (Z.lor old set)
  else if how =? SIG_UNBLOCK then Ok (Z.ldiff old set)
  else if how =? SIG_SETMASK then Ok set
  else Err InvalidInput.

Lemma new_mask_cases how old m :
  match new_mask how old m with
  | Ok m' => as_u32 how = SIG_BLOCK ∧ m' = Z.lor old m ∨ as_u32 how = SIG_UNBLOCK ∧ m' = Z.ldiff old m
             ∨ as_u32 how = SIG_SETMASK ∧ m' = m
  | Err _ => True
  | Panic => False
  end.
Proof.
  unfold new_mask. destruct (Z.eqb_spec (as_u32 how) SIG_BLOCK), (Z.eqb_spec (as_u32 how) SIG_UNBLOCK),
    (Z.eqb_spec (as_u32 how) SIG_SETMASK); naive_solver.
Qed.

Section Signals.
Context {G X U V K : Type} `{SigThread G X U}.
Context `{VmPtr V Z, VmPtr V K, VmPtr V SignalStack, VmPtr V timespec, VmPtr V SignalInfo}.
(** The conversions between an action and the user's [kernel_sigaction] *)
Context (to_kernel : X → K) (of_kernel : K → X).
Context (do_exit : Z → bool → M (SigState G U V) unit) (MINSIGSTKSZ : Z).
Abbreviation S := (SigState G U V).

Definition sg_write {T} `{VmPtr V T} (p : Z) (x : T) : M S unit := λ s,
  let '(r, v) := vm_write p x (sg_user s) in (r, s <| sg_user := v |>).
Definition sg_read {T} `{VmPtr V T} (p : Z) : M S T := λ s, (vm_read (sg_user s) p, s).
Definition set_blocked (m : Z) : M S unit := modifyM (λ s, s <| sg_mgr ::= st_set_blocked m |>).

Definition sys_rt_sigprocmask (how set oldset sigsetsize : Z) : M S Z :=
  liftR (check_sigset_size sigsetsize);;
  s ← getM;
  let old := st_blocked (sg_mgr s) in
  when_not_null oldset (sg_write oldset old);;
  when_not_null set (
    set ← sg_read (T := Z) set;
    set ← liftR (new_mask how old set);
    set_blocked set);;
  mret 0.

Definition sys_rt_sigaction (signo act oldact sigsetsize : Z) : M S Z :=
  liftR (check_sigset_size sigsetsize);;
  signo ← liftR (parse_signo signo);
  if (signo =? SIGKILL) || (signo =? SIGSTOP) then failM InvalidInput
  else
    s ← getM;
    when_not_null oldact (sg_write oldact (to_kernel (st_action (sg_mgr s) signo)));;
    when_not_null act (
      act ← sg_read (T := K) act;
      modifyM (λ s, s <| sg_mgr ::= st_set_action signo (of_kernel act) |>));;
    mret 0.

Definition sys_rt_sigpending (set sigsetsize : Z) : M S Z :=
  liftR (check_sigset_size sigsetsize);;
  s ← getM;
  sg_write set (st_pending (sg_mgr s));; mret 0.

Definition sys_sigaltstack (ss old_ss : Z) : M S Z :=
  s ← getM;
  when_not_null old_ss (sg_write old_ss (st_stack (sg_mgr s)));;
  when_not_null ss (
    ss ← sg_read (T := SignalStack) ss;
    if ss_size ss <=? MINSIGSTKSZ then failM NoMemory
    else modifyM (λ s, s <| sg_mgr ::= st_set_stack ss |>));;
  mret 0.

(** ** The check for signals *)

Definition check_signals (restore_blocked : option Z) : M S bool :=
  s ← getM;
  let '(o, ug) := st_check restore_blocked (sg_uctx s) (sg_mgr s) in
  putM (s <| sg_uctx := ug.1 |> <| sg_mgr := ug.2 |>);;
  match o with
  | None => mret false
  | Some (sig, os_action) =>
      match os_action with
      | OsTerminate => do_exit (si_signo sig) true
      | OsCoreDump => do_exit (128 + si_signo sig) true
      | OsStop => do_exit 1 true
      | OsContinue | OsHandler => mret tt
      end;;
      mret true
  end.

Definition block_next_signal : M S unit := modifyM (λ s, s <| sg_block_next := true |>).
Definition unblock_next_signal : M S bool := s ← getM; putM (s <| sg_block_next := false |>);; mret (sg_block_next s).

Definition sys_rt_sigreturn : M S Z :=
  block_next_signal;;
  s ← getM;
  let ug := st_restore (sg_uctx s) (sg_mgr s) in
  putM (s <| sg_uctx := ug.1 |> <| sg_mgr := ug.2 |>);;
  mret (u_retval ug.1).

(** The wait of [sigtimedwait]: [env] is what happens before each new attempt;
    when it is used up the timeout fires. *)
Fixpoint sigwait_loop (set old_blocked : Z) (env : list (S → S)) : M S (option (option SignalInfo)) :=
  s ← getM;
  match st_dequeue set (sg_mgr s) with
  | (Some sig, g) => putM (s <| sg_mgr := g |>);; set_blocked old_blocked;; mret (Some (Some sig))
  | (None, g) =>
      putM (s <| sg_mgr := g |>);;
      b ← check_signals (Some old_blocked);
      if (b : bool) then mret (Some None)
      else match env with [] => mret None | f :: env => modifyM f;; sigwait_loop set old_blocked env end
  end.

Definition sys_rt_sigtimedwait (set info timeout sigsetsize : Z) (env : list (S → S)) : M S Z :=
  liftR (check_sigset_size sigsetsize);;
  set ← sg_read (T := Z) set;
  when_not_null timeout (ts ← sg_read (T := timespec) timeout; liftR (try_into_time_value ts));;
  s ← getM;
  let old_blocked := st_blocked (sg_mgr s) in
  set_blocked (Z.ldiff old_blocked set);;
  modifyM (λ s, s <| sg_uctx ::= u_set_retval (- EINTR) |>);;
  o ← sigwait_loop set old_blocked env;
  match o with
  | None => set_blocked old_blocked;; failM WouldBlock
  | Some None => mret 0
  | Some (Some sig) => when_not_null info (sg_write info sig);; mret (si_signo sig)
  end.

Fixpoint sigsuspend_loop (old_blocked : Z) (env : list (S → S)) : M S (option unit) :=
  b ← check_signals (Some old_blocked);
  if (b : bool) then mret (Some tt)
  else match env with [] => mret None | f :: env => modifyM f;; sigsuspend_loop old_blocked env end.

(** [None]: no signal within [env] *)
Definition sys_rt_sigsuspend (set sigsetsize : Z) (env : list (S → S)) : M S (option Z) :=
  liftR (check_sigset_size sigsetsize);;
  set ← sg_read (T := Z) set;
  s ← getM;
  let old_blocked := st_blocked (sg_mgr s) in
  set_blocked set;;
  modifyM (λ s, s <| sg_uctx ::= u_set_retval (- EINTR) |>);;
  o ← sigsuspend_loop old_blocked env;
  match o with Some _ => failM Interrupted | None => mret None end.

(** ** The mask *)

Context `{!SigThreadOk G X U, !VmPtrOk V Z, !VmPtrOk V timespec, !VmPtrOk V SignalInfo}.

Definition blocked (s : S) : Z := st_blocked (sg_mgr s).

(** A store leaves the mask alone, and can be read back. *)
Lemma store_not_null {T} `{VmPtrOk V T} p (x : T) s :
  let '(r, s') := when_not_null p (sg_write p x) s in
  r ≠ Panic ∧ sg_mgr s' = sg_mgr s ∧ (is_ok r = true → p ≠ 0 → vm_read (sg_user s') p = Ok x).
Proof.
  unfold when_not_null, sg_write. unfold_m. destruct (Z.eqb_spec p 0) as [->|]; [done|].
  destruct (vm_write p x (sg_user s)) as [[[]|e|] v] eqn:Hw; (split_and!; [|done|]); try done.
  - intros _ _. by eapply vm_read_write.
  - intros _. pose proof (vm_write_no_panic (sg_user s) p x) as Hp. by rewrite Hw in Hp.
Qed.

(** [sigprocmask].  A call that succeeds has stored the old mask at
    [oldset] and changed the mask by the set read at [set]; one that fails
    leaves the mask as it was.  The set is read after the old mask has been
    stored: if both are at the same address the new set is the old mask, and
    [SIG_SETMASK] changes nothing, while [SIG_UNBLOCK] unblocks everything. *)
Lemma sigprocmask_mask how set oldset sigsetsize s r s' :
  sys_rt_sigprocmask how set oldset sigsetsize s = (r, s') →
  match r with
  | Ok _ =>
      (oldset ≠ 0 → vm_read (sg_user s') oldset = Ok (blocked s))
      ∧ (set = 0 → blocked s' = blocked s)
      ∧ (set ≠ 0 → ∃ m, vm_read (sg_user s') set = Ok m
           ∧ (as_u32 how = SIG_BLOCK ∧ blocked s' = Z.lor (blocked s) m
              ∨ as_u32 how = SIG_UNBLOCK ∧ blocked s' = Z.ldiff (blocked s) m
              ∨ as_u32 how = SIG_SETMASK ∧ blocked s' = m))
      ∧ (set ≠ 0 → set = oldset → blocked s' = if as_u32 how =? SIG_UNBLOCK then 0 else blocked s)
  | Err _ => blocked s' = blocked s
  | Panic => False
  end.
Proof.
  clear do_exit. unfold sys_rt_sigprocmask, blocked. unfold_m. unfold check_sigset_size. destruct (_ && _); [by intros [= <- <-]|].
  set (old := st_blocked (sg_mgr s)). pose proof (store_not_null oldset old s) as Hstore.
  destruct (when_not_null oldset (sg_write oldset old) s) as [r1 s1]. destruct Hstore as (Hnp & Hm & Hold).
  destruct r1 as [o|e|]; [|intros [= <- <-]; by rewrite Hm|done]. specialize (Hold eq_refl).
  unfold when_not_null, sg_read, set_blocked. unfold_m. destruct (Z.eqb_spec set 0) as [->|Hset].
  { intros [= <- <-]. rewrite Hm. split_and!; done. }
  destruct (vm_read (sg_user s1) set) as [m|e|] eqn:Hread; [| |by apply vm_read_no_panic in Hread].
  2:{ intros [= <- <-]. by rewrite Hm. }
  pose proof (new_mask_cases how old m) as Hnew. destruct (new_mask how old m) as [m'|e|]; [| |done].
  2:{ intros [= <- <-]. by rewrite Hm. }
  intros [= <- <-]. cbn. rewrite st_blocked_set. split_and!; [done|done|by exists m|].
  intros _ ->. rewrite (Hold Hset) in Hread. injection Hread as <-.
  destruct Hnew as [[-> ->]|[[-> ->]|[-> ->]]]; cbn; [apply Z.lor_diag|apply Z.ldiff_diag|done].
Qed.

(** ** Waiting for a signal *)

Context (Hexit : ∀ c b s, (do_exit c b s).1 = Ok tt).

Lemma check_signals_ok restore s : is_ok (check_signals restore s).1 = true.
Proof.
  unfold check_signals. unfold_m. destruct (st_check _ _ _) as [[[sig []]|] ug]; try done.
  all: lazymatch goal with |- context [do_exit ?c ?b ?s] => pose proof (Hexit c b s) as Hx; destruct (do_exit c b s) as [r s1] end.
  all: cbn in Hx; by subst r.
Qed.

(** The outcome of the wait: a signal of the set, with the mask restored *)
Lemma sigwait_loop_spec set old env : ∀ s,
  ∃ o s', sigwait_loop set old env s = (Ok o, s')
    ∧ ∀ sig, o = Some (Some sig) → set_has set (si_signo sig) = true ∧ blocked s' = old.
Proof.
  induction env as [|f env IH]; intros s; cbn [sigwait_loop]; unfold_m;
    destruct (st_dequeue set (sg_mgr s)) as [[sig|] g] eqn:Hd.
  1,3: eexists _, _; split; [done|]; intros sig' [= <-]; split; [by eapply st_dequeue_in|apply st_blocked_set].
  all: pose proof (check_signals_ok (Some old) (s <| sg_mgr := g |>)) as Hc;
    destruct (check_signals (Some old) (s <| sg_mgr := g |>)) as [[b|e|] s1]; try done; destruct b;
    try (eexists _, _; split; [done|]; by intros sig [=]). apply IH.
Qed.

(** [sigtimedwait] with a readable set: it returns the number of a signal of
    the set, or 0 when a handler of another signal ran.  Whenever it returns a
    signal or an error (the timeout is [WouldBlock]) the mask of blocked signals
    is again the one from before the call. *)
Lemma sigtimedwait_restores_mask set m info timeout sigsetsize env s r s' :
  vm_read (sg_user s) set = Ok m → sys_rt_sigtimedwait set info timeout sigsetsize env s = (r, s') →
  match r with
  | Ok n => n = 0 ∨ set_has m n = true ∧ blocked s' = blocked s
  | Err _ => blocked s' = blocked s
  | Panic => False
  end.
Proof.
  intros Hset. unfold sys_rt_sigtimedwait. unfold_m. unfold check_sigset_size. destruct (_ && _); [by intros [= <- <-]|].
  unfold sg_read at 1. rewrite Hset.
  set (tm := when_not_null timeout _). assert (∃ rt, tm s = (rt, s) ∧ rt ≠ Panic) as (rt & -> & Hrt).
  { unfold tm, when_not_null, sg_read. unfold_m. destruct (timeout =? 0); [by eexists|].
    pose proof (vm_read_no_panic (T := timespec) (sg_user s) timeout) as Hnp.
    destruct (vm_read (sg_user s) timeout) as [ts|e|]; [|by eexists|done]. cbn [try_into_time_value timespec_like].
    destruct (_ || _); by eexists. }
  destruct rt as [o|e|]; [|by intros [= <- <-]|done]. unfold set_blocked at 1. unfold_m.
  lazymatch goal with |- context [sigwait_loop ?a ?b ?c ?d] =>
    destruct (sigwait_loop_spec a b c d) as (w & s1 & -> & Hw) end.
  destruct w as [[sig|]|].
  - destruct (Hw sig eq_refl) as [Hin Hb]. pose proof (store_not_null info sig s1) as Hst.
    destruct (when_not_null info (sg_write info sig) s1) as [r2 s2]. destruct Hst as (Hnp & Hm & _).
    destruct r2 as [?|e|]; [| |done]; intros [= <- <-]; unfold blocked; rewrite Hm; [right|]; done.
  - intros [= <- <-]. by left.
  - unfold set_blocked. unfold_m. intros [= <- <-]. unfold blocked. cbn. apply st_blocked_set.
Qed.
End Signals.

(** ** Signal files *)

Definition SIGNALFD_SIGINFO_SIZE : nat := 128.

(** [SignalfdSiginfo::from_signal_info], as the bytes of the structure *)
Definition signalfd_siginfo (errno : Z) (sig : SignalInfo) : bytes :=
  le_bytes 4 (as_u32 (si_signo sig)) ++ le_bytes 4 (as_u32 errno) ++ le_bytes 4 (as_u32 (si_code sig))
  ++ le_bytes 4 0 ++ le_bytes 4 0 ++ le_bytes 4 (as_u32 (-1))         (* pid, uid, fd *)
  ++ replicate 24 0                                                   (* tid to int *)
  ++ replicate 32 0                                                   (* ptr, utime, stime, addr *)
  ++ replicate 2 0 ++ replicate 46 0.

Record Signalfd := mkSignalfd { sf_mask : Z; sf_non_blocking : bool; sf_wakes : nat }.
#[export] Instance eta_Signalfd : Eta Signalfd := λ f, mkSignalfd (sf_mask f) (sf_non_blocking f) (sf_wakes f).

Definition Signalfd_new (mask : Z) : Signalfd := mkSignalfd mask false 0.
Definition update_mask (mask : Z) (f : Signalfd) : Signalfd := f <| sf_mask := mask |> <| sf_wakes ::= S |>.

Definition SFD_CLOEXEC : Z := 0x80000.
Definition SFD_NONBLOCK : Z := 0x800.

(** [sys_signalfd4] on descriptor tables [F]: [get] and [put] are the signal
    file of a descriptor, [add] is [add_file_like]; [mask] is the read of the
    user's set. *)
Definition sys_signalfd4 {F} (get : F → Z → res Signalfd) (put : Z → Signalfd → F → F)
    (add : Signalfd → bool → M F Z) (fd : Z) (mask : res Z) (sigsetsize flags : Z) : M F Z :=
  liftR (check_sigset_size sigsetsize);;
  if negb (Z.land flags (Z.lor SFD_CLOEXEC SFD_NONBLOCK) =? flags) then failM InvalidInput
  else if negb (fd =? -1) && has_flag flags SFD_CLOEXEC then failM InvalidInput
  else
    mask ← liftR mask;
    if negb (fd =? -1) then
      t ← getM;
      f ← liftR (get t fd);
      modifyM (put fd ((update_mask mask f) <| sf_non_blocking := has_flag flags SFD_NONBLOCK |>));;
      mret fd
    else add ((Signalfd_new mask) <| sf_non_blocking := has_flag flags SFD_NONBLOCK |>) (has_flag flags SFD_CLOEXEC).

Section Signalfd.
Context {G X U D : Type} `{SigThreadOk G X U, IoDstOk D} (errno : SignalInfo → Z).

Definition has_pending_signals (f : Signalfd) (g : G) : bool := negb (Z.land (st_pending g) (sf_mask f) =? 0).
Definition signalfd_poll (f : Signalfd) (g : G) : bool := has_pending_signals f g.

(** One attempt of [read] *)
Definition signalfd_read (f : Signalfd) (g : G) (dst : D) : res nat * Signalfd * G * D :=
  if (dst_room dst <? SIGNALFD_SIGINFO_SIZE)%nat then (Err InvalidInput, f, g, dst)
  else
    match st_dequeue (sf_mask f) g with
    | (Some sig, g) =>
        match dst_write (signalfd_siginfo (errno sig) sig) dst with
        | (Ok _, dst) =>
            (Ok SIGNALFD_SIGINFO_SIZE, (if has_pending_signals f g then f <| sf_wakes ::= S |> else f), g, dst)
        | (Err e, dst) => (Err e, f, g, dst)
        | (Panic, dst) => (Panic, f, g, dst)
        end
    | (None, g) => (Err WouldBlock, f, g, dst)
    end.

(** What a reader finds in the structure *)
Definition parse_siginfo (l : bytes) : Z * Z := (le_val (take 4 l), as_i32 (le_val (take 4 (drop 8 l)))).

Lemma signalfd_siginfo_length e sig : length (signalfd_siginfo e sig) = SIGNALFD_SIGINFO_SIZE.
Proof. unfold signalfd_siginfo. rewrite !length_app, !le_bytes_length, !length_replicate. done. Qed.

Lemma as_i32_u32 z : in_i32 z → as_i32 (as_u32 z) = z.
Proof.
  intros Hz. rewrite <- (as_i32_small z Hz) at 2. unfold as_i32, as_u32, wraps, wrapu. by rewrite Zmod_mod.
Qed.

Lemma parse_siginfo_bytes e sig : in_u32 (si_signo sig) → in_i32 (si_code sig) →
  parse_siginfo (signalfd_siginfo e sig) = (si_signo sig, si_code sig).
Proof.
  intros Hs Hc. unfold parse_siginfo, signalfd_siginfo. f_equal.
  - rewrite take_app_length' by (by rewrite le_bytes_length). rewrite le_val_small; [by apply as_u32_small|]. apply as_u32_in.
  - rewrite app_assoc, drop_app_length' by (rewrite length_app, !le_bytes_length; done).
    rewrite take_app_length' by (by rewrite le_bytes_length). rewrite le_val_small by apply as_u32_in. by apply as_i32_u32.
Qed.

(** A read from a signal file.  With less than 128 bytes of room it fails
    and takes nothing.  Otherwise it takes a signal of its mask that is pending
    and appends 128 bytes to the buffer, in which the reader finds the number
    and the code of that signal; the bytes for the sender are zero.  If the
    buffer faults, the signal is gone. *)
Lemma signalfd_delivers f g (dst : D) r f' g' dst' :
  (∀ m g sig g', st_dequeue m g = (Some sig, g') → in_u32 (si_signo sig) ∧ in_i32 (si_code sig)) →
  signalfd_read f g dst = (r, f', g', dst') →
  sf_mask f' = sf_mask f ∧
  match r with
  | Ok n => ∃ sig b, st_dequeue (sf_mask f) g = (Some sig, g') ∧ n = 128%nat ∧ length b = n
      ∧ dst_data dst' = dst_data dst ++ b ∧ parse_siginfo b = (si_signo sig, si_code sig)
      ∧ Forall (λ x, x = 0) (take 8 (drop 12 b))
      ∧ set_has (sf_mask f) (si_signo sig) = true ∧ set_has (st_pending g) (si_signo sig) = true
  | Err InvalidInput => (dst_room dst < 128)%nat ∧ g' = g ∧ dst' = dst
  | Err WouldBlock => st_dequeue (sf_mask f) g = (None, g') ∧ dst' = dst
  | Err e => e = BadAddress ∧ ∃ sig, st_dequeue (sf_mask f) g = (Some sig, g')
  | Panic => False
  end.
Proof.
  intros Hrange. unfold signalfd_read. destruct (Nat.ltb_spec (dst_room dst) SIGNALFD_SIGINFO_SIZE) as [Hlt|Hge].
  { by intros [= <- <- <- <-]. }
  destruct (st_dequeue (sf_mask f) g) as [[sig|] g1] eqn:Hd; [|by intros [= <- <- <- <-]].
  pose proof (signalfd_siginfo_length (errno sig) sig) as Hlen.
  destruct (dst_write _ dst) as [[n|e|] d1] eqn:Hw; [| |by apply dst_write_panic in Hw].
  2:{ apply dst_write_err in Hw as ->. intros [= <- <- <- <-]. split; [done|]. split; [done|]. by eexists. }
  apply dst_write_ok in Hw as (-> & Hdata & _). rewrite Hlen, Nat.min_l in Hdata by done.
  rewrite take_ge in Hdata by (rewrite Hlen; done).
  destruct (Hrange _ _ _ _ Hd) as [Hs Hc]. destruct (st_dequeue_in _ _ _ _ Hd) as [Hin Hpend].
  intros [= <- <- <- <-]. split; [by destruct (has_pending_signals f g1)|].
  exists sig, (signalfd_siginfo (errno sig) sig). split_and!; [done..|by apply parse_siginfo_bytes| |done|done].
  unfold signalfd_siginfo. rewrite 2!app_assoc, drop_app_length' by (rewrite !length_app, !le_bytes_length; done).
  repeat constructor.
Qed.
End Signalfd.

(** ** A thread with a queue of signals *)

Record sigq := mkSigq { q_blocked : Z; q_signals : list SignalInfo }.
#[export] Instance eta_sigq : Eta sigq := λ q, mkSigq (q_blocked q) (q_signals q).

Definition q_pending (q : sigq) : Z := foldr (λ sig m, Z.lor (2 ^ (si_signo sig - 1)) m) 0 (q_signals q).
(** The first signal of the set, unless its number is none *)
Fixpoint q_take (m : Z) (l : list SignalInfo) : option SignalInfo * list SignalInfo :=
  match l with
  | [] => (None, [])
  | sig :: l =>
      if set_has m (si_signo sig) && (1 <=? si_signo sig) && (si_signo sig <=? 64) && (si_code sig =? 0)
      then (Some sig, l) else let '(o, l') := q_take m l in (o, sig :: l')
  end.

#[export] Instance sigq_thread : SigThread sigq unit Z := {
  st_blocked := q_blocked;
  st_set_blocked m q := q <| q_blocked := m |>;
  st_pending := q_pending;
  st_dequeue m q := let '(o, l) := q_take m (q_signals q) in (o, q <| q_signals := l |>);
  st_check _ u q := (None, (u, q));
  st_restore u q := (u, q);
  st_stack _ := mkSignalStack 0 2 0;
  st_set_stack _ q := q;
  st_action _ _ := tt;
  st_set_action _ _ q := q;
  u_set_retval r _ := r;
  u_retval u := u;
}.

Lemma q_take_spec m l sig l' : q_take m l = (Some sig, l') →
  set_has m (si_signo sig) = true ∧ 1 ≤ si_signo sig ≤ 64 ∧ si_code sig = 0 ∧ sig ∈ l.
Proof.
  revert l'. induction l as [|x l IH]; intros l'; cbn [q_take]; [done|].
  destruct (set_has m (si_signo x)) eqn:Hs, (Z.leb_spec 1 (si_signo x)), (Z.leb_spec (si_signo x) 64),
    (Z.eqb_spec (si_code x) 0); cbn [andb].
  1: intros [= <- <-]; split_and!; [done|lia|lia|done|left].
  all: destruct (q_take m l) as [o l1]; intros [= -> <-]; destruct (IH l1 eq_refl) as (?&?&?&?);
    (split_and!; [done..|lia|lia|done|by right]) || (split_and!; [done|lia|lia|done|by right]).
Qed.

Lemma q_pending_in sig l q : sig ∈ l → q_signals q = l → 1 ≤ si_signo sig → set_has (q_pending q) (si_signo sig) = true.
Proof.
  intros Hin Hl Hs. unfold q_pending, set_has. rewrite Hl. clear Hl. induction Hin as [x|x y l Hin IH]; cbn [foldr];
    rewrite Z.lor_spec; [rewrite Z.pow2_bits_true by lia; done|]. rewrite IH by done. apply orb_true_r.
Qed.

#[export] Instance sigq_ok : SigThreadOk sigq unit Z.
Proof.
  split; [done|..].
  - intros m g. cbn. by destruct (q_take m (q_signals g)).
  - intros m g sig g'. cbn. destruct (q_take m (q_signals g)) as [o l] eqn:Hq. intros [= -> <-].
    apply q_take_spec in Hq as (? & ? & _ & ?). split; [done|]. eapply q_pending_in; [done|done|lia].
Qed.

Definition sigusr1 : SignalInfo := mkSignalInfo 10 0 7.

(** A memory of words; other objects cannot be accessed. *)
Record sigmem := mkSigmem { sm_words : cells Z }.
#[export] Instance sigmem_word : VmPtr sigmem Z := {|
  vm_read v p := vm_read (sm_words v) p;
  vm_write p x := λ v, (Ok tt, mkSigmem (<[p := x]> (sm_words v)));
|}.
#[export] Instance sigmem_word_ok : VmPtrOk sigmem Z.
Proof.
  split; [|done|].
  - intros v p. apply (vm_read_no_panic (sm_words v) p).
  - intros v v' p x [= <-]. cbn. by rewrite lookup_insert_eq.
Qed.
Definition no_access {T} : VmPtr sigmem T := {| vm_read _ _ := Err BadAddress; vm_write _ _ := failM BadAddress |}.
Lemma no_access_ok {T} : @VmPtrOk sigmem T no_access.
Proof. by split. Qed.
#[export] Instance sigmem_time : VmPtr sigmem timespec := no_access.
#[export] Instance sigmem_time_ok : VmPtrOk sigmem timespec := no_access_ok.
#[export] Instance sigmem_info : VmPtr sigmem SignalInfo := no_access.
#[export] Instance sigmem_info_ok : VmPtrOk sigmem SignalInfo := no_access_ok.

Definition sig_state : SigState sigq Z sigmem := mkSigState (mkSigq 3 [sigusr1]) 0 (mkSigmem {[0x1000 := 2 ^ 9]}) false.

(** The mask is read back and changed; with both pointers the same, a call
    that should set the mask to that of signal 10 leaves it as it was. *)
Example sigprocmask_mask_instance :
  ∃ s', sys_rt_sigprocmask SIG_SETMASK 0x1000 0x1000 8 sig_state = (Ok 0, s') ∧ blocked s' = blocked sig_state.
Proof.
  eexists. split; [by vm_compute|].
  refine (proj2 (proj2 (proj2 (sigprocmask_mask SIG_SETMASK 0x1000 0x1000 8 sig_state (Ok 0) _ _))) _ _).
  - by vm_compute.
  - done.
  - done.
Qed.

