(* ===== verification/SockAddr.v ===== *)
(** * Socket addresses and control messages

    The encodings of socket addresses in user memory ([api/src/socket.rs]) and
    of control messages ([api/src/syscall/net/cmsg.rs] and the loop over them in
    [sys_sendmsg], [api/src/syscall/net/io.rs]).  The target is little-endian.
    User memory gives and takes runs of bytes ([UserPtr::get_as_slice] and the
    like), with the alignment of the type the pointer is cast to. *)

From S2P Require Import Prelude Bytes Vm Pipe.

Definition AF_UNIX : Z := 1.
Definition AF_INET : Z := 2.
Definition AF_INET6 : Z := 10.
Definition AF_VSOCK : Z := 40.
Definition SA_FAMILY_SIZE : nat := 2.

(** Addresses: an IPv4 address is its 32 bits, an IPv6 address its octets *)
Record SocketAddrV4 := mkV4 { v4_ip : Z; v4_port : Z }.
Record SocketAddrV6 := mkV6 { v6_ip : bytes; v6_port : Z; v6_flowinfo : Z; v6_scope_id : Z }.
Record VsockAddr := mkVsock { vs_cid : Z; vs_port : Z }.
Inductive UnixSocketAddr := Unnamed | Abstract (name : bytes) | Path (path : bytes).
Inductive SocketAddrEx := IpV4 (a : SocketAddrV4) | IpV6 (a : SocketAddrV6) | Unix (a : UnixSocketAddr) | Vsock (a : VsockAddr).

(** The C structures *)
Definition sockaddr_in (a : SocketAddrV4) : bytes :=
  le_bytes 2 AF_INET ++ be_bytes 2 (v4_port a) ++ be_bytes 4 (v4_ip a) ++ replicate 8 0.
Definition sockaddr_in6 (a : SocketAddrV6) : bytes :=
  le_bytes 2 AF_INET6 ++ be_bytes 2 (v6_port a) ++ be_bytes 4 (v6_flowinfo a) ++ v6_ip a ++ le_bytes 4 (v6_scope_id a).
Definition sockaddr_vm (a : VsockAddr) : bytes :=
  le_bytes 2 AF_VSOCK ++ le_bytes 2 0 ++ le_bytes 4 (vs_port a) ++ le_bytes 4 (as_u32 (vs_cid a)) ++ replicate 4 0.
(** The family of a Unix address takes four bytes: the constant is a [u32]. *)
Definition sockaddr_un (a : UnixSocketAddr) : bytes :=
  le_bytes 4 AF_UNIX ++
  match a with Unnamed => [] | Abstract name => 0 :: name | Path path => path ++ [0] end.

Section SockAddr.
Context {V : Type} `{UserBytes V} (utf8 : bytes → bool).

Definition read_family (v : V) (addr addrlen : Z) : res Z :=
  if Z.of_nat SA_FAMILY_SIZE >? addrlen then Err InvalidInput
  else l ← ub_get v 2 addr SA_FAMILY_SIZE; Ok (le_val l).

Definition read_v4 (v : V) (addr addrlen : Z) : res SocketAddrV4 :=
  if negb (addrlen =? 16) then Err InvalidInput
  else
    l ← ub_get v 4 addr 16;
    if negb (le_val (take 2 l) =? AF_INET) then Err (Linux EAFNOSUPPORT)
    else Ok (mkV4 (be_val (take 4 (drop 4 l))) (be_val (take 2 (drop 2 l)))).

Definition read_v6 (v : V) (addr addrlen : Z) : res SocketAddrV6 :=
  if negb (addrlen =? 28) then Err InvalidInput
  else
    l ← ub_get v 4 addr 28;
    if negb (le_val (take 2 l) =? AF_INET6) then Err (Linux EAFNOSUPPORT)
    else Ok (mkV6 (take 16 (drop 8 l)) (be_val (take 2 (drop 2 l))) (be_val (take 4 (drop 4 l)))
               (le_val (take 4 (drop 24 l)))).

Definition read_vsock (v : V) (addr addrlen : Z) : res VsockAddr :=
  if negb (addrlen =? 16) then Err InvalidInput
  else
    l ← ub_get v 4 addr 16;
    if negb (le_val (take 2 l) =? AF_VSOCK) then Err (Linux EAFNOSUPPORT)
    else Ok (mkVsock (le_val (take 4 (drop 8 l))) (le_val (take 4 (drop 4 l)))).

(** [data.iter().position(|&c| c == 0)] *)
Fixpoint until_nul (l : bytes) : bytes :=
  match l with [] => [] | c :: l => if c =? 0 then [] else c :: until_nul l end.

Definition read_unix (v : V) (addr addrlen : Z) : res UnixSocketAddr :=
  family ← read_family v addr addrlen;
  if negb (family =? AF_UNIX) then Err (Linux EAFNOSUPPORT)
  else
    data ← ub_get v 1 (addr + Z.of_nat SA_FAMILY_SIZE) (Z.to_nat (addrlen - Z.of_nat SA_FAMILY_SIZE));
    match data with
    | [] => Ok Unnamed
    | c :: name =>
        if c =? 0 then Ok (Abstract name)
        else if utf8 (until_nul data) then Ok (Path (until_nul data)) else Err InvalidInput
    end.

Definition read_from_user (v : V) (addr addrlen : Z) : res SocketAddrEx :=
  family ← read_family v addr addrlen;
  if family =? AF_INET then IpV4 <$> read_v4 v addr addrlen
  else if family =? AF_INET6 then IpV6 <$> read_v6 v addr addrlen
  else if family =? AF_UNIX then Unix <$> read_unix v addr addrlen
  else if family =? AF_VSOCK then Vsock <$> read_vsock v addr addrlen
  else Err (Linux EAFNOSUPPORT).

(** The length is returned, too: the new value of [*addrlen]. *)
Definition fill_addr (addr addrlen : Z) (data : bytes) : M V Z :=
  let len := Nat.min (Z.to_nat addrlen) (length data) in
  ub_put addr (take len data);;
  mret (as_u32 (zlen data)).

Definition encode (a : SocketAddrEx) : bytes :=
  match a with
  | IpV4 a => sockaddr_in a | IpV6 a => sockaddr_in6 a | Unix a => sockaddr_un a | Vsock a => sockaddr_vm a
  end.
Definition write_to_user (a : SocketAddrEx) (addr addrlen : Z) : M V Z := fill_addr addr addrlen (encode a).

Definition family (a : SocketAddrEx) : Z := AF_INET.

(** ** Round trips *)

Context `{!UserBytesOk V}.

(** Addresses whose parts have the width of their types *)
Definition addr_ok (a : SocketAddrEx) : Prop :=
  match a with
  | IpV4 a => in_u32 (v4_ip a) ∧ 0 ≤ v4_port a < 2 ^ 16
  | IpV6 a => length (v6_ip a) = 16%nat ∧ 0 ≤ v6_port a < 2 ^ 16 ∧ in_u32 (v6_flowinfo a) ∧ in_u32 (v6_scope_id a)
  | Vsock a => in_u32 (vs_cid a) ∧ in_u32 (vs_port a)
  | Unix _ => True
  end.

(** Taking a field out of a structure *)
Lemma field_at (l1 l2 l3 : bytes) k n : length l1 = k → length l2 = n → take n (drop k (l1 ++ l2 ++ l3)) = l2.
Proof. intros <- <-. by rewrite drop_app_length, take_app_length. Qed.

Lemma encode_length a : addr_ok a →
  match a with IpV4 _ | Vsock _ => length (encode a) = 16%nat | IpV6 _ => length (encode a) = 28%nat | Unix _ => True end.
Proof.
  destruct a as [a|a| |a]; cbn [addr_ok encode]; [|intros (Hl & _)|done|]; [intros _| |intros _];
    unfold sockaddr_in, sockaddr_in6, sockaddr_vm; rewrite !length_app, ?be_bytes_length, ?le_bytes_length, ?length_replicate; lia.
Qed.

Lemma be_port_val x : 0 ≤ x < 2 ^ 16 → be_val (be_bytes 2 x) = x.
Proof. intros. by apply be_val_small. Qed.
Lemma be_word_val x : in_u32 x → be_val (be_bytes 4 x) = x.
Proof. intros. by apply be_val_small. Qed.
Lemma le_word_val x : in_u32 x → le_val (le_bytes 4 x) = x.
Proof. intros. by apply le_val_small. Qed.

(** The fields of the structures *)
Ltac lengths := rewrite ?length_app, ?be_bytes_length, ?le_bytes_length; done.

Lemma read_written_v4 v addr a : addr_ok (IpV4 a) → ub_get v 4 addr 16 = Ok (sockaddr_in a) →
  read_v4 v addr 16 = Ok a.
Proof.
  intros [Hip Hport] Hg. unfold read_v4. cbn [negb Z.eqb Pos.eqb]. rewrite Hg. unfold mbind, res_bind, sockaddr_in.
  rewrite take_app_length' by lengths. change (le_val (le_bytes 2 AF_INET) =? AF_INET) with true. cbn [negb].
  rewrite (field_at _ (be_bytes 2 _) _ 2 2) by lengths. rewrite app_assoc, field_at by lengths.
  rewrite be_port_val, be_word_val by done.
  by destruct a.
Qed.

Lemma read_written_v6 v addr a : addr_ok (IpV6 a) → ub_get v 4 addr 28 = Ok (sockaddr_in6 a) →
  read_v6 v addr 28 = Ok a.
Proof.
  intros (Hlen & Hport & Hflow & Hscope) Hg. unfold read_v6. cbn [negb Z.eqb Pos.eqb]. rewrite Hg.
  unfold mbind, res_bind, sockaddr_in6.
  rewrite take_app_length' by lengths. change (le_val (le_bytes 2 AF_INET6) =? AF_INET6) with true. cbn [negb].
  rewrite (field_at _ (be_bytes 2 _) _ 2 2) by lengths. rewrite app_assoc, (field_at _ (be_bytes 4 _) _ 4 4) by lengths.
  rewrite app_assoc, (field_at _ (v6_ip a) _ 8 16) by (done || lengths).
  rewrite app_assoc, drop_app_length' by (rewrite !length_app, !be_bytes_length, le_bytes_length, Hlen; done).
  rewrite take_ge by (rewrite le_bytes_length; done). rewrite be_port_val, be_word_val, le_word_val by done.
  by destruct a.
Qed.

Lemma read_written_vsock v addr a : addr_ok (Vsock a) → ub_get v 4 addr 16 = Ok (sockaddr_vm a) →
  read_vsock v addr 16 = Ok a.
Proof.
  intros [Hcid Hport] Hg. unfold read_vsock. cbn [negb Z.eqb Pos.eqb]. rewrite Hg. unfold mbind, res_bind, sockaddr_vm.
  rewrite take_app_length' by lengths. change (le_val (le_bytes 2 AF_VSOCK) =? AF_VSOCK) with true. cbn [negb].
  rewrite app_assoc, (field_at _ (le_bytes 4 (vs_port a)) _ 4 4) by lengths.
  rewrite app_assoc, field_at by lengths. rewrite as_u32_small, !le_word_val by done. by destruct a.
Qed.

Lemma read_family_ok v addr addrlen l : 2 ≤ addrlen → ub_get v 2 addr 2 = Ok l →
  read_family v addr addrlen = Ok (le_val l).
Proof.
  intros Hlen Hg. unfold read_family, SA_FAMILY_SIZE. rewrite Hg. by destruct (Z.gtb_spec (Z.of_nat 2) addrlen); [lia|].
Qed.

(** The encoding in memory is read as the address. *)
Lemma read_encoded v addr a : addr_ok a → (∀ u, a ≠ Unix u) → (4 | addr) →
  ub_get v 1 addr (length (encode a)) = Ok (encode a) → read_from_user v addr (zlen (encode a)) = Ok a.
Proof.
  intros Hok Hu H4 Hg. pose proof (encode_length a Hok) as Hel.
  assert (Hfam : ub_get v 2 addr 2 = Ok (take 2 (encode a))).
  { apply ub_get_aligned; [|etrans; [|exact H4]; by exists 2].
    rewrite <- (Z.add_0_r addr). apply (ub_get_part v addr _ _ 0 2 Hg). destruct a; [..|by edestruct Hu|]; lia. }
  apply (ub_get_aligned v 4) in Hg; [|done].
  destruct a as [a|a|u|a]; [| |by edestruct Hu|]; unfold zlen; rewrite Hel in *; cbn [encode] in *;
    unfold read_from_user; (erewrite read_family_ok; [|lia|exact Hfam]); unfold mbind, res_bind;
    [unfold sockaddr_in|unfold sockaddr_in6|unfold sockaddr_vm]; rewrite take_app_length' by lengths.
  - change (le_val (le_bytes 2 AF_INET) =? AF_INET) with true. change (Z.of_nat 16) with 16.
    by rewrite (read_written_v4 v addr a Hok Hg).
  - change (le_val (le_bytes 2 AF_INET6)) with AF_INET6. change (Z.of_nat 28) with 28. cbn [Z.eqb AF_INET6 AF_INET Pos.eqb].
    by rewrite (read_written_v6 v addr a Hok Hg).
  - change (le_val (le_bytes 2 AF_VSOCK)) with AF_VSOCK. change (Z.of_nat 16) with 16. cbn [Z.eqb AF_VSOCK AF_INET AF_INET6 AF_UNIX Pos.eqb].
    by rewrite (read_written_vsock v addr a Hok Hg).
Qed.

(** Socket addresses survive a round trip: an internet or vsock address that
    is written to a buffer of enough room (at an aligned address) is read back
    with the length the write has reported.  With less room exactly the first
    [addrlen] bytes of the structure are stored and the full length is
    reported. *)
Lemma sockaddr_roundtrip a addr addrlen v r v' :
  addr_ok a → (∀ u, a ≠ Unix u) → (4 | addr) → 0 ≤ addrlen →
  write_to_user a addr addrlen v = (r, v') →
  (∀ n, r = Ok n → n = zlen (encode a)
     ∧ ub_get v' 1 addr (Nat.min (Z.to_nat addrlen) (length (encode a))) = Ok (take (Z.to_nat addrlen) (encode a))
     ∧ (n ≤ addrlen → read_from_user v' addr n = Ok a)).
Proof.
  intros Hok Hu H4 Hlen. unfold write_to_user, fill_addr. unfold_m.
  destruct (ub_put addr _ v) as [[[]|e|] v1] eqn:Hput; intros [= <- <-] n [= <-].
  assert (Hel : zlen (encode a) = 16 ∨ zlen (encode a) = 28).
  { pose proof (encode_length a Hok). unfold zlen. destruct a; [left|right|by edestruct Hu|left]; lia. }
  assert (as_u32 (zlen (encode a)) = zlen (encode a)) as -> by (apply as_u32_small; unfold in_u32; lia).
  apply ub_put_ok in Hput. rewrite length_take in Hput.
  assert (Htake : take (Nat.min (Z.to_nat addrlen) (length (encode a))) (encode a) = take (Z.to_nat addrlen) (encode a)).
  { by rewrite <- take_take, (take_ge (encode a)) by lia. }
  rewrite Htake in Hput. split_and!; [done|by rewrite Nat.min_l in Hput by lia|].
  unfold zlen in *. intros Hroom. rewrite take_ge, Nat.min_l, Nat.min_r in Hput by lia.
  by apply read_encoded.
Qed.

(** A Unix path that is written and read back is another address: the family
    takes four bytes instead of two. *)
Lemma unix_path_read_back v addr path : (2 | addr) →
  ub_get v 1 addr (length (sockaddr_un (Path path))) = Ok (sockaddr_un (Path path)) →
  read_unix v addr (zlen (sockaddr_un (Path path))) = Ok (Abstract (0 :: path ++ [0])).
Proof.
  intros H2 Hg. set (l := sockaddr_un (Path path)) in *.
  assert (Hlen : length l = (length path + 5)%nat) by (unfold l, sockaddr_un; rewrite !length_app; cbn; lia).
  pose proof (ub_get_part v addr _ _ 0 2 Hg ltac:(lia)) as Hfam. rewrite Z.add_0_r in Hfam.
  apply (ub_get_aligned v 2) in Hfam; [|done].
  pose proof (ub_get_part v addr _ _ 2 (length path + 3) Hg ltac:(lia)) as Hdata.
  unfold read_unix. erewrite read_family_ok; [|unfold zlen; lia|exact Hfam]. unfold mbind, res_bind.
  change (le_val (take 2 (drop 0 l))) with AF_UNIX. cbn [Z.eqb AF_UNIX Pos.eqb negb].
  replace (Z.to_nat (zlen l - Z.of_nat SA_FAMILY_SIZE)) with (length path + 3)%nat by (unfold zlen, SA_FAMILY_SIZE; lia).
  unfold SA_FAMILY_SIZE. rewrite Hdata. rewrite take_ge by (rewrite length_drop, Hlen; lia). done.
Qed.
End SockAddr.

(** ** Control messages *)

Definition CMSG_HDR : nat := 16.                   (* [size_of::<cmsghdr>()] *)
Definition SOL_SOCKET : Z := 1.
Definition SCM_RIGHTS : Z := 1.

Record cmsghdr := mkCmsghdr { cmsg_len : Z; cmsg_level : Z; cmsg_type : Z }.
Definition cmsghdr_bytes (h : cmsghdr) : bytes :=
  le_bytes 8 (cmsg_len h) ++ le_bytes 4 (cmsg_level h) ++ le_bytes 4 (cmsg_type h).
Definition read_cmsghdr (l : bytes) : cmsghdr :=
  mkCmsghdr (le_val (take 8 l)) (le_val (take 4 (drop 8 l))) (le_val (take 4 (drop 12 l))).

Section CMsg.
Context {V F : Type} `{UserBytes V} (get_file : Z → res F).

(** [data.chunks_exact(4)], each a descriptor; [n] bounds their number. *)
Fixpoint parse_fds (n : nat) (data : bytes) : res (list F) :=
  match n with
  | O => Ok []
  | S n =>
      let fd := as_i32 (le_val (take 4 data)) in
      if fd <? 0 then Err BadFileDescriptor
      else f ← get_file fd; fs ← parse_fds n (drop 4 data); Ok (f :: fs)
  end.

(** [CMsg::parse] of the header at [ptr]: the files of [SCM_RIGHTS] *)
Definition CMsg_parse (v : V) (ptr : Z) (hdr : cmsghdr) : res (list F) :=
  if cmsg_len hdr <? Z.of_nat CMSG_HDR then Err InvalidInput
  else
    let n := Z.to_nat (cmsg_len hdr - Z.of_nat CMSG_HDR) in
    data ← ub_get v 1 (ptr + Z.of_nat CMSG_HDR) n;
    if (cmsg_level hdr =? SOL_SOCKET) && (cmsg_type hdr =? SCM_RIGHTS) then
      if negb (n mod 4 =? 0)%nat then Err InvalidInput else parse_fds (n / 4) data
    else Err InvalidInput.

(** The loop of [sys_sendmsg]; [None]: it has not ended after [fuel] rounds. *)
Fixpoint sendmsg_control (fuel : nat) (v : V) (ptr ptr_end : Z) (cmsg : list (list F)) : option (res (list (list F))) :=
  match fuel with
  | O => None
  | S fuel =>
      if add_u64 ptr (Z.of_nat CMSG_HDR) <=? ptr_end then
        match ub_get v 8 ptr CMSG_HDR with
        | Ok l =>
            let hdr := read_cmsghdr l in
            if sub_u64 ptr_end ptr <? cmsg_len hdr then Some (Err InvalidInput)
            else
              match CMsg_parse v ptr hdr with
              | Ok m => sendmsg_control fuel v (add_u64 ptr (cmsg_len hdr)) ptr_end (cmsg ++ [m])
              | Err e => Some (Err e)
              | Panic => Some Panic
              end
        | Err e => Some (Err e)
        | Panic => Some Panic
        end
      else Some (Ok cmsg)
  end.

(** What the walk over the control buffer accepts: messages one after the
    other, with less than a header's room behind the last *)
Inductive messages (v : V) (ptr_end : Z) : Z → list (list F) → Prop :=
| messages_end ptr : ptr ≤ ptr_end < ptr + Z.of_nat CMSG_HDR → messages v ptr_end ptr []
| messages_cons ptr l m ms : ub_get v 8 ptr CMSG_HDR = Ok l →
    let hdr := read_cmsghdr l in
    Z.of_nat CMSG_HDR ≤ cmsg_len hdr ≤ ptr_end - ptr → CMsg_parse v ptr hdr = Ok m →
    messages v ptr_end (ptr + cmsg_len hdr) ms → messages v ptr_end ptr (m :: ms).

Lemma CMsg_parse_len v ptr hdr m : CMsg_parse v ptr hdr = Ok m → Z.of_nat CMSG_HDR ≤ cmsg_len hdr.
Proof. unfold CMsg_parse. destruct (Z.ltb_spec (cmsg_len hdr) (Z.of_nat CMSG_HDR)); [done|lia]. Qed.

(** C31: The walk of [sendmsg] over the control messages ends (every message has
    at least a header, so [controllen / 16 + 1] rounds suffice), and if it
    succeeds the control buffer is a sequence of messages without gaps, each
    inside of the buffer, and the result is what they carry, in order. *)
Theorem sendmsg_control_walk v ptr ptr_end cmsg fuel :
  0 ≤ ptr ≤ ptr_end → ptr_end + Z.of_nat CMSG_HDR < 2 ^ 64 → (Z.to_nat ((ptr_end - ptr) / 16) < fuel)%nat →
  ∃ r, sendmsg_control fuel v ptr ptr_end cmsg = Some r
    ∧ ∀ ms, r = Ok ms → ∃ ms', ms = cmsg ++ ms' ∧ messages v ptr_end ptr ms'.
Proof.
  revert ptr cmsg. induction fuel as [|fuel IH]; intros ptr cmsg Hp Hend Hfuel; [lia|]. cbn [sendmsg_control].
  unfold add_u64, sub_u64. rewrite (as_u64_small (ptr + Z.of_nat CMSG_HDR)) by (unfold in_u64, CMSG_HDR in *; lia).
  destruct (Z.leb_spec (ptr + Z.of_nat CMSG_HDR) ptr_end) as [Hle|Hgt].
  2:{ eexists. split; [done|]. intros ms [= <-]. exists []. split; [by rewrite app_nil_r|]. apply messages_end. lia. }
  destruct (ub_get v 8 ptr CMSG_HDR) as [l|e|] eqn:Hg; [|by eexists..].
  rewrite as_u64_small by (unfold in_u64; lia). set (hdr := read_cmsghdr l).
  destruct (Z.ltb_spec (ptr_end - ptr) (cmsg_len hdr)) as [|Hlen]; [by eexists|].
  destruct (CMsg_parse v ptr hdr) as [m|e|] eqn:Hm; [|by eexists..].
  pose proof (CMsg_parse_len _ _ _ _ Hm) as Hmin. unfold CMSG_HDR in *.
  rewrite as_u64_small by (unfold in_u64; lia).
  destruct (IH (ptr + cmsg_len hdr) (cmsg ++ [m])) as (r & Hr & Hms); [lia|lia|..].
  { assert ((ptr_end - (ptr + cmsg_len hdr)) / 16 + 1 ≤ (ptr_end - ptr) / 16).
    { rewrite <- Z.div_add by lia. apply Z.div_le_mono; lia. }
    assert (0 ≤ (ptr_end - (ptr + cmsg_len hdr)) / 16) by (apply Z.div_pos; lia).
    set (a := (_ - (_ + _)) / 16) in *. set (b := (_ - ptr) / 16) in *. clearbody a b. lia. }
  exists r. split; [done|]. intros ms Hok. destruct (Hms ms Hok) as (ms' & -> & Hmsgs).
  exists (m :: ms'). split; [by rewrite <- app_assoc|]. by eapply messages_cons.
Qed.
End CMsg.

(** ** A memory *)

Record bmem := mkBmem { bm_byte : Z → Z }.
Definition bm_get (f : Z → Z) (p : Z) (n : nat) : bytes := (λ i, f (p + Z.of_nat i)) <$> seq 0 n.
#[export] Instance bmem_bytes : UserBytes bmem := {
  ub_get v a p n := if p mod a =? 0 then Ok (bm_get (bm_byte v) p n) else Err BadAddress;
  ub_put p l := λ v, (Ok tt, mkBmem (λ x,
    if bool_decide (p ≤ x < p + zlen l) then default 0 (l !! Z.to_nat (x - p)) else bm_byte v x));
}.
#[export] Instance bmem_ok : UserBytesOk bmem.
Proof.
  split; cbn.
  - intros v p n l k m. rewrite !Z.mod_1_r. cbn. intros [= <-] Hk. f_equal. unfold bm_get.
    rewrite <- fmap_drop, <- fmap_take, drop_seq, take_seq. replace (m `min` (n - k))%nat with m by lia.
    replace (0 + k)%nat with (k + 0)%nat by lia. rewrite <- (fmap_add_seq k 0 m), <- list_fmap_compose.
    apply list_fmap_ext. intros i x _. cbn. f_equal. lia.
  - intros v a p n l. rewrite Z.mod_1_r. cbn. intros [= <-] Ha. destruct (decide (a = 0)) as [->|Hne].
    { destruct Ha as [k ->]. by rewrite Z.mul_0_r, Zmod_0_l. }
    by rewrite (proj2 (Z.mod_divide p a Hne) Ha).
  - intros p l v v' [= <-]. rewrite Z.mod_1_r. cbn. f_equal. apply list_eq. intros i. unfold bm_get.
    rewrite list_lookup_fmap. destruct (decide (i < length l)%nat) as [Hi|Hi].
    + rewrite lookup_seq_lt by done. cbn. unfold zlen. rewrite bool_decide_eq_true_2 by lia.
      replace (Z.to_nat (p + Z.of_nat i - p)) with i by lia. by destruct (lookup_lt_is_Some_2 l i Hi) as [x ->].
    + by rewrite lookup_seq_ge, lookup_ge_None_2 by lia.
Qed.
#[export] Instance bmem_mut : UserBytesMut bmem.
Proof.
  refine {| ub_get_mut := ub_get |}; cbn.
  - intros v a p n. by destruct (_ =? 0).
  - intros v a p n l. destruct (_ =? 0); [|done]. intros [= <-]. unfold bm_get. by rewrite length_fmap, length_seq.
  - done.
  - intros v p l r v' a q n x [= <- <-]. destruct (_ =? 0); [|done]. by eexists.
Defined.

Definition no_mem : bmem := mkBmem (λ _, 0).

(** One message with descriptor 5 *)
Definition one_right : bmem :=
  (ub_put 0x2000 (cmsghdr_bytes (mkCmsghdr 20 SOL_SOCKET SCM_RIGHTS) ++ le_bytes 4 5) no_mem).2.
Lemma sendmsg_control_walk_witness :
  sendmsg_control Ok 2 one_right 0x2000 0x2014 [] = Some (Ok [[5]]) ∧ messages Ok one_right 0x2014 0x2000 [[5]].
Proof.
  assert (Hs : sendmsg_control Ok 2 one_right 0x2000 0x2014 [] = Some (Ok [[5]])) by (by vm_compute).
  split; [exact Hs|].
  destruct (sendmsg_control_walk Ok one_right 0x2000 0x2014 [] 2) as (r & Hr & Hms); [lia|unfold CMSG_HDR; lia|..].
  { apply Nat.ltb_lt. by vm_compute. }
  rewrite Hs in Hr. injection Hr as <-. destruct (Hms _ eq_refl) as (ms & -> & Hm). exact Hm.
Defined.

(** The walk does not round a message's length up, as user programs do: behind
    one descriptor the next header is expected where its padding is. *)
Example second_message_refused :
  let msg := cmsghdr_bytes (mkCmsghdr 20 SOL_SOCKET SCM_RIGHTS) ++ le_bytes 4 5 in
  let v := (ub_put 0x2000 (msg ++ replicate 4 0 ++ msg) no_mem).2 in
  sendmsg_control Ok 4 v 0x2000 0x202c [] = Some (Err BadAddress).
Proof. by vm_compute. Qed.
