(* ===== verification/EpollWait.v ===== *)
(** * Waiting for many files

    [World] puts the files of [Pollable], a table of descriptors and an epoll
    instance ([Epoll]) together.  [do_epoll_wait], [sys_epoll_pwait] and
    [sys_epoll_pwait2] ([api/src/syscall/io_mpx/epoll.rs]) wait in it while
    others use the files. *)

From S2P Require Import Prelude Bytes Vm Time TimeSys Process SockAddr Epoll EventFd Pipe PollSelect Pollable.

#[export] Instance TriggerMode_eq : EqDecision TriggerMode.
Proof. solve_decision. Defined.

(** ** What the queue holds *)

(** An interest that is ready and not edge-triggered is marked as queued. *)
Definition holds_ready (e : env) (s : Epoll) : Prop :=
  ∀ id i, upgrade s id = Some i → is_due e i → in_mode i ≠ Edge → in_ready_queue i = true.

(** Some interests are gone, some have been marked. *)
Definition marked (s s' : Epoll) : Prop :=
  ∀ id i', upgrade s' id = Some i' → ∃ i, upgrade s id = Some i ∧ (i' = i ∨ i' = i <| in_ready_queue := true |>).
#[export] Instance marked_preorder : PreOrder marked.
Proof.
  split; [intros s id i Hu; eauto|]. intros s1 s2 s3 H12 H23 id i3 (i2 & Hu2 & H3)%H23. destruct (H12 id i2 Hu2) as (i1 & Hu1 & H2).
  exists i1. split; [done|]. destruct H2, H3; subst; auto.
Qed.
Lemma marked_holds e s s' : marked s s' → holds_ready e s → holds_ready e s'.
Proof. intros Hm Hh id i' (i & Hu & [->| ->])%Hm Hd Hn; [by eapply Hh|done]. Qed.

Lemma interest_wake_marked id s : marked s (interest_wake id s).
Proof.
  unfold interest_wake. destruct (upgrade s id) as [i|] eqn:Hu; [|done]. case_match; [done|].
  intros x i' (Ho & Ht)%upgrade_spec. cbn in *. apply upgrade_spec in Hu as [Hoi Hti]. destruct (decide (x = id)) as [->|Hne].
  - rewrite lookup_insert_eq in Ho. injection Ho as <-. exists i. split; [by apply upgrade_spec|auto].
  - rewrite lookup_insert_ne in Ho by done. exists i'. split; [by apply upgrade_spec|auto].
Qed.
Lemma interest_wake_queued id s i : upgrade s id = Some i →
  ∃ i', upgrade (interest_wake id s) id = Some i' ∧ in_ready_queue i' = true.
Proof.
  intros Hu. unfold interest_wake. rewrite Hu. destruct (in_ready_queue i) eqn:Hq; [by exists i|].
  apply upgrade_spec in Hu as [Ho Ht]. exists (i <| in_ready_queue := true |>). split; [|done].
  apply upgrade_spec. cbn. by rewrite lookup_insert_eq.
Qed.
Lemma wake_registered_marked r s : marked s (wake_registered r s).
Proof. etransitivity; [|apply interest_wake_marked]. intros id i Hu. exists i. split; [exact Hu|auto]. Qed.

(** The interest [i] has just been made. *)
Lemma check_holds e id i s : upgrade s id = Some i →
  (∀ x j, x ≠ id → upgrade s x = Some j → is_due e j → in_mode j ≠ Edge → in_ready_queue j = true) →
  holds_ready e (check_and_register_waker e id i s).
Proof.
  intros Hu Hs. assert (∀ s', marked s s' → (is_due e i → ∃ i', upgrade s' id = Some i' ∧ in_ready_queue i' = true) →
    holds_ready e s') as Hgo.
  { intros s' Hm Hid x j' Hx Hd Hn. destruct (Hm x j' Hx) as (j & Hj & Hjj). destruct (decide (x = id)) as [->|Hne].
    - assert (j = i) as -> by congruence. destruct Hid as (i' & Hi' & Hq); [by destruct Hjj; subst|]. by simplify_eq.
    - destruct Hjj; subst; [by eapply Hs|done]. }
  unfold check_and_register_waker, key_file. destruct (ev_alive e (in_key i).2) eqn:Ha.
  2:{ apply Hgo; [reflexivity|]. intros (Ha' & _). congruence. }
  destruct (mode_is_enabled (in_mode i)) eqn:Hen; cbn [negb].
  2:{ apply Hgo; [reflexivity|]. intros (_ & Hen' & _). congruence. }
  destruct (Z.eqb_spec (Z.land (ev_poll e (in_key i).2) (ee_events (in_event i))) 0) as [Hz|Hz]; cbn [negb].
  - apply Hgo; [intros x j Hx; exists j; split; [exact Hx|auto]|]. by intros (_ & _ & ?).
  - apply Hgo; [apply interest_wake_marked|]. intros _. by eapply interest_wake_queued.
Qed.

Lemma insert_holds e s key i : in_key i = key → holds_ready e s →
  let s1 := set_interest (ep_next s) i s <| ep_interests ::= <[key := ep_next s]> |> <| ep_next ::= λ n, n + 1 |> in
  holds_ready e (check_and_register_waker e (ep_next s) i s1).
Proof.
  intros <- Hh s1. apply check_holds.
  - apply upgrade_spec. cbn. by rewrite !lookup_insert_eq.
  - intros x j Hne (Ho & Ht)%upgrade_spec. cbn in Ho, Ht. rewrite lookup_insert_ne in Ho by done.
    apply Hh with x. apply upgrade_spec. split; [done|]. destruct (decide (in_key i = in_key j)) as [E|E].
    + rewrite E, lookup_insert_eq in Ht. congruence.
    + by rewrite lookup_insert_ne in Ht.
Qed.

Lemma delete_holds e s f : holds_ready e s → holds_ready e (s <| ep_interests ::= delete f |>).
Proof.
  apply marked_holds. intros id i (Ho & Ht)%upgrade_spec. cbn in *. apply lookup_delete_Some in Ht as [_ Ht].
  exists i. split; [by apply upgrade_spec|auto].
Qed.

Lemma poll_one_holds e id s : holds_ready e s → holds_ready e (poll_one e id s).2.
Proof.
  intros Hh. unfold poll_one. destruct (upgrade s id) as [i|] eqn:Hu; [|done].
  assert (∀ i' s', ep_objects s' = <[id := i']> (ep_objects s) →
    (∀ k x, ep_interests s' !! k = Some x → ep_interests s !! k = Some x) →
    (ep_interests s' !! in_key i' = Some id → is_due e i' → in_mode i' ≠ Edge → in_ready_queue i' = true) → holds_ready e s') as Hgo.
  { intros i' s' Ho' Ht' Hi' x j (Ho & Ht)%upgrade_spec Hd Hn. rewrite Ho' in Ho. destruct (decide (x = id)) as [->|Hne].
    - rewrite lookup_insert_eq in Ho. injection Ho as <-. by apply Hi'.
    - rewrite lookup_insert_ne in Ho by done. apply (Hh x j); [|done..]. apply upgrade_spec. split; [done|by apply Ht']. }
  assert (∀ j s', ep_objects (register_waker_only e id j s') = ep_objects s' ∧ ep_interests (register_waker_only e id j s') = ep_interests s')
    as Hreg by (intros; unfold register_waker_only; by repeat case_match).
  unfold key_file. destruct (ev_alive e (in_key i).2) eqn:Ha.
  2:{ eapply Hgo; [done| |].
      - cbn. by intros k x [_ ?]%lookup_delete_Some.
      - cbn. rewrite lookup_delete_eq. done. }
  pose proof (consume_key (ev_poll e (in_key i).2) i) as Hk.
  destruct (consume _ i) as [c i'] eqn:Hc. cbn [snd] in Hk. destruct c as [event|event|].
  - apply consume_keep in Hc as [-> Hm]. eapply Hgo; [done|done|]. cbn. intros Ht Hd Hn. by apply (Hh id).
  - cbn [snd]. apply (Hgo (i' <| in_ready_queue := false |>)); [by rewrite (proj1 (Hreg _ _))|by rewrite (proj2 (Hreg _ _))|]. intros _ (_ & Hen & _) Hn. exfalso.
    unfold consume in Hc. destruct (in_mode i) as [| |[]]; cbn in Hc; repeat case_match; simplify_eq; cbn in *; done.
  - cbn [snd]. apply (Hgo (i' <| in_ready_queue := false |>)); [by rewrite (proj1 (Hreg _ _))|by rewrite (proj2 (Hreg _ _))|]. intros _ (_ & Hen & Hm) Hn. exfalso. cbn in Hen, Hm. rewrite Hk in Hm.
    unfold consume in Hc. case_match eqn:E.
    + apply Z.eqb_eq in E. injection Hc as <-. done.
    + destruct (in_mode i) as [| |[]]; cbn in Hc; simplify_eq.
Qed.

Lemma poll_loop_holds e fuel : ∀ left s evs s',
  poll_loop fuel e left s = Some (evs, s') → holds_ready e s → holds_ready e s'.
Proof.
  induction fuel as [|fuel IH]; intros left s evs s' Hl Hh; cbn [poll_loop] in Hl; [done|].
  destruct (ep_ready s) as [|id rest]; [by simplify_eq|]. destruct left as [|left]; [by simplify_eq|].
  match type of Hl with context [poll_one e id ?x] => pose proof (poll_one_holds e id x Hh) as H1;
    destruct (poll_one e id x) as [[ev|] s1] end; cbn [snd] in H1; [|exact (IH _ _ _ _ Hl H1)].
  destruct (poll_loop fuel e left s1) as [[evs1 s2]|] eqn:E; simplify_eq/=. exact (IH _ _ _ _ E H1).
Qed.

(** Every action of the epoll instance keeps the queue complete. *)
Lemma act_holds e a s : holds_ready e s → holds_ready e (act e a s).
Proof.
  intros Hh. destruct a as [fd event flags|fd event flags|fd|n|r]; cbn [act].
  - unfold ep_add. unfold_m. destruct (EntryKey_new e fd) as [key| |]; try done. case_bool_decide; [done|]. by apply insert_holds.
  - unfold ep_modify. unfold_m. destruct (EntryKey_new e fd) as [key| |]; try done.
    destruct (ep_interests s !! key) as [old|]; [|done]. by apply insert_holds.
  - unfold ep_delete. unfold_m. destruct (EntryKey_new e fd); try done.
    destruct (ep_interests s !! _); [|done]. by apply delete_holds.
  - unfold poll_events. destruct (poll_loop (poll_fuel n s) e n s) as [[evs s']|] eqn:E; [|done].
    pose proof (poll_loop_holds e _ _ _ _ _ E Hh). by destruct evs.
  - case_decide; [|done]. by eapply marked_holds, Hh; apply wake_registered_marked.
Qed.

(** ** What is reported *)

(** An interest as it was before an entry of the queue was handled *)
Lemma poll_one_back e id s x j : upgrade (poll_one e id s).2 x = Some j →
  ∃ i, upgrade s x = Some i ∧ in_key j = in_key i ∧ in_event j = in_event i
       ∧ (mode_is_enabled (in_mode j) = true → mode_is_enabled (in_mode i) = true).
Proof.
  unfold poll_one. destruct (upgrade s id) as [i|] eqn:Hu; [|by eauto].
  assert (∀ i' s', ep_objects s' = <[id := i']> (ep_objects s) →
    (∀ k y, ep_interests s' !! k = Some y → ep_interests s !! k = Some y) →
    in_key i' = in_key i ∧ in_event i' = in_event i ∧ (mode_is_enabled (in_mode i') = true → mode_is_enabled (in_mode i) = true) →
    upgrade s' x = Some j → ∃ i, upgrade s x = Some i ∧ in_key j = in_key i ∧ in_event j = in_event i
      ∧ (mode_is_enabled (in_mode j) = true → mode_is_enabled (in_mode i) = true)) as Hgo.
  { intros i' s' Ho' Ht' Hi' (Ho & Ht)%upgrade_spec. rewrite Ho' in Ho. destruct (decide (x = id)) as [->|Hne].
    - rewrite lookup_insert_eq in Ho. injection Ho as <-. by exists i.
    - rewrite lookup_insert_ne in Ho by done. exists j. split; [|done]. apply upgrade_spec. split; [done|by apply Ht']. }
  assert (∀ j s', ep_objects (register_waker_only e id j s') = ep_objects s' ∧ ep_interests (register_waker_only e id j s') = ep_interests s')
    as Hreg by (intros; unfold register_waker_only; by repeat case_match).
  destruct (key_file e i) as [file|].
  2:{ eapply Hgo; [done|cbn; by intros k y [_ ?]%lookup_delete_Some|done]. }
  assert (in_key (consume (ev_poll e file) i).2 = in_key i ∧ in_event (consume (ev_poll e file) i).2 = in_event i
    ∧ (mode_is_enabled (in_mode (consume (ev_poll e file) i).2) = true → mode_is_enabled (in_mode i) = true)) as Hc.
  { unfold consume. destruct i as [k ev [| |[]] q]; cbn; repeat case_match; done. }
  destruct (consume _ i) as [[ev|ev|] i']; cbn [snd] in *.
  - by apply (Hgo i').
  - apply (Hgo (i' <| in_ready_queue := false |>)); [by rewrite (proj1 (Hreg _ _))|by rewrite (proj2 (Hreg _ _))|done].
  - apply (Hgo (i' <| in_ready_queue := false |>)); [by rewrite (proj1 (Hreg _ _))|by rewrite (proj2 (Hreg _ _))|done].
Qed.
Lemma poll_one_event e id s ev : (poll_one e id s).1 = Some ev → ∃ i, upgrade s id = Some i ∧ is_due e i ∧ ev = due_event e i.
Proof.
  unfold poll_one. destruct (upgrade s id) as [i|]; [|done]. unfold key_file. destruct (ev_alive e (in_key i).2) eqn:Ha; [|done].
  unfold consume. destruct (Z.eqb_spec (Z.land (ev_poll e (in_key i).2) (ee_events (in_event i))) 0); [done|].
  destruct (in_mode i) as [| |[]] eqn:Hm; cbn; intros [= <-]; exists i; (split; [done|]); (split; [|done]); (split; [done|]);
    rewrite Hm; by split.
Qed.

(** Every event is that of an interest that is ready. *)
Lemma poll_loop_due e fuel : ∀ left s evs s', poll_loop fuel e left s = Some (evs, s') →
  Forall (λ ev, ∃ id i, upgrade s id = Some i ∧ is_due e i ∧ ev = due_event e i) evs.
Proof.
  induction fuel as [|fuel IH]; intros left s evs s' Hl; cbn [poll_loop] in Hl; [done|].
  destruct (ep_ready s) as [|id rest]; [by simplify_eq|]. destruct left as [|left]; [by simplify_eq|].
  match type of Hl with context [poll_one e id ?x] => pose proof (poll_one_event e id x) as H1; pose proof (poll_one_back e id x) as H2;
    destruct (poll_one e id x) as [o s1] end; cbn [fst snd] in H1, H2.
  assert (∀ evs, Forall (λ ev, ∃ id i, upgrade s1 id = Some i ∧ is_due e i ∧ ev = due_event e i) evs →
    Forall (λ ev, ∃ id i, upgrade s id = Some i ∧ is_due e i ∧ ev = due_event e i) evs) as Hback.
  { intros l Hl1. eapply Forall_impl; [exact Hl1|]. intros ev (x & j & Hx & (Ha & Hen & Hr) & ->). destruct (H2 x j Hx) as (i & Hi & Hk & He & Hm).
    rewrite Hk in Ha, Hr. rewrite He in Hr. exists x, i. unfold due_event. rewrite Hk, He. split; [exact Hi|]. by repeat split; auto. }
  destruct o as [ev|]; [|by eapply Hback, IH].
  destruct (poll_loop fuel e left s1) as [[evs1 s2]|] eqn:E; simplify_eq/=. constructor; [|by eapply Hback, IH].
  destruct (H1 ev eq_refl) as (i & Hi). by exists id, i.
Qed.

(** When nothing is reported no entry of the queue was ready. *)
Lemma poll_loop_none L e fuel : ∀ left s s', poll_loop fuel e left s = Some ([], s') → (0 < left)%nat → ep_inv L s →
  ∀ id i, id ∈ ep_ready s → upgrade s id = Some i → ¬ is_due e i.
Proof.
  induction fuel as [|fuel IH]; intros left s s' Hl Hn I id i Hid Hu Hd; cbn [poll_loop] in Hl; [done|].
  destruct (ep_ready s) as [|x rest] eqn:Hq; [by apply elem_of_nil in Hid|]. destruct left as [|left]; [lia|].
  pose proof (inv_nodup L s I) as Hnd. rewrite Hq in Hnd. apply NoDup_cons in Hnd as [Hx _].
  pose proof (poll_one_inv L e s x rest I Hq) as I1. set (s0 := s <| ep_ready := rest |>) in *.
  pose proof (poll_one_ready e x s0) as Hr1. pose proof (poll_one_other e s0 x id i) as Ho.
  pose proof (poll_one_due e s0 x i) as Hone. destruct (poll_one e x s0) as [[ev|] s1]; cbn [fst snd] in *.
  { by destruct (poll_loop fuel e left s1) as [[]|]. }
  apply elem_of_cons in Hid as [->|Hid]; [by specialize (Hone Hu Hd)|].
  eapply (IH (Datatypes.S left) s1 s' Hl); [lia|done| |apply Ho|done]; [|by intros ->|done].
  by rewrite Hr1.
Qed.

(** ** The files interests are for *)

Definition keys_below (n : Z) (s : Epoll) : Prop := ∀ id i, ep_objects s !! id = Some i → (in_key i).2 < n.

Lemma keys_insert n id i s : keys_below n s → (in_key i).2 < n → keys_below n (set_interest id i s).
Proof.
  intros Hk Hi x j. cbn. destruct (decide (x = id)) as [->|]; [|by rewrite lookup_insert_ne by done; apply Hk].
  rewrite lookup_insert_eq. by intros [= <-].
Qed.
Lemma keys_wake n id s : keys_below n s → keys_below n (interest_wake id s).
Proof.
  intros Hk. unfold interest_wake. destruct (upgrade s id) as [i|] eqn:Hu; [|done]. case_match; [done|].
  apply (keys_insert n id (i <| in_ready_queue := true |>) s Hk). apply upgrade_spec in Hu as [Ho _]. by apply (Hk id i).
Qed.
Lemma keys_check n e id i s : keys_below n s → keys_below n (check_and_register_waker e id i s).
Proof.
  intros Hk. unfold check_and_register_waker. repeat case_match; try done; by apply keys_wake.
Qed.
Lemma keys_poll_one n e id s : keys_below n s → keys_below n (poll_one e id s).2.
Proof.
  intros Hk. unfold poll_one. destruct (upgrade s id) as [i|] eqn:Hu; [|done]. apply upgrade_spec in Hu as [Ho _].
  pose proof (Hk id i Ho) as Hi. pose proof (λ p, consume_key p i) as Hc.
  assert (∀ j s', keys_below n s' → keys_below n (register_waker_only e id j s')) as Hr
    by (intros; unfold register_waker_only; by repeat case_match).
  destruct (key_file e i) as [file|]; [|by apply (keys_insert n id (i <| in_ready_queue := false |>) s)].
  specialize (Hc (ev_poll e file)). destruct (consume _ i) as [[ev|ev|] i']; cbn [snd] in *.
  - apply (keys_insert n id i' s Hk). by rewrite Hc.
  - apply Hr, keys_insert; [done|]. cbn. by rewrite Hc.
  - apply Hr, keys_insert; [done|]. cbn. by rewrite Hc.
Qed.
Lemma keys_poll_loop n e fuel : ∀ left s evs s', poll_loop fuel e left s = Some (evs, s') → keys_below n s → keys_below n s'.
Proof.
  induction fuel as [|fuel IH]; intros left s evs s' Hl Hh; cbn [poll_loop] in Hl; [done|].
  destruct (ep_ready s) as [|id rest]; [by simplify_eq|]. destruct left as [|left]; [by simplify_eq|].
  match type of Hl with context [poll_one e id ?x] => pose proof (keys_poll_one n e id x Hh) as H1;
    destruct (poll_one e id x) as [[ev|] s1] end; cbn [snd] in H1; [|exact (IH _ _ _ _ Hl H1)].
  destruct (poll_loop fuel e left s1) as [[evs1 s2]|] eqn:E; simplify_eq/=. exact (IH _ _ _ _ E H1).
Qed.
Lemma act_keys n e a s : (∀ fd file, ev_fd e fd = Some file → file < n) → keys_below n s → keys_below n (act e a s).
Proof.
  intros He Hk.
  assert (∀ fd key, EntryKey_new e fd = Ok key → key.2 < n) as Hkey.
  { intros fd key. unfold EntryKey_new. destruct (ev_fd e fd) as [file|] eqn:E; [|done]. intros [= <-]. by eapply He. }
  destruct a as [fd event flags|fd event flags|fd|m|r]; cbn [act].
  - unfold ep_add. unfold_m. destruct (EntryKey_new e fd) as [key| |] eqn:E; try done. case_bool_decide; [done|].
    apply keys_check. apply (keys_insert n (ep_next s) (EpollInterest_new key event flags) s Hk). by eapply Hkey.
  - unfold ep_modify. unfold_m. destruct (EntryKey_new e fd) as [key| |] eqn:E; try done.
    destruct (ep_interests s !! key) as [old|]; [|done]. apply keys_check.
    apply (keys_insert n (ep_next s) (_ <| in_ready_queue := _ |>) s Hk). by eapply Hkey.
  - unfold ep_delete. unfold_m. destruct (EntryKey_new e fd); try done. by destruct (ep_interests s !! _).
  - unfold poll_events. destruct (poll_loop (poll_fuel m s) e m s) as [[evs s']|] eqn:E; [|done].
    pose proof (keys_poll_loop n e _ _ _ _ _ E Hk). by destruct evs.
  - case_decide; [|done]. by apply keys_wake.
Qed.

(** ** Files, descriptors and an epoll instance *)

(** [w_files] are all files there ever were, with their object and their view
    of it; [w_alive] those that still exist. *)
Record World (F V : Type) := mkWorld {
  w_objs : gmap Z F;
  w_files : gmap Z (Z * V);
  w_alive : gset Z;
  w_fds : gmap Z Z;
  w_next : Z;
  w_epoll : Epoll;
}.
Arguments mkWorld {_ _}.
Arguments w_objs {_ _}.
Arguments w_files {_ _}.
Arguments w_alive {_ _}.
Arguments w_fds {_ _}.
Arguments w_next {_ _}.
Arguments w_epoll {_ _}.
#[export] Instance eta_World F V : Eta (World F V) := λ w,
  mkWorld (w_objs w) (w_files w) (w_alive w) (w_fds w) (w_next w) (w_epoll w).

Section World.
Context {F V O : Type} `{Pollable F V O}.
Abbreviation W := (World F V).
(** The order in which a poll set wakes its wakers *)
Context (wake_order : gset (Z * Z) → list (Z * Z)).

Definition world_new : W := mkWorld ∅ ∅ ∅ ∅ 0 Epoll_new.

Definition poll_file (w : W) (file : Z) : Z :=
  match w_files w !! file with
  | Some (o, v) => match w_objs w !! o with Some f => po_poll v f | None => 0 end
  | None => 0
  end.
Definition w_env (w : W) : env :=
  mkEnv (poll_file w) (λ file, bool_decide (file ∈ w_alive w)) (λ fd, w_fds w !! fd).

(** The wakers in the sets [woken] of object [o], and their wake-up *)
Definition in_sets (w : W) (o : Z) (woken : list pset) (r : Z * Z) : Prop :=
  match w_files w !! r.1, ep_objects (w_epoll w) !! r.2 with
  | Some (o', v), Some i => o' = o ∧ Exists (λ x, x ∈ woken) (po_register v (ee_events (in_event i)))
  | _, _ => False
  end.
#[export] Instance in_sets_dec w o woken r : Decision (in_sets w o woken r).
Proof. unfold in_sets. destruct (w_files w !! r.1) as [[]|], (ep_objects (w_epoll w) !! r.2); apply _. Defined.
Definition wake_sets (o : Z) (woken : list pset) (w : W) : W :=
  w <| w_epoll ::= λ s, foldl (λ s r, act (w_env w) (AWake r) s) s (wake_order (filter (in_sets w o woken) (ep_reg s))) |>.

Definition file_op (o : Z) (op : O) (w : W) : W :=
  match w_objs w !! o with
  | None => w
  | Some f => let '(f', woken) := po_step op f in wake_sets o woken (w <| w_objs ::= <[o := f']> |>)
  end.

Inductive wstep :=
| WNew (o : Z) (f : F)                     (* an object *)
| WFile (o fd : Z) (v : V)                 (* a file of it, with a descriptor *)
| WDup (fd fd' : Z)
| WClose (fd : Z)
| WOp (o : Z) (op : O)
| WEpoll (a : action).

Definition run_step (x : wstep) (w : W) : W :=
  match x with
  | WNew o f => if decide (w_objs w !! o = None) then w <| w_objs ::= <[o := f]> |> else w
  | WFile o fd v =>
      if decide (is_Some (w_objs w !! o) ∧ w_fds w !! fd = None) then
        w <| w_files ::= <[w_next w := (o, v)]> |> <| w_alive ::= λ x, {[w_next w]} ∪ x |>
          <| w_fds ::= <[fd := w_next w]> |> <| w_next ::= λ n, n + 1 |>
      else w
  | WDup fd fd' =>
      match w_fds w !! fd, w_fds w !! fd' with
      | Some file, None => w <| w_fds ::= <[fd' := file]> |>
      | _, _ => w
      end
  | WClose fd =>
      match w_fds w !! fd with
      | None => w
      | Some file =>
          let w := w <| w_fds ::= delete fd |> in
          if decide (map_Exists (λ _ f, f = file) (w_fds w)) then w
          else
            let w := w <| w_alive ::= λ x, x ∖ {[file]} |> in
            match w_files w !! file with
            | Some (o, v) => match po_drop v with Some op => file_op o op w | None => w end
            | None => w
            end
      end
  | WOp o op => file_op o op w
  | WEpoll a => w <| w_epoll ::= act (w_env w) a |>
  end.

(** Steps that keep to the contract of files: not those operations that make a
    file ready and wake nobody *)
Definition allowed (x : wstep) : Prop := match x with WOp _ op => po_quiet op = false | _ => True end.
(** [reach L w]: such steps lead to [w], and [L] are the interests that a
    modification of a queued one has made on the way. *)
Definition step_strands (x : wstep) (w : W) : gset Z :=
  match x with WEpoll a => strands (w_env w) a (w_epoll w) | _ => ∅ end.
Inductive reach : gset Z → W → Prop :=
| reach_new : reach ∅ world_new
| reach_step L w x : reach L w → allowed x → reach (L ∪ step_strands x w) (run_step x w).

(** *** The invariant *)

Record winv (L : gset Z) (w : W) : Prop := {
  wi_epoll : ep_inv L (w_epoll w);
  wi_fds : ∀ fd file, w_fds w !! fd = Some file → file ∈ w_alive w;
  wi_alive : ∀ file, file ∈ w_alive w → is_Some (w_files w !! file);
  wi_objs : ∀ file o v, w_files w !! file = Some (o, v) → is_Some (w_objs w !! o);
  wi_next : ∀ file, is_Some (w_files w !! file) → file < w_next w;
  wi_keys : keys_below (w_next w) (w_epoll w);
  wi_ready : holds_ready (w_env w) (w_epoll w);
}.

Context `{!PollableOk F V O}.
Context (wake_order_all : ∀ X r, r ∈ wake_order X ↔ r ∈ X).

(** One wake-up *)
Lemma wake_step L e r s : ep_inv L s →
  let s' := act e (AWake r) s in
  ep_inv L s' ∧ marked s s' ∧ (∀ n, keys_below n s → keys_below n s') ∧ (∀ r', r' ≠ r → r' ∈ ep_reg s → r' ∈ ep_reg s')
  ∧ ∀ id i, upgrade s id = Some i → ∃ i', upgrade s' id = Some i'
      ∧ (in_ready_queue i = true ∨ (r.2 = id ∧ r ∈ ep_reg s) → in_ready_queue i' = true).
Proof.
  intros I s'. unfold s'. split; [cbn [act]; case_decide; [by apply wake_registered_inv|done]|]. cbn [act]. case_decide as Hr.
  2:{ split; [done|]. split; [done|]. split; [done|]. intros id i Hu. exists i. split; [done|]. by intros [?|[_ ?]]. }
  split; [apply wake_registered_marked|]. split; [intros n Hk; by apply keys_wake|]. split.
  { intros r' Hne Hr'. unfold wake_registered, interest_wake. repeat case_match; cbn; set_solver. }
  intros id i Hu. set (s1 := s <| ep_reg ::= λ regs, regs ∖ {[r]} |>). assert (upgrade s1 id = Some i) as Hu1 by done.
  unfold wake_registered. fold s1. destruct (decide (r.2 = id)) as [<-|Hne].
  { destruct (interest_wake_queued r.2 s1 i Hu1) as (i' & ? & ?). by exists i'. }
  exists i. split; [|by intros [?|[]]]. unfold interest_wake. destruct (upgrade s1 r.2) as [j|]; [|done]. case_match; [done|].
  apply upgrade_spec in Hu1 as [? ?]. apply upgrade_spec. cbn. by rewrite lookup_insert_ne.
Qed.

(** All of them *)
Lemma wake_each L e l : ∀ s, ep_inv L s →
  let s' := foldl (λ s r, act e (AWake r) s) s l in
  ep_inv L s' ∧ marked s s' ∧ (∀ n, keys_below n s → keys_below n s')
  ∧ ∀ id i, upgrade s id = Some i → ∃ i', upgrade s' id = Some i'
      ∧ (in_ready_queue i = true ∨ (∃ f, (f, id) ∈ l ∧ (f, id) ∈ ep_reg s) → in_ready_queue i' = true).
Proof.
  induction l as [|r l IH]; intros s I; cbn [foldl].
  { split; [done|]. split; [done|]. split; [done|]. intros id i Hu. exists i. split; [done|].
    intros [?|(f & Hf & _)]; [done|by apply elem_of_nil in Hf]. }
  destruct (wake_step L e r s I) as (I1 & Hm1 & Hk1 & Hr1 & Hu1).
  destruct (IH _ I1) as (I2 & Hm2 & Hk2 & Hu2). split; [done|]. split; [by etransitivity|]. split; [auto|].
  intros id i Hu. destruct (Hu1 id i Hu) as (i1 & Hi1 & Hq1). destruct (Hu2 id i1 Hi1) as (i2 & Hi2 & Hq2).
  exists i2. split; [done|]. intros [Hq|(f & [<-|Hin]%elem_of_cons & Hreg)]; apply Hq2; [left; by apply Hq1; left|left; by apply Hq1; right|].
  destruct (decide ((f, id) = r)) as [<-|Hne]; [left; by apply Hq1; right|]. right. exists f. auto.
Qed.

(** A file becomes ready: every interest that waits for it is queued. *)
Lemma file_op_queues L o op w id i : winv L w → po_quiet op = false →
  upgrade (w_epoll w) id = Some i → mode_is_enabled (in_mode i) = true →
  let ready w := Z.land (poll_file w (in_key i).2) (ee_events (in_event i)) ≠ 0 in
  ¬ ready w → ready (file_op o op w) →
  ∃ i', upgrade (w_epoll (file_op o op w)) id = Some i' ∧ in_ready_queue i' = true.
Proof.
  intros Hw Hq Hu Hen ready Hz Hn. unfold ready in *. apply Z.eq_dne in Hz. clear ready. unfold file_op in *.
  destruct (w_objs w !! o) as [f|] eqn:Ho; [|done].
  destruct (po_step op f) as [f' woken] eqn:Hs. set (w1 := w <| w_objs ::= <[o := f']> |>) in *.
  assert (∀ file, poll_file (wake_sets o woken w1) file = poll_file w1 file) as Hp by done. rewrite Hp in Hn. clear Hp.
  destruct (wake_each L (w_env w1) (wake_order (filter (in_sets w1 o woken) (ep_reg (w_epoll w)))) (w_epoll w) (wi_epoll L w Hw))
    as (_ & _ & _ & Hall).
  destruct (Hall id i Hu) as (i' & Hi' & Hqi). exists i'. split; [done|]. apply Hqi.
  destruct (inv_watch L _ (wi_epoll L w Hw) id i Hu Hen) as [|Hreg]; [by left|]. right. exists (in_key i).2. split; [|done].
  apply wake_order_all, elem_of_filter. split; [|done]. unfold in_sets. cbn [fst snd].
  apply upgrade_spec in Hu as [Hoi _]. change (ep_objects (w_epoll w1)) with (ep_objects (w_epoll w)). rewrite Hoi.
  unfold poll_file in Hz, Hn. change (w_files w1) with (w_files w) in *. destruct (w_files w !! (in_key i).2) as [[o' v]|]; [|done].
  change (w_objs w1) with (<[o := f']> (w_objs w)) in Hn. destruct (decide (o' = o)) as [->|Hne].
  2:{ by rewrite lookup_insert_ne in Hn by done. }
  rewrite lookup_insert_eq in Hn. rewrite Ho in Hz. split; [done|].
  pose proof (po_wakes op v f (ee_events (in_event i)) Hq Hz) as Hwk. rewrite Hs in Hwk. destruct (Hwk Hn) as (x & Hx & Hx').
  apply Exists_exists. by exists x.
Qed.

Lemma file_op_inv L o op w : winv L w → po_quiet op = false → winv L (file_op o op w).
Proof.
  intros Hw Hq. pose proof (λ id i, file_op_queues L o op w id i Hw Hq) as Hnew. unfold file_op in *.
  destruct (w_objs w !! o) as [f|] eqn:Ho; [|done]. destruct (po_step op f) as [f' woken].
  set (w1 := w <| w_objs ::= <[o := f']> |>) in *.
  destruct (wake_each L (w_env w1) (wake_order (filter (in_sets w1 o woken) (ep_reg (w_epoll w)))) (w_epoll w) (wi_epoll L w Hw))
    as (I' & Hm & Hk & Hall).
  split; [exact I'|apply Hw|apply Hw| |apply Hw|by apply Hk, Hw|].
  { intros file o' v Hf. change (is_Some (<[o := f']> (w_objs w) !! o')). apply lookup_insert_is_Some'. right. by eapply (wi_objs L). }
  intros id i' Hu' Hd Hn. destruct (Hm id i' Hu') as (i & Hu & Hi).
  assert (in_key i' = in_key i ∧ in_event i' = in_event i ∧ in_mode i' = in_mode i) as (Ek & Ee & Em) by (by destruct Hi; subst).
  destruct Hd as (Ha & Hen & Hr). rewrite Ek, ?Ee, ?Em in *.
  destruct (decide (Z.land (poll_file w (in_key i).2) (ee_events (in_event i)) = 0)) as [Hz|Hz].
  - destruct (Hnew id i Hu Hen) as (i2 & Hi2 & Hq2); [by auto|exact Hr|]. by simplify_eq.
  - assert (in_ready_queue i = true) by (by apply (wi_ready L w Hw id i)). by destruct Hi; subst.
Qed.

Lemma holds_env (e e' : env) s : (∀ id i, ep_objects s !! id = Some i → is_due e' i → is_due e i) →
  holds_ready e s → holds_ready e' s.
Proof. intros He Hh id i Hu Hd. apply (Hh id i Hu). apply upgrade_spec in Hu as [Ho _]. by eapply He. Qed.

Lemma w_env_ok L w : winv L w → env_ok (w_env w).
Proof. intros Hw fd file Hf. cbn. apply bool_decide_eq_true_2. by apply (wi_fds L w Hw fd). Qed.

Lemma run_step_inv L x w : winv L w → allowed x → winv (L ∪ step_strands x w) (run_step x w).
Proof.
  intros Hw Hx. destruct x as [o f|o fd v|fd fd'|fd|o op|a]; cbn [run_step step_strands]; [rewrite union_empty_r_L..|].
  - case_decide as Ho; [|done]. split; try apply Hw.
    + intros file o' v Hf. cbn. apply lookup_insert_is_Some'. right. by eapply (wi_objs L).
    + apply (holds_env (w_env w)); [|apply Hw]. intros id i _ (Ha & Hen & Hr). split; [done|]. split; [done|].
      cbn in Hr |- *. unfold poll_file in *. cbn in Hr. destruct (w_files w !! (in_key i).2) as [[o' v]|] eqn:Hf; [|done].
      destruct (wi_objs L w Hw _ _ _ Hf) as [f' Hf']. rewrite lookup_insert_ne in Hr by congruence. done.
  - case_decide as Ho; [|done]. destruct Ho as [Ho Hfd]. split; cbn.
    + apply Hw.
    + intros fd' file. destruct (decide (fd' = fd)) as [->|]; [rewrite lookup_insert_eq|rewrite lookup_insert_ne by done].
      * intros [= <-]. set_solver.
      * intros Hf%(wi_fds L w Hw). set_solver.
    + intros file. rewrite elem_of_union, elem_of_singleton. intros [->|Ha]; [by rewrite lookup_insert_eq|].
      apply lookup_insert_is_Some'. right. by apply (wi_alive L).
    + intros file o' v'. destruct (decide (file = w_next w)) as [->|]; [rewrite lookup_insert_eq|rewrite lookup_insert_ne by done].
      * by intros [= <- <-].
      * apply (wi_objs L w Hw).
    + intros file [->|Hf]%lookup_insert_is_Some'; [lia|]. apply (wi_next L w Hw) in Hf. lia.
    + intros id i Hi%(wi_keys L w Hw). cbn in Hi. lia.
    + apply (holds_env (w_env w)); [|apply Hw]. intros id i Hi (Ha & Hen & Hr).
      pose proof (wi_keys L w Hw id i Hi) as Hk. cbn in Ha. apply bool_decide_eq_true in Ha. split; [|split; [done|]].
      * apply bool_decide_eq_true_2. set_solver by lia.
      * cbn in Hr. unfold poll_file in *. cbn in *. by rewrite lookup_insert_ne in Hr by lia.
  - destruct (w_fds w !! fd) as [file|] eqn:Hf; [|done]. destruct (w_fds w !! fd') eqn:Hf'; [done|].
    split; try apply Hw. cbn. intros fd2 file2. destruct (decide (fd2 = fd')) as [->|];
      [rewrite lookup_insert_eq|rewrite lookup_insert_ne by done; apply (wi_fds L w Hw)]. intros [= <-]. by eapply (wi_fds L).
  - destruct (w_fds w !! fd) as [file|] eqn:Hf; [|done]. set (w1 := w <| w_fds ::= delete fd |>).
    assert (∀ fd' f', w_fds w1 !! fd' = Some f' → w_fds w !! fd' = Some f') as Hsub by (intros fd' f'; cbn; by intros [_ ?]%lookup_delete_Some).
    case_decide as Hex.
    { split; try apply Hw. intros fd' f' Hl%Hsub. by apply (wi_fds L w Hw fd'). }
    set (w2 := w1 <| w_alive ::= λ x, x ∖ {[file]} |>). assert (winv L w2) as Hw2.
    { split; try apply Hw.
      - intros fd' f' Hl. cbn. apply elem_of_difference. split; [by apply (wi_fds L w Hw fd'), Hsub|].
        intros ->%elem_of_singleton. apply Hex. by exists fd', file.
      - intros f'. cbn. rewrite elem_of_difference. intros [? _]. by apply (wi_alive L w Hw).
      - apply (holds_env (w_env w)); [|apply Hw]. intros id i _ (Ha & Hen & Hr). split; [|done].
        cbn in *. apply bool_decide_eq_true in Ha. apply bool_decide_eq_true_2. set_solver. }
    destruct (w_files w2 !! file) as [[o v]|]; [|done]. destruct (po_drop v) as [op|] eqn:Hd; [|done].
    apply file_op_inv; [done|]. by eapply po_drop_wakes.
  - by apply file_op_inv.
  - pose proof (w_env_ok L w Hw) as He. split; try apply Hw; cbn.
    + by apply act_inv; [|apply Hw].
    + apply act_keys; [|apply Hw]. intros fd file Hf. by apply (wi_next L w Hw), (wi_alive L w Hw), (wi_fds L w Hw fd).
    + apply (act_holds (w_env w)), Hw.
Qed.

Lemma world_new_inv L : winv L world_new.
Proof.
  split; cbn; [apply epoll_new_inv|done|set_solver|done|by intros file []| |].
  - intros id i. cbn. by rewrite lookup_empty.
  - intros id i (Ho & _)%upgrade_spec. cbn in Ho. by rewrite lookup_empty in Ho.
Qed.
Lemma reach_inv L w : reach L w → winv L w.
Proof. induction 1; [apply world_new_inv|by apply run_step_inv]. Qed.

Lemma ready_queued L w id i : winv L w → upgrade (w_epoll w) id = Some i → is_due (w_env w) i → in_mode i ≠ Edge →
  id ∈ ep_ready (w_epoll w) ∨ id ∈ L.
Proof. intros Hw Hu Hd Hn. apply (inv_queue L _ (wi_epoll L w Hw) id i Hu). by apply (wi_ready L w Hw id i). Qed.

(** C5: What epoll may miss.  In every state that steps of files, descriptors
    and the epoll instance lead to, the ready queue holds each interest, not
    edge-triggered, whose file is ready for it, except those that
    [EPOLL_CTL_MOD] has put in the place of a queued one (they are lost:
    [modify_queued_loses_events]); an operation that makes a file ready puts
    every other enabled interest for it into the queue, edge-triggered or not;
    and when a poll of the instance finds no event none of the others has one.
    The steps are whole operations (inside a poll there is a window,
    [register_race]), the files are any that keep the contract of [Pollable],
    such as event counters and pipes, and the operations those that tell the
    waiters: not a read of a counter that faults, nor the resize of a pipe. *)
Theorem epoll_queue_complete L w : reach L w →
  (∀ id i, upgrade (w_epoll w) id = Some i → is_due (w_env w) i → in_mode i ≠ Edge → id ∈ ep_ready (w_epoll w) ∨ id ∈ L)
  ∧ (∀ o op id i, po_quiet op = false → upgrade (w_epoll w) id = Some i → mode_is_enabled (in_mode i) = true →
       let ready w := Z.land (poll_file w (in_key i).2) (ee_events (in_event i)) ≠ 0 in
       ¬ ready w → ready (file_op o op w) → id ∈ ep_ready (w_epoll (file_op o op w)) ∨ id ∈ L)
  ∧ ∀ n, (0 < n)%nat → (poll_events (w_env w) n (w_epoll w)).1 = Err WouldBlock →
       ∀ id i, upgrade (w_epoll w) id = Some i → is_due (w_env w) i → in_mode i = Edge ∨ id ∈ L.
Proof.
  intros Hw%reach_inv. split; [intros id i; by apply ready_queued|]. split.
  - intros o op id i Hq Hu Hen ready Hz Hn. destruct (file_op_queues L o op w id i Hw Hq Hu Hen Hz Hn) as (i' & Hu' & Hqi).
    by apply (inv_queue L _ (wi_epoll L _ (file_op_inv L o op w Hw Hq)) id i' Hu').
  - intros n Hn Hb id i Hu Hd. destruct (decide (in_mode i = Edge)) as [|Hne]; [by left|].
    destruct (ready_queued L w id i Hw Hu Hd Hne) as [Hin|]; [exfalso|by right].
    unfold poll_events in Hb. destruct (poll_loop _ _ n (w_epoll w)) as [[[|ev evs] s']|] eqn:E; try done.
    by eapply (poll_loop_none L _ _ _ _ _ E Hn (wi_epoll L w Hw)).
Qed.
End World.

(** ** The calls *)

Section Wait.
Context {F V O U : Type} `{Pollable F V O, UserBytesMut U, VmPtr U Z, VmPtr U timespec}.
Context (wake_order : gset (Z * Z) → list (Z * Z)).
(** [epoll_event] in memory *)
Context (ev_size : nat) (ev_align : Z) (ev_bytes : EpollEvent → bytes).
Abbreviation W := (World F V).
Abbreviation steps := (list (@wstep F V O)).
(** The mask of blocked signals, the files and user memory *)
Abbreviation S := (Z * (W * U))%type.

Definition run_steps (l : steps) (w : W) : W := foldl (λ w x, run_step wake_order x w) w l.

(** [epoll.poll_events(events)], after the steps [l] of others *)
Definition wait_attempt (events maxevents : Z) (l : steps) : M (W * U) Z := λ '(w, u),
  let w := run_steps l w in
  let '(r, s) := poll_events (w_env w) (Z.to_nat maxevents) (w_epoll w) in
  let w := w <| w_epoll := s |> in
  match r with
  | Ok evs => (Ok (zlen evs), (w, (ub_put events (concat (ev_bytes <$> evs)) u).2))
  | Err e => (Err e, (w, u))
  | Panic => (Panic, (w, u))
  end.

(** [snaps] are the steps of others before each attempt and [fin] what ends
    the wait after them; without a timeout only a signal does. *)
Definition do_epoll_wait (from_fd : res unit) (events maxevents : Z) (timeout : option Z) (sigmask sigsetsize : Z)
    (snaps : list steps) (fin : WaitEnd) : M S Z :=
  liftR (check_sigset_size sigsetsize);;
  liftR from_fd;;
  if maxevents <=? 0 then failM InvalidInput
  else
    s ← getM;
    liftR (ub_get_mut s.2.2 ev_align events (Z.to_nat maxevents * ev_size)%nat);;
    blocked ← liftR (if sigmask =? 0 then Ok None else Some <$> vm_read s.2.2 sigmask);
    with_replacen_blocked blocked
      (wait_for (wait_attempt events maxevents) snaps (match timeout with Some _ => fin | None => Interrupted_ end) 0).

(** Durations are in nanoseconds. *)
Definition sys_epoll_pwait (from_fd : res unit) (events maxevents timeout sigmask sigsetsize : Z)
    (snaps : list steps) (fin : WaitEnd) : M S Z :=
  timeout ← liftR (if timeout =? -1 then Ok None else if timeout >=? 0 then Ok (Some (timeout * 1000000)) else Err InvalidInput);
  do_epoll_wait from_fd events maxevents timeout sigmask sigsetsize snaps fin.
Definition sys_epoll_pwait2 (from_fd : res unit) (events maxevents timeout sigmask sigsetsize : Z)
    (snaps : list steps) (fin : WaitEnd) : M S Z :=
  s ← getM;
  timeout ← liftR (if timeout =? 0 then Ok None else Some <$> (ts ← vm_read s.2.2 timeout; try_into_time_value ts));
  do_epoll_wait from_fd events maxevents timeout sigmask sigsetsize snaps fin.

(** One poll of the instance, and the state after the attempts [snaps] *)
Abbreviation poll_step n := (run_step wake_order (WEpoll (APoll n))).
Fixpoint after_attempts (n : nat) (snaps : list steps) (w : W) : W :=
  match snaps with [] => w | l :: snaps => after_attempts n snaps (poll_step n (run_steps l w)) end.
(** None of the attempts has found an event. *)
Fixpoint idle_attempts (n : nat) (snaps : list steps) (w : W) : Prop :=
  match snaps with
  | [] => True
  | l :: snaps =>
      let w1 := run_steps l w in
      (poll_events (w_env w1) n (w_epoll w1)).1 = Err WouldBlock ∧ idle_attempts n snaps (poll_step n w1)
  end.
(** The interests that modifications of queued ones have made meanwhile *)
Fixpoint steps_strands (l : steps) (w : W) : gset Z :=
  match l with [] => ∅ | x :: l => step_strands x w ∪ steps_strands l (run_step wake_order x w) end.
Fixpoint wait_strands (n : nat) (snaps : list steps) (w : W) : gset Z :=
  match snaps with [] => ∅ | l :: snaps => steps_strands l w ∪ wait_strands n snaps (poll_step n (run_steps l w)) end.

Context `{!PollableOk F V O}.
Context (wake_order_all : ∀ X r, r ∈ wake_order X ↔ r ∈ X).
Abbreviation reached := (reach wake_order).

Lemma run_steps_reach l : ∀ L w, reached L w → Forall allowed l → reached (L ∪ steps_strands l w) (run_steps l w).
Proof.
  induction l as [|x l IH]; intros L w Hw Hl; cbn [steps_strands]; [by rewrite union_empty_r_L|].
  apply Forall_cons in Hl as [Hx Hl]. rewrite union_assoc_L. apply (IH _ (run_step wake_order x w)); [by constructor|done].
Qed.

Lemma poll_loop_empties e fuel : ∀ left s s', poll_loop fuel e left s = Some ([], s') → (0 < left)%nat → ep_ready s' = [].
Proof.
  induction fuel as [|fuel IH]; intros left s s' Hl Hn; cbn [poll_loop] in Hl; [done|].
  destruct (ep_ready s) as [|x rest] eqn:Hq; [by simplify_eq|]. destruct left as [|left]; [lia|].
  destruct (poll_one e x _) as [[ev|] s1]; [by destruct (poll_loop fuel e left s1) as [[]|]|]. by eapply IH.
Qed.

(** The result of a poll of the instance *)
Lemma poll_events_cases e n s : (0 < n)%nat →
  match poll_events e n s with
  | (Ok evs, _) => evs ≠ [] ∧ (length evs ≤ n)%nat ∧ Forall (λ ev, ∃ id i, upgrade s id = Some i ∧ is_due e i ∧ ev = due_event e i) evs
  | (Err err, s') => err = WouldBlock ∧ ep_ready s' = []
  | (Panic, _) => False
  end.
Proof.
  intros Hn. destruct (poll_loop_total e (poll_fuel n s) n s) as (evs & s' & Hl & Hlen); [unfold poll_fuel; lia|].
  unfold poll_events. rewrite Hl. destruct evs as [|ev evs]; [split; [done|by eapply poll_loop_empties]|].
  split; [done|]. split; [done|]. by eapply poll_loop_due.
Qed.

(** No event is due in [w], but those of the interests in [L] *)
Definition nothing_due (L : gset Z) (w : W) : Prop :=
  ∀ id i, upgrade (w_epoll w) id = Some i → is_due (w_env w) i → in_mode i = Edge ∨ id ∈ L.
(** The events [evs] that a poll for [n] of them finds in [w], in memory: each is
    that of an interest that is ready, and an interest that is ready and among
    the first [n] of the queue is reported. *)
Definition reported (n : nat) (w : W) (events : Z) (evs : list EpollEvent) (u u' : U) : Prop :=
  u' = (ub_put events (concat (ev_bytes <$> evs)) u).2
  ∧ Forall (λ ev, ∃ id i, upgrade (w_epoll w) id = Some i ∧ is_due (w_env w) i ∧ ev = due_event (w_env w) i) evs
  ∧ ∀ k id i, ep_ready (w_epoll w) !! k = Some id → (k < n)%nat → upgrade (w_epoll w) id = Some i → is_due (w_env w) i →
      due_event (w_env w) i ∈ evs.
(** The wait for [n] events ended at the attempt after [pre], that of [l]: the
    ones before found nothing, this one [evs]. *)
Definition found_at (n : nat) (pre : list steps) (l : steps) (w : W) (evs : list EpollEvent) (w' : W) : Prop :=
  let w1 := run_steps l (after_attempts n pre w) in
  idle_attempts n pre w ∧ (poll_events (w_env w1) n (w_epoll w1)).1 = Ok evs ∧ w' = poll_step n w1.

Lemma poll_events_reports L e n s evs : ep_inv L s → (poll_events e n s).1 = Ok evs →
  ∀ k id i, ep_ready s !! k = Some id → (k < n)%nat → upgrade s id = Some i → is_due e i → due_event e i ∈ evs.
Proof.
  intros I. unfold poll_events. destruct (poll_loop _ e n s) as [[[|ev evs'] s']|] eqn:E; [done| |done].
  intros [= <-] k id i (pre & post & Hr & ->)%list_elem_of_split_length Hk Hu Hd. by eapply poll_loop_reports.
Qed.

Lemma wait_loop events maxevents fin : 0 < maxevents → ∀ snaps L w u, reached L w → Forall (Forall allowed) snaps →
  let n := Z.to_nat maxevents in
  let '(r, (w', u')) := wait_for (wait_attempt events maxevents) snaps fin 0 (w, u) in
  (∃ pre l post evs, snaps = pre ++ l :: post ∧ found_at n pre l w evs w' ∧ r = Ok (zlen evs) ∧ 0 < zlen evs ≤ maxevents
     ∧ reported n (run_steps l (after_attempts n pre w)) events evs u u')
  ∨ (r = match fin with TimedOut_ => Ok 0 | Interrupted_ => Err Interrupted end ∧ u' = u
     ∧ idle_attempts n snaps w ∧ w' = after_attempts n snaps w
     ∧ (snaps ≠ [] → nothing_due (L ∪ wait_strands n snaps w) w')).
Proof.
  intros Hm. set (n := Z.to_nat maxevents). assert (0 < n)%nat as Hn by lia.
  induction snaps as [|l snaps IH]; intros L w u Hw Ha; cbv zeta; cbn [wait_for].
  { destruct fin; cbn; right; done. }
  apply Forall_cons in Ha as [Hl Ha]. unfold wait_attempt at 1. fold n. set (w1 := run_steps l w) in *.
  pose proof (run_steps_reach l L w Hw Hl) as Hw1. fold w1 in Hw1.
  assert (poll_step n w1 = w1 <| w_epoll := (poll_events (w_env w1) n (w_epoll w1)).2 |>) as Hstep by done.
  assert (reached (L ∪ steps_strands l w) (poll_step n w1)) as Hw2.
  { rewrite <- (union_empty_r_L (L ∪ _)). by apply (reach_step _ _ _ (WEpoll (APoll n))). }
  pose proof (poll_events_cases (w_env w1) n (w_epoll w1) Hn) as Hp.
  pose proof (λ evs, poll_events_reports _ (w_env w1) n (w_epoll w1) evs (wi_epoll _ _ (reach_inv wake_order wake_order_all _ _ Hw1))) as Hrep.
  destruct (poll_events (w_env w1) n (w_epoll w1)) as [[evs|err|] s'] eqn:Hpe; cbn [fst snd] in *; [| |done].
  - destruct Hp as (Hne & Hlen & Hdue). left. exists [], l, snaps, evs. split; [done|]. split; [|split; [done|split; [|split; [done|split; [done|by apply Hrep]]]]].
    + split; [done|]. cbn [after_attempts]. fold w1. by rewrite Hpe, Hstep.
    + unfold zlen. destruct evs; [done|]. cbn [length] in *. lia.
  - destruct Hp as [-> Hq]. rewrite <- Hstep. specialize (IH _ _ u Hw2 Ha). cbv zeta in IH.
    destruct (wait_for _ snaps fin 0 (poll_step n w1, u)) as [r [w' u']].
    destruct IH as [(pre & l' & post & evs & -> & (Hidle & Hfound) & Hr)|(Hr & Hu & Hidle & Hw' & Hnd)].
    + left. exists (l :: pre), l', post, evs. split; [done|]. split; [|done]. split; [|done].
      cbn [idle_attempts]. fold w1. by rewrite Hpe.
    + right. split; [done|]. split; [done|]. cbn [idle_attempts after_attempts wait_strands]. fold w1. rewrite Hpe.
      split; [done|]. split; [done|]. intros _. rewrite union_assoc_L. destruct snaps as [|l' snaps]; [|by apply Hnd].
      cbn [after_attempts wait_strands] in *. subst w'. rewrite union_empty_r_L. intros id i Hui Hd.
      destruct (decide (in_mode i = Edge)) as [|Hne]; [by left|]. right.
      destruct (ready_queued _ _ id i (reach_inv wake_order wake_order_all _ _ Hw2) Hui Hd Hne) as [Hin|]; [|done].
      rewrite Hstep in Hin. cbn in Hin. rewrite Hq in Hin. by apply elem_of_nil in Hin.
Qed.

End Wait.

(** ** An event counter and a pipe *)

Abbreviation kinds := (EventFd + Pipe ring)%type.
Abbreviation kind_ops := (event_io + @pipe_op user_buf bytes)%type.
Abbreviation watched := (World kinds (unit + bool)).
Abbreviation wake := (λ X : gset (Z * Z), elements X).
Lemma wake_all_wakers (X : gset (Z * Z)) r : r ∈ wake X ↔ r ∈ X.
Proof. apply elem_of_elements. Qed.

(** Counter 0 behind descriptor 3, watched for input with data 42 *)
Definition watch_counter : list (@wstep kinds (unit + bool) kind_ops) :=
  [WNew 0 (inl (EventFd_new 0 false)); WFile 0 3 (inl tt); WEpoll (AAdd 3 (mkEpollEvent IO_IN 42) 0)].
Definition add_five : @wstep kinds (unit + bool) kind_ops := WOp 0 (inl (EvWrite 8 5)).

Lemma watch_counter_reached : reach wake ∅ (run_steps wake watch_counter world_new).
Proof.
  assert (∅ = ∅ ∪ steps_strands wake watch_counter world_new) as -> by (vm_compute; reflexivity).
  apply run_steps_reach; [constructor|by repeat constructor].
Qed.

Lemma epoll_queue_complete_witness :
  let w := run_steps wake watch_counter world_new in
  ep_ready (w_epoll w) = [] ∧ 0 ∈ ep_ready (w_epoll (file_op wake 0 (inl (EvWrite 8 5)) w)).
Proof.
  split; [by vm_compute|].
  destruct (proj1 (proj2 (epoll_queue_complete wake wake_all_wakers _ _ watch_counter_reached)) 0 (inl (EvWrite 8 5)) 0
    (mkInterest (3, 0) (mkEpollEvent IO_IN 42) Level false)); [done|by vm_compute|done|by vm_compute|by vm_compute|done|set_solver].
Defined.

(** The layout of x86-64 *)
Definition packed_event (ev : EpollEvent) : bytes := le_bytes 4 (ee_events ev) ++ le_bytes 8 (ee_user_data ev).
#[export] Instance bmem_word : VmPtr bmem Z := {
  vm_read v p := le_val <$> ub_get v 8 p 8; vm_write p x := ub_put p (le_bytes 8 x);
}.
#[export] Instance bmem_timespec : VmPtr bmem timespec := {
  vm_read v p := l ← ub_get v 8 p 16; Ok (mkTimespec (as_i64 (le_val (take 8 l))) (as_i64 (le_val (drop 8 l))));
  vm_write p x := ub_put p (le_bytes 8 (as_u64 (ts_sec x)) ++ le_bytes 8 (as_u64 (ts_nsec x)));
}.
Definition later : list (list (@wstep kinds (unit + bool) kind_ops)) := [[]; [add_five]].
Abbreviation wait_for_counter :=
  (do_epoll_wait (U := bmem) wake 12 1 packed_event (Ok tt) 0x1000 4 None 0x2000 8 later TimedOut_).


(** ** What breaks the contract *)

(** A read whose value cannot be stored takes the count, but the writers that
    wait for room are not told. *)
Example faulting_read_wakes_nobody :
  let w := run_steps (O := kind_ops) wake [WNew 0 (inl (EventFd_new (2 ^ 64 - 2) false)); WFile 0 3 (inl tt); WEpoll (AAdd 3 (mkEpollEvent IO_OUT 42) 0);
    WOp 0 (inl (EvRead false 8))] world_new in
  ev_poll (w_env w) 0 = IO_OUT ∧ ep_ready (w_epoll w) = [].
Proof. by vm_compute. Qed.

(** Nor are the writers of a full pipe when it becomes larger. *)
Example resize_wakes_nobody :
  let full : Pipe ring := mkPipe (mkRing 0 4096 (replicate 4096 0)) true true in
  let w := run_steps (O := kind_ops) wake [WNew 0 (inr full); WFile 0 4 (inr false); WEpoll (AAdd 4 (mkEpollEvent IO_OUT 42) 0);
    WOp 0 (inr (PResize 8192))] world_new in
  ev_poll (w_env w) 0 = IO_OUT ∧ ep_ready (w_epoll w) = [].
Proof. by vm_compute. Qed.

(** [poll_events] registers its waker again after it has found a file not
    ready, and does not look at the file once more.  A counter that is written
    in between is ready, but its interest is not queued, and is not marked
    either. *)
Example register_race :
  let w := run_steps wake (watch_counter ++ [add_five; WOp 0 (inl (EvRead true 8))]) world_new in
  ∃ i, upgrade (w_epoll w) 0 = Some i ∧ ep_ready (w_epoll w) = [0]
    ∧ (consume (poll_file w 0) i).1 = NoEvent
    ∧ let w1 := run_step wake add_five (w <| w_epoll ::= λ s, s <| ep_ready := [] |> |>) in
      let s2 := register_waker_only (w_env w1) 0 i (set_interest 0 (i <| in_ready_queue := false |>) (w_epoll w1)) in
      ep_ready s2 = [] ∧ Z.land (poll_file w1 0) IO_IN ≠ 0.
Proof. eexists. split; [by vm_compute|]. by vm_compute. Qed.
