(* ===== verification/PollSys.v ===== *)
(** * [poll] and [select] as system calls

    The entry points of [api/src/syscall/io_mpx/poll.rs] and [select.rs]:
    pointers of the user are checked and the results are stored where they
    point.  [select] has three sets behind three pointers, which it changes in
    place while it waits; [PollSelect] has them as values.  Bytes are those of
    a little-endian machine, durations are in nanoseconds. *)

From S2P Require Import Prelude Bytes Vm Time Process SockAddr PollSelect.

(** ** Memory as arrays of bytes

    A region that can be written is an array of bytes, and a store elsewhere
    does not change what is read. *)
Class UserArrays (V : Type) `{UserBytesMut V} := {
  ua_get v a p n l k m : ub_get_mut v a p n = Ok l → (k + m ≤ n)%nat → ub_get v 1 (p + Z.of_nat k) m = Ok (take m (drop k l));
  ua_put v a p n l k m : ub_get_mut v a p n = Ok l → (k + length m ≤ n)%nat →
    ∃ v', ub_put (p + Z.of_nat k) m v = (Ok tt, v') ∧ ub_get_mut v' a p n = Ok (store k m l);
  ua_frame v p m v' a q n : ub_put p m v = (Ok tt, v') → p + zlen m ≤ q ∨ q + Z.of_nat n ≤ p →
    ub_get v' a q n = ub_get v a q n ∧ ub_get_mut v' a q n = ub_get_mut v a q n;
}.

(** ** Sets of descriptors *)

Definition SET_SIZE : nat := 128.

(** [FD_ISSET] *)
Definition fd_isset (l : bytes) (i : Z) : bool := Z.testbit (nth (Z.to_nat (i / 8)) l 0) (i mod 8).
(** [FdSet::new] of the bytes of a set *)
Definition fdset_bytes (nfds : Z) (l : option bytes) : Z :=
  match l with Some l => set_bits (fd_isset l) (seqZ 0 nfds) 0 | None => 0 end.

Lemma le_val_testbit l i : Forall is_byte l → 0 ≤ i → Z.testbit (le_val l) i = fd_isset l i.
Proof.
  intros Hl. revert i. unfold fd_isset. induction Hl as [|b l Hb _ IH]; intros i Hi; cbn [le_val].
  { destruct (Z.to_nat (i / 8)); by rewrite !Z.bits_0. }
  unfold is_byte in Hb. destruct (Z.lt_ge_cases i 8) as [H8|H8].
  - rewrite Z.div_small, Z.mod_small by lia. cbn [Z.to_nat nth].
    rewrite <- (Z.mod_pow2_bits_low (b + 256 * le_val l) 8 i) by lia. change (2 ^ 8) with 256.
    by rewrite (Z.mul_comm 256), Z_mod_plus_full, Z.mod_small.
  - replace i with (i - 8 + 8) at 1 by lia. rewrite <- Z.div_pow2_bits by lia. change (2 ^ 8) with 256.
    rewrite (Z.mul_comm 256), Z.div_add, Z.div_small, Z.add_0_l, IH by lia.
    replace i with (i - 8 + 1 * 8) at 3 4 by lia. rewrite Z.div_add, Z_mod_plus_full by lia.
    assert (0 ≤ (i - 8) / 8) by (apply Z.div_pos; lia).
    by replace (Z.to_nat ((i - 8) / 8 + 1)) with (S (Z.to_nat ((i - 8) / 8))) by lia.
Qed.
Lemma fdset_bytes_val nfds l : Forall is_byte l → fdset_bytes nfds (Some l) = FdSet_new nfds (Some (le_val l)).
Proof.
  intros Hl. apply Z.bits_inj. intros j. destruct (Z.lt_ge_cases j 0) as [Hj|Hj]; [by rewrite !Z.testbit_neg_r|].
  assert (Forall (Z.le 0) (seqZ 0 nfds)) as Hs by (apply Forall_forall; intros x Hx%elem_of_seqZ; lia).
  cbn. rewrite !set_bits_spec by done. by rewrite (le_val_testbit l j).
Qed.

Lemma setbit_byte b i : is_byte b → 0 ≤ i < 8 → is_byte (Z.setbit b i).
Proof.
  unfold is_byte. intros Hb Hi. rewrite Z.setbit_spec'. split; [apply Z.lor_nonneg; split; [lia|apply Z.pow_nonneg; lia]|].
  apply (Z.bounded_iff_bits_nonneg 8); [lia|apply Z.lor_nonneg; split; [lia|apply Z.pow_nonneg; lia]|].
  intros j Hj. rewrite Z.lor_spec, Z.pow2_bits_false by lia.
  by rewrite (proj1 (Z.bounded_iff_bits_nonneg 8 b ltac:(lia) ltac:(lia)) ltac:(lia) j Hj).
Qed.
Lemma store_one k x l : (k < length l)%nat → store k [x] l = <[k := x]> l.
Proof. intros Hk. unfold store. cbn. rewrite insert_take_drop by done. do 3 f_equal. lia. Qed.

(** [FD_SET] on the bytes of a set *)
Lemma set_bit_bytes l i b : Forall is_byte l → 0 ≤ i < 8 * zlen l → l !! Z.to_nat (i / 8) = Some b →
  let l' := store (Z.to_nat (i / 8)) [Z.setbit b (i mod 8)] l in
  Forall is_byte l' ∧ le_val l' = Z.setbit (le_val l) i.
Proof.
  intros Hl Hi Hb l'. pose proof (lookup_lt_Some _ _ _ Hb) as Hk.
  assert (0 ≤ i mod 8 < 8) as Hm by (apply Z.mod_pos_bound; lia).
  assert (l' = <[Z.to_nat (i / 8) := Z.setbit b (i mod 8)]> l) as -> by (by apply store_one).
  assert (Forall is_byte (<[Z.to_nat (i / 8) := Z.setbit b (i mod 8)]> l)) as Hl'.
  { apply Forall_insert; [done|]. apply setbit_byte; [|done]. by eapply Forall_lookup_1. }
  split; [done|]. apply Z.bits_inj. intros j. destruct (Z.lt_ge_cases j 0) as [Hj|Hj]; [by rewrite !Z.testbit_neg_r|].
  rewrite Z.setbit_eqb, !le_val_testbit by (done || lia). unfold fd_isset. rewrite !nth_lookup.
  destruct (decide (j / 8 = i / 8)) as [E|E].
  - rewrite E, list_lookup_insert_eq, Hb by done. cbn. rewrite Z.setbit_eqb by lia. f_equal.
    pose proof (Z.div_mod i 8). pose proof (Z.div_mod j 8).
    destruct (Z.eqb_spec (i mod 8) (j mod 8)), (Z.eqb_spec i j); lia || done.
  - assert (0 ≤ i / 8) by (apply Z.div_pos; lia). assert (0 ≤ j / 8) by (apply Z.div_pos; lia).
    rewrite list_lookup_insert_ne by lia. destruct (Z.eqb_spec i j) as [->|]; done.
Qed.

(** ** Arguments *)

(** [nullable!(ptr.get_as_ref())] of an object of [n] bytes *)
Definition get_opt {U} `{UserBytes U} (u : U) (n : nat) (p : Z) : res (option bytes) :=
  if p =? 0 then Ok None else Some <$> ub_get u 8 p n.
Definition timespec_of (l : bytes) : timespec := mkTimespec (as_i64 (le_val (take 8 l))) (as_i64 (le_val (drop 8 l))).
Definition timeval_of (l : bytes) : timeval := mkTimeval (as_i64 (le_val (take 8 l))) (as_i64 (le_val (drop 8 l))).
(** [.map(|ts| ts.try_into_time_value()).transpose()] *)
Definition get_timeout {U T} `{UserBytes U, TimeValueLike T} (u : U) (of_bytes : bytes → T) (p : Z) : res (option TimeValue) :=
  l ← get_opt u 16 p;
  match l with Some l => Some <$> try_into_time_value (of_bytes l) | None => Ok None end.
(** Without a timeout only a signal ends the wait. *)
Definition wait_end (timeout : option TimeValue) (fin : WaitEnd) : WaitEnd :=
  match timeout with Some _ => fin | None => Interrupted_ end.

(** [pollfd] in memory *)
Definition pollfd_bytes (p : pollfd) : bytes :=
  le_bytes 4 (as_u32 (pfd_fd p)) ++ le_bytes 2 (as_u16 (pfd_events p)) ++ le_bytes 2 (as_u16 (pfd_revents p)).
Definition pollfd_of (l : bytes) : pollfd :=
  mkPollfd (as_i32 (le_val (take 4 l))) (wraps 16 (le_val (take 2 (drop 4 l)))) (wraps 16 (le_val (take 2 (drop 6 l)))).
Fixpoint pollfds (n : nat) (l : bytes) : list pollfd :=
  match n with O => [] | S n => pollfd_of (take 8 l) :: pollfds n (drop 8 l) end.

(** ** [select] *)

Section Sys.
Context {F U : Type} `{UserBytesMut U}.
Context (get_file : Z → option F).
(** The mask of blocked signals and user memory *)
Abbreviation S := (Z * U)%type.

Definition on_user {A} (m : M U A) : M S A := λ '(mask, u), let '(r, u) := m u in (r, (mask, u)).

Definition get_set (u : U) (p : Z) : res (option bytes) :=
  if p =? 0 then Ok None else Some <$> ub_get_mut u 8 p SET_SIZE.
Definition FD_ZERO (p : Z) : M U unit := if p =? 0 then mret tt else ub_put p (replicate SET_SIZE 0).
Definition FD_SET (index p : Z) : M U unit :=
  u ← getM;
  b ← liftR (ub_get u 1 (p + index / 8) 1);
  ub_put (p + index / 8) [Z.setbit (nth 0 b 0) (index mod 8)].

(** One of the three tests of the closure *)
Definition mem_set (events flag index p res : Z) : M U Z :=
  if has_flag events flag && negb (p =? 0) then FD_SET index p;; mret (res + 1) else mret res.

Section Pass.
Context (readfds writefds exceptfds : Z).
Fixpoint mem_pass (poll : F → Z) (fds : list (F * Z * Z)) (res : Z) : M U Z :=
  match fds with
  | [] => mret res
  | (fd, interested, index) :: fds =>
      let events := Z.land (poll fd) interested in
      res ← mem_set events IO_IN index readfds res;
      res ← mem_set events IO_OUT index writefds res;
      res ← mem_set events IO_ERR index exceptfds res;
      mem_pass poll fds res
  end.
Definition mem_attempt (fds : list (F * Z * Z)) (poll : F → Z) : M U Z :=
  res ← mem_pass poll fds 0;
  if res >? 0 then mret res else failM WouldBlock.
End Pass.

(** The address of the set of signals in a [SignalSetWithSize], or 0 *)
Definition select_mask (u : U) (sigmask : Z) : res Z :=
  l ← get_opt u 16 sigmask;
  match l with
  | Some l =>
      _ ← check_sigset_size (le_val (drop 8 l));
      let set := le_val (take 8 l) in
      _ ← get_opt u 8 set;
      Ok set
  | None => Ok 0
  end.

(** The set of signals is read when the sets of descriptors have been
    cleared. *)
Definition select_user (nfds readfds writefds exceptfds : Z) (timeout : option TimeValue) (sigmask : Z)
    (snaps : list (F → Z)) (fin : WaitEnd) : M S Z :=
  if nfds >? FD_SETSIZE then failM InvalidInput
  else
    s ← getM;
    set ← liftR (select_mask s.2 sigmask);
    r ← liftR (get_set s.2 readfds);
    w ← liftR (get_set s.2 writefds);
    e ← liftR (get_set s.2 exceptfds);
    let read_set := fdset_bytes nfds r in
    let write_set := fdset_bytes nfds w in
    let except_set := fdset_bytes nfds e in
    let fd_bitmap := Z.lor (Z.lor read_set write_set) except_set in
    fds ← liftR (select_collect get_file read_set write_set except_set
                   (filter (λ i, Z.testbit fd_bitmap i = true) (seqZ 0 FD_SETSIZE)));
    on_user (FD_ZERO readfds;; FD_ZERO writefds;; FD_ZERO exceptfds);;
    s ← getM;
    blocked ← liftR (get_opt s.2 8 set);
    with_replacen_blocked (le_val <$> blocked)
      (wait_for (mem_attempt readfds writefds exceptfds fds) snaps (wait_end timeout fin) 0).

Definition sys_select (nfds readfds writefds exceptfds timeout : Z) (snaps : list (F → Z)) (fin : WaitEnd) : M S Z :=
  s ← getM;
  timeout ← liftR (get_timeout s.2 timeval_of timeout);
  select_user nfds readfds writefds exceptfds timeout 0 snaps fin.
Definition sys_pselect6 (nfds readfds writefds exceptfds timeout sigmask : Z) (snaps : list (F → Z)) (fin : WaitEnd) : M S Z :=
  s ← getM;
  timeout ← liftR (get_timeout s.2 timespec_of timeout);
  select_user nfds readfds writefds exceptfds timeout sigmask snaps fin.

(** *** The sets in memory *)

Context `{!UserArrays U}.

(** At [p] is the set, or there is none. *)
Definition holds (u : U) (p : Z) (set : option Z) : Prop :=
  match set with
  | Some z => p ≠ 0 ∧ ∃ l, ub_get_mut u 8 p SET_SIZE = Ok l ∧ Forall is_byte l ∧ z = le_val l
  | None => p = 0
  end.
Definition apart (p : Z) (n : nat) (q : Z) (m : nat) : Prop := p = 0 ∨ q = 0 ∨ p + Z.of_nat n ≤ q ∨ q + Z.of_nat m ≤ p.
(** Only the set at [p] may have changed. *)
Definition only (p : Z) (u u' : U) : Prop := ∀ a q n, p = 0 ∨ p + Z.of_nat SET_SIZE ≤ q ∨ q + Z.of_nat n ≤ p →
  ub_get u' a q n = ub_get u a q n ∧ ub_get_mut u' a q n = ub_get_mut u a q n.

#[local] Instance only_preorder p : PreOrder (only p).
Proof.
  split; [done|]. intros u1 u2 u3 H12 H23 a q n Hq. destruct (H12 a q n Hq), (H23 a q n Hq). split; congruence.
Qed.
Lemma only_holds p q u u' set : only p u u' → apart p SET_SIZE q SET_SIZE → holds u q set → holds u' q set.
Proof.
  intros Ho Ha. destruct set as [z|]; [|done]. intros [Hq (l & Hl & Hz)]. split; [done|]. exists l.
  rewrite (proj2 (Ho 8 q SET_SIZE ltac:(destruct Ha as [|[|]]; tauto))). done.
Qed.
Lemma FD_ZERO_spec u p set : holds u p set → ∃ u', FD_ZERO p u = (Ok tt, u') ∧ holds u' p ((λ _, 0) <$> set) ∧ only p u u'.
Proof.
  unfold FD_ZERO. destruct set as [z|]; cbn [holds fmap option_fmap option_map].
  - intros [Hp (l & Hl & Hb & ->)]. rewrite (proj2 (Z.eqb_neq p 0) Hp).
    destruct (ua_put u 8 p SET_SIZE l 0 (replicate SET_SIZE 0) Hl) as (u' & Hu & Hg); [by rewrite length_replicate|].
    rewrite Z.add_0_r in Hu. exists u'. split; [done|]. split.
    + split; [done|]. eexists. split; [done|]. apply ub_get_mut_length in Hl.
      replace (store 0 (replicate SET_SIZE 0) l) with (replicate SET_SIZE 0); [split; [by apply Forall_replicate|by vm_compute]|].
      unfold store. rewrite length_replicate, drop_ge by lia. by rewrite app_nil_r.
    + intros a q n [?|Hq]; [done|]. apply (ua_frame _ _ _ _ a q n Hu). unfold zlen. rewrite length_replicate. lia.
  - intros ->. by exists u.
Qed.

Lemma FD_SET_spec u p z i : holds u p (Some z) → 0 ≤ i < FD_SETSIZE →
  ∃ u', FD_SET i p u = (Ok tt, u') ∧ holds u' p (Some (Z.setbit z i)) ∧ only p u u'.
Proof.
  intros [Hp (l & Hl & Hb & ->)] Hi. pose proof (ub_get_mut_length _ _ _ _ _ Hl) as Hlen. unfold FD_SETSIZE, SET_SIZE in *.
  set (k := Z.to_nat (i / 8)). assert (0 ≤ i / 8 < 128) as Hk by (split; [apply Z.div_pos|apply Z.div_lt_upper_bound]; lia).
  destruct (lookup_lt_is_Some_2 l k) as [b Hlk]; [unfold k; lia|].
  destruct (set_bit_bytes l i b Hb) as [Hb' Hv]; [unfold zlen; lia|done|]. cbn zeta in *. fold k in Hb', Hv.
  unfold FD_SET. unfold_m. replace (p + i / 8) with (p + Z.of_nat k) by (unfold k; lia).
  rewrite (ua_get u 8 p 128 l k 1 Hl) by (unfold k; lia).
  rewrite (drop_S l b k Hlk). cbn [take nth].
  destruct (ua_put u 8 p 128 l k [Z.setbit b (i mod 8)] Hl) as (u' & Hu & Hg); [cbn; unfold k; lia|].
  exists u'. split; [done|]. split; [split; [done|]; eexists; split; [done|]; done|].
  intros a q n [?|Hq]; [done|]. apply (ua_frame _ _ _ _ a q n Hu). unfold zlen, SET_SIZE in *. cbn. unfold k in *. lia.
Qed.

Lemma mem_set_spec u p set events flag i res : holds u p set → 0 ≤ i < FD_SETSIZE →
  let '(res', set') := select_set events flag i set res in
  ∃ u', mem_set events flag i p res u = (Ok res', u') ∧ holds u' p set' ∧ only p u u'.
Proof.
  intros Hh Hi. unfold mem_set, select_set. destruct set as [z|].
  - destruct (has_flag events flag); cbn [andb]; [|by exists u]. destruct (FD_SET_spec u p z i Hh Hi) as (u' & E & Hu & Ho).
    destruct Hh as [Hp _]. rewrite (proj2 (Z.eqb_neq p 0) Hp). cbn [negb]. unfold_m. rewrite E. by exists u'.
  - cbn in Hh. subst p. rewrite andb_false_r. by exists u.
Qed.

Section Three.
Context (pr pw pe : Z).
Context (Hrw : apart pr SET_SIZE pw SET_SIZE) (Hre : apart pr SET_SIZE pe SET_SIZE) (Hwe : apart pw SET_SIZE pe SET_SIZE).

Definition in_memory (u : U) (sets : FdSets) : Prop :=
  holds u pr (fs_read sets) ∧ holds u pw (fs_write sets) ∧ holds u pe (fs_except sets).
(** Only the three sets may have changed. *)
Definition rest_same (u u' : U) : Prop := ∀ a q n,
  (∀ p, p ∈ [pr; pw; pe] → p = 0 ∨ p + Z.of_nat SET_SIZE ≤ q ∨ q + Z.of_nat n ≤ p) → ub_get u' a q n = ub_get u a q n.
#[local] Instance rest_same_preorder : PreOrder rest_same.
Proof. split; [done|]. intros u1 u2 u3 H12 H23 a q n Hq. rewrite H23 by done. by apply H12. Qed.

Lemma apart_sym p n q m : apart p n q m → apart q m p n.
Proof. unfold apart. tauto. Qed.

(** Three changes, one for each set *)
Lemma three_steps u u1 u2 u3 s0 sets : in_memory u s0 →
  holds u1 pr (fs_read sets) → only pr u u1 →
  (holds u1 pw (fs_write s0) → holds u2 pw (fs_write sets) ∧ only pw u1 u2) →
  (holds u2 pe (fs_except s0) → holds u3 pe (fs_except sets) ∧ only pe u2 u3) →
  in_memory u3 sets ∧ rest_same u u3.
Proof.
  intros (Hr & Hw & He) H1 O1 H2 H3. destruct (H2 (only_holds _ _ _ _ _ O1 Hrw Hw)) as [Hw2 O2].
  pose proof (only_holds _ _ _ _ _ O2 Hwe (only_holds _ _ _ _ _ O1 Hre He)) as He2. destruct (H3 He2) as [He3 O3].
  split; [split; [|split; [|done]]|].
  - eapply only_holds; [exact O3|by apply apart_sym|]. eapply only_holds; [exact O2|by apply apart_sym|done].
  - eapply only_holds; [exact O3|by apply apart_sym|done].
  - intros a q n Hq. rewrite (proj1 (O3 a q n (Hq pe ltac:(set_solver)))), (proj1 (O2 a q n (Hq pw ltac:(set_solver)))).
    apply (O1 a q n (Hq pr ltac:(set_solver))).
Qed.

Lemma zero_all_spec u sets : in_memory u sets →
  ∃ u', (FD_ZERO pr;; FD_ZERO pw;; FD_ZERO pe) u = (Ok tt, u') ∧ in_memory u' (fd_zero sets) ∧ rest_same u u'.
Proof.
  intros Hi. pose proof Hi as (Hr & Hw & He). destruct (FD_ZERO_spec u pr _ Hr) as (u1 & E1 & H1 & O1).
  pose proof (only_holds _ _ _ _ _ O1 Hrw Hw) as Hw1. destruct (FD_ZERO_spec u1 pw _ Hw1) as (u2 & E2 & H2 & O2).
  pose proof (only_holds _ _ _ _ _ O2 Hwe (only_holds _ _ _ _ _ O1 Hre He)) as He2.
  destruct (FD_ZERO_spec u2 pe _ He2) as (u3 & E3 & H3 & O3).
  exists u3. unfold_m. rewrite E1, E2, E3. split; [done|]. by eapply (three_steps u u1 u2 u3 sets (fd_zero sets)).
Qed.

Lemma mem_pass_spec poll fds : Forall (λ x, 0 ≤ x.2 < FD_SETSIZE) fds → ∀ res u sets, in_memory u sets →
  let '(res', sets') := select_pass poll fds res sets in
  ∃ u', mem_pass pr pw pe poll fds res u = (Ok res', u') ∧ in_memory u' sets' ∧ rest_same u u'.
Proof.
  induction 1 as [|[[fd interested] i] fds Hi _ IH]; intros res u sets Hm; cbn [select_pass mem_pass].
  { exists u. done. }
  pose proof Hm as (Hr & Hw & He). cbn [snd] in Hi. set (events := Z.land (poll fd) interested).
  pose proof (mem_set_spec u pr _ events IO_IN i res Hr Hi) as H1.
  destruct (select_set events IO_IN i (fs_read sets) res) as [res1 r]. destruct H1 as (u1 & E1 & H1 & O1).
  pose proof (mem_set_spec u1 pw _ events IO_OUT i res1 (only_holds _ _ _ _ _ O1 Hrw Hw) Hi) as H2.
  destruct (select_set events IO_OUT i (fs_write sets) res1) as [res2 w]. destruct H2 as (u2 & E2 & H2 & O2).
  pose proof (mem_set_spec u2 pe _ events IO_ERR i res2 (only_holds _ _ _ _ _ O2 Hwe (only_holds _ _ _ _ _ O1 Hre He)) Hi) as H3.
  destruct (select_set events IO_ERR i (fs_except sets) res2) as [res3 e]. destruct H3 as (u3 & E3 & H3 & O3).
  destruct (three_steps u u1 u2 u3 sets (mkFdSets r w e)) as [Hm' Hs]; [done..|].
  specialize (IH res3 u3 _ Hm'). destruct (select_pass poll fds res3 (mkFdSets r w e)) as [res' sets'].
  destruct IH as (u' & E & Hm2 & Hs2). exists u'. unfold_m. rewrite E1, E2, E3. split; [exact E|]. split; [done|by etransitivity].
Qed.

Lemma mem_wait_spec fds fin snaps : Forall (λ x, 0 ≤ x.2 < FD_SETSIZE) fds → ∀ u sets, in_memory u sets →
  let '(r, sets') := wait_for (select_attempt fds) snaps fin 0 sets in
  ∃ u', wait_for (mem_attempt pr pw pe fds) snaps fin 0 u = (r, u') ∧ in_memory u' sets' ∧ rest_same u u'.
Proof.
  intros Hf. induction snaps as [|poll snaps IH]; intros u sets Hm; cbn [wait_for].
  { destruct fin; by exists u. }
  pose proof (mem_pass_spec poll fds Hf 0 u sets Hm) as Hp. unfold select_attempt at 1, mem_attempt at 1.
  destruct (select_pass poll fds 0 sets) as [res sets1]. destruct Hp as (u1 & E & Hm1 & Hs1). unfold_m. rewrite E.
  destruct (res >? 0); [by exists u1|]. cbn. specialize (IH u1 sets1 Hm1).
  destruct (wait_for (select_attempt fds) snaps fin 0 sets1) as [r sets2]. destruct IH as (u2 & E2 & Hm2 & Hs2).
  exists u2. split; [done|]. split; [done|by etransitivity].
Qed.

Lemma get_set_holds u p set : holds u p set →
  ∃ l, get_set u p = Ok l ∧ ∀ nfds, fdset_bytes nfds l = FdSet_new nfds set.
Proof.
  unfold get_set. destruct set as [z|]; cbn [holds].
  - intros [Hp (l & -> & Hb & ->)]. rewrite (proj2 (Z.eqb_neq p 0) Hp). exists (Some l). split; [done|]. intros. by apply fdset_bytes_val.
  - intros ->. by exists None.
Qed.
Lemma select_collect_from r w e l fds : select_collect get_file r w e l = Ok fds → Forall (λ x, x.2 ∈ l) fds.
Proof.
  revert fds. induction l as [|i l IH]; intros fds; cbn; [by intros [= <-]|].
  destruct (get_file i) as [f|]; [|done]. cbn. destruct (select_collect get_file r w e l) as [rest|x|]; [|done..].
  cbn. intros [= <-]. assert (Forall (λ x, x.2 ∈ i :: l) rest) as Hr.
  { eapply Forall_impl; [by apply IH|]. intros x Hx. by right. }
  destruct (_ =? 0); [done|]. constructor; [left|done].
Qed.
Lemma select_mask_readable u sigmask set : select_mask u sigmask = Ok set → ∃ b, get_opt u 8 set = Ok b.
Proof.
  unfold select_mask. destruct (get_opt u 16 sigmask) as [[l|]|e|]; cbn; [|intros [= <-]; by exists None|done..].
  destruct (check_sigset_size _) as [[]|e|]; [|done..]. cbn.
  destruct (get_opt u 8 (le_val (take 8 l))) as [b|e|] eqn:E; [|done..]. intros [= <-]. by exists b.
Qed.
Lemma get_opt_rest u u' n p : rest_same u u' → (∀ q, q ∈ [pr; pw; pe] → apart q SET_SIZE p n) → get_opt u' n p = get_opt u n p.
Proof.
  intros Hs Ha. unfold get_opt. destruct (Z.eqb_spec p 0) as [|Hp]; [done|]. rewrite Hs; [done|].
  intros q Hq. destruct (Ha q Hq) as [|[|]]; tauto.
Qed.

(** The call from its checks on *)
Lemma select_user_refines nfds timeout sigmask set snaps fin mask u sets blocked :
  in_memory u sets → select_mask u sigmask = Ok set → get_opt u 8 set = Ok blocked →
  (∀ p, p ∈ [pr; pw; pe] → apart p SET_SIZE set 8) →
  let '(r, (mask', sets')) := do_select get_file nfds (le_val <$> blocked) snaps (wait_end timeout fin) (mask, sets) in
  ∃ u', select_user nfds pr pw pe timeout sigmask snaps fin (mask, u) = (r, (mask', u')) ∧ in_memory u' sets' ∧ rest_same u u'.
Proof.
  intros Hm Hset Hb Ha. unfold do_select, select_user. destruct (nfds >? FD_SETSIZE); [by exists u|]. unfold_m. cbn [snd].
  rewrite Hset. destruct Hm as (Hr & Hw & He).
  destruct (get_set_holds u pr _ Hr) as (lr & -> & Er). destruct (get_set_holds u pw _ Hw) as (lw & -> & Ew).
  destruct (get_set_holds u pe _ He) as (le & -> & Ee). rewrite Er, Ew, Ee.
  destruct (select_collect get_file _ _ _ _) as [fds|x|] eqn:Hc; [|by exists u..].
  assert (Forall (λ x, 0 ≤ x.2 < FD_SETSIZE) fds) as Hf.
  { eapply Forall_impl; [by eapply select_collect_from|]. cbn. intros x [_ Hx]%list_elem_of_filter.
    apply elem_of_seqZ in Hx. lia. }
  destruct (zero_all_spec u sets (conj Hr (conj Hw He))) as (u1 & E1 & Hm1 & Hs1). unfold on_user. unfold_m. unfold mbind, M_bind in E1. rewrite E1.
  cbn [snd]. rewrite (get_opt_rest u u1) by done. rewrite Hb. unfold with_replacen_blocked.
  pose proof (mem_wait_spec fds (wait_end timeout fin) snaps Hf u1 _ Hm1) as Hwait.
  destruct (wait_for (select_attempt fds) snaps (wait_end timeout fin) 0 (fd_zero sets)) as [r sets'].
  destruct Hwait as (u2 & -> & Hm2 & Hs2). destruct r; (exists u2; split; [done|split; [done|by etransitivity]]).
Qed.

(** C28: [pselect6] on three sets in user memory that do not overlap, nor the
    set of signals, does what it does on sets that are values: the result, the
    mask of blocked signals and the sets found in memory afterwards are those,
    and nothing else in memory has changed. *)
Theorem pselect6_refines nfds timeout t sigmask set snaps fin mask u sets :
  in_memory u sets → get_timeout u timespec_of timeout = Ok t → select_mask u sigmask = Ok set →
  (∀ p, p ∈ [pr; pw; pe] → apart p SET_SIZE set 8) →
  ∃ blocked, get_opt u 8 set = Ok blocked
  ∧ let '(r, (mask', sets')) := do_select get_file nfds (le_val <$> blocked) snaps (wait_end t fin) (mask, sets) in
    ∃ u', sys_pselect6 nfds pr pw pe timeout sigmask snaps fin (mask, u) = (r, (mask', u')) ∧ in_memory u' sets' ∧ rest_same u u'.
Proof.
  intros Hm Ht Hset Ha. destruct (select_mask_readable u sigmask set Hset) as [b Hb]. exists b. split; [done|].
  pose proof (select_user_refines nfds t sigmask set snaps fin mask u sets b Hm Hset Hb Ha) as Hs.
  unfold sys_pselect6. unfold_m. cbn [snd]. by rewrite Ht.
Qed.
End Three.

(** ** [poll] *)

Context (known : Z).

(** [do_poll] on the slice [raw] at [fds] *)
Definition poll_slice (fds : Z) (nfds : nat) (raw : bytes) (timeout : option TimeValue) (sigmask : option Z)
    (snaps : list (F → Z)) (fin : WaitEnd) : M S Z := λ '(mask, u),
  let '(r, mask, l) := do_poll get_file known sigmask snaps (wait_end timeout fin) mask (pollfds nfds raw) in
  (r, (mask, (ub_put fds (concat (pollfd_bytes <$> l)) u).2)).

Definition sys_poll (fds nfds timeout : Z) (snaps : list (F → Z)) (fin : WaitEnd) : M S Z :=
  s ← getM;
  let n := Z.to_nat nfds in
  raw ← liftR (ub_get_mut s.2 4 fds (n * 8)%nat);
  let timeout := if timeout <? 0 then None else Some (timeout * 1000000) in
  poll_slice fds n raw timeout None snaps fin.

Definition sys_ppoll (fds nfds timeout sigmask sigsetsize : Z) (snaps : list (F → Z)) (fin : WaitEnd) : M S Z :=
  liftR (check_sigset_size sigsetsize);;
  s ← getM;
  n ← liftR (if nfds <? 0 then Err InvalidInput else Ok (Z.to_nat nfds));
  raw ← liftR (ub_get_mut s.2 4 fds (n * 8)%nat);
  timeout ← liftR (get_timeout s.2 timespec_of timeout);
  sigmask ← liftR (get_opt s.2 8 sigmask);
  poll_slice fds n raw timeout (le_val <$> sigmask) snaps fin.

(** Only the events reported may differ. *)
Definition i16 (z : Z) : Prop := - 2 ^ 15 ≤ z < 2 ^ 15.
Definition reported_only (p p' : pollfd) : Prop :=
  pfd_fd p' = pfd_fd p ∧ pfd_events p' = pfd_events p ∧ (i16 (pfd_revents p) → i16 (pfd_revents p')).
#[local] Instance reported_only_preorder : PreOrder reported_only.
Proof. split; [done|]. intros p1 p2 p3 (? & ? & ?) (? & ? & ?). split_and!; [congruence..|tauto]. Qed.
Abbreviation same_entries := (Forall2 reported_only).

Lemma poll_collect_entries l :
  let '(r, l') := poll_collect get_file known l in
  same_entries l l' ∧ match r with Ok (w, _) => w.*1 = l' | _ => True end.
Proof.
  induction l as [|p l IH]; cbn [poll_collect]; [done|]. destruct (poll_collect get_file known l) as [r l'].
  destruct IH as [Hs Hr].
  destruct (pfd_fd p =? -1); [|destruct (get_file (pfd_fd p)) as [f|]; [destruct (negb _); [by split|]|]];
    (destruct r as [[w n]|e|]; [split; [constructor; [split_and!; done|done]|cbn; by f_equal]|split; [constructor; [split_and!; done|done]|done]..]).
Qed.
Lemma poll_pass_entries poll (w : list (pollfd * option (F * Z))) : same_entries w.*1 (poll_pass poll w).2.*1.
Proof.
  induction w as [|[p [[f events]|]] w IH]; cbn [poll_pass]; [constructor|..]; destruct (poll_pass poll w) as [n w']; constructor; try done.
  split_and!; [done..|]. intros _. apply (wraps_range 16). lia.
Qed.
Lemma poll_wait_entries snaps fin (w : list (pollfd * option (F * Z))) : same_entries w.*1 (wait_for poll_attempt snaps fin 0 w).2.*1.
Proof.
  revert w. induction snaps as [|poll snaps IH]; intros w; cbn [wait_for]; [by destruct fin|].
  unfold poll_attempt at 1. pose proof (poll_pass_entries poll w) as Hp. destruct (poll_pass poll w) as [n w'].
  destruct (n >? 0); [done|]. etransitivity; [exact Hp|apply IH].
Qed.
Lemma do_poll_entries sigmask snaps fin mask l : same_entries l (do_poll get_file known sigmask snaps fin mask l).2.
Proof.
  unfold do_poll. pose proof (poll_collect_entries l) as Hc. destruct (poll_collect get_file known l) as [[[w n]|e|] l'];
    [|apply Hc..]. destruct Hc as [Hs Hw]. destruct (n >? 0); [done|]. unfold with_replacen_blocked.
  pose proof (poll_wait_entries snaps fin w) as Hp. destruct (wait_for poll_attempt snaps fin 0 w) as [[] w'];
    (cbn in *; rewrite Hw in Hp; by etransitivity).
Qed.

Definition pollfd_ok (p : pollfd) : Prop := in_i32 (pfd_fd p) ∧ i16 (pfd_events p) ∧ i16 (pfd_revents p).
Lemma pollfds_ok n l : Forall pollfd_ok (pollfds n l).
Proof.
  revert l. induction n as [|n IH]; intros l; cbn; constructor; [|apply IH].
  split_and!; [apply (wraps_range 32)|apply (wraps_range 16)|apply (wraps_range 16)]; lia.
Qed.
Lemma pollfds_length n l : length (pollfds n l) = n.
Proof. revert l. induction n as [|n IH]; intros l; cbn; [done|]. by rewrite IH. Qed.
Lemma same_entries_ok l l' : same_entries l l' → Forall pollfd_ok l → Forall pollfd_ok l'.
Proof.
  induction 1 as [|p p' l l' (Hf & He & Hr) _ IH]; [done|]. intros [(? & ? & ?) ?]%Forall_cons. constructor; [|by apply IH].
  unfold pollfd_ok. rewrite Hf, He. tauto.
Qed.

Lemma wraps_wrapu w n z : w = 8 * Z.of_nat n → 0 < w → - 2 ^ (w - 1) ≤ z < 2 ^ (w - 1) → wraps w (le_val (le_bytes n (wrapu w z))) = z.
Proof.
  intros Hn Hw Hz. rewrite le_val_bytes. change 256 with (2 ^ 8). rewrite <- Z.pow_mul_r, <- Hn by lia. unfold wrapu.
  rewrite Z.mod_mod by lia. rewrite <- (wraps_small w z) at 2 by done. unfold wraps. by rewrite Z.mod_mod by lia.
Qed.
Lemma pollfd_bytes_length p : length (pollfd_bytes p) = 8%nat.
Proof. unfold pollfd_bytes. by rewrite !length_app, !le_bytes_length. Qed.
Lemma pollfd_roundtrip p : pollfd_ok p → pollfd_of (pollfd_bytes p) = p.
Proof.
  intros (Hf & He & Hr). unfold pollfd_of, pollfd_bytes. destruct p as [fd events revents]. cbn [pfd_fd pfd_events pfd_revents] in *.
  rewrite (take_app_length' _ _ 4), (field_at _ _ _ 4 2) by (by rewrite ?le_bytes_length).
  rewrite app_assoc, <- (app_nil_r (le_bytes 2 (as_u16 revents))), (field_at _ _ _ 6 2) by (by rewrite ?length_app, ?le_bytes_length).
  f_equal; by apply wraps_wrapu.
Qed.
Lemma pollfds_roundtrip l : Forall pollfd_ok l → pollfds (length l) (concat (pollfd_bytes <$> l)) = l.
Proof.
  induction 1 as [|p l Hp _ IH]; [done|]. cbn [length pollfds fmap list_fmap concat].
  rewrite take_app_length', drop_app_length' by (by rewrite pollfd_bytes_length). by rewrite pollfd_roundtrip, IH.
Qed.
Lemma pollfds_bytes_length l : length (concat (pollfd_bytes <$> l)) = (length l * 8)%nat.
Proof. induction l as [|p l IH]; cbn [fmap list_fmap concat]; [done|]. rewrite length_app, IH, pollfd_bytes_length. cbn. lia. Qed.

(** [ppoll] on entries in user memory does what it does on a list of
    them: result, mask and entries afterwards are those, nothing else in memory
    has changed, and of the entries only the reported events. *)
Lemma ppoll_refines fds nfds raw timeout t sigmask b sigsetsize snaps fin mask u :
  let n := Z.to_nat nfds in
  is_ok (check_sigset_size sigsetsize) = true → 0 ≤ nfds → ub_get_mut u 4 fds (n * 8)%nat = Ok raw →
  get_timeout u timespec_of timeout = Ok t → get_opt u 8 sigmask = Ok b →
  let '(r, (mask', u')) := sys_ppoll fds nfds timeout sigmask sigsetsize snaps fin (mask, u) in
  ∃ raw', ub_get_mut u' 4 fds (n * 8)%nat = Ok raw'
  ∧ do_poll get_file known (le_val <$> b) snaps (wait_end t fin) mask (pollfds n raw) = (r, mask', pollfds n raw')
  ∧ Forall2 (λ p p', pfd_fd p' = pfd_fd p ∧ pfd_events p' = pfd_events p) (pollfds n raw) (pollfds n raw')
  ∧ ∀ a q m, fds + 8 * nfds ≤ q ∨ q + Z.of_nat m ≤ fds → ub_get u' a q m = ub_get u a q m.
Proof.
  intros n Hs Hn Hraw Ht Hb. unfold sys_ppoll. destruct (check_sigset_size sigsetsize) as [[]|e|]; [|done..]. unfold_m. cbn [snd].
  destruct (Z.ltb_spec nfds 0); [lia|]. fold n. rewrite Hraw, Ht, Hb. unfold poll_slice.
  pose proof (do_poll_entries (le_val <$> b) snaps (wait_end t fin) mask (pollfds n raw)) as He.
  destruct (do_poll _ _ _ _ _ _ _) as [[r mask'] l]. cbn [snd] in He.
  pose proof (same_entries_ok _ _ He (pollfds_ok n raw)) as Hok. pose proof (Forall2_length _ _ _ He) as Hlen. rewrite pollfds_length in Hlen.
  destruct (ua_put u 4 fds (n * 8) raw 0 (concat (pollfd_bytes <$> l)) Hraw) as (u' & Hu & Hg); [rewrite pollfds_bytes_length; lia|].
  rewrite Z.add_0_r in Hu. rewrite Hu. cbn [snd]. apply ub_get_mut_length in Hraw. rewrite Hg. eexists. split; [done|].
  assert (store 0 (concat (pollfd_bytes <$> l)) raw = concat (pollfd_bytes <$> l)) as ->.
  { unfold store. rewrite pollfds_bytes_length, drop_ge by lia. by rewrite app_nil_r. }
  assert (pollfds n (concat (pollfd_bytes <$> l)) = l) as -> by (rewrite Hlen; by apply pollfds_roundtrip). split; [done|]. split.
  - eapply Forall2_impl; [exact He|]. intros p p' (? & ? & _). done.
  - intros a q m Hq. apply (ua_frame _ _ _ _ a q m Hu). unfold zlen. rewrite pollfds_bytes_length. lia.
Qed.
End Sys.

(** ** Evaluations *)

Lemma bm_get_lookup f p n i : bm_get f p n !! i = if decide (i < n)%nat then Some (f (p + Z.of_nat i)) else None.
Proof.
  unfold bm_get. rewrite list_lookup_fmap. destruct (decide (i < n)%nat); [by rewrite lookup_seq_lt|by rewrite lookup_seq_ge by lia].
Qed.
Lemma bm_get_length f p n : length (bm_get f p n) = n.
Proof. unfold bm_get. by rewrite length_fmap, length_seq. Qed.
Lemma bm_get_part f p n k m : (k + m ≤ n)%nat → bm_get f (p + Z.of_nat k) m = take m (drop k (bm_get f p n)).
Proof.
  intros Hk. apply list_eq. intros i. rewrite bm_get_lookup. destruct (decide (i < m)%nat).
  - rewrite lookup_take_lt, lookup_drop, bm_get_lookup, decide_True by lia. do 2 f_equal. lia.
  - by rewrite lookup_take_ge by lia.
Qed.
Lemma bm_put_store v p n k m : (k + length m ≤ n)%nat →
  bm_get (bm_byte (ub_put (p + Z.of_nat k) m v).2) p n = store k m (bm_get (bm_byte v) p n).
Proof.
  intros Hk. apply list_eq. intros i. unfold store, zlen. rewrite bm_get_lookup. cbn. unfold zlen.
  destruct (decide (i < k)%nat); [|destruct (decide (i < k + length m)%nat)].
  - rewrite decide_True, bool_decide_eq_false_2, lookup_app_l, lookup_take_lt, bm_get_lookup, decide_True
      by (rewrite ?length_take, ?bm_get_length; lia). done.
  - rewrite decide_True, bool_decide_eq_true_2, lookup_app_r, length_take, bm_get_length, lookup_app_l
      by (rewrite ?length_take, ?bm_get_length; lia).
    replace (Z.to_nat (p + Z.of_nat i - (p + Z.of_nat k))) with (i - k `min` n)%nat by lia.
    by destruct (lookup_lt_is_Some_2 m (i - k `min` n)) as [x ->]; [lia|].
  - rewrite bool_decide_eq_false_2, !lookup_app_r, length_take, bm_get_length, lookup_drop, bm_get_lookup
      by (rewrite ?length_take, ?bm_get_length; lia).
    replace (k + length m + (i - k `min` n - length m))%nat with i by lia. done.
Qed.
Lemma bm_put_apart v p m q n : p + zlen m ≤ q ∨ q + Z.of_nat n ≤ p → bm_get (bm_byte (ub_put p m v).2) q n = bm_get (bm_byte v) q n.
Proof.
  intros Hd. apply list_eq. intros i. rewrite !bm_get_lookup. destruct (decide (i < n)%nat); [|done].
  cbn. by rewrite bool_decide_eq_false_2 by lia.
Qed.
#[export] Instance bmem_arrays : UserArrays bmem.
Proof.
  split.
  - intros v a p n l k m Hl Hk. cbn in *. rewrite Z.mod_1_r. destruct (p mod a =? 0); [|done]. injection Hl as <-. cbn. f_equal. by apply bm_get_part.
  - intros v a p n l k m Hl Hk. exists (ub_put (p + Z.of_nat k) m v).2. split; [done|]. cbn [ub_get_mut bmem_mut ub_get bmem_bytes] in *.
    destruct (p mod a =? 0); [|done]. injection Hl as <-. f_equal. by apply bm_put_store.
  - intros v p m v' a q n E Hd. assert (v' = (ub_put p m v).2) as -> by (by rewrite E).
    cbn [ub_get_mut bmem_mut ub_get bmem_bytes]. by rewrite bm_put_apart.
Qed.

(** Descriptor 1 is watched for input and 0 for output; there is no third
    set. *)
Definition two_sets : bmem := (ub_put 0x2000 [1] (ub_put 0x1000 [2] no_mem).2).2.
Definition two_values : FdSets := mkFdSets (Some 2) (Some 1) None.

Lemma two_sets_in_memory : in_memory 0x1000 0x2000 0 two_sets two_values.
Proof.
  split_and!; [split; [done|]..|done]; eexists; (split; [vm_compute; reflexivity|]); (split; [repeat (apply Forall_cons; split; [by vm_compute|]); constructor|vm_compute; reflexivity]).
Qed.

Lemma pselect6_refines_witness : ∃ u',
  sys_pselect6 some_files 3 0x1000 0x2000 0 0 0 [quiet; readable] TimedOut_ (9, two_sets) = (Ok 1, (9, u'))
  ∧ holds u' 0x1000 (Some 2) ∧ holds u' 0x2000 (Some 0).
Proof.
  destruct (pselect6_refines some_files 0x1000 0x2000 0 ltac:(right; right; left; vm_compute; done) ltac:(right; left; done)
    ltac:(right; left; done) 3 0 None 0 0 [quiet; readable] TimedOut_ 9 two_sets two_values two_sets_in_memory eq_refl eq_refl
    ltac:(intros p _; right; left; reflexivity)) as (b & [= <-] & Hs).
  match type of Hs with context [do_select ?f ?n ?m ?s ?w ?x] =>
    assert (do_select f n m s w x = (Ok 1, (9, mkFdSets (Some 2) (Some 0) None))) as E by (vm_compute; reflexivity); rewrite E in Hs end.
  destruct Hs as (u' & Hu & Hm & _). exists u'. split; [exact Hu|]. split; [exact (proj1 Hm)|exact (proj1 (proj2 Hm))].
Defined.

(** One set for both input and output: it gets the descriptors that are ready
    for either. *)
Example shared_set :
  let out := sys_select some_files 3 0x1000 0x1000 0 0 [λ f, if f =? 1 then IO_IN else IO_OUT] TimedOut_
               (9, (ub_put 0x1000 [6] no_mem).2) in
  out.1 = Ok 2 ∧ ub_get out.2.2 1 0x1000 1 = Ok [6].
Proof. vm_compute. done. Qed.

(** Three entries; [ppoll] stores the event of the second. *)
Example ppoll_stores :
  let out := sys_ppoll some_files io_known 0x1000 3 0 0 8 [quiet; readable] TimedOut_
               (9, (ub_put 0x1000 (concat (pollfd_bytes <$> some_fds)) no_mem).2) in
  out.1 = Ok 1 ∧ (pollfds 3 <$> ub_get out.2.2 1 0x1000 24)
    = Ok [mkPollfd (-1) IO_IN 7; mkPollfd 1 IO_IN IO_IN; mkPollfd 2 IO_OUT 0].
Proof. vm_compute. done. Qed.
