(* ===== verification/SpecialFiles.v ===== *)
(** * Calls that make files without a path

    [sys_epoll_create1] ([api/src/syscall/io_mpx/epoll.rs]), [sys_eventfd2]
    ([api/src/syscall/fs/event.rs]), [sys_pipe2] ([api/src/syscall/fs/pipe.rs])
    and the use of [sys_signalfd4] ([Signals]) on a table of descriptors
    ([FdTable]).  The files are those of [Epoll], [EventFd], [Pipe] and
    [Signals]. *)

From S2P Require Import Prelude Vm Process Signals Epoll EventFd Pipe FdTable.

Definition EPOLL_CLOEXEC : Z := 0x80000.
Definition EFD_CLOEXEC : Z := 0x80000.
Definition EFD_NONBLOCK : Z := 0x800.
Definition EFD_SEMAPHORE : Z := 1.

(** [Arc<dyn FileLike>]; an end of a pipe refers to what it shares with the
    other end. *)
Inductive Special :=
| FEpoll (e : Epoll)
| FEvent (e : EventFd)
| FSignal (f : Signalfd)
| FPipe (pipe : Z) (read_side non_blocking : bool).

Record SpSt (F R U : Type) := mkSpSt {
  sp_fd : FdState F (gmap Z Special);
  sp_pipes : gmap Z (Pipe R);
  sp_max_nofile : Z;
  sp_user : U;
}.
Arguments mkSpSt {F R U}.
Arguments sp_fd {F R U}.
Arguments sp_pipes {F R U}.
Arguments sp_max_nofile {F R U}.
Arguments sp_user {F R U}.
#[export] Instance eta_SpSt F R U : Eta (SpSt F R U) := λ s, mkSpSt (sp_fd s) (sp_pipes s) (sp_max_nofile s) (sp_user s).

(** [from_bits]: no other bits are set. *)
Definition from_bits (known flags : Z) : res Z := if Z.ldiff flags known =? 0 then Ok flags else Err InvalidInput.

Section Special.
Context {F R U : Type} `{FlattenObjects F, RingBuf R, VmPtr U (Z * Z)}.
Abbreviation S := (SpSt F R U).

Definition on_fds {A} (m : M (FdState F (gmap Z Special)) A) : M S A := λ s,
  let '(r, t) := m (sp_fd s) in (r, s <| sp_fd := t |>).
Definition on_user {A} (m : M U A) : M S A := λ s, let '(r, u) := m (sp_user s) in (r, s <| sp_user := u |>).

(** [Arc::new] *)
Definition new_file (x : Special) : M S Z :=
  s ← getM;
  let f := fresh (dom (fs_files (sp_fd s))) in
  putM (s <| sp_fd ::= λ t, t <| fs_files ::= <[f := x]> |> |>);;
  mret f.
(** [add_to_fd_table] *)
Definition add_to_fd_table (f : Z) (cloexec : bool) : M S Z :=
  s ← getM;
  on_fds (add_file_like (sp_max_nofile s) f cloexec).

Definition sys_epoll_create1 (flags : Z) : M S Z :=
  flags ← liftR (from_bits EPOLL_CLOEXEC flags);
  f ← new_file (FEpoll Epoll_new);
  add_to_fd_table f (has_flag flags EPOLL_CLOEXEC).

Definition sys_eventfd2 (initval flags : Z) : M S Z :=
  flags ← liftR (from_bits (Z.lor (Z.lor EFD_CLOEXEC EFD_NONBLOCK) EFD_SEMAPHORE) flags);
  let event_fd := set_nonblocking (has_flag flags EFD_NONBLOCK) (EventFd_new (as_u32 initval) (has_flag flags EFD_SEMAPHORE)) in
  f ← new_file (FEvent event_fd);
  add_to_fd_table f (has_flag flags EFD_CLOEXEC).

(** [Pipe::new] with the flag of both ends set *)
Definition new_pipe (non_blocking : bool) : M S (Z * Z) :=
  s ← getM;
  let p := fresh (dom (sp_pipes s)) in
  putM (s <| sp_pipes ::= <[p := Pipe_new]> |>);;
  r ← new_file (FPipe p true non_blocking);
  w ← new_file (FPipe p false non_blocking);
  mret (r, w).

(** [inspect_err(|_| close_file_like(read_fd).unwrap())] *)
Definition or_close (read_fd : Z) (m : M S Z) : M S Z := λ s,
  match m s with
  | (Err e, s) => match on_fds (close_file_like read_fd) s with (Ok _, s) => (Err e, s) | (_, s) => (Panic, s) end
  | r => r
  end.

(** Unknown flags are dropped. *)
Definition sys_pipe2 (fds flags : Z) : M S Z :=
  let flags := Z.land flags (Z.lor O_CLOEXEC O_NONBLOCK) in
  let cloexec := has_flag flags O_CLOEXEC in
  '(read_end, write_end) ← new_pipe (has_flag flags O_NONBLOCK);
  read_fd ← add_to_fd_table read_end cloexec;
  write_fd ← or_close read_fd (add_to_fd_table write_end cloexec);
  on_user (vm_write fds (read_fd, write_fd));;
  mret 0.

(** [Signalfd::from_fd] and the store behind it *)
Definition signal_file (t : S) (fd : Z) : res (Z * Signalfd) :=
  d ← ok_or BadFileDescriptor (fo_get (as_u64 fd) (fs_table (sp_fd t)));
  match fs_files (sp_fd t) !! fd_inner d with Some (FSignal f) => Ok (fd_inner d, f) | _ => Err InvalidInput end.
Definition signalfd4 (fd : Z) (mask : res Z) (sigsetsize flags : Z) : M S Z :=
  sys_signalfd4 (λ t fd, snd <$> signal_file t fd)
    (λ fd f t, match signal_file t fd with
               | Ok (k, _) => t <| sp_fd ::= λ x, x <| fs_files ::= <[k := FSignal f]> |> |>
               | _ => t
               end)
    (λ f cloexec, k ← new_file (FSignal f); add_to_fd_table k cloexec) fd mask sigsetsize flags.

Context `{!FlattenObjectsOk F}.
Abbreviation files s := (fs_files (sp_fd s)).

(** ** A new file *)

(** Everything but the descriptor table *)
Definition rest_of (s : S) := (files s, sp_pipes s, sp_max_nofile s, sp_user s).

Lemma new_file_spec x s : ∃ f s', new_file x s = (Ok f, s') ∧ files s !! f = None ∧ files s' = <[f := x]> (files s)
  ∧ view (sp_fd s') = view (sp_fd s) ∧ sp_pipes s' = sp_pipes s ∧ sp_max_nofile s' = sp_max_nofile s ∧ sp_user s' = sp_user s.
Proof.
  unfold new_file. unfold_m. do 2 eexists. split; [done|]. split; [|done]. apply not_elem_of_dom, is_fresh.
Qed.

Lemma add_to_fd_table_spec f c s r s' : add_to_fd_table f c s = (r, s') →
  rest_of s' = rest_of s
  ∧ match r with
    | Ok i => lowest_free (view (sp_fd s)) i ∧ view (sp_fd s') = <[i := mkFd f c]> (view (sp_fd s)) ∧ 0 ≤ i < AX_FILE_LIMIT
    | Err e => e = TooManyOpenFiles ∧ view (sp_fd s') = view (sp_fd s)
    | Panic => False
    end.
Proof.
  unfold add_to_fd_table, on_fds. unfold_m. destruct (add_file_like _ f c (sp_fd s)) as [r1 t] eqn:E. intros [= <- <-].
  apply add_file_like_spec in E as (Hf & E). unfold rest_of. cbn. rewrite Hf. split; [done|]. destruct r1 as [i|e|]; [|tauto..].
  destruct E as (Hl & Hv & _). split; [done|]. split; [done|]. apply (fo_view_range (fs_table t) i (mkFd f c)).
  fold (view t). by rewrite Hv, lookup_insert_eq.
Qed.

(** [m] made the file [x] and put it into the table. *)
Definition opens (x : Special) (cloexec : bool) (s : S) (r : res Z) (s' : S) : Prop :=
  ∃ f, files s !! f = None ∧ files s' = <[f := x]> (files s) ∧ sp_pipes s' = sp_pipes s ∧ sp_user s' = sp_user s
  ∧ match r with
    | Ok i => lowest_free (view (sp_fd s)) i ∧ view (sp_fd s') = <[i := mkFd f cloexec]> (view (sp_fd s))
    | Err e => e = TooManyOpenFiles ∧ view (sp_fd s') = view (sp_fd s)
    | Panic => False
    end.
Lemma new_then_add x c s r s' : (f ← new_file x; add_to_fd_table f c) s = (r, s') → opens x c s r s'.
Proof.
  destruct (new_file_spec x s) as (f & s1 & E & Hf & Hfs & Hv & Hp & Hm & Hu). rewrite (bind_ok _ _ _ _ _ E).
  intros (Hr & Ha)%add_to_fd_table_spec. unfold rest_of in Hr. injection Hr as Hr1 Hr2 Hr3 Hr4. exists f.
  rewrite Hr1, Hr2, Hr4, <- Hv. split_and!; try done. destruct r; [|done..]. split; tauto.
Qed.

(** [epoll_create1] and [eventfd2]: a new file as the flags ask for, behind the
    lowest free descriptor *)
Lemma create_calls_open initval flags s :
  (let '(r, s') := sys_epoll_create1 flags s in
   if Z.ldiff flags EPOLL_CLOEXEC =? 0 then opens (FEpoll Epoll_new) (has_flag flags EPOLL_CLOEXEC) s r s'
   else (r, s') = (Err InvalidInput, s))
  ∧ let '(r, s') := sys_eventfd2 initval flags s in
    if Z.ldiff flags (Z.lor (Z.lor EFD_CLOEXEC EFD_NONBLOCK) EFD_SEMAPHORE) =? 0 then
      opens (FEvent (mkEventFd (as_u32 initval) (has_flag flags EFD_SEMAPHORE) (has_flag flags EFD_NONBLOCK)))
        (has_flag flags EFD_CLOEXEC) s r s'
    else (r, s') = (Err InvalidInput, s).
Proof.
  split.
  - destruct (sys_epoll_create1 flags s) as [r s'] eqn:E. unfold sys_epoll_create1, from_bits in E.
    destruct (Z.ldiff _ _ =? 0); [by apply new_then_add in E|by injection E as <- <-].
  - destruct (sys_eventfd2 initval flags s) as [r s'] eqn:E. unfold sys_eventfd2, from_bits in E.
    destruct (Z.ldiff _ _ =? 0); [by apply new_then_add in E|by injection E as <- <-].
Qed.

(** Both ends of a new pipe behind the descriptors [i] and [j] *)
Definition pipe_installed (flags i j : Z) (s s' : S) : Prop :=
  ∃ p a b, sp_pipes s !! p = None ∧ sp_pipes s' = <[p := Pipe_new]> (sp_pipes s)
  ∧ files s !! a = None ∧ files s !! b = None ∧ a ≠ b
  ∧ files s' = <[b := FPipe p false (has_flag flags O_NONBLOCK)]> (<[a := FPipe p true (has_flag flags O_NONBLOCK)]> (files s))
  ∧ let m := <[i := mkFd a (has_flag flags O_CLOEXEC)]> (view (sp_fd s)) in
    lowest_free (view (sp_fd s)) i ∧ lowest_free m j ∧ view (sp_fd s') = <[j := mkFd b (has_flag flags O_CLOEXEC)]> m.

Lemma has_flag_land x known f : Z.land known f = f → has_flag (Z.land x known) f = has_flag x f.
Proof. intros Hf. unfold has_flag. by rewrite <- Z.land_assoc, Hf. Qed.

(** [pipe2] on every branch.  It gives the two lowest free descriptors to
    the read end and the write end of one new pipe, with the flags asked for,
    and stores them.  Without two free descriptors the table is as before: the
    read end is closed again.  If the store fails the call fails, but both
    descriptors stay. *)
Lemma pipe2_outcomes fds flags s r s' :
  (∀ p x u, (vm_write (V := U) p (x : Z * Z) u).1 ≠ Panic) → sys_pipe2 fds flags s = (r, s') →
  match r with
  | Ok v => v = 0 ∧ ∃ i j, pipe_installed flags i j s s' ∧ vm_write fds (i, j) (sp_user s) = (Ok tt, sp_user s')
  | Err e =>
      (e = TooManyOpenFiles ∧ view (sp_fd s') = view (sp_fd s) ∧ sp_user s' = sp_user s)
      ∨ ∃ i j, pipe_installed flags i j s s' ∧ vm_write fds (i, j) (sp_user s) = (Err e, sp_user s')
  | Panic => False
  end.
Proof.
  intros Hnp. unfold sys_pipe2. cbv zeta. rewrite !has_flag_land by reflexivity. unfold new_pipe.
  set (nb := has_flag flags O_NONBLOCK). set (c := has_flag flags O_CLOEXEC). set (p := fresh (dom (sp_pipes s))).
  assert (sp_pipes s !! p = None) as Hp by apply not_elem_of_dom, is_fresh.
  set (s0 := s <| sp_pipes ::= <[p := Pipe_new]> |>).
  destruct (new_file_spec (FPipe p true nb) s0) as (a & s1 & E1 & Ha & Hf1 & Hv1 & Hp1 & Hm1 & Hu1).
  destruct (new_file_spec (FPipe p false nb) s1) as (b & s2 & E2 & Hb & Hf2 & Hv2 & Hp2 & Hm2 & Hu2).
  unfold_m. fold p. fold s0. rewrite E1, E2.
  assert (a ≠ b ∧ files s !! b = None) as [Hab Hb'].
  { rewrite Hf1 in Hb. apply lookup_insert_None in Hb as [? ?]. done. }
  destruct (add_to_fd_table a c s2) as [r3 s3] eqn:E3. apply add_to_fd_table_spec in E3 as (Hr3 & H3).
  assert (view (sp_fd s2) = view (sp_fd s)) as Hvs by (by rewrite Hv2, Hv1).
  assert (sp_user s2 = sp_user s) as Hus by (by rewrite Hu2, Hu1).
  unfold rest_of in Hr3. injection Hr3 as Hf3 Hp3 Hm3 Hu3.
  destruct r3 as [i|e|]; [| |done].
  2:{ destruct H3 as [-> Hv3]. intros [= <- <-]. left. by rewrite Hv3, Hu3. }
  destruct H3 as (Hi & Hv3 & Hrange). unfold or_close.
  destruct (add_to_fd_table b c s3) as [r4 s4] eqn:E4. apply add_to_fd_table_spec in E4 as (Hr4 & H4).
  unfold rest_of in Hr4. injection Hr4 as Hf4 Hp4 Hm4 Hu4. rewrite Hvs in *.
  destruct r4 as [j|e|]; [| |done].
  - destruct H4 as (Hj & Hv4 & _). rewrite Hv3 in Hj, Hv4.
    assert (∀ t, sp_fd t = sp_fd s4 → sp_pipes t = sp_pipes s4 → pipe_installed flags i j s t) as Hinst.
    { intros t Ht Htp. exists p, a, b. rewrite Ht, Htp, Hp4, Hp3, Hp2, Hp1, Hf4, Hf3, Hf2, Hf1. by split_and!. }
    unfold on_user. rewrite Hu4, Hu3, Hus. pose proof (Hnp fds (i, j) (sp_user s)) as Hw.
    destruct (vm_write fds (i, j) (sp_user s)) as [[[]|e|] u] eqn:Ew; [| |done]; intros [= <- <-].
    + split; [done|]. exists i, j. split; [by apply Hinst|done].
    + right. exists i, j. split; [by apply Hinst|done].
  - destruct H4 as [-> Hv4]. unfold on_fds, close_file_like, on_table. unfold_m.
    destruct (fo_remove (as_u64 i) (fs_table (sp_fd s4))) as [o t] eqn:Er.
    pose proof (fo_remove_view (as_u64 i) (fs_table (sp_fd s4))) as [Ho Ht]. rewrite Er in Ho, Ht. cbn [fst snd] in Ho, Ht.
    fold (view (sp_fd s4)) in Ho, Ht. rewrite as_u64_nat in Ho, Ht by (unfold AX_FILE_LIMIT in *; lia).
    rewrite Hv4, Hv3, lookup_insert_eq in Ho. subst o. cbn. intros [= <- <-]. left. split; [done|].
    unfold view at 1. cbn. rewrite Ht, Hv4, Hv3, Hu4, Hu3. split; [|done]. apply delete_insert_id. apply Hi.
Qed.
End Special.

(** ** Evaluations *)

(** Descriptors 0 and 2 are in use. *)
Definition two_open {U} (max : Z) (u : U) : SpSt table ring U :=
  mkSpSt (mkFdState {[0 := mkFd 5 false; 2 := mkFd 6 false]} ∅) ∅ max u.

Example pipe2_outcomes_instance : ∃ s' : SpSt table ring (cells (Z * Z)),
  sys_pipe2 0x1000 (Z.lor O_CLOEXEC O_NONBLOCK) (two_open 10 ∅) = (Ok 0, s')
  ∧ (∃ i j, pipe_installed (Z.lor O_CLOEXEC O_NONBLOCK) i j (two_open 10 ∅) s') ∧ sp_user s' !! 0x1000 = Some (1, 3).
Proof.
  assert (∀ p x u, (vm_write (V := cells (Z * Z)) p (x : Z * Z) u).1 ≠ Panic) as Hnp by (intros; discriminate).
  set (s := two_open 10 ∅). set (out := sys_pipe2 0x1000 (Z.lor O_CLOEXEC O_NONBLOCK) s).
  assert (out.1 = Ok 0) as Hr by (vm_compute; reflexivity).
  assert (out = (Ok 0, out.2)) as E by (rewrite <- Hr; apply surjective_pairing).
  exists out.2. split; [exact E|]. split; [|vm_compute; reflexivity].
  destruct (pipe2_outcomes 0x1000 (Z.lor O_CLOEXEC O_NONBLOCK) s (Ok 0) out.2 Hnp E) as (_ & i & j & Hi & _).
  exists i, j. exact Hi.
Qed.

(** With room for one descriptor nothing stays; if the numbers cannot be stored
    both ends do. *)
Example pipe2_leaks :
  let '(r1, s1) := sys_pipe2 0x1000 0 (two_open 3 (∅ : cells (Z * Z))) in
  let '(r2, s2) := sys_pipe2 0x1000 0 (two_open 10 (mkUnmapped)) in
  (r1, r2) = (Err TooManyOpenFiles, Err BadAddress) ∧ fs_table (sp_fd s1) = fs_table (sp_fd (two_open 3 (∅ : cells (Z * Z))))
  ∧ size (fs_table (sp_fd s2)) = 4%nat.
Proof. by vm_compute. Qed.
