(* ===== verification/Sockets.v ===== *)
(** * Sockets

    [api/src/file/net.rs] and [api/src/syscall/net/]: the system calls on
    sockets ([socket.rs], [name.rs], [opt.rs], [io.rs]) and the control messages
    of received data ([CMsgBuilder] of [cmsg.rs]).  The network stack [axnet] is
    an interface; a socket of it is a number.  Addresses and the control
    messages of sent data are in [SockAddr]. *)

From S2P Require Import Prelude Bytes Text Vm Time FdTable IoVec SockAddr.
Open Scope Z_scope.

Definition SOCK_STREAM : Z := 1.
Definition SOCK_DGRAM : Z := 2.
Definition SOCK_SEQPACKET : Z := 5.
Definition IPPROTO_IP : Z := 0.
Definition IPPROTO_TCP : Z := 6.
Definition IPPROTO_UDP : Z := 17.
Definition MSG_PEEK : Z := 2.
Definition MSG_TRUNC : Z := 0x20.

Inductive SockKind := Tcp | Udp | UnixStream | UnixDgram | VsockStream.
Inductive Shutdown := ShutRead | ShutWrite | ShutBoth.
Inductive SockOption :=
| NonBlocking | ReuseAddress | SockError | DontRoute | SendBuffer | ReceiveBuffer | KeepAlive | ReceiveTimeout
| SendTimeout | PassCredentials | PeerCredentials | NoDelay | MaxSegment | TcpInfo | Ttl.
(** [ORaw]: the object the stack fills in or takes as it is in user memory *)
Inductive OptVal := OBool (b : bool) | OInt (z : Z) | ODuration (d : TimeValue) | OCred (pid uid gid : Z) | ORaw (l : bytes).

(** Where data comes from or goes to: one buffer, or a vector of them *)
Inductive Buffers := OneBuffer (ptr len : Z) | Vector (iov : Z) (c : IoVectorBufIo).
Record SendOptions := mkSendOptions { send_to : option SocketAddrEx; send_cmsg : list (list Z) }.
Record RecvFlags := mkRecvFlags { PEEK : bool; TRUNCATE : bool }.

(** [axnet]: [nt_send] and [nt_recv] also work on user memory; with [from]
    [nt_recv] may set the address; a received control message is a list of files
    or something unexpected. *)
Class AxNet (W V : Type) := {
  nt_new : SockKind → Z → M W Z;
  nt_new_pair : SockKind → Z → M W (Z * Z);
  nt_bind : Z → SocketAddrEx → M W unit;
  nt_connect : Z → SocketAddrEx → M W unit;
  nt_listen : Z → M W unit;
  nt_accept : Z → M W Z;
  nt_shutdown : Z → Shutdown → M W unit;
  nt_local_addr : Z → M W SocketAddrEx;
  nt_peer_addr : Z → M W SocketAddrEx;
  nt_set_option : Z → SockOption → OptVal → M W unit;
  nt_get_option : Z → SockOption → M W OptVal;
  nt_send : Z → Buffers → SendOptions → M (W * V) Z;
  nt_recv : Z → Buffers → bool → RecvFlags → M (W * V) (Z * option SocketAddrEx * list (option (list Z)));
  nt_raw_size : SockOption → nat;
}.

(** The objects behind descriptors *)
Inductive SockObj := FSocket (sock : Z) | FOther.

Record NetSt (W V F : Type) := mkNetSt {
  n_net : W; n_vm : V; n_fd : FdState F (gmap Z SockObj); n_max_nofile : Z; n_pid : Z;
}.
Arguments mkNetSt {W V F}.
Arguments n_net {W V F}.
Arguments n_vm {W V F}.
Arguments n_fd {W V F}.
Arguments n_max_nofile {W V F}.
Arguments n_pid {W V F}.
#[export] Instance eta_NetSt W V F : Eta (NetSt W V F) := λ s,
  mkNetSt (n_net s) (n_vm s) (n_fd s) (n_max_nofile s) (n_pid s).

Section Sockets.
Context {W V F : Type} `{AxNet W V, UserBytes V, !UserBytesMut V, !VmPtr V IoVec, FlattenObjects F}.
Abbreviation S := (NetSt W V F).

Definition on_net {A} (m : M W A) : M S A := λ s, let '(r, w) := m (n_net s) in (r, s <| n_net := w |>).
Definition on_vm {A} (m : M V A) : M S A := λ s, let '(r, v) := m (n_vm s) in (r, s <| n_vm := v |>).
Definition on_fds {A} (m : M (FdState F (gmap Z SockObj)) A) : M S A := λ s,
  let '(r, f) := m (n_fd s) in (r, s <| n_fd := f |>).
Definition on_both {A} (m : M (W * V) A) : M S A := λ s,
  let '(r, (w, v)) := m (n_net s, n_vm s) in (r, s <| n_net := w |> <| n_vm := v |>).
(** [get_as_mut] and [get_as_ref] of an object of [n] bytes *)
Definition get_mut (align p : Z) (n : nat) : M S bytes := λ s, (ub_get_mut (n_vm s) align p n, s).
Definition get_ref (align p : Z) (n : nat) : M S bytes := λ s, (ub_get (n_vm s) align p n, s).

(** ** [Socket] of [file/net.rs] *)

Definition Socket_from_fd (fd : Z) : M S Z :=
  f ← on_fds (get_file_like fd);
  s ← getM;
  match default FOther (fs_files (n_fd s) !! f) with FSocket sock => mret sock | FOther => failM NotASocket end.

Definition Socket_set_nonblocking (sock : Z) (flag : bool) : M S unit :=
  on_net (nt_set_option sock NonBlocking (OBool flag)).
(** [unwrap]: a failure panics; a boolean option has a boolean value. *)
Definition Socket_nonblocking (sock : Z) : M S bool := λ s,
  match on_net (nt_get_option sock NonBlocking) s with
  | (Ok (OBool b), s) => (Ok b, s)
  | (_, s) => (Panic, s)
  end.
Definition Socket_read (sock : Z) (dst : Buffers) : M S Z :=
  r ← on_both (nt_recv sock dst false (mkRecvFlags false false)); mret r.1.1.
Definition Socket_write (sock : Z) (src : Buffers) : M S Z := on_both (nt_send sock src (mkSendOptions None [])).

(** [add_to_fd_table]: a new object *)
Definition add_socket (sock : Z) (cloexec : bool) : M S Z :=
  s ← getM;
  let f := fresh (dom (fs_files (n_fd s))) in
  modifyM (λ s : S, s <| n_fd ::= λ t, t <| fs_files ::= <[f := FSocket sock]> |> |>);;
  on_fds (add_file_like (n_max_nofile s) f cloexec).

(** ** [socket.rs] *)

Definition socket_kind (vsock : bool) (domain ty proto : Z) : res SockKind :=
  if domain =? AF_INET then
    if ty =? SOCK_STREAM then
      if negb (proto =? 0) && negb (proto =? IPPROTO_TCP) then Err (Linux EPROTONOSUPPORT) else Ok Tcp
    else if ty =? SOCK_DGRAM then
      if negb (proto =? 0) && negb (proto =? IPPROTO_UDP) then Err (Linux EPROTONOSUPPORT) else Ok Udp
    else Err (Linux ESOCKTNOSUPPORT)
  else if domain =? AF_UNIX then
    if ty =? SOCK_STREAM then Ok UnixStream
    else if ty =? SOCK_DGRAM then Ok UnixDgram
    else Err (Linux ESOCKTNOSUPPORT)
  else if domain =? AF_VSOCK then
    if vsock && (ty =? SOCK_STREAM) then Ok VsockStream else Err (Linux ESOCKTNOSUPPORT)
  else Err (Linux EAFNOSUPPORT).

Definition sys_socket (vsock : bool) (domain raw_ty proto : Z) : M S Z :=
  s ← getM;
  kind ← liftR (socket_kind vsock domain (Z.land raw_ty 0xff) proto);
  sock ← on_net (nt_new kind (n_pid s));
  (if any_bit raw_ty O_NONBLOCK then Socket_set_nonblocking sock true else mret tt);;
  add_socket sock (any_bit raw_ty O_CLOEXEC).

Definition load_addr (addr addrlen : Z) : M S SocketAddrEx := λ s, (read_from_user utf8 (n_vm s) addr addrlen, s).

Definition sys_bind (fd addr addrlen : Z) : M S Z :=
  addr ← load_addr addr addrlen;
  sock ← Socket_from_fd fd;
  on_net (nt_bind sock addr);;
  mret 0.

(** [map_err] of a computation *)
Definition map_err {A} (f : AxError → AxError) (m : M S A) : M S A := λ s,
  match m s with (Err e, s) => (Err (f e), s) | x => x end.
Definition sys_connect (fd addr addrlen : Z) : M S Z :=
  addr ← load_addr addr addrlen;
  sock ← Socket_from_fd fd;
  map_err (λ e, if decide (e = WouldBlock) then InProgress else e) (on_net (nt_connect sock addr));;
  mret 0.

Definition sys_listen (fd backlog : Z) : M S Z :=
  if (backlog <? 0) && negb (backlog =? -1) then failM InvalidInput
  else
    sock ← Socket_from_fd fd;
    on_net (nt_listen sock);;
    mret 0.

(** [addr.write_to_user(addr, addrlen.get_as_mut()?)]: the length is read and
    replaced in user memory. *)
Definition store_addr (a : SocketAddrEx) (addr addrlen : Z) : M S unit :=
  l ← get_mut 4 addrlen 4;
  n ← on_vm (write_to_user a addr (le_val l));
  on_vm (ub_put addrlen (le_bytes 4 (as_u32 n))).

Definition sys_accept4 (fd addr addrlen flags : Z) : M S Z :=
  sock ← Socket_from_fd fd;
  new ← on_net (nt_accept sock);
  (if any_bit flags O_NONBLOCK then Socket_set_nonblocking new true else mret tt);;
  remote_addr ← on_net (nt_local_addr new);
  fd ← add_socket new (any_bit flags O_CLOEXEC);
  (if negb (addr =? 0) then store_addr remote_addr addr addrlen else mret tt);;
  mret fd.
Definition sys_accept (fd addr addrlen : Z) : M S Z := sys_accept4 fd addr addrlen 0.

Definition sys_shutdown (fd how : Z) : M S Z :=
  sock ← Socket_from_fd fd;
  how ← liftR (match how with 0 => Ok ShutRead | 1 => Ok ShutWrite | 2 => Ok ShutBoth | _ => Err InvalidInput end);
  on_net (nt_shutdown sock how);;
  mret 0.

(** The two descriptors are installed before the pointer is checked: the right
    side of the assignment is evaluated first. *)
Definition sys_socketpair (domain raw_ty proto fds : Z) : M S Z :=
  let ty := Z.land raw_ty 0xff in
  if negb (domain =? AF_UNIX) then failM (Linux EAFNOSUPPORT)
  else
    s ← getM;
    kind ← liftR (if ty =? SOCK_STREAM then Ok UnixStream
                  else if (ty =? SOCK_DGRAM) || (ty =? SOCK_SEQPACKET) then Ok UnixDgram
                  else Err (Linux ESOCKTNOSUPPORT));
    pair ← on_net (nt_new_pair kind (n_pid s));
    (if any_bit raw_ty O_NONBLOCK then Socket_set_nonblocking pair.1 true;; Socket_set_nonblocking pair.2 true
     else mret tt);;
    let cloexec := any_bit raw_ty O_CLOEXEC in
    fd1 ← add_socket pair.1 cloexec;
    fd2 ← add_socket pair.2 cloexec;
    get_mut 4 fds 8;;
    on_vm (ub_put fds (le_bytes 4 (as_u32 fd1) ++ le_bytes 4 (as_u32 fd2)));;
    mret 0.

(** ** [name.rs] *)

Definition sys_getsockname (fd addr addrlen : Z) : M S Z :=
  sock ← Socket_from_fd fd;
  local_addr ← on_net (nt_local_addr sock);
  store_addr local_addr addr addrlen;;
  mret 0.
Definition sys_getpeername (fd addr addrlen : Z) : M S Z :=
  sock ← Socket_from_fd fd;
  peer_addr ← on_net (nt_peer_addr sock);
  store_addr peer_addr addr addrlen;;
  mret 0.

(** ** [opt.rs] *)

(** The conversions of [mod conv]; [CInt max]: [Int] of an unsigned type with
    values up to [max]; [CRaw]: none. *)
Inductive Conv := CRaw | CIntBool | CInt (max : Z) | CDuration | CUcred.
Definition usize_max : Z := 2 ^ 64 - 1.
Definition u8_max : Z := 255.

(** [size_of] and [align_of] of the type in user memory *)
Definition conv_size (c : Conv) (raw : nat) : nat :=
  match c with CRaw => raw | CIntBool | CInt _ => 4 | CDuration => 16 | CUcred => 12 end.
Definition conv_align (c : Conv) : Z := match c with CDuration => 8 | _ => 4 end.

Definition sys_to_rust (c : Conv) (l : bytes) : res OptVal :=
  match c with
  | CRaw => Ok (ORaw l)
  | CIntBool => Ok (OBool (negb (as_i32 (le_val l) =? 0)))
  | CInt max =>
      let val := as_i32 (le_val l) in
      if (0 <=? val) && (val <=? max) then Ok (OInt val) else Err InvalidInput
  | CDuration =>
      d ← try_into_time_value (mkTimeval (as_i64 (le_val (take 8 l))) (as_i64 (le_val (drop 8 l))));
      Ok (ODuration d)
  | CUcred => Ok (OCred (le_val (take 4 l)) (le_val (take 4 (drop 4 l))) (le_val (drop 8 l)))
  end.

(** A value of a type that is not the option's does not occur. *)
Definition rust_to_sys (c : Conv) (val : OptVal) : res bytes :=
  match c, val with
  | CRaw, ORaw l => Ok l
  | CIntBool, OBool b => Ok (le_bytes 4 (if b then 1 else 0))
  | CInt _, OInt val => if val <? 2 ^ 31 then Ok (le_bytes 4 val) else Err InvalidInput
  | CDuration, ODuration d =>
      let t := from_time_value (T := timeval) d in
      Ok (le_bytes 8 (as_u64 (tv_sec t)) ++ le_bytes 8 (as_u64 (tv_usec t)))
  | CUcred, OCred pid uid gid => Ok (le_bytes 4 pid ++ le_bytes 4 uid ++ le_bytes 4 gid)
  | _, _ => Panic
  end.

(** [call_dispatch] *)
Definition socket_option (level optname : Z) : option (SockOption * Conv) :=
  if level =? SOL_SOCKET then
    match optname with
    | 2 => Some (ReuseAddress, CIntBool)
    | 4 => Some (SockError, CRaw)
    | 5 => Some (DontRoute, CIntBool)
    | 7 => Some (SendBuffer, CInt usize_max)
    | 8 => Some (ReceiveBuffer, CInt usize_max)
    | 9 => Some (KeepAlive, CIntBool)
    | 20 => Some (ReceiveTimeout, CDuration)
    | 21 => Some (SendTimeout, CDuration)
    | 16 => Some (PassCredentials, CIntBool)
    | 17 => Some (PeerCredentials, CUcred)
    | _ => None
    end
  else if level =? IPPROTO_TCP then
    match optname with
    | 1 => Some (NoDelay, CIntBool)
    | 2 => Some (MaxSegment, CInt usize_max)
    | 11 => Some (TcpInfo, CRaw)
    | _ => None
    end
  else if level =? IPPROTO_IP then
    match optname with 2 => Some (Ttl, CInt u8_max) | _ => None end
  else None.

(** The inner [get] of [sys_getsockopt]: the length is replaced before the
    pointer to the value is checked. *)
Definition getsockopt_get (optval optlen : Z) (c : Conv) (size : nat) : M S unit :=
  l ← get_mut 4 optlen 4;
  if le_val l <? Z.of_nat size then failM InvalidInput
  else
    on_vm (ub_put optlen (le_bytes 4 (Z.of_nat size)));;
    get_mut (conv_align c) optval size;;
    mret tt.

Definition sys_getsockopt (fd level optname optval optlen : Z) : M S Z :=
  get_mut 4 optlen 4;;
  sock ← Socket_from_fd fd;
  match socket_option level optname with
  | None => failM (Linux ENOPROTOOPT)
  | Some (o, c) =>
      let size := conv_size c (nt_raw_size o) in
      match c with
      | CRaw =>
          getsockopt_get optval optlen c size;;
          val ← on_net (nt_get_option sock o);
          l ← liftR (rust_to_sys c val);
          on_vm (ub_put optval l);;
          mret 0
      | _ =>
          val ← on_net (nt_get_option sock o);
          l ← liftR (rust_to_sys c val);
          getsockopt_get optval optlen c size;;
          on_vm (ub_put optval l);;
          mret 0
      end
  end.

Definition sys_setsockopt (fd level optname optval optlen : Z) : M S Z :=
  sock ← Socket_from_fd fd;
  match socket_option level optname with
  | None => failM (Linux ENOPROTOOPT)
  | Some (o, c) =>
      let size := conv_size c (nt_raw_size o) in
      if negb (optlen =? Z.of_nat size) then failM InvalidInput
      else
        l ← get_ref (conv_align c) optval size;
        val ← liftR (sys_to_rust c l);
        on_net (nt_set_option sock o val);;
        mret 0
  end.

(** ** Sending, [io.rs] *)

(** The flags of the caller are not passed on. *)
Definition send_impl (fd : Z) (src : Buffers) (addr addrlen : Z) (cmsg : list (list Z)) : M S Z :=
  addr ← (if (addr =? 0) || (addrlen =? 0) then mret None else a ← load_addr addr addrlen; mret (Some a));
  sock ← Socket_from_fd fd;
  sent ← on_both (nt_send sock src (mkSendOptions addr cmsg));
  mret (as_i64 sent).
Definition sys_sendto (fd buf len flags addr addrlen : Z) : M S Z := send_impl fd (OneBuffer buf len) addr addrlen [].

(** [msghdr], 56 bytes *)
Record msghdr := mkMsghdr {
  msg_name : Z; msg_namelen : Z; msg_iov : Z; msg_iovlen : Z; msg_control : Z; msg_controllen : Z;
}.
Definition MSGHDR : nat := 56.
Definition read_msghdr (l : bytes) : msghdr :=
  let field (off n : Z) := le_val (take (Z.to_nat n) (drop (Z.to_nat off) l)) in
  mkMsghdr (field 0 8) (field 8 4) (field 16 8) (field 24 8) (field 32 8) (field 40 8).

(** [IoVectorBuf::new(iov, iovlen)?.into_io()] *)
Definition iov_at (v : V) (iov : Z) (i : nat) : res IoVec := vm_read v (add_u64 iov (16 * Z.of_nat i)).
Definition open_vector (iov iovlen : Z) : M S Buffers :=
  s ← getM;
  b ← liftR (IoVectorBuf_new (iov_at (n_vm s) iov) (Z.to_nat iovlen));
  mret (Vector iov (into_io b)).

(** The rounds [sendmsg_control_walk] shows to be enough *)
Definition sendmsg_cmsgs (msg : msghdr) : M S (list (list Z)) := λ s,
  if msg_control msg =? 0 then (Ok [], s)
  else
    let ptr_end := add_u64 (msg_control msg) (msg_controllen msg) in
    let get_file fd := (get_file_like fd (n_fd s)).1 in
    (default Panic (sendmsg_control get_file (Datatypes.S (Z.to_nat (msg_controllen msg / 16))) (n_vm s)
       (msg_control msg) ptr_end []), s).
Definition sys_sendmsg (fd msg flags : Z) : M S Z :=
  l ← get_ref 8 msg MSGHDR;
  let msg := read_msghdr l in
  cmsg ← sendmsg_cmsgs msg;
  src ← open_vector (msg_iov msg) (msg_iovlen msg);
  send_impl fd src (msg_name msg) (msg_namelen msg) cmsg.

(** ** Receiving, [io.rs] and [cmsg.rs] *)

(** [CMsgBuilder]: [cb_hdr] and [cb_len] are addresses in user memory. *)
Record CMsgBuilder := mkBuilder { cb_hdr : Z; cb_len : Z; cb_capacity : Z }.
Definition CMsgBuilder_new (msg len : Z) : M S CMsgBuilder :=
  l ← get_ref 8 len 8;
  on_vm (ub_put len (le_bytes 8 0));;
  mret (mkBuilder msg len (le_val l)).

(** [body] gets the address and the size of the room for the data, writes
    there and tells how much. *)
Definition CMsgBuilder_push (level ty : Z) (body : Z → nat → M S Z) (b : CMsgBuilder) : M S (bool * CMsgBuilder) :=
  l ← get_ref 8 (cb_len b) 8;
  let room := sub_u64 (cb_capacity b) (le_val l) in
  if room <? Z.of_nat CMSG_HDR then mret (false, b)
  else
    let body_capacity := Z.to_nat (room - Z.of_nat CMSG_HDR) in
    get_mut 8 (cb_hdr b) CMSG_HDR;;
    on_vm (ub_put (cb_hdr b + 8) (le_bytes 4 level ++ le_bytes 4 ty));;
    let data := cb_hdr b + Z.of_nat CMSG_HDR in
    get_mut 1 data body_capacity;;
    body_len ← body data body_capacity;
    let cmsg_len := Z.of_nat CMSG_HDR + body_len in
    on_vm (ub_put (cb_hdr b) (le_bytes 8 cmsg_len));;
    l ← get_ref 8 (cb_len b) 8;
    on_vm (ub_put (cb_len b) (le_bytes 8 (add_u64 (le_val l) cmsg_len)));;
    mret (true, mkBuilder (add_u64 (cb_hdr b) cmsg_len) (cb_len b) (cb_capacity b)).

(** The body of [SCM_RIGHTS]: the files without room are dropped. *)
Fixpoint rights_body (fds : list Z) (data : Z) (room : nat) (written : Z) : M S Z :=
  match fds with
  | [] => mret written
  | f :: fds =>
      if (room <? 4)%nat then mret written
      else
        s ← getM;
        fd ← on_fds (add_file_like (n_max_nofile s) f false);
        on_vm (ub_put data (le_bytes 4 (as_u32 fd)));;
        rights_body fds (data + 4) (room - 4) (written + 4)
  end.

Fixpoint push_cmsgs (cmsg : list (option (list Z))) (b : CMsgBuilder) : M S unit :=
  match cmsg with
  | [] => mret tt
  | None :: cmsg => push_cmsgs cmsg b
  | Some fds :: cmsg =>
      r ← CMsgBuilder_push SOL_SOCKET SCM_RIGHTS (λ data room, rights_body fds data room 0) b;
      if r.1 : bool then push_cmsgs cmsg r.2 else mret tt
  end.

Definition UNSPECIFIED : SocketAddrEx := IpV4 (mkV4 0 0).
Definition recv_impl (fd : Z) (dst : Buffers) (flags addr addrlen : Z) (builder : option CMsgBuilder) : M S Z :=
  sock ← Socket_from_fd fd;
  let recv_flags := mkRecvFlags (any_bit flags MSG_PEEK) (any_bit flags MSG_TRUNC) in
  let remote_addr := if addr =? 0 then None else Some UNSPECIFIED in
  r ← on_both (nt_recv sock dst (negb (addr =? 0)) recv_flags);
  let '(recv, from, cmsg) := r in
  match remote_addr with Some a => store_addr (default a from) addr addrlen | None => mret tt end;;
  match builder with Some b => push_cmsgs cmsg b | None => mret tt end;;
  mret (as_i64 recv).
Definition sys_recvfrom (fd buf len flags addr addrlen : Z) : M S Z :=
  recv_impl fd (OneBuffer buf len) flags addr addrlen None.
Definition sys_recvmsg (fd msg flags : Z) : M S Z :=
  l ← get_mut 8 msg MSGHDR;
  let m := read_msghdr l in
  dst ← open_vector (msg_iov m) (msg_iovlen m);
  builder ← (if msg_control m =? 0 then mret None
             else b ← CMsgBuilder_new (msg_control m) (msg + 40); mret (Some b));
  recv_impl fd dst flags (msg_name m) (msg + 8) builder.

(** ** Options read back *)

(** What an option's bytes become: a boolean is 0 or 1. *)
Definition normalised (c : Conv) (l : bytes) : bytes :=
  match c with CIntBool => le_bytes 4 (if as_i32 (le_val l) =? 0 then 0 else 1) | _ => l end.

Lemma le_part l (k n : nat) : Forall is_byte l → (k + n ≤ length l)%nat →
  le_bytes n (le_val (take n (drop k l))) = take n (drop k l).
Proof.
  intros Hl Hn. replace n with (length (take n (drop k l))) at 1 by (rewrite length_take, length_drop; lia).
  by apply le_bytes_val, Forall_take, Forall_drop.
Qed.

(** A pattern read as a signed number that is not negative is that number. *)
Lemma wraps_nonneg w z : 0 ≤ z < 2 ^ w → 0 ≤ wraps w z → wraps w z = z.
Proof. intros Hz. unfold wraps. rewrite Z.mod_small by done. destruct (z <? 2 ^ (w - 1)); lia. Qed.
Lemma wraps_below w z : 0 < w → wraps w z < 2 ^ (w - 1).
Proof.
  intros Hw. unfold wraps. pose proof (Z.mod_pos_bound z (2 ^ w) ltac:(apply Z.pow_pos_nonneg; lia)).
  assert (2 ^ w = 2 * 2 ^ (w - 1)) by (rewrite <- Z.pow_succ_r by lia; f_equal; lia).
  destruct (Z.ltb_spec (z mod 2 ^ w) (2 ^ (w - 1))); lia.
Qed.

Lemma timeval_bytes l d : Forall is_byte l → length l = 16%nat →
  try_into_time_value (mkTimeval (as_i64 (le_val (take 8 l))) (as_i64 (le_val (drop 8 l)))) = Ok d →
  let t := from_time_value (T := timeval) d in
  le_bytes 8 (as_u64 (tv_sec t)) ++ le_bytes 8 (as_u64 (tv_usec t)) = l.
Proof.
  intros Hl Hlen Hd. pose proof (le_val_range _ (Forall_take _ 8 _ Hl)) as Ha.
  pose proof (le_val_range _ (Forall_drop _ 8 _ Hl)) as Hb.
  replace (zlen (take 8 l)) with 8 in Ha by (unfold zlen; rewrite length_take; lia).
  replace (zlen (drop 8 l)) with 8 in Hb by (unfold zlen; rewrite length_drop; lia).
  set (s := le_val (take 8 l)) in *. set (u := le_val (drop 8 l)) in *.
  assert (as_i64 s < 2 ^ 63) as Hs by (by apply (wraps_below 64)).
  pose proof (proj2 (proj2 time_conversions) _ (as_i64 u) Hs) as Hc. rewrite Hd in Hc. destruct Hc as (Hs0 & Hu0 & _ & ->).
  cbn [tv_sec tv_usec]. unfold as_i64 in *. rewrite (wraps_nonneg 64 s), (wraps_nonneg 64 u) in * by lia.
  rewrite !as_u64_small by (unfold in_u64; lia). unfold s, u.
  pose proof (le_part l 0 8 Hl ltac:(lia)) as E1. rewrite drop_0 in E1. rewrite E1.
  pose proof (le_part l 8 8 Hl ltac:(lia)) as E2. rewrite (take_ge (drop 8 l)) in E2 by (rewrite length_drop; lia).
  rewrite E2. apply take_drop.
Qed.

Lemma conv_roundtrip c raw l val : Forall is_byte l → length l = conv_size c raw →
  sys_to_rust c l = Ok val → rust_to_sys c val = Ok (normalised c l).
Proof.
  intros Hl Hlen. destruct c as [| |max| |]; cbn [sys_to_rust conv_size] in *.
  - by intros [= <-].
  - intros [= <-]. cbn. by destruct (_ =? 0).
  - destruct (Z.leb_spec 0 (as_i32 (le_val l))); [|done]. destruct (_ <=? max); [|done]. intros [= <-]. cbn [rust_to_sys normalised].
    pose proof (le_val_range _ Hl) as Hr. unfold zlen in Hr. rewrite Hlen in Hr.
    rewrite (proj2 (Z.ltb_lt _ _)) by (by apply (wraps_below 32)). unfold as_i32 in *.
    rewrite wraps_nonneg by (cbn in *; lia). by rewrite <- Hlen, le_bytes_val.
  - destruct (try_into_time_value _) as [d|e|] eqn:Hd; [|done..]. intros [= <-]. cbn [rust_to_sys normalised].
    f_equal. by apply (timeval_bytes l d).
  - intros [= <-]. cbn [rust_to_sys normalised]. f_equal.
    pose proof (le_part l 0 4 Hl ltac:(lia)) as E1. rewrite drop_0 in E1. rewrite E1, (le_part l 4 4) by (done || lia).
    pose proof (le_part l 8 4 Hl ltac:(lia)) as E2. rewrite (take_ge (drop 8 l)) in E2 by (rewrite length_drop; lia).
    rewrite E2. rewrite <- (take_drop 4 l) at 4. f_equal. rewrite <- (take_drop 4 (drop 4 l)) at 2. by rewrite drop_drop.
Qed.

(** The socket stack keeps an option it has been given. *)
Definition keeps_option (sock : Z) (o : SockOption) (val : OptVal) : Prop :=
  ∀ w w', nt_set_option sock o val w = (Ok tt, w') → ∃ w'', nt_get_option sock o w' = (Ok val, w'').

(** The lookup does not change the state and depends on the files only. *)
Lemma Socket_from_fd_pure fd (s s' : S) sock : n_fd s' = n_fd s →
  Socket_from_fd fd s = (Ok sock, s) → Socket_from_fd fd s' = (Ok sock, s').
Proof.
  intros Hfd. unfold Socket_from_fd, on_fds, get_file_like. unfold_m. rewrite Hfd.
  destruct (ok_or _ _); [|done..]. cbn. destruct (default _ _); [|done].
  intros [= -> _]. by destruct s'; cbn in *; subst.
Qed.

(** The value and its length are stored where both places can be written. *)
Lemma getsockopt_get_ok optval optlen c size n x (s : S) :
  ub_get_mut (n_vm s) 4 optlen 4 = Ok n → Z.of_nat size ≤ le_val n →
  ub_get_mut (n_vm s) (conv_align c) optval size = Ok x →
  ∃ v y, getsockopt_get optval optlen c size s = (Ok tt, s <| n_vm := v |>)
    ∧ ub_get_mut v (conv_align c) optval size = Ok y.
Proof.
  intros Hn Hsize Hx. unfold getsockopt_get, get_mut, on_vm. unfold_m. rewrite Hn.
  rewrite (proj2 (Z.ltb_ge _ _)) by done.
  pose proof (ub_put_mut _ _ _ _ _ (le_bytes 4 (Z.of_nat size)) Hn ltac:(by rewrite le_bytes_length)) as Hput.
  destruct (ub_put optlen _ (n_vm s)) as [r v] eqn:Hp. cbn in Hput. subst r.
  destruct (ub_put_keeps_mut _ _ _ _ _ _ _ _ _ Hp Hx) as [y Hy]. exists v, y. cbn. by rewrite Hy.
Qed.

Lemma getsockopt_ok fd level optname o c sock out outlen val l w n x (s : S) :
  socket_option level optname = Some (o, c) → c ≠ CRaw → Socket_from_fd fd s = (Ok sock, s) →
  nt_get_option sock o (n_net s) = (Ok val, w) → rust_to_sys c val = Ok l →
  let size := conv_size c (nt_raw_size o) in length l = size →
  ub_get_mut (n_vm s) 4 outlen 4 = Ok n → Z.of_nat size ≤ le_val n → ub_get_mut (n_vm s) (conv_align c) out size = Ok x →
  ∃ s' v, sys_getsockopt fd level optname out outlen s = (Ok 0, s') ∧ ub_put out l v = (Ok tt, n_vm s').
Proof.
  intros Ho Hc Hsock Hget Hl size Hlen Hn Hsize Hx.
  destruct (getsockopt_get_ok out outlen c size n x (s <| n_net := w |>)) as (v & y & Hg & Hy); [done..|].
  pose proof (ub_put_mut _ _ _ _ _ l Hy ltac:(lia)) as Hput.
  destruct (ub_put out l v) as [r v'] eqn:Hp. cbn in Hput. subst r.
  exists (s <| n_net := w |> <| n_vm := v' |>), v. split; [|done].
  unfold sys_getsockopt, get_mut at 1. unfold_m. rewrite Hn, Hsock, Ho. unfold on_net.
  destruct c; [done|..]; unfold_m; rewrite Hget, Hl; fold size; rewrite Hg; unfold on_vm; cbn -[le_bytes];
    by rewrite Hp.
Qed.

Lemma sys_to_rust_refuses c l : match sys_to_rust c l with Ok _ => True | Err e => e = InvalidInput | Panic => False end.
Proof.
  destruct c; cbn [sys_to_rust]; try done; [by destruct (_ && _)|].
  cbn. by destruct (_ || _ || _).
Qed.

(** C40: An option that [setsockopt] gives a socket is what [getsockopt] reads
    from it, byte by byte but for booleans, which become 0 or 1.  A length that
    is not the option's or a value outside of its type is refused with
    [InvalidInput] and does not reach the socket. *)
Theorem sockopt_roundtrip `{!UserBytesOk V} fd level optname o c sock optval optlen l (s : S) :
  socket_option level optname = Some (o, c) → c ≠ CRaw → Socket_from_fd fd s = (Ok sock, s) →
  let size := conv_size c (nt_raw_size o) in
  ub_get (n_vm s) (conv_align c) optval size = Ok l → Forall is_byte l → length l = size →
  match (if optlen =? Z.of_nat size then sys_to_rust c l else Err InvalidInput) with
  | Ok val => ∀ w, nt_set_option sock o val (n_net s) = (Ok tt, w) →
      let s1 := s <| n_net := w |> in
      sys_setsockopt fd level optname optval optlen s = (Ok 0, s1)
      ∧ ∀ out outlen n x, keeps_option sock o val →
          ub_get_mut (n_vm s1) 4 outlen 4 = Ok n → Z.of_nat size ≤ le_val n →
          ub_get_mut (n_vm s1) (conv_align c) out size = Ok x →
          ∃ s2, sys_getsockopt fd level optname out outlen s1 = (Ok 0, s2)
            ∧ ub_get (n_vm s2) 1 out size = Ok (normalised c l)
  | Err e => e = InvalidInput ∧ sys_setsockopt fd level optname optval optlen s = (Err InvalidInput, s)
  | Panic => False
  end.
Proof.
  intros Ho Hc Hsock size Hl Hb Hlen.
  pose proof (sys_to_rust_refuses c l) as Hr. unfold sys_setsockopt. unfold_m. rewrite Hsock, Ho. fold size.
  destruct (Z.eqb_spec optlen (Z.of_nat size)) as [->|Hne]; cbn [negb]; [|done].
  unfold get_ref. rewrite Hl. destruct (sys_to_rust c l) as [val|e|] eqn:Hval; [|by subst|done].
  intros w Hset. set (s1 := s <| n_net := w |>). unfold on_net. rewrite Hset. split; [done|]. intros out outlen n x Hkeep Hn Hsize Hx.
  destruct (Hkeep _ _ Hset) as [w' Hget]. pose proof (conv_roundtrip c _ l val Hb Hlen Hval) as Hback.
  assert (length (normalised c l) = size) as Hnorm by (destruct c; done || apply le_bytes_length).
  destruct (getsockopt_ok fd level optname o c sock out outlen val (normalised c l) w' n x s1 Ho Hc) as (s2 & v & Hs2 & Hp); try done.
  { by apply (Socket_from_fd_pure fd s). }
  exists s2. split; [done|]. rewrite <- Hnorm. by eapply ub_put_ok.
Qed.
End Sockets.

(** ** A network stack

    Sockets that only have options *)

#[export] Instance SockOption_eq : EqDecision SockOption.
Proof. solve_decision. Defined.
Definition options := Z → SockOption → option OptVal.
Definition set_opt (sock : Z) (o : SockOption) (val : OptVal) (w : options) : options := λ s o',
  if decide (s = sock ∧ o' = o) then Some val else w s o'.
Definition unsupported {W A} : M W A := failM Unsupported.
#[export] Instance options_net {V} : AxNet options V := {
  nt_new _ _ := mret 7; nt_new_pair _ _ := mret (7, 8);
  nt_bind _ _ := unsupported; nt_connect _ _ := unsupported; nt_listen _ := unsupported; nt_accept _ := unsupported;
  nt_shutdown _ _ := unsupported; nt_local_addr _ := unsupported; nt_peer_addr _ := unsupported;
  nt_set_option sock o val := modifyM (set_opt sock o val);
  nt_get_option sock o := w ← getM; liftR (ok_or Unsupported (w sock o));
  nt_send _ _ _ := unsupported; nt_recv _ _ _ _ := unsupported;
  nt_raw_size _ := 4%nat;
}.
#[export] Instance bmem_iovec : VmPtr bmem IoVec := {
  vm_read v p := l ← ub_get v 8 p 16; Ok (mkIoVec (le_val (take 8 l)) (as_i64 (le_val (drop 8 l))));
  vm_write p x := ub_put p (le_bytes 8 (iov_base x) ++ le_bytes 8 (as_u64 (iov_len x)));
}.

(** A socket behind descriptor 3; 5 at address 0x1000, a length of 4 at 0x2000 *)
Definition one_socket : NetSt options bmem table :=
  mkNetSt (λ _ _, None) (ub_put 0x2000 (le_bytes 4 4) (ub_put 0x1000 (le_bytes 4 5) no_mem).2).2
    (mkFdState {[3 := mkFd 20 false]} {[20 := FSocket 7]}) 1024 1.

(** [SO_KEEPALIVE] set to 5 is read as 1. *)
Lemma sockopt_roundtrip_witness : ∃ s1 s2,
  sys_setsockopt 3 SOL_SOCKET 9 0x1000 4 one_socket = (Ok 0, s1)
  ∧ sys_getsockopt 3 SOL_SOCKET 9 0x3000 0x2000 s1 = (Ok 0, s2) ∧ ub_get (n_vm s2) 1 0x3000 4 = Ok [1; 0; 0; 0].
Proof.
  pose proof (sockopt_roundtrip 3 SOL_SOCKET 9 KeepAlive CIntBool 7 0x1000 4 (le_bytes 4 5) one_socket
    eq_refl ltac:(done) eq_refl eq_refl ltac:(by repeat constructor) eq_refl) as Hrt.
  change (4 =? _) with true in Hrt. change (sys_to_rust CIntBool (le_bytes 4 5)) with (Ok (OBool true)) in Hrt.
  destruct (Hrt _ eq_refl) as [Hset Hget]. eexists. 
  destruct (Hget 0x3000 0x2000 (le_bytes 4 4) (le_bytes 4 0)) as (s2 & Hs2 & Hout); [..|by exists s2].
  - intros w w' [= <-]. exists (set_opt 7 KeepAlive (OBool true) w). done.
  - done.
  - done.
  - done.
Defined.

(** [socketpair] with an address that cannot be written keeps both descriptors
    in the table. *)
Example socketpair_leaks :
  let r := sys_socketpair AF_UNIX SOCK_STREAM 0 0x1001 one_socket in
  r.1 = Err BadAddress ∧ size (fs_table (n_fd r.2)) = 3%nat.
Proof. by vm_compute. Qed.
