(* ===== verification/Proc.v ===== *)
(** * Process files

    [api/src/vfs/proc.rs]: the files of [/proc] that can be written
    ([oom_score_adj] and [comm]), the command line, and the directories of
    tasks and threads.  The files are closures behind [SimpleFile]
    ([core/src/vfs/file.rs]), the tasks are those of the process tables.  Texts
    are lists of bytes. *)

From S2P Require Import Prelude Bytes Text SimpleVfs Process.
Open Scope Z_scope.

(** ** The files of a thread *)

Record TaskInfo := mkTaskInfo { oom_score_adj : Z; task_name : text; cmdline : list text }.
#[export] Instance eta_TaskInfo : Eta TaskInfo := λ t, mkTaskInfo (oom_score_adj t) (task_name t) (cmdline t).

Section Files.
Definition oom_score_adj_file (req : SimpleFileOperation) : M TaskInfo (option text) :=
  match req with
  | FileRead => t ← getM; mret (Some (print_i32 (oom_score_adj t)))
  | FileWrite [] => mret None
  | FileWrite data =>
      v ← liftR (ok_or InvalidInput (if utf8 data then parse_i32 data else None));
      modifyM (λ t, t <| oom_score_adj := v |>);; mret None
  end.

(** Sixteen bytes: the name, cut to fifteen, a newline, zeros *)
Definition comm_text (name : text) : text :=
  let n := take 15 name in n ++ [chr_newline] ++ replicate (15 - length n) 0.

Fixpoint before_nul (l : text) : text :=
  match l with [] => [] | c :: l => if c =? 0 then [] else c :: before_nul l end.

Definition comm_file (req : SimpleFileOperation) : M TaskInfo (option text) :=
  match req with
  | FileRead => t ← getM; mret (Some (comm_text (task_name t)))
  | FileWrite [] => mret None
  | FileWrite data =>
      let name := before_nul (take 15 data) in
      if utf8 name then modifyM (λ t, t <| task_name := name |>);; mret None else failM InvalidInput
  end.

Definition cmdline_file : M TaskInfo text := t ← getM; mret (concat ((λ a, a ++ [0]) <$> cmdline t)).
End Files.

(** ** The directories *)

Section Dirs.
Context {T G V : Type} `{ProcTree T} (cur_tid : Z).
Abbreviation S := (Sys T G V).

Definition name_self : text := [115; 101; 108; 102].

(** [/proc]: a directory per task, and [self] *)
Definition proc_child_names (s : S) : list text := (print_u <$> tasks s) ++ [name_self].
Definition proc_lookup_child (name : text) (s : S) : res Z :=
  if bool_decide (name = name_self) then Ok cur_tid
  else
    tid ← ok_or NotFound (parse_u32 name);
    match get_task cur_tid tid s with Ok t => Ok t | Panic => Panic | Err _ => Err NotFound end.

(** [/proc/<pid>/task]; [process] is the process, if it still exists. *)
Definition task_child_names (process : option Z) (s : S) : list text :=
  match process with Some p => print_u <$> pt_threads (tree s) p | None => [] end.
Definition task_lookup_child (process : option Z) (name : text) (s : S) : res Z :=
  p ← ok_or NotFound process;
  tid ← ok_or NotFound (parse_u32 name);
  task ← match get_task cur_tid tid s with Ok t => Ok t | Panic => Panic | Err _ => Err NotFound end;
  pid ← unwrap (mjoin (live_tasks s !! task));
  if negb (pid =? p) then Err NotFound else Ok task.
End Dirs.

Section OomScore.
#[local] Instance oom_ops : SimpleFileOps TaskInfo := RwFile oom_score_adj_file.

Lemma oom_write_all d (t : TaskInfo) : ascii d → d ≠ [] →
  write_all d t = match parse_i32 d with
                  | Some v => (Ok tt, t <| oom_score_adj := v |>)
                  | None => (Err InvalidInput, t)
                  end.
Proof.
  intros Ha Hd. cbn [write_all oom_ops RwFile oom_score_adj_file]. destruct d as [|c d]; [done|].
  rewrite (utf8_ascii _ Ha). unfold_m. by destruct (parse_i32 (c :: d)).
Qed.

(** [oom_score_adj].  A value is read as its decimal text, and the text of
    any 32-bit value written through the file at its beginning sets that
    value, if the text is at least as long as that of the old value.  Otherwise
    the end of the old text stays: the value is the number the two make
    together, or the write fails with [InvalidInput]. *)
Lemma oom_score_adj_write v (t : TaskInfo) :
  in_i32 v → in_i32 (oom_score_adj t) →
  let old := print_i32 (oom_score_adj t) in
  let new := print_i32 v in
  (∀ n, SimpleFile_read_at n 0 t = (Ok (take n old), t))
  ∧ SimpleFile_write_at new 0 t =
      (if (length old <=? length new)%nat then (Ok (zlen new), t <| oom_score_adj := v |>)
       else match parse_i32 (new ++ drop (length new) old) with
            | Some w => (Ok (zlen new), t <| oom_score_adj := w |>)
            | None => (Err InvalidInput, t)
            end).
Proof.
  intros Hv Hu old new.
  pose proof (print_i32_length v : 0 < length new ≤ 21)%nat as Hnew.
  pose proof (print_i32_length (oom_score_adj t) : 0 < length old ≤ 21)%nat as Hold.
  assert (Hn : new ≠ []) by (intros E; rewrite E in Hnew; cbn in Hnew; lia).
  assert (Hread : read_all t = (Ok old, t)) by done. split.
  - intros n. unfold SimpleFile_read_at. rewrite (bind_ok _ _ _ _ _ Hread).
    destruct (Z.leb_spec (zlen old) 0) as [Hz|]; [unfold zlen in Hz; lia|].
    rewrite drop_0. unfold mret, M_ret. do 2 f_equal. rewrite Nat.min_comm, <- take_take. by rewrite (take_ge old).
  - unfold SimpleFile_write_at. rewrite (bind_ok _ _ _ _ _ Hread). unfold zlen.
    destruct (Nat.leb_spec (length old) (length new)) as [Hle|Hgt].
    + rewrite (proj2 (Z.leb_le _ _)) by lia. cbn [Z.eqb andb].
      rewrite (bind_ok _ _ t tt (t <| oom_score_adj := v |>)); [done|].
      rewrite oom_write_all by (apply print_i32_ascii || done). unfold new. by rewrite parse_print_i32.
    + rewrite (proj2 (Z.leb_gt _ _)), andb_false_r by lia. unfold add_u64. rewrite as_u64_small by (unfold in_u64; lia).
      rewrite Z.gtb_ltb, (proj2 (Z.ltb_ge _ _)) by lia. unfold mbind at 1, M_bind at 1, mret at 1, M_ret at 1.
      change (0 + Z.of_nat (length new)) with (Z.of_nat 0 + zlen new). change 0 with (Z.of_nat 0) at 1.
      rewrite copy_slice_ok by (cbn; lia). rewrite take_0. cbn [app Nat.add]. unfold liftR. unfold mbind at 1, M_bind at 1.
      set (d := new ++ drop (length new) old). unfold mbind, M_bind.
      rewrite oom_write_all; [by destruct (parse_i32 d)| |by unfold d; intros [??]%app_nil].
      apply Forall_app. split; [apply print_i32_ascii|]. apply Forall_drop, print_i32_ascii.
Qed.
End OomScore.

Section Listing.
Context {T G V : Type} `{ProcTree T} (cur_tid : Z).
Implicit Types s : Sys T G V.

Lemma print_u_not_self z : 0 ≤ z < 10 ^ 20 → print_u z ≠ name_self.
Proof.
  intros Hz E. destruct (parse_print_u z Hz) as [_ (c & l & Hl & Hc)]. rewrite E in Hl. injection Hl as <- <-. done.
Qed.

Lemma tasks_found s tid : tid ∈ tasks s ↔ task_found s tid = true.
Proof.
  unfold tasks, task_found. rewrite list_elem_of_filter, elem_of_elements, andb_true_iff, !bool_decide_eq_true. tauto.
Qed.

(** The directory [/proc] is consistent: its names are different, [self] and
    the numbers of the tasks; the entry of a number is that task if and only if
    it is listed, and [NotFound] otherwise; [self] is the caller.  Only the
    number 0 has an entry that is not listed, the caller, too. *)
Lemma proc_lists_tasks s : (∀ tid, tid ∈ tasks s → in_u32 tid) →
  NoDup (proc_child_names s)
  ∧ proc_lookup_child cur_tid name_self s = Ok cur_tid
  ∧ proc_lookup_child cur_tid (print_u 0) s = Ok cur_tid
  ∧ ∀ tid, in_u32 tid → tid ≠ 0 →
      (print_u tid ∈ proc_child_names s ↔ tid ∈ tasks s)
      ∧ proc_lookup_child cur_tid (print_u tid) s = if bool_decide (tid ∈ tasks s) then Ok tid else Err NotFound.
Proof.
  intros Hu. assert (Hinj : ∀ a b, in_u32 a → in_u32 b → print_u a = print_u b → a = b).
  { intros a b Ha Hb E. apply (f_equal parse_u32) in E. rewrite !parse_print_u32 in E by done. congruence. }
  assert (Hself : ∀ a, in_u32 a → print_u a ≠ name_self) by (intros a Ha; apply print_u_not_self; unfold in_u32 in Ha; lia).
  split_and!; [| |done|].
  - unfold proc_child_names. apply NoDup_app. split_and!; [| |apply NoDup_singleton].
    + apply NoDup_fmap_2_strong; [|apply NoDup_filter, NoDup_elements]. intros a b Ha Hb. apply Hinj; by apply Hu.
    + intros x (a & Ex & Ha)%list_elem_of_fmap Es%list_elem_of_singleton. apply (Hself a (Hu a Ha)). congruence.
  - unfold proc_lookup_child. by rewrite bool_decide_eq_true_2.
  - intros tid Htid Hne. split.
    + unfold proc_child_names. rewrite elem_of_app, list_elem_of_fmap, list_elem_of_singleton. split.
      * intros [(a & E & Ha)|E]; [|by apply Hself in E]. apply Hinj in E as ->; [done|done|by apply Hu].
      * intros Hin. left. by exists tid.
    + unfold proc_lookup_child. rewrite (bool_decide_eq_false_2 (_ = name_self)) by by apply Hself.
      rewrite parse_print_u32 by done. cbn [ok_or]. unfold mbind, res_bind, get_task.
      rewrite (proj2 (Z.eqb_neq tid 0)) by done. destruct (task_found s tid) eqn:Hf.
      * by rewrite bool_decide_eq_true_2 by (by apply tasks_found).
      * rewrite bool_decide_eq_false_2; [done|]. rewrite tasks_found. congruence.
Qed.
End Listing.

(** ** Examples *)

Definition sh_task : TaskInfo := mkTaskInfo 100 [98; 97; 115; 104] [[98]; [45; 99]].

Example oom_score_adj_write_instance :
  SimpleFile_write_at (H := RwFile oom_score_adj_file) (print_i32 (-17)) 0 sh_task
  = (Ok 3, sh_task <| oom_score_adj := -17 |>).
Proof.
  refine (proj2 (oom_score_adj_write (-17) sh_task _ _)); unfold in_i32; cbn; lia.
Qed.

(** Writing 5 over 100 gives 500. *)
Example oom_score_adj_spliced :
  (SimpleFile_write_at (H := RwFile oom_score_adj_file) (print_i32 5) 0 sh_task).2
  = sh_task <| oom_score_adj := 500 |>.
Proof. by vm_compute. Qed.

(** Writing [ab] over the name [bash] gives [absh] and a newline: the text of
    the file always has sixteen bytes, and the write keeps the end of it. *)
Example comm_spliced :
  task_name (SimpleFile_write_at (H := RwFile comm_file) [97; 98] 0 sh_task).2 = [97; 98; 115; 104; 10].
Proof. by vm_compute. Qed.

Definition three_tasks : Sys ptree siglog (gmap Z Z) :=
  family_sys <| task_table := {[20; 30; 50]} |> <| live_tasks := {[20 := Some 2; 30 := Some 3]} |>.
Example proc_lists_tasks_instance :
  NoDup (proc_child_names three_tasks) ∧ proc_lookup_child 20 name_self three_tasks = Ok 20.
Proof.
  destruct (proc_lists_tasks 20 three_tasks) as (Hn & Hs & _).
  - assert (Ht : tasks three_tasks = [30; 20] ∨ tasks three_tasks = [20; 30]) by (by vm_compute; auto).
    intros tid Hin. assert (tid = 20 ∨ tid = 30) as [-> | ->] by (destruct Ht as [Ht|Ht]; rewrite Ht in Hin; set_solver);
      unfold in_u32; lia.
  - split; [exact Hn|exact Hs].
Qed.
