(* ===== verification/ProcFs.v ===== *)
(** * The files of [/proc]

    [core/src/task/stat.rs]: the line of [/proc/<pid>/stat]; the rest of
    [api/src/vfs/proc.rs]: the status file, the directories of a thread and of
    its descriptors, and the root directory.  The files that can be written and
    the directories of tasks are in [Proc]. *)

From S2P Require Import Prelude Bytes Text Vm Time SimpleVfs FdTable Process Proc.
Open Scope Z_scope.

Definition sp : Z := 32.
Definition lpar : Z := 40.
Definition rpar : Z := 41.

(** ** [/proc/<pid>/stat] *)

Record TaskStat := mkTaskStat {
  ts_pid : Z; ts_comm : text; ts_state : Z; ts_ppid : Z; ts_pgrp : Z; ts_session : Z; ts_tty_nr : Z;
  ts_tpgid : Z; ts_flags : Z; ts_minflt : Z; ts_cminflt : Z; ts_majflt : Z; ts_cmajflt : Z; ts_utime : Z;
  ts_stime : Z; ts_cutime : Z; ts_cstime : Z; ts_priority : Z; ts_nice : Z; ts_num_threads : Z;
  ts_itrealvalue : Z; ts_starttime : Z; ts_vsize : Z; ts_rss : Z; ts_rsslim : Z; ts_start_code : Z;
  ts_end_code : Z; ts_start_stack : Z; ts_kstk_esp : Z; ts_kstk_eip : Z; ts_signal : Z; ts_blocked : Z;
  ts_sigignore : Z; ts_sigcatch : Z; ts_wchan : Z; ts_nswap : Z; ts_cnswap : Z; ts_exit_signal : Z;
  ts_processor : Z; ts_rt_priority : Z; ts_policy : Z; ts_delayacct_blkio_ticks : Z; ts_guest_time : Z;
  ts_cguest_time : Z; ts_start_data : Z; ts_end_data : Z; ts_start_brk : Z; ts_arg_start : Z; ts_arg_end : Z;
  ts_env_start : Z; ts_env_end : Z; ts_exit_code : Z;
}.

Inductive TaskState := Running | Ready | Blocked | Exited.
Definition SIGCHLD : Z := 17.

(** What these files show of a thread besides its process: [exe_path] and
    [exit_signal] are fields of the process. *)
Record ThreadInfo := mkThreadInfo {
  th_tid : Z; th_pid : Z; th_state : TaskState; th_info : TaskInfo; th_exit_signal : option Z; th_exe : text;
}.

Section Stat.
Context {T G V : Type} `{ProcTree T}.
Abbreviation S := (Sys T G V).

(** [comm[..n]] panics inside a character. *)
Definition stat_comm (name : text) : res text :=
  str_prefix (length name `min` 16) name.

(** [TaskStat::from_thread]; the fields that are not named are 0. *)
Definition from_thread (s : S) (th : ThreadInfo) : res TaskStat :=
  let pid := th_pid th in
  comm ← stat_comm (task_name (th_info th));
  let state := match th_state th with Running | Ready => 82 | Blocked => 83 | Exited => 90 end in
  let ppid := default 0 (pt_parent (tree s) pid) in
  let pgrp := pt_pgid (tree s) (pt_group (tree s) pid) in
  let session := pt_sid (tree s) (pt_session (tree s) (pt_group (tree s) pid)) in
  let exit_signal := default SIGCHLD (th_exit_signal th) in
  Ok (mkTaskStat
        pid comm state ppid pgrp session 0 0 0 0 0 0 0 0 0 0 0 0 0
        (as_u32 (zlen (pt_threads (tree s) pid))) 0 0 0 0 0 0 0 0 0 0 0 0 0 0 0 0 0 exit_signal 0 0 0 0 0 0 0 0 0 0 0 0 0
        (pt_exit_code (tree s) pid)).
End Stat.

(** The numbers after the state, in the order of the file *)
Definition stat_numbers (t : TaskStat) : list Z :=
  [ts_ppid t; ts_pgrp t; ts_session t; ts_tty_nr t; ts_tpgid t; ts_flags t; ts_minflt t; ts_cminflt t;
   ts_majflt t; ts_cmajflt t; ts_utime t; ts_stime t; ts_cutime t; ts_cstime t; ts_priority t; ts_nice t;
   ts_num_threads t; ts_itrealvalue t; ts_starttime t; ts_vsize t; ts_rss t; ts_rsslim t; ts_start_code t;
   ts_end_code t; ts_start_stack t; ts_kstk_esp t; ts_kstk_eip t; ts_signal t; ts_blocked t; ts_sigignore t;
   ts_sigcatch t; ts_wchan t; ts_nswap t; ts_cnswap t; ts_exit_signal t; ts_processor t; ts_rt_priority t;
   ts_policy t; ts_delayacct_blkio_ticks t; ts_guest_time t; ts_cguest_time t; ts_start_data t; 
   ts_end_data t; ts_start_brk t; ts_arg_start t; ts_arg_end t; ts_env_start t; ts_env_end t; ts_exit_code t].
Definition fmt_stat (t : TaskStat) : text :=
  print_u (ts_pid t) ++ [sp; lpar] ++ ts_comm t ++ [rpar; sp; ts_state t]
  ++ concat ((λ n, sp :: print_i32 n) <$> stat_numbers t) ++ [chr_newline].

(** ** Status *)

Definition tab : text := [9].
Definition nl : text := [10].
Definition task_status (tgid pid : Z) : text :=
  str "Tgid:" ++ tab ++ print_u tgid ++ nl ++ str "Pid:" ++ tab ++ print_u pid ++ nl
  ++ str "Uid:" ++ tab ++ str "0 0 0 0" ++ nl ++ str "Gid:" ++ tab ++ str "0 0 0 0" ++ nl
  ++ str "Cpus_allowed:" ++ tab ++ str "1" ++ nl ++ str "Cpus_allowed_list:" ++ tab ++ str "0" ++ nl
  ++ str "Mems_allowed:" ++ tab ++ str "1" ++ nl ++ str "Mems_allowed_list:" ++ tab ++ str "0".

(** ** Constant files *)

Definition DUMMY_MEMINFO : text := str
  "MemTotal:       32536204 kB
MemFree:         5506524 kB
MemAvailable:   18768344 kB
Buffers:            3264 kB
Cached:         14454588 kB
SwapCached:            0 kB
Active:         18229700 kB
Inactive:        6540624 kB
Active(anon):   11380224 kB
Inactive(anon):        0 kB
Active(file):    6849476 kB
Inactive(file):  6540624 kB
Unevictable:      930088 kB
Mlocked:            1136 kB
SwapTotal:       4194300 kB
SwapFree:        4194300 kB
Zswap:                 0 kB
Zswapped:              0 kB
Dirty:             47952 kB
Writeback:             0 kB
AnonPages:      10992512 kB
Mapped:          1361184 kB
Shmem:           1068056 kB
KReclaimable:     341440 kB
Slab:             628996 kB
SReclaimable:     341440 kB
SUnreclaim:       287556 kB
KernelStack:       28704 kB
PageTables:        85308 kB
SecPageTables:      2084 kB
NFS_Unstable:          0 kB
Bounce:                0 kB
WritebackTmp:          0 kB
CommitLimit:    20462400 kB
Committed_AS:   45105316 kB
VmallocTotal:   34359738367 kB
VmallocUsed:      205924 kB
VmallocChunk:          0 kB
Percpu:            23840 kB
HardwareCorrupted:     0 kB
AnonHugePages:   1417216 kB
ShmemHugePages:        0 kB
ShmemPmdMapped:        0 kB
FileHugePages:    477184 kB
FilePmdMapped:    288768 kB
CmaTotal:              0 kB
CmaFree:               0 kB
Unaccepted:            0 kB
HugePages_Total:       0
HugePages_Free:        0
HugePages_Rsvd:        0
HugePages_Surp:        0
Hugepagesize:       2048 kB
Hugetlb:               0 kB
DirectMap4k:     1739900 kB
DirectMap2M:    31492096 kB
DirectMap1G:     1048576 kB
".
Definition DUMMY_MAPS : text := str
  "7f000000-7f001000 r--p 00000000 00:00 0          [vdso]
7f001000-7f003000 r-xp 00001000 00:00 0          [vdso]
7f003000-7f005000 r--p 00003000 00:00 0          [vdso]
7f005000-7f007000 rw-p 00005000 00:00 0          [vdso]
".
Definition PROC_MOUNTS : text := str
  "proc /proc proc rw,nosuid,nodev,noexec,relatime 0 0
".

(** ** Reading the line back

    A reader of the line cuts the name at the last parenthesis, since the name
    may itself have parentheses, spaces and newlines. *)

Fixpoint split_first (c : Z) (l : text) : option (text * text) :=
  match l with
  | [] => None
  | x :: l => if x =? c then Some ([], l) else '(a, b) ← split_first c l; Some (x :: a, b)
  end.
Fixpoint split_last (c : Z) (l : text) : option (text * text) :=
  match l with
  | [] => None
  | x :: l =>
      match split_last c l with
      | Some (a, b) => Some (x :: a, b)
      | None => if x =? c then Some ([], l) else None
      end
  end.
Fixpoint split_on (c : Z) (l : text) : list text :=
  match l with
  | [] => [[]]
  | x :: l =>
      if x =? c then [] :: split_on c l
      else match split_on c l with w :: ws => (x :: w) :: ws | [] => [[x]] end
  end.
Definition parse_int (l : text) : option Z :=
  match l with
  | c :: l' => if c =? chr_minus then Z.opp <$> parse_digits l' else parse_digits l
  | [] => None
  end.

(** Number, name, state and the numbers that follow *)
Definition parse_stat (line : text) : option (Z * text * Z * list Z) :=
  '(front, back) ← split_last rpar line;
  '(number, name) ← split_first lpar front;
  pid ← parse_digits (removelast number);
  match back with
  | _ :: state :: rest =>
      numbers ← mapM parse_int (tail (split_on sp (removelast rest)));
      Some (pid, name, state, numbers)
  | _ => None
  end.

Lemma split_first_app c a b : c ∉ a → split_first c (a ++ c :: b) = Some (a, b).
Proof.
  induction a as [|x a IH]; intros Ha; cbn; [by rewrite Z.eqb_refl|]. apply not_elem_of_cons in Ha as [Hx Ha].
  rewrite (proj2 (Z.eqb_neq x c)) by done. by rewrite IH.
Qed.
Lemma split_last_none c b : c ∉ b → split_last c b = None.
Proof.
  induction b as [|x b IH]; intros Hb; cbn; [done|]. apply not_elem_of_cons in Hb as [Hx Hb].
  rewrite IH by done. by rewrite (proj2 (Z.eqb_neq x c)).
Qed.
Lemma split_last_app c a b : c ∉ b → split_last c (a ++ c :: b) = Some (a, b).
Proof.
  intros Hb. induction a as [|x a IH]; cbn; [|by rewrite IH]. by rewrite split_last_none, Z.eqb_refl.
Qed.
Lemma split_on_word c w l : c ∉ w → split_on c (w ++ c :: l) = w :: split_on c l.
Proof.
  induction w as [|x w IH]; intros Hw; cbn; [by rewrite Z.eqb_refl|]. apply not_elem_of_cons in Hw as [Hx Hw].
  rewrite (proj2 (Z.eqb_neq x c)) by done. by rewrite IH.
Qed.
Lemma split_on_end c w : c ∉ w → split_on c w = [w].
Proof.
  induction w as [|x w IH]; intros Hw; cbn; [done|]. apply not_elem_of_cons in Hw as [Hx Hw].
  rewrite (proj2 (Z.eqb_neq x c)) by done. by rewrite IH.
Qed.
Lemma split_on_words c ws : ∀ w, c ∉ w → Forall (λ w, c ∉ w) ws → split_on c (w ++ concat ((λ w, c :: w) <$> ws)) = w :: ws.
Proof.
  induction ws as [|w' ws IH]; intros w Hw Hws; cbn; [by rewrite app_nil_r, split_on_end|].
  apply Forall_cons in Hws as [Hw' Hws]. rewrite split_on_word by done. by rewrite IH.
Qed.

(** The characters of a number *)
Lemma print_i32_chars n c : c ∈ print_i32 n → c = chr_minus ∨ is_digit c = true.
Proof.
  assert (Hu : ∀ z, c ∈ print_u z → is_digit c = true).
  { intros z Hc%list_elem_of_In. eapply (proj1 (forallb_forall _ _)); [|exact Hc]. by apply digits_are. }
  unfold print_i32. destruct (n <? 0); [|by eauto]. rewrite elem_of_cons. naive_solver.
Qed.
Lemma parse_print_int n : - 2 ^ 64 < n < 2 ^ 64 → parse_int (print_i32 n) = Some n.
Proof.
  intros Hn. unfold print_i32. destruct (Z.ltb_spec n 0).
  - destruct (parse_print_u (- n)) as [Hp _]; [lia|].
    change (Z.opp <$> parse_digits (print_u (- n)) = Some n). rewrite Hp. cbn. by rewrite Z.opp_involutive.
  - destruct (parse_print_u n) as [Hp (c & l & Hl & [Hm _]%digit_no_sign)]; [lia|]. unfold parse_int. rewrite Hl in *.
    by rewrite Hm.
Qed.

Lemma words_free c ws : c ≠ sp → Forall (λ w, c ∉ w) ws → c ∉ concat ((λ w, sp :: w) <$> ws).
Proof.
  intros Hc Hws. induction Hws as [|w ws Hw _ IH]; cbn; [set_solver|].
  apply not_elem_of_cons. split; [done|]. by apply not_elem_of_app.
Qed.

Lemma fmt_stat_parses t : in_u32 (ts_pid t) → ts_state t ≠ rpar → Forall (λ n, - 2 ^ 64 < n < 2 ^ 64) (stat_numbers t) →
  parse_stat (fmt_stat t) = Some (ts_pid t, ts_comm t, ts_state t, stat_numbers t).
Proof.
  intros Hpid Hst Hn. unfold in_u32 in Hpid.
  assert (Hchar : ∀ c n, is_digit c = false → c ≠ chr_minus → c ∉ print_i32 n).
  { intros c n Hd Hm Hc. apply print_i32_chars in Hc as [?|?]; congruence. }
  assert (Hpu : print_u (ts_pid t) = print_i32 (ts_pid t)).
  { unfold print_i32. by rewrite (proj2 (Z.ltb_ge (ts_pid t) 0)) by lia. }
  set (words := print_i32 <$> stat_numbers t).
  assert (Hwords : concat ((λ n, sp :: print_i32 n) <$> stat_numbers t) = concat ((λ w, sp :: w) <$> words)).
  { unfold words. by rewrite <- list_fmap_compose. }
  assert (Hfree : ∀ c, is_digit c = false → c ≠ chr_minus → Forall (λ w, c ∉ w) words).
  { intros c Hd Hm. apply Forall_fmap, Forall_forall. intros n _. by apply Hchar. }
  unfold parse_stat, fmt_stat. rewrite Hwords.
  replace (print_u (ts_pid t) ++ [sp; lpar] ++ ts_comm t ++ [rpar; sp; ts_state t] ++ concat ((λ w, sp :: w) <$> words) ++ [chr_newline])
    with ((print_u (ts_pid t) ++ [sp; lpar] ++ ts_comm t) ++ rpar :: [sp; ts_state t] ++ concat ((λ w, sp :: w) <$> words) ++ [chr_newline])
    by (by rewrite <- !app_assoc).
  rewrite split_last_app.
  2: { apply not_elem_of_app. split; [set_solver|]. apply not_elem_of_app.
       split; [apply words_free; [done|by apply Hfree]|set_solver]. }
  cbn [mbind option_bind].
  replace (print_u (ts_pid t) ++ [sp; lpar] ++ ts_comm t) with ((print_u (ts_pid t) ++ [sp]) ++ lpar :: ts_comm t)
    by (by rewrite <- !app_assoc).
  rewrite split_first_app.
  2: { rewrite Hpu. apply not_elem_of_app. split; [by apply Hchar|set_solver]. }
  cbn [mbind option_bind]. rewrite removelast_last, (proj1 (parse_print_u (ts_pid t) ltac:(lia))).
  cbn [mbind option_bind app]. rewrite removelast_last.
  assert (Hsplit : tail (split_on sp (concat ((λ w, sp :: w) <$> words))) = words).
  { change (concat ((λ w, sp :: w) <$> words)) with ([] ++ concat ((λ w, sp :: w) <$> words)).
    rewrite split_on_words; [done|set_solver|by apply Hfree]. }
  rewrite Hsplit. assert (Hnum : mapM parse_int words = Some (stat_numbers t)); [|by rewrite Hnum].
  unfold words. apply mapM_Some. apply Forall2_fmap_l, Forall_Forall2_diag.
  eapply Forall_impl; [exact Hn|]. intros n Hrange. by apply parse_print_int.
Qed.

(** C39: The line of [/proc/<pid>/stat] is unambiguous.  Whatever the name of the
    thread contains, a reader that cuts at the last parenthesis gets back the
    number of the process, the first sixteen bytes of the name, the state and
    the 49 numbers in their order: parent, group, session, number of threads,
    exit signal and exit code are those of the process, the others 0.  The
    line is refused only if the sixteenth byte of the name is inside a
    character, and then the kernel panics. *)
Theorem stat_line_roundtrip {T G V} `{ProcTree T} (s : Sys T G V) th :
  let pid := th_pid th in
  let numbers := [default 0 (pt_parent (tree s) pid); pt_pgid (tree s) (pt_group (tree s) pid);
    pt_sid (tree s) (pt_session (tree s) (pt_group (tree s) pid)); default SIGCHLD (th_exit_signal th)] in
  in_u32 pid → Forall in_u32 numbers → in_i32 (pt_exit_code (tree s) pid) →
  match from_thread s th with
  | Ok t =>
      parse_stat (fmt_stat t) = Some (pid, take 16 (task_name (th_info th)),
        match th_state th with Running | Ready => 82 | Blocked => 83 | Exited => 90 end, stat_numbers t)
      ∧ take 3 (stat_numbers t) = take 3 numbers
      ∧ stat_numbers t !! 16%nat = Some (as_u32 (zlen (pt_threads (tree s) pid)))
      ∧ stat_numbers t !! 34%nat = numbers !! 3%nat ∧ last (stat_numbers t) = Some (pt_exit_code (tree s) pid)
      ∧ ∀ i n, stat_numbers t !! i = Some n → i ∉ [0; 1; 2; 16; 34; 48]%nat → n = 0
  | Err _ => False
  | Panic => is_char_boundary (length (task_name (th_info th)) `min` 16) (task_name (th_info th)) = false
  end.
Proof.
  intros pid numbers Hpid Hnum Hcode. unfold from_thread, stat_comm, str_prefix.
  destruct (is_char_boundary _ _) eqn:Hb; [|done]. cbn [mbind res_bind]. set (t := mkTaskStat _ _ _ _ _ _ _ _ _ _ _ _ _ _
    _ _ _ _ _ _ _ _ _ _ _ _ _ _ _ _ _ _ _ _ _ _ _ _ _ _ _ _ _ _ _ _ _ _ _ _ _ _).
  assert (Hcomm : ts_comm t = take 16 (task_name (th_info th))).
  { unfold t. cbn [ts_comm]. destruct (Nat.le_ge_cases (length (task_name (th_info th))) 16).
    - by rewrite Nat.min_l, !take_ge by lia.
    - by rewrite Nat.min_r by lia. }
  split.
  - rewrite fmt_stat_parses; [by rewrite Hcomm|done|unfold t; cbn; by destruct (th_state th)|].
    unfold numbers in Hnum. rewrite !Forall_cons in Hnum. destruct Hnum as (H1 & H2 & H3 & H4 & _).
    pose proof (as_u32_in (zlen (pt_threads (tree s) pid))) as H5. unfold in_u32, in_i32 in *. unfold stat_numbers, t, pid in *. cbn -[Z.pow].
    repeat (apply Forall_cons; split; [lia|]). by apply Forall_nil.
  - split_and!; try done. unfold stat_numbers, t. cbn. intros i n Hi Hni.
    do 49 (destruct i as [|i]; [cbn in Hi; try (injection Hi as <-; reflexivity); set_solver|]). done.
Qed.

(** ** [/proc/<pid>/fd]

    [table] is the descriptor table of the task, if the task still exists;
    [path] is the path of a file.  An entry is a link to that path. *)
Section Fd.
Context {F : Type} `{FlattenObjects F} (path : Z → text).

Definition fd_child_names (table : option F) : list text :=
  match table with Some t => print_u <$> fo_ids t | None => [] end.
Definition fd_lookup_child (table : option F) (name : text) : res text :=
  t ← ok_or NotFound table;
  fd ← ok_or NotFound (parse_u32 name);
  d ← ok_or NotFound (fo_get fd t);
  Ok (path (fd_inner d)).

Lemma fd_dir_consistent `{!FlattenObjectsOk F} t fd : in_u32 fd →
  fd_lookup_child (Some t) (print_u fd) =
    (match fo_view t !! fd with Some d => Ok (path (fd_inner d)) | None => Err NotFound end)
  ∧ (print_u fd ∈ fd_child_names (Some t) ↔ fd_lookup_child (Some t) (print_u fd) ≠ Err NotFound).
Proof.
  intros Hfd. assert (Hl : fd_lookup_child (Some t) (print_u fd) =
    match fo_view t !! fd with Some d => Ok (path (fd_inner d)) | None => Err NotFound end).
  { unfold fd_lookup_child. cbn [ok_or mbind res_bind]. rewrite parse_print_u32 by done. cbn [ok_or mbind res_bind].
    rewrite fo_get_view. by destruct (fo_view t !! fd). }
  split; [done|]. rewrite Hl. unfold fd_child_names. rewrite list_elem_of_fmap. split.
  - intros (i & E & Hi%fo_ids_view). destruct Hi as [d Hd]. pose proof (fo_view_range t i d Hd) as Hr.
    apply (f_equal parse_u32) in E. rewrite (parse_print_u32 fd), (parse_print_u32 i) in E
      by (try done; unfold in_u32, AX_FILE_LIMIT in *; lia).
    injection E as ->. by rewrite Hd.
  - destruct (fo_view t !! fd) as [d|] eqn:Hd; [|done]. intros _. exists fd. split; [done|]. apply fo_ids_view. by eexists.
Qed.
End Fd.

(** ** [/proc/<pid>] *)

(** What an entry is: the closures of the files are [thread_read]. *)
Inductive ThreadNode :=
| TStat | TStatus | TOomScoreAdj | TTask | TMaps | TMounts | TCmdline | TComm | TExe | TFd.
Definition thread_child_names : list string :=
  ["stat"; "status"; "oom_score_adj"; "task"; "maps"; "mounts"; "cmdline"; "comm"; "exe"; "fd"]%string.
(** [alive]: the task still exists. *)
Definition thread_lookup_child (alive : bool) (name : string) : res ThreadNode :=
  if negb alive then Err NotFound
  else if String.eqb name "stat" then Ok TStat
  else if String.eqb name "status" then Ok TStatus
  else if String.eqb name "oom_score_adj" then Ok TOomScoreAdj
  else if String.eqb name "task" then Ok TTask
  else if String.eqb name "maps" then Ok TMaps
  else if String.eqb name "mounts" then Ok TMounts
  else if String.eqb name "cmdline" then Ok TCmdline
  else if String.eqb name "comm" then Ok TComm
  else if String.eqb name "exe" then Ok TExe
  else if String.eqb name "fd" then Ok TFd
  else Err NotFound.
Definition thread_dir (alive : bool) : SimpleDirOps ThreadNode :=
  mkSimpleDirOps thread_child_names (thread_lookup_child alive) false.

Lemma thread_dir_lists : lists_children (thread_dir true).
Proof.
  intros name. cbn [thread_dir child_names lookup_child]. unfold thread_lookup_child. cbn [negb].
  repeat match goal with
    | |- context [String.eqb name ?n] => destruct (String.eqb_spec name n) as [->|]; [split; [done|set_solver]|]
    end.
  split; [set_solver|done].
Qed.

Section ThreadFiles.
Context {T G V : Type} `{ProcTree T}.

(** The content of a file; directories have none. *)
Definition thread_read (s : Sys T G V) (th : ThreadInfo) (node : ThreadNode) : option (res text) :=
  match node with
  | TStat => Some (fmt_stat <$> from_thread s th)
  | TStatus => Some (Ok (task_status (th_pid th) (th_tid th)))
  | TOomScoreAdj => Some (fst (read_all (SimpleFileOps := RwFile oom_score_adj_file) (th_info th)))
  | TMaps => Some (Ok DUMMY_MAPS)
  | TMounts => Some (Ok PROC_MOUNTS)
  | TCmdline => Some (fst (cmdline_file (th_info th)))
  | TComm => Some (fst (read_all (SimpleFileOps := RwFile comm_file) (th_info th)))
  | TExe => Some (Ok (th_exe th))
  | TTask | TFd => None
  end.
End ThreadFiles.

(** ** The root of [/proc] *)

(** The files of the root: [meminfo2] prints the allocator, [instret] and
    [interrupts] counters, whose values are arguments. *)
Inductive RootNode := RText (content : text) | RSys | RKernel | RThread (tid : Z).

Section Root.
Context (usages instret irq_cnt : text).

Definition kernel_dir : DirMapping RootNode := DirMapping_add "pid_max" (RText (str "32768" ++ nl)) ∅.
Definition sys_dir : DirMapping RootNode := DirMapping_add "kernel" RKernel ∅.
Definition proc_root : DirMapping RootNode :=
  let root := DirMapping_add "mounts" (RText PROC_MOUNTS) ∅ in
  let root := DirMapping_add "meminfo" (RText DUMMY_MEMINFO) root in
  let root := DirMapping_add "meminfo2" (RText (usages ++ nl)) root in
  let root := DirMapping_add "instret" (RText (instret ++ nl)) root in
  let root := DirMapping_add "interrupts" (RText (str "0: " ++ irq_cnt)) root in
  DirMapping_add "sys" RSys root.

Definition string_of (l : text) : string :=
  String.string_of_list_ascii ((λ c, Ascii.ascii_of_nat (Z.to_nat c)) <$> l).

(** [ProcFsHandler] chained with the files; it comes first. *)
Context {T G V : Type} `{ProcTree T} (cur_tid : Z).
Definition proc_handler (s : Sys T G V) : SimpleDirOps RootNode :=
  mkSimpleDirOps (string_of <$> proc_child_names s) (λ name, RThread <$> proc_lookup_child cur_tid (str name) s) false.
Definition proc_builder (s : Sys T G V) : SimpleDirOps RootNode :=
  ChainedDirOps (proc_handler s) (DirMapping_ops proc_root).

(** The names of the files are no numbers, so that no task hides a file. *)
Lemma proc_root_files (s : Sys T G V) name n : proc_root !! name = Some n → lookup_child (proc_builder s) name = Ok n.
Proof.
  intros Hn. cbn [proc_builder ChainedDirOps lookup_child proc_handler].
  assert (Hnone : proc_lookup_child cur_tid (str name) s = Err NotFound).
  { unfold proc_root, DirMapping_add in Hn. repeat (apply lookup_insert_Some in Hn as [[<- _]|[_ Hn]]; [done|]).
    by rewrite lookup_empty in Hn. }
  rewrite Hnone. cbn. by rewrite Hn.
Qed.
End Root.

(** ** Witness *)

(** A thread whose name looks like the end of the field *)
Definition odd_thread : ThreadInfo :=
  mkThreadInfo 20 2 Blocked (mkTaskInfo 0 (str "a) R 1") []) (Some 17) (str "/bin/a").

Lemma stat_line_roundtrip_witness :
  match from_thread family_sys odd_thread with
  | Ok t => take 12 (fmt_stat t) = str "2 (a) R 1) S" ∧
      parse_stat (fmt_stat t) = Some (2, str "a) R 1", 83, stat_numbers t)
  | _ => False
  end.
Proof.
  assert (Ht : match from_thread family_sys odd_thread with Ok t => take 12 (fmt_stat t) = str "2 (a) R 1) S" | _ => False end)
    by (vm_compute; reflexivity).
  pose proof (stat_line_roundtrip family_sys odd_thread) as Hr. cbv zeta in Hr.
  destruct (from_thread family_sys odd_thread) as [t|e|]; [|done..]. split; [exact Ht|].
  apply Hr; [unfold in_u32; cbn; lia| |unfold in_i32; cbn; lia].
  repeat (apply Forall_cons; split; [unfold in_u32; vm_compute; split; congruence|]). by apply Forall_nil.
Defined.
