(* ===== verification/Loader.v ===== *)
(** * Loading programs

    [core/src/mm.rs]: the mapping of ELF segments, the choice of the program
    and its dynamic linker through the cache of ELF files, and the recursion
    of [load_user_app] through scripts.

    Files, path names, the ELF parser, the cache (crate [uluru]) and the
    address space are interfaces.  A location of a file is a number. *)

From S2P Require Import Prelude Brk Pipe UserMem Mmap.

Definition SIGNAL_TRAMPOLINE : Z := 0x60001000.
Definition USER_INTERP_BASE : Z := 0x4000000.
Definition USER_STACK_TOP : Z := 0x7fff00000000.
Definition USER_STACK_SIZE : Z := 0x80000.

Inductive PhType := PhLoad | PhInterp | PhOther.
Record ProgramHeader := mkPh {
  ph_type : PhType;
  ph_virtual_addr : Z;
  ph_offset : Z;
  ph_file_size : Z;
  ph_mem_size : Z;
  ph_read : bool; ph_write : bool; ph_execute : bool;
}.
Definition is_load (ph : ProgramHeader) : bool := match ph_type ph with PhLoad => true | _ => false end.
Definition is_interp (ph : ProgramHeader) : bool := match ph_type ph with PhInterp => true | _ => false end.

(** [mapping_flags] *)
Definition mapping_flags (ph : ProgramHeader) : MappingFlags :=
  mkMappingFlags (ph_read ph) (ph_write ph) (ph_execute ph) true.

(** ** Segments *)

Section Segments.
Context {A : Type} `{MmapSpace A}.

(** [(n + PAGE_SIZE_4K - 1) & !(PAGE_SIZE_4K - 1)] *)
Definition pages_up (n : Z) : Z := as_u64 (n + 4095) / 4096 * 4096.

Definition map_segment (base : Z) (ph : ProgramHeader) : M A unit :=
  let vaddr := add_u64 (ph_virtual_addr ph) base in
  let seg_pad := vaddr mod 4096 in
  assertM (seg_pad =? ph_offset ph mod 4096);;
  let seg_align_size := pages_up (add_u64 (ph_mem_size ph) seg_pad) in
  mm_map (align_down_4k vaddr) seg_align_size (mapping_flags ph) false 
    (BCow Size4K (ph_offset ph) (Some (add_u64 (ph_offset ph) (ph_file_size ph)))).

Fixpoint map_segments (base : Z) (phs : list ProgramHeader) : M A unit :=
  match phs with [] => mret tt | ph :: phs => map_segment base ph;; map_segments base phs end.

(** [map_elf]: [base] is the base of the parser. *)
Definition map_elf (base : Z) (phs : list ProgramHeader) : M A unit := map_segments base (filter is_load phs).
End Segments.

(** ** The loader *)

(** [ElfCacheEntry]: the file, its first bytes and its program headers *)
Record ElfEntry := mkElf { elf_loc : Z; elf_data : bytes; elf_ph : list ProgramHeader }.

(** [LRUCache<_, 32>]: the entries, the most recently used first *)
Class Lru (L : Type) := {
  lru_entries : L → list ElfEntry;
  lru_touch : (ElfEntry → bool) → L → bool * L;
  lru_insert : ElfEntry → L → L;
}.

(** [touch] moves the first entry that satisfies the test to the front; [insert]
    puts an entry in front, and drops the last if there are more than 32. *)
Class LruOk (L : Type) `{Lru L} := {
  lru_touch_ok f c b c' : lru_touch f c = (b, c') →
    if b then ∃ l1 e l2, lru_entries c = l1 ++ e :: l2 ∧ f e = true ∧ Forall (λ x, f x = false) l1
                ∧ lru_entries c' = e :: l1 ++ l2
    else lru_entries c' = lru_entries c ∧ Forall (λ x, f x = false) (lru_entries c);
  lru_insert_ok e c : lru_entries (lru_insert e c) = take 32 (e :: lru_entries c);
}.

(** The file system, the crate [kernel_elf_parser] and the operations of the
    address space only the loader uses *)
Class LoadWorld (A : Type) := {
  lw_resolve : bytes → res Z;                      (* path to location *)
  lw_read_at : Z → Z → nat → res bytes;            (* location, offset, length *)
  lw_builder : bytes → option (Z * Z);             (* [ELFHeadersBuilder::new] and its [ph_range] *)
  lw_build : bytes → bytes → option (list ProgramHeader);
  lw_base : ElfEntry → Z → res Z;                  (* [ELFParser::new] at a base, and what it makes of it *)
  lw_entry : ElfEntry → Z → Z;
  lw_aux : ElfEntry → Z → Z → option Z → list (Z * Z);
  lw_stack : list bytes → list bytes → list (Z * Z) → Z → bytes;   (* [app_stack_region] *)
  lw_clear : A → A;
  lw_map_linear : Z → Z → Z → MappingFlags → M A unit;
  lw_populate : Z → Z → MappingFlags → M A unit;
  lw_write : Z → bytes → M A unit;
  lw_trampoline_paddr : Z;                         (* [signal_trampoline_address] *)
  lw_utf8 : bytes → bool;
}.

Record Loader (A L : Type) := mkLoader { ld_space : A; ld_cache : L }.
Arguments mkLoader {_ _}.
Arguments ld_space {_ _}.
Arguments ld_cache {_ _}.
#[export] Instance eta_Loader A L : Eta (Loader A L) := λ s, mkLoader (ld_space s) (ld_cache s).

Section Loader.
Context {A L : Type} `{MmapSpace A, Lru L, LoadWorld A}.
Abbreviation S := (Loader A L).

Definition on_space {B} (f : M A B) : M S B := λ s, let '(r, a) := f (ld_space s) in (r, s <| ld_space := a |>).

Definition map_trampoline : M A unit :=
  lw_map_linear SIGNAL_TRAMPOLINE lw_trampoline_paddr 4096 (mkMappingFlags true false true true).

(** [ElfCacheEntry::load]: an ELF file, or the first bytes of another one.  A
    range of program headers that ends before it starts panics, in the slice or
    in the allocation. *)
Definition elf_load (loc : Z) : res (ElfEntry + bytes) :=
  data ← lw_read_at loc 0 (Z.to_nat 4096);
  match lw_builder data with
  | None => Ok (inr data)
  | Some (start, end_) =>
      let built ph := match lw_build data ph with Some l => inl (mkElf loc data l) | None => inr data end in
      if end_ <? start then Panic
      else
        let n := Z.to_nat (end_ - start) in
        if end_ <=? zlen data then Ok (built (take n (drop (Z.to_nat start) data)))
        else
          match lw_read_at loc start n with
          | Ok got => Ok (built (got ++ replicate (n - length got) 0))
          | Err _ => Ok (inr data)
          | Panic => Panic
          end
  end.

(** Brings the file at [loc] to the front of the cache; [Some data] if it is
    not an ELF file. *)
Definition fetch (loc : Z) : M S (option bytes) :=
  s ← getM;
  let '(b, c) := lru_touch (λ e, elf_loc e =? loc) (ld_cache s) in
  putM (s <| ld_cache := c |>);;
  if (b : bool) then mret None
  else
    e ← liftR (elf_load loc);
    match e with
    | inl e => modifyM (λ s, s <| ld_cache ::= lru_insert e |>);; mret None
    | inr data => mret (Some data)
    end.

(** [CStr::from_bytes_with_nul] and [to_str] *)
Definition c_string (data : bytes) : res bytes :=
  match last data with
  | Some 0 =>
      let s := take (length data - 1) data in
      if negb (existsb (λ c, c =? 0) s) && lw_utf8 s then Ok s else Err InvalidInput
  | _ => Err InvalidInput
  end.

(** The path of the dynamic linker *)
Definition interp_path (entry : ElfEntry) : res (option bytes) :=
  match find is_interp (elf_ph entry) with
  | None => Ok None
  | Some header =>
      data ← lw_read_at (elf_loc entry) (ph_offset header) (Z.to_nat (ph_file_size header));
      if negb (zlen data =? ph_file_size header) then Panic else Some <$> c_string data
  end.

(** [ElfLoader::load]: the entry point and the auxiliary vector, or the first
    bytes of another file *)
Definition loader_load (path : bytes) : M S (Z * list (Z * Z) + bytes) :=
  loc ← liftR (lw_resolve path);
  d ← fetch loc;
  match d with
  | Some data => mret (inr data)
  | None =>
      modifyM (λ s, s <| ld_space ::= lw_clear |>);;
      on_space map_trampoline;;
      s ← getM;
      entry ← liftR (unwrap (head (lru_entries (ld_cache s))));
      ldso ← liftR (interp_path entry);
      files ← match ldso with
              | Some ldso =>
                  loc ← liftR (lw_resolve ldso);
                  d ← fetch loc;
                  match d with
                  | Some _ => failM InvalidInput
                  | None =>
                      s ← getM;
                      ldso ← liftR (unwrap (lru_entries (ld_cache s) !! 0%nat));
                      elf ← liftR (unwrap (lru_entries (ld_cache s) !! 1%nat));
                      mret (elf, Some ldso)
                  end
              | None => mret (entry, None)
              end;
      let '(elf, ldso) := files in
      base ← liftR (lw_base elf USER_SPACE_BASE);
      on_space (map_elf base (elf_ph elf));;
      match ldso with
      | Some ldso =>
          base2 ← liftR (lw_base ldso USER_INTERP_BASE);
          on_space (map_elf base2 (elf_ph ldso));;
          mret (inl (lw_entry ldso USER_INTERP_BASE, lw_aux elf USER_SPACE_BASE 4096 (Some base2)))
      | None => mret (inl (lw_entry elf USER_SPACE_BASE, lw_aux elf USER_SPACE_BASE 4096 None))
      end
  end.

(** ** Scripts *)

(** [char::is_ascii_whitespace] *)
Definition is_ascii_whitespace (c : Z) : bool := (c =? 32) || (c =? 9) || (c =? 10) || (c =? 12) || (c =? 13).
(** The rest behind a white space character of UTF-8 text, and the same for
    text that is written backwards *)
Definition ws_front (l : bytes) : option bytes :=
  match l with
  | 0xC2 :: d :: r => if (d =? 0x85) || (d =? 0xA0) then Some r else None
  | 0xE1 :: 0x9A :: 0x80 :: r | 0xE2 :: 0x81 :: 0x9F :: r | 0xE3 :: 0x80 :: 0x80 :: r => Some r
  | 0xE2 :: 0x80 :: d :: r =>
      if ((0x80 <=? d) && (d <=? 0x8A)) || (d =? 0xA8) || (d =? 0xA9) || (d =? 0xAF) then Some r else None
  | c :: r => if (c =? 32) || ((9 <=? c) && (c <=? 13)) then Some r else None
  | [] => None
  end.
Definition ws_back (l : bytes) : option bytes :=
  match l with
  | 0x80 :: 0x9A :: 0xE1 :: r | 0x9F :: 0x81 :: 0xE2 :: r | 0x80 :: 0x80 :: 0xE3 :: r => Some r
  | d :: 0x80 :: 0xE2 :: r =>
      if ((0x80 <=? d) && (d <=? 0x8A)) || (d =? 0xA8) || (d =? 0xA9) || (d =? 0xAF) then Some r else None
  | d :: 0xC2 :: r => if (d =? 0x85) || (d =? 0xA0) then Some r else None
  | c :: r => if (c =? 32) || ((9 <=? c) && (c <=? 13)) then Some r else None
  | [] => None
  end.
Fixpoint strip (ws : bytes → option bytes) (fuel : nat) (l : bytes) : bytes :=
  match fuel with
  | O => l
  | Datatypes.S fuel => match ws l with Some r => strip ws fuel r | None => l end
  end.
(** [str::trim] and [str::trim_ascii] *)
Definition trim_with (front back : bytes → option bytes) (l : bytes) : bytes :=
  let l := strip front (length l) l in reverse (strip back (length l) (reverse l)).
Definition trim : bytes → bytes := trim_with ws_front ws_back.
Definition ascii_ws (l : bytes) : option bytes :=
  match l with c :: r => if is_ascii_whitespace c then Some r else None | [] => None end.
Definition trim_ascii : bytes → bytes := trim_with ascii_ws ascii_ws.
(** [splitn(2, whitespace)] *)
Fixpoint split_space (l : bytes) : bytes * option bytes :=
  match l with
  | [] => ([], None)
  | c :: l => if is_ascii_whitespace c then ([], Some l) else let '(a, b) := split_space l in (c :: a, b)
  end.
Fixpoint take_line (l : bytes) : bytes :=
  match l with [] => [] | c :: l => if c =? 10 then [] else c :: take_line l end.

(** The words of the first line of a script: interpreter and argument *)
Definition shebang (data : bytes) : option (res (list bytes)) :=
  match data with
  | 35 :: 33 :: _ =>
      let line := take_line (take (Nat.min (length data) (Z.to_nat 256) - 2) (drop 2 data)) in
      if negb (lw_utf8 line) then Some (Err InvalidInput)
      else
        let '(a, b) := split_space (trim line) in
        Some (Ok (trim_ascii a :: match b with Some b => [trim_ascii b] | None => [] end))
  | _ => None
  end.

Definition BIN_SH : bytes := [47; 98; 105; 110; 47; 115; 104].
Definition ends_with_sh (path : bytes) : bool := bool_decide (drop (length path - 3) path = [46; 115; 104]).

(** Stack and heap of the program *)
Definition finish_load (entry : Z) (auxv : list (Z * Z)) (args envs : list bytes) : M S (Z * Z) :=
  let ustack_start := USER_STACK_TOP - USER_STACK_SIZE in
  on_space (mm_map ustack_start USER_STACK_SIZE (mkMappingFlags true true false true) false (BAlloc Size4K));;
  let stack_data := lw_stack args envs auxv USER_STACK_TOP in
  let user_sp := sub_u64 USER_STACK_TOP (zlen stack_data) in
  let user_sp_aligned := align_down_4k user_sp in
  on_space (lw_populate user_sp_aligned (align_up (sub_u64 USER_STACK_TOP user_sp_aligned) 4096)
    (mkMappingFlags true true false false));;
  on_space (lw_write user_sp stack_data);;
  on_space (mm_map USER_HEAP_BASE USER_HEAP_SIZE (mkMappingFlags true true false true) true (BAlloc Size4K));;
  mret (entry, user_sp).

(** [None]: the recursion has not ended after [fuel] calls. *)
Fixpoint load_user_app (fuel : nat) (path : option bytes) (args envs : list bytes) (s : S) : option (res (Z * Z) * S) :=
  match fuel with
  | O => None
  | Datatypes.S fuel =>
      match (match path with Some p => Some p | None => head args end) with
      | None => Some (Err InvalidInput, s)
      | Some path =>
          if ends_with_sh path then load_user_app fuel None (BIN_SH :: args) envs s
          else
            match loader_load path s with
            | (Ok (inl (entry, auxv)), s) => Some (finish_load entry auxv args envs s)
            | (Ok (inr data), s) =>
                match shebang data with
                | None => Some (Err InvalidExecutable, s)
                | Some (Ok words) => load_user_app fuel None (words ++ [path] ++ drop 1 args) envs s
                | Some (Err e) => Some (Err e, s)
                | Some Panic => Some (Panic, s)
                end
            | (Err e, s) => Some (Err e, s)
            | (Panic, s) => Some (Panic, s)
            end
      end
  end.
End Loader.

(** ** What is mapped *)

Section MapElf.
Context {A : Type} `{MmapSpaceOk A}.

(** A segment that fits below the end of the address space *)
Definition seg_fits (base : Z) (ph : ProgramHeader) : Prop :=
  0 ≤ ph_virtual_addr ph + base ∧ 0 ≤ ph_mem_size ph
  ∧ ph_virtual_addr ph + base + ph_mem_size ph + 8192 ≤ 2 ^ 64.
Definition seg_aligned (base : Z) (ph : ProgramHeader) : bool :=
  add_u64 (ph_virtual_addr ph) base mod 4096 =? ph_offset ph mod 4096.
(** The addresses of a segment *)
Definition in_seg (base : Z) (ph : ProgramHeader) (x : Z) : Prop :=
  ph_virtual_addr ph + base ≤ x < ph_virtual_addr ph + base + ph_mem_size ph.

(** The pages that the code computes for it, at the width of the machine *)
Definition in_pages (base : Z) (ph : ProgramHeader) (x : Z) : Prop :=
  let vaddr := add_u64 (ph_virtual_addr ph) base in
  align_down_4k vaddr ≤ x < align_down_4k vaddr + pages_up (add_u64 (ph_mem_size ph) (vaddr mod 4096)).

Lemma seg_covered base ph x : seg_fits base ph → in_seg base ph x → in_pages base ph x.
Proof.
  intros (H1 & H2 & H3) [Hx1 Hx2]. unfold in_pages, add_u64. rewrite (as_u64_small (_ + base)) by (unfold in_u64; lia).
  set (v := ph_virtual_addr ph + base) in *. cbv zeta. pose proof (Z.mod_pos_bound v 4096). pose proof (Z.div_mod v 4096).
  rewrite as_u64_small by (unfold in_u64; lia). unfold pages_up. rewrite as_u64_small by (unfold in_u64; lia).
  unfold align_down_4k. set (n := ph_mem_size ph + v mod 4096).
  pose proof (Z.mod_pos_bound (n + 4095) 4096). pose proof (Z.div_mod (n + 4095) 4096). lia.
Qed.

(** One segment *)
Lemma map_segment_spec base ph a r a' : map_segment base ph a = (r, a') →
  if seg_aligned base ph then
    r ≠ Panic
    ∧ (∀ x p, mm_perm a x = Some p → mm_perm a' x = Some p)
    ∧ (r = Ok tt → ∀ x, in_pages base ph x → mm_perm a' x = Some (mapping_flags ph))
  else r = Panic ∧ a' = a.
Proof.
  unfold map_segment, seg_aligned. unfold_m. destruct (_ =? _); [|by intros [= <- <-]].
  destruct (mm_map _ _ _ _ _ a) as [rm a1] eqn:Hm. intros [= <- <-].
  pose proof (mm_map_ok _ _ _ _ _ _ _ _ Hm) as [Hnp Hx]. split_and!; [done| |].
  - intros x p Hp. rewrite Hx. case_bool_decide as Hin; [|by rewrite andb_false_r]. rewrite andb_true_r.
    destruct rm as [[]|e|]; [|done..]. apply (mm_map_fresh _ _ _ _ _ _ _ Hm) in Hin. congruence.
  - intros -> x Hin. rewrite Hx. by rewrite bool_decide_eq_true_2.
Qed.

Lemma map_segments_spec base phs : ∀ a r a', map_segments base phs a = (r, a') →
  (∀ x p, mm_perm a x = Some p → mm_perm a' x = Some p)
  ∧ (r = Ok tt → ∀ ph x, ph ∈ phs → in_pages base ph x → mm_perm a' x = Some (mapping_flags ph))
  ∧ (r = Panic → ∃ ph, ph ∈ phs ∧ seg_aligned base ph = false)
  ∧ (r = Ok tt → Forall (λ ph, seg_aligned base ph = true) phs).
Proof.
  induction phs as [|ph phs IH]; intros a r a'; cbn [map_segments].
  { intros [= <- <-]. split_and!; [done| |done|done]. intros _ ph x Hin. by apply elem_of_nil in Hin. }
  unfold_m. destruct (map_segment base ph a) as [r1 a1] eqn:Hm. apply map_segment_spec in Hm.
  destruct (seg_aligned base ph) eqn:Hal.
  2:{ destruct Hm as [-> ->]. intros [= <- <-]. split_and!; try done. intros _. exists ph. split; [left|done]. }
  destruct Hm as (Hnp & Hkeep & Hseg). destruct r1 as [[]|e|]; [|by intros [= <- <-]|done].
  intros (Hk & Hall & Hpan & Hali)%IH. split_and!; [naive_solver| | |].
  - intros Hr ph' x [->|Hin]%elem_of_cons Hx; [by apply Hk, Hseg|by apply Hall].
  - intros (ph' & Hin & ?)%Hpan. exists ph'. split; [by right|done].
  - intros Hr. constructor; auto.
Qed.

(** C23: [map_elf].  When it succeeds every loadable segment has the permissions
    of its program header on the pages the code computes for it, which hold
    every byte of the segment if it ends, with two pages to spare, below the end
    of the address space ([wrapping_segment_unmapped] is one that does not); and
    nothing that was mapped before has changed.  It panics only if a segment's
    address and file offset disagree within a page, and it never succeeds with
    such a segment: the kernel stops on a malformed file. *)
Theorem elf_segments_mapped base phs a r a' :
  map_elf base phs a = (r, a') →
  (∀ x p, mm_perm a x = Some p → mm_perm a' x = Some p)
  ∧ (r = Ok tt → ∀ ph x, ph ∈ phs → ph_type ph = PhLoad →
       in_pages base ph x ∨ seg_fits base ph ∧ in_seg base ph x → mm_perm a' x = Some (mapping_flags ph))
  ∧ (r = Panic → ∃ ph, ph ∈ phs ∧ ph_type ph = PhLoad ∧ seg_aligned base ph = false)
  ∧ (r = Ok tt → ∀ ph, ph ∈ phs → ph_type ph = PhLoad → seg_aligned base ph = true).
Proof.
  intros (Hk & Hall & Hpan & Hali)%map_segments_spec.
  assert (Hin : ∀ ph, ph ∈ filter is_load phs ↔ ph ∈ phs ∧ ph_type ph = PhLoad).
  { intros ph. rewrite list_elem_of_filter. unfold is_load. destruct (ph_type ph); naive_solver. }
  split_and!; [done| | |].
  - intros Hr ph x Hp Ht Hx. apply Hall; [done|by apply Hin|]. destruct Hx as [|[]]; [done|by apply seg_covered].
  - intros (ph & [??]%Hin & ?)%Hpan. by exists ph.
  - intros Hr ph Hp Ht. apply Hali in Hr. rewrite Forall_forall in Hr. apply Hr. by apply Hin.
Qed.
End MapElf.

(** ** The program and its linker *)

Section LoadFacts.
Context {A L : Type} `{MmapSpace A, LruOk L, LoadWorld A}.
Implicit Types s : Loader A L.

Lemma elf_load_loc loc e : elf_load loc = Ok (inl e) → elf_loc e = loc.
Proof.
  unfold elf_load. destruct (lw_read_at loc 0 _) as [data| |]; [|done..]. cbn.
  destruct (lw_builder data) as [[start end_]|]; [|done]. destruct (end_ <? start); [done|].
  destruct (end_ <=? zlen data); [|destruct (lw_read_at loc start _); [|done..]]; intros [= He]; revert He;
    (destruct (lw_build data _); [|done]); by intros [= <-].
Qed.

(** After [fetch] the file is in front of the cache, and the file that was in
    front, if it is another one, is second. *)
Lemma fetch_front loc s s' : fetch loc s = (Ok None, s') →
  ld_space s' = ld_space s ∧
  ∃ e rest, lru_entries (ld_cache s') = e :: rest ∧ elf_loc e = loc
    ∧ ∀ e0 l0, lru_entries (ld_cache s) = e0 :: l0 → elf_loc e0 ≠ loc → head rest = Some e0.
Proof.
  unfold fetch. unfold_m. destruct (lru_touch _ (ld_cache s)) as [b c] eqn:Ht. apply lru_touch_ok in Ht.
  destruct b.
  - intros [= <-]. split; [done|]. destruct Ht as (l1 & e & l2 & Hl & He & Hl1 & Hc). exists e, (l1 ++ l2).
    split_and!; [done|by apply Z.eqb_eq|]. intros e0 l0 Hl0 Hne. rewrite Hl in Hl0.
    destruct l1 as [|x l1]; injection Hl0 as -> _; [|done]. exfalso. apply Hne. by apply Z.eqb_eq.
  - destruct Ht as [Hc Hno]. destruct (elf_load loc) as [[e|data]|er|] eqn:Hl; try done.
    intros [= <-]. split; [done|]. exists e, (take 31 (lru_entries c)). cbn [ld_cache]. rewrite lru_insert_ok.
    split_and!; [done|by apply elf_load_loc|]. intros e0 l0 Hl0 _. by rewrite Hc, Hl0.
Qed.

(** [ElfLoader::load].  When a program is loaded the address space is
    cleared, and then holds the trampoline, the segments of the file at the
    program's path and, if that file asks for a dynamic linker, those of the
    linker, where execution starts.  The two are found by their place in the
    cache, which is right as long as the linker is another file than the
    program. *)
Lemma loader_maps_right_files path loc entry auxv s s' :
  lw_resolve path = Ok loc → loader_load path s = (Ok (inl (entry, auxv)), s') →
  ∃ elf a1, elf_loc elf = loc ∧ map_trampoline (lw_clear (ld_space s)) = (Ok tt, a1)
    ∧ match interp_path elf with
      | Ok None =>
          ∃ base, lw_base elf USER_SPACE_BASE = Ok base ∧ map_elf base (elf_ph elf) a1 = (Ok tt, ld_space s')
          ∧ entry = lw_entry elf USER_SPACE_BASE ∧ auxv = lw_aux elf USER_SPACE_BASE 4096 None
      | Ok (Some linker) =>
          ∃ loc2, lw_resolve linker = Ok loc2 ∧
            (loc2 ≠ loc → ∃ ldso base base2 a2, elf_loc ldso = loc2
               ∧ lw_base elf USER_SPACE_BASE = Ok base ∧ map_elf base (elf_ph elf) a1 = (Ok tt, a2)
               ∧ lw_base ldso USER_INTERP_BASE = Ok base2 ∧ map_elf base2 (elf_ph ldso) a2 = (Ok tt, ld_space s')
               ∧ entry = lw_entry ldso USER_INTERP_BASE ∧ auxv = lw_aux elf USER_SPACE_BASE 4096 (Some base2))
      | _ => False
      end.
Proof.
  intros Hres. unfold loader_load. unfold_m. rewrite Hres.
  destruct (fetch loc s) as [[[data|]|e|] s1] eqn:Hf; [done| |done|done].
  apply fetch_front in Hf as (Hsp & elf & rest & Hent & Hloc & _).
  unfold on_space at 1. cbn [ld_space]. change (ld_space (s1 <| ld_space ::= lw_clear |>)) with (lw_clear (ld_space s1)).
  rewrite Hsp. destruct (map_trampoline (lw_clear (ld_space s))) as [[[]|e|] a1] eqn:Ht; [|done..].
  cbn [ld_cache]. set (s2 := setf ld_space _ _). change (ld_cache s2) with (ld_cache s1). rewrite Hent. cbn [head unwrap].
  destruct (interp_path elf) as [[linker|]|e|] eqn:Hip; [| |done|done].
  2:{ destruct (lw_base elf USER_SPACE_BASE) as [base|e|] eqn:Hb; [|done..]. unfold on_space. change (ld_space s2) with a1.
      destruct (map_elf base (elf_ph elf) a1) as [[[]|e|] a2] eqn:Hm; [|done..]. intros [= <- <- <-].
      exists elf, a1. rewrite Hip. split_and!; [done..|]. by exists base. }
  destruct (lw_resolve linker) as [loc2|e|] eqn:Hr2; [|done..].
  destruct (fetch loc2 s2) as [[[data|]|e|] s3] eqn:Hf2; [done| |done|done].
  apply fetch_front in Hf2 as (Hsp3 & ldso & rest3 & Hent3 & Hloc2 & Hsecond). rewrite Hent3. cbn [lookup list_lookup unwrap].
  destruct rest3 as [|elf' rest3]; [done|]. cbn [lookup list_lookup unwrap].
  destruct (lw_base elf' USER_SPACE_BASE) as [base|e|] eqn:Hb; [|done..]. unfold on_space. rewrite Hsp3. change (ld_space s2) with a1.
  destruct (map_elf base (elf_ph elf') a1) as [[[]|e|] a2] eqn:Hm; [|done..].
  destruct (lw_base ldso USER_INTERP_BASE) as [base2|e|] eqn:Hb2; [|done..].
  change (ld_space (s3 <| ld_space := a2 |>)) with a2.
  destruct (map_elf base2 (elf_ph ldso) a2) as [[[]|e|] a3] eqn:Hm2; [|done..]. intros [= <- <- <-].
  exists elf, a1. rewrite Hip. split_and!; [done..|]. exists loc2. split; [done|]. intros Hne.
  assert (elf' = elf) as ->.
  { specialize (Hsecond elf rest). rewrite <- Hloc in Hne. cbn in Hsecond. rewrite Hent in Hsecond. naive_solver. }
  by exists ldso, base, base2, a2.
Qed.

(** ** Scripts *)

(** A script whose interpreter is an ELF file: the program is the interpreter,
    with the word behind it, the script's path and the arguments behind the
    first. *)
Lemma script_runs_interpreter fuel path data words interp entry auxv args envs s s1 s2 :
  ends_with_sh path = false → loader_load path s = (Ok (inr data), s1) →
  shebang data = Some (Ok words) → head words = Some interp → ends_with_sh interp = false →
  loader_load interp s1 = (Ok (inl (entry, auxv)), s2) →
  load_user_app (2 + fuel) (Some path) args envs s = Some (finish_load entry auxv (words ++ [path] ++ drop 1 args) envs s2).
Proof.
  intros Hp Hl Hs Hw Hi Hl2. cbn [load_user_app Nat.add]. rewrite Hp, Hl, Hs.
  destruct words as [|w words]; [done|]. injection Hw as ->. cbn [head app]. by rewrite Hi, Hl2.
Qed.

(** What runs instead of the file at [path], if it is a script *)
Definition script_of (path : bytes) : option bytes :=
  if ends_with_sh path then Some BIN_SH
  else
    match lw_resolve path with
    | Ok loc =>
        match elf_load loc with
        | Ok (inr data) => match shebang data with Some (Ok words) => head words | _ => None end
        | _ => None
        end
    | _ => None
    end.
(** From [path] one comes to a file that is no script over at most [n] scripts. *)
Fixpoint script_chain (n : nat) (path : bytes) : bool :=
  match script_of path with
  | None => true
  | Some interp => match n with O => false | Datatypes.S n => script_chain n interp end
  end.

(** The loader gives back the first bytes of a file that is not an ELF file. *)
Lemma loader_load_other path data s s' : loader_load path s = (Ok (inr data), s') →
  ∃ loc, lw_resolve path = Ok loc ∧ elf_load loc = Ok (inr data).
Proof.
  unfold loader_load. intros (loc & s1 & Hr & (d & s2 & Hf & Hl)%bind_inv)%bind_inv.
  unfold liftR in Hr. injection Hr as Hr <-. exists loc. split; [done|]. destruct d as [data'|].
  - injection Hl as -> <-. revert Hf. unfold fetch. unfold_m. destruct (lru_touch _ (ld_cache s)) as [[] c]; [done|].
    destruct (elf_load loc) as [[e|data2]|e|]; try done. by intros [= -> <-].
  - exfalso. do 5 apply bind_inv in Hl as (? & ? & _ & Hl). apply bind_inv in Hl as ([elf ldso] & ? & _ & Hl).
    do 2 apply bind_inv in Hl as (? & ? & _ & Hl). destruct ldso; [do 2 apply bind_inv in Hl as (? & ? & _ & Hl)|]; done.
Qed.

Lemma script_chain_next n path interp : script_chain n path = true → script_of path = Some interp →
  ∃ n', n = Datatypes.S n' ∧ script_chain n' interp = true.
Proof. intros Hc Hs. destruct n as [|n]; cbn [script_chain] in Hc; rewrite Hs in Hc; [done|]. by exists n. Qed.

(** With a chain of [n] scripts more than [n] calls load the program, or find
    that they cannot. *)
Lemma load_user_app_ends fuel : ∀ n path args envs s,
  (∀ p, from_option Some (head args) path = Some p → script_chain n p = true) → (n < fuel)%nat →
  is_Some (load_user_app fuel path args envs s).
Proof.
  induction fuel as [|fuel IH]; intros n path args envs s Hc Hf; [lia|]. cbn [load_user_app].
  replace (match path with Some p => Some p | None => head args end) with (from_option Some (head args) path) by (by destruct path).
  destruct (from_option Some (head args) path) as [p|]; [specialize (Hc p eq_refl)|by eexists].
  assert (Hnext : ∀ interp rest s1, script_of p = Some interp → is_Some (load_user_app fuel None (interp :: rest) envs s1)).
  { intros interp rest s1 Hs. destruct (script_chain_next _ _ _ Hc Hs) as (n' & -> & Hn).
    apply (IH n'); [by intros q [= <-]|lia]. }
  destruct (ends_with_sh p) eqn:Hsh; [apply Hnext; unfold script_of; by rewrite Hsh|].
  destruct (loader_load p s) as [[[[entry auxv]|data]|e|] s1] eqn:Hl; [by eexists| |by eexists..].
  apply loader_load_other in Hl as (loc & Hr & He).
  destruct (shebang data) as [[[|interp words]|e|]|] eqn:Hb; try by eexists.
  - exfalso. revert Hb. unfold shebang. repeat (case_match; try done).
  - apply Hnext. unfold script_of. by rewrite Hsh, Hr, He, Hb.
Qed.

(** A script that names itself as its interpreter never loads: the recursion has
    no bound, and the kernel's stack does. *)
Lemma self_script_never_ends path data words s :
  ends_with_sh path = false → loader_load path s = (Ok (inr data), s) →
  shebang data = Some (Ok words) → head words = Some path →
  ∀ fuel args envs, load_user_app fuel (Some path) args envs s = None.
Proof.
  intros Hp Hl Hs Hw. assert (Hnone : ∀ fuel args envs, head args = Some path → load_user_app fuel None args envs s = None).
  { intros fuel. induction fuel as [|fuel IH]; intros args envs Ha; cbn [load_user_app]; [done|].
    rewrite Ha, Hp, Hl, Hs. apply IH. by destruct words. }
  intros [|fuel] args envs; cbn [load_user_app]; [done|]. rewrite Hp, Hl, Hs. apply Hnone. by destruct words.
Qed.
End LoadFacts.

(** ** A small system *)

Fixpoint touch_list (f : ElfEntry → bool) (l : list ElfEntry) : option (ElfEntry * list ElfEntry) :=
  match l with
  | [] => None
  | e :: l => if f e then Some (e, l) else match touch_list f l with Some (x, r) => Some (x, e :: r) | None => None end
  end.
#[export] Instance list_lru : Lru (list ElfEntry) := {
  lru_entries l := l;
  lru_touch f l := match touch_list f l with Some (e, r) => (true, e :: r) | None => (false, l) end;
  lru_insert e l := take 32 (e :: l);
}.
#[export] Instance list_lru_ok : LruOk (list ElfEntry).
Proof.
  split; [|done]. intros f c b c'. cbn.
  assert (Ht : match touch_list f c with
               | Some (e, r) => ∃ l1 l2, c = l1 ++ e :: l2 ∧ f e = true ∧ Forall (λ x, f x = false) l1 ∧ r = l1 ++ l2
               | None => Forall (λ x, f x = false) c
               end).
  { induction c as [|x c IH]; cbn; [done|]. destruct (f x) eqn:Hx; [by exists [], c|].
    destruct (touch_list f c) as [[e r]|]; [|by constructor]. destruct IH as (l1 & l2 & -> & He & Hl1 & ->).
    exists (x :: l1), l2. split_and!; [done..|by constructor|done]. }
  destruct (touch_list f c) as [[e r]|]; intros [= <- <-]; [|done].
  destruct Ht as (l1 & l2 & -> & He & Hl1 & ->). by exists l1, e, l2.
Qed.

(** The file system has two ELF files, [/a] and [/b], told apart by their second
    byte: [/a] has one segment, [/b] names itself as its linker. *)
Definition code_seg : ProgramHeader := mkPh PhLoad 0x1010 0x10 0x100 0x1800 true false true.
Definition linker_seg : ProgramHeader := mkPh PhInterp 0 8 3 3 true false false.
Definition file_data (loc : Z) : bytes := [127; loc; 0; 0; 0; 0; 0; 0; 47; 98; 0].
#[export] Instance areas_world : LoadWorld areas := {
  lw_resolve p := if bool_decide (p = [47; 97]) then Ok 1 else if bool_decide (p = [47; 98]) then Ok 2 else Err NotFound;
  lw_read_at loc off n := Ok (take n (drop (Z.to_nat off) (file_data loc)));
  lw_builder data := match data with 127 :: _ => Some (2, 4) | _ => None end;
  lw_build data _ := Some (match data with _ :: 1 :: _ => [code_seg] | _ => [linker_seg] end);
  lw_base _ base := Ok base;
  lw_entry _ base := base;
  lw_aux _ _ page _ := [(6, page)];
  lw_stack args _ _ _ := concat args;
  lw_clear _ := [];
  lw_map_linear start _ size flags := mm_map start size flags false (BLinear 0);
  lw_populate _ _ _ := mret tt;
  lw_write _ _ := mret tt;
  lw_trampoline_paddr := 0;
  lw_utf8 _ := true;
}.

Definition empty_loader : Loader areas (list ElfEntry) := mkLoader one_page [].

Lemma elf_segments_mapped_witness :
  ∃ a', map_elf 0x1000 [code_seg] one_page = (Ok tt, a') ∧ mm_perm a' 0x2010 = Some (mkMappingFlags true false true true).
Proof.
  eexists. split; [by vm_compute|].
  refine (proj1 (proj2 (elf_segments_mapped 0x1000 [code_seg] one_page (Ok tt) _ _)) eq_refl code_seg _ _ _ _).
  - by vm_compute.
  - left.
  - done.
  - right. split; [by vm_compute|]. split; by vm_compute.
Defined.

(** A file that is its own linker: the second place of the cache is empty, and
    the kernel stops. *)
Example own_linker_panics : (loader_load [47; 98] empty_loader).1 = Panic.
Proof. by vm_compute. Qed.
(** With another program in the cache, that one is mapped in its place. *)
Example own_linker_maps_other :
  let s := (loader_load [47; 97] empty_loader).2 in
  let '(r, s') := loader_load [47; 98] s in is_ok r = true ∧ mm_perm (ld_space s') 0x2010 = Some (mapping_flags code_seg).
Proof. by vm_compute. Qed.

(** The size of a segment of almost all the memory there is wraps to a page with
    the offset in its page: the call succeeds, and the segment's second page is
    not mapped. *)
Example wrapping_segment_unmapped :
  let ph := mkPh PhLoad 0x1010 0x10 0x100 (2 ^ 64 - 1) true false true in
  let '(r, a) := map_elf 0x1000 [ph] one_page in
  r = Ok tt ∧ in_seg 0x1000 ph 0x3000 ∧ mm_perm a 0x2010 = Some (mapping_flags ph) ∧ mm_perm a 0x3000 = None.
Proof. vm_compute. by split_and!. Qed.

Example misaligned_segment_panics :
  (map_elf 0 [mkPh PhLoad 0x1010 0x20 0x100 0x1800 true false true] one_page).1 = Panic.
Proof. by vm_compute. Qed.
