(* ===== verification/Clone.v ===== *)
(** * New tasks and new programs

    [api/src/syscall/task/clone.rs] and [execve.rs], with [ProcessData] and
    [Thread] of [core/src/task.rs].

    What two processes may share (an address space, a table of signal actions,
    a descriptor table, a file-system context) is an object with a number, and
    the data of a process holds the numbers: two processes share an object if
    they hold the same number.  The process tree, the tables of tasks and user
    memory are those of the file on processes, descriptor tables those of the
    file on descriptors, and programs are loaded by the loader. *)

From S2P Require Import Prelude Bytes Vm Brk Pipe TimeSys FdTable Process UserMem Mmap Loader.

(** ** Flags *)

Definition CLONE_VM : Z := 0x100.
Definition CLONE_FS : Z := 0x200.
Definition CLONE_FILES : Z := 0x400.
Definition CLONE_SIGHAND : Z := 0x800.
Definition CLONE_PIDFD : Z := 0x1000.
Definition CLONE_VFORK : Z := 0x4000.
Definition CLONE_PARENT : Z := 0x8000.
Definition CLONE_THREAD : Z := 0x10000.
Definition CLONE_SETTLS : Z := 0x80000.
Definition CLONE_PARENT_SETTID : Z := 0x100000.
Definition CLONE_CHILD_CLEARTID : Z := 0x200000.
Definition CLONE_CHILD_SETTID : Z := 0x1000000.
(** All bits above the exit signal but the one of [CLONE_DETACHED] *)
Definition CloneFlags_all : Z := Z.ldiff 0xFFFFFF00 0x400000.
Definition SIGCHLD : Z := 17.

(** ** The state *)

Record PData := mkPData {
  pd_exe_path : bytes;
  pd_cmdline : list bytes;
  pd_aspace : Z;
  pd_fds : Z;                               (* [FD_TABLE] in the scope *)
  pd_fs : Z;                                (* [FS_CONTEXT] in the scope *)
  pd_heap_top : Z;
  pd_rlim : Rlimits;
  pd_exit_signal : option Z;
  pd_actions : Z;                           (* [signal.actions] *)
  pd_umask : Z;
}.
#[export] Instance eta_PData : Eta PData := λ d,
  mkPData (pd_exe_path d) (pd_cmdline d) (pd_aspace d) (pd_fds d) (pd_fs d) (pd_heap_top d) (pd_rlim d)
    (pd_exit_signal d) (pd_actions d) (pd_umask d).

(** A thread, with the registers it will return to user space with *)
Record Thr (U : Type) := mkThr {
  th_pid : Z;
  th_name : bytes;
  th_uctx : U;
  th_set_child_tid : Z;
  th_clear_child_tid : Z;
  th_oom_score_adj : Z;
}.
Arguments mkThr {_}.
Arguments th_pid {_}.
Arguments th_name {_}.
Arguments th_uctx {_}.
Arguments th_set_child_tid {_}.
Arguments th_clear_child_tid {_}.
Arguments th_oom_score_adj {_}.
#[export] Instance eta_Thr U : Eta (Thr U) := λ t,
  mkThr (th_pid t) (th_name t) (th_uctx t) (th_set_child_tid t) (th_clear_child_tid t) (th_oom_score_adj t).

(** [UserContext] *)
Class UserCtx (U : Type) := {
  uc_set_ip : Z → U → U;
  uc_set_sp : Z → U → U;
  uc_set_tls : Z → U → U;
  uc_set_retval : Z → U → U;
}.

(** [starry_process]: a new child of a process, in its group and without
    threads; a new thread of a process *)
Class ProcFork (T : Type) := {
  pt_fork : Z → Z → T → T;                  (* parent, child *)
  pt_add_thread : Z → Z → T → T;            (* process, thread *)
}.

(** [try_clone] of an address space may mark the pages of the original as
    copied on write. *)
Class SpaceClone (A : Type) := {
  as_try_clone : A → res A * A;
  as_copy_from_kernel : M A unit;
}.

Record CloneSys (T G V A L K F D U : Type) := mkCloneSys {
  c_sys : Sys T G V;
  c_data : gmap Z PData;
  c_threads : gmap Z (Thr U);
  c_spaces : gmap Z A;
  c_actions : gmap Z K;
  c_tables : gmap Z F;
  c_contexts : gmap Z D;
  c_cache : L;                              (* of the loader *)
  c_next : Z;                               (* the next object *)
  c_next_tid : Z;                           (* the next task *)
}.
Arguments mkCloneSys {_ _ _ _ _ _ _ _ _}.
Arguments c_sys {_ _ _ _ _ _ _ _ _}.
Arguments c_data {_ _ _ _ _ _ _ _ _}.
Arguments c_threads {_ _ _ _ _ _ _ _ _}.
Arguments c_spaces {_ _ _ _ _ _ _ _ _}.
Arguments c_actions {_ _ _ _ _ _ _ _ _}.
Arguments c_tables {_ _ _ _ _ _ _ _ _}.
Arguments c_contexts {_ _ _ _ _ _ _ _ _}.
Arguments c_cache {_ _ _ _ _ _ _ _ _}.
Arguments c_next {_ _ _ _ _ _ _ _ _}.
Arguments c_next_tid {_ _ _ _ _ _ _ _ _}.
#[export] Instance eta_CloneSys T G V A L K F D U : Eta (CloneSys T G V A L K F D U) := λ s,
  mkCloneSys (c_sys s) (c_data s) (c_threads s) (c_spaces s) (c_actions s) (c_tables s) (c_contexts s) (c_cache s)
    (c_next s) (c_next_tid s).

Section Clone.
Context {T G V A L K F D U : Type}.
Context `{ProcTree T, ProcFork T, VmPtr V Z, SpaceClone A, FlattenObjects F, UserCtx U}.
Abbreviation S := (CloneSys T G V A L K F D U).

(** The calling thread and its process *)
Context (cur_tid cur_pid : Z).

(** ** Objects *)

Definition new_object : M S Z := s ← getM; putM (s <| c_next ::= Z.succ |>);; mret (c_next s).
Definition new_space (a : A) : M S Z :=
  o ← new_object; modifyM (λ s, s <| c_spaces ::= <[o := a]> |>);; mret o.
Definition new_actions (h : K) : M S Z :=
  o ← new_object; modifyM (λ s, s <| c_actions ::= <[o := h]> |>);; mret o.
Definition new_table (f : F) : M S Z :=
  o ← new_object; modifyM (λ s, s <| c_tables ::= <[o := f]> |>);; mret o.
Definition new_context (d : D) : M S Z :=
  o ← new_object; modifyM (λ s, s <| c_contexts ::= <[o := d]> |>);; mret o.

(** The address space of the child: the same, or a clone with the mappings of
    the kernel *)
Definition clone_space (share : bool) (o : Z) : M S Z :=
  if share then mret o
  else
    s ← getM;
    a ← liftR (unwrap (c_spaces s !! o));
    let '(r, a) := as_try_clone a in
    putM (s <| c_spaces ::= <[o := a]> |>);;
    child ← liftR r;
    let '(r, child) := as_copy_from_kernel child in
    liftR r;;
    new_space child.

Definition clone_actions (share : bool) (o : Z) : M S Z :=
  if share then mret o else s ← getM; h ← liftR (unwrap (c_actions s !! o)); new_actions h.
Definition clone_table (share : bool) (o : Z) : M S Z :=
  if share then mret o else s ← getM; f ← liftR (unwrap (c_tables s !! o)); new_table f.
Definition clone_context (share : bool) (o : Z) : M S Z :=
  if share then mret o else s ← getM; d ← liftR (unwrap (c_contexts s !! o)); new_context d.

(** ** [clone] *)

(** [Signo::from_repr] *)
Definition signo_of (n : Z) : option Z := match parse_signo n with Ok n => Some n | _ => None end.

Definition ProcessData_new (exe_path : bytes) (cmdline : list bytes) (aspace fds fs actions : Z)
    (exit_signal : option Z) : PData :=
  mkPData exe_path cmdline aspace fds fs USER_HEAP_BASE Rlimits_default exit_signal actions 18.

(** The parent of the child: that of the caller, or the caller *)
Definition clone_parent (flags : Z) (t : T) : res Z :=
  if has_flag flags CLONE_PARENT then ok_or InvalidInput (pt_parent t cur_pid) else Ok cur_pid.

(** The data of the new process [tid] *)
Definition clone_process (flags : Z) (exit_signal : option Z) (old : PData) (tid : Z) : M S PData :=
  s ← getM;
  parent ← liftR (clone_parent flags (tree (c_sys s)));
  modifyM (λ s, s <| c_sys ::= λ y, y <| tree ::= pt_fork parent tid |> |>);;
  aspace ← clone_space (has_flag flags CLONE_VM) (pd_aspace old);
  actions ← clone_actions (has_flag flags CLONE_SIGHAND) (pd_actions old);
  fds ← clone_table (has_flag flags CLONE_FILES) (pd_fds old);
  fs ← clone_context (has_flag flags CLONE_FS) (pd_fs old);
  mret ((ProcessData_new (pd_exe_path old) (pd_cmdline old) aspace fds fs actions exit_signal)
        <| pd_umask := pd_umask old |> <| pd_heap_top := pd_heap_top old |>).

(** A descriptor for the new process in the caller's table, stored at
    [parent_tid] *)
Definition clone_pidfd (old : PData) (parent_tid : Z) : M S unit :=
  file ← new_object;
  s ← getM;
  f ← liftR (unwrap (c_tables s !! pd_fds old));
  limit ← liftR (unwrap (pd_rlim old !! Z.to_nat RLIMIT_NOFILE));
  let '(r, st) := add_file_like (rl_current limit) file true (mkFdState f tt) in
  putM (s <| c_tables ::= <[pd_fds old := fs_table st]> |>);;
  fd ← liftR r;
  s ← getM;
  let '(r, v) := vm_write parent_tid fd (user (c_sys s)) in
  putM (s <| c_sys ::= λ y, y <| user := v |> |>);;
  liftR r.

(** [spawn_task] and [add_task_to_table] *)
Definition spawn (tid pid : Z) (data : PData) (thr : Thr U) : M S unit :=
  modifyM (λ s, s <| c_data ::= <[pid := data]> |> <| c_threads ::= <[tid := thr]> |>
                  <| c_sys ::= λ y, add_task_to_table tid pid
                       (y <| live_tasks ::= <[tid := Some pid]> |>
                          <| live_data ::= <[pid := pd_exit_signal data]> |>) |>).

(** The steps that follow when the process of the new thread is known *)
Definition clone_finish (flags : Z) (old : PData) (parent_tid tid pid : Z) (data : PData) (thr : Thr U) : M S Z :=
  modifyM (λ s, s <| c_sys ::= λ y, y <| tree ::= pt_add_thread pid tid |> |>);;
  (if has_flag flags CLONE_PIDFD then clone_pidfd old parent_tid else mret tt);;
  spawn tid pid data thr;;
  mret tid.

Definition clone_flags (flags : Z) : Z :=
  let flags := from_bits_truncate CloneFlags_all (Z.ldiff flags 0xff) in
  if has_flag flags CLONE_VFORK then Z.ldiff flags CLONE_VM else flags.

(** Whether the flags are refused *)
Definition clone_refused (flags exit_signal : Z) : bool :=
  (negb (exit_signal =? 0) && has_flag flags (Z.lor CLONE_THREAD CLONE_PARENT))
  || (has_flag flags CLONE_THREAD && negb (has_flag flags (Z.lor CLONE_VM CLONE_SIGHAND)))
  || has_flag flags (Z.lor CLONE_PIDFD CLONE_PARENT_SETTID).

(** The registers of the child *)
Definition child_context (flags stack tls : Z) (u : U) : U :=
  let u := if negb (stack =? 0) then uc_set_sp stack u else u in
  let u := if has_flag flags CLONE_SETTLS then uc_set_tls tls u else u in
  uc_set_retval 0 u.

Definition sys_clone (flags stack parent_tid child_tid tls : Z) : M S Z :=
  let exit_signal := Z.land flags 0xff in
  let flags := clone_flags flags in
  if clone_refused flags exit_signal then failM InvalidInput
  else
    s ← getM;
    thr ← liftR (unwrap (c_threads s !! cur_tid));
    old ← liftR (unwrap (c_data s !! cur_pid));
    let new_uctx := child_context flags stack tls (th_uctx thr) in
    let set_child_tid := if has_flag flags CLONE_CHILD_SETTID then child_tid else 0 in
    let tid := c_next_tid s in
    putM (s <| c_next_tid ::= Z.succ |>);;
    (if has_flag flags CLONE_PARENT_SETTID then
       modifyM (λ s, s <| c_sys ::= λ y, y <| user ::= λ v, (vm_write parent_tid tid v).2 |> |>)
     else mret tt);;
    new ← (if has_flag flags CLONE_THREAD then mret (cur_pid, old)
           else d ← clone_process flags (signo_of exit_signal) old tid;
                mret (tid, d));
    let '(pid, data) := new in
    let clear := if has_flag flags CLONE_CHILD_CLEARTID then child_tid else 0 in
    clone_finish flags old parent_tid tid pid data (mkThr pid (th_name thr) new_uctx set_child_tid clear 200).

Definition sys_fork : M S Z := sys_clone SIGCHLD 0 0 0 0.

(** What a new task does first: it stores its number. *)
Definition first_run (tid : Z) (thr : Thr U) (v : V) : V :=
  if th_set_child_tid thr =? 0 then v else (vm_write (th_set_child_tid thr) tid v).2.

(** ** [execve] *)

Context `{MmapSpace A, Lru L, LoadWorld A}.
(** [SignalActions::default], and what the file system says of a location *)
Context (default_actions : K) (loc_name : Z → bytes) (absolute_path : Z → res bytes).

(** [load_user_app] on the caller's address space *)
Definition exec_load (fuel : nat) (d : PData) (path : bytes) (args envs : list bytes) (s : S)
    : option (res (Z * Z) * S) :=
  match c_spaces s !! pd_aspace d with
  | None => Some (Panic, s)
  | Some a =>
      match load_user_app fuel (Some path) args envs (mkLoader a (c_cache s)) with
      | None => None
      | Some (r, l) => Some (r, s <| c_spaces ::= <[pd_aspace d := ld_space l]> |> <| c_cache := ld_cache l |>)
      end
  end.

(** After the program has been loaded *)
Definition exec_commit (d : PData) (path : bytes) (args : list bytes) (entry sp : Z) : M S Z :=
  loc ← liftR (lw_resolve path);
  modifyM (λ s, s <| c_threads ::= alter (λ t, t <| th_name := loc_name loc |>) cur_tid |>);;
  exe ← liftR (absolute_path loc);
  modifyM (λ s, s
    <| c_data ::= <[cur_pid := d <| pd_exe_path := exe |> <| pd_cmdline := args |> <| pd_heap_top := USER_HEAP_BASE |>]> |>
    <| c_actions ::= <[pd_actions d := default_actions]> |>
    <| c_tables ::= alter close_cloexec_fds (pd_fds d) |>
    <| c_threads ::= alter (λ t, t <| th_clear_child_tid := 0 |>
                                   <| th_uctx ::= λ u, uc_set_sp sp (uc_set_ip entry u) |>) cur_tid |>);;
  mret 0.

(** [path], [argv] and [envp] are what is read from user memory; [None] is a
    null pointer. *)
Definition sys_execve (fuel : nat) (path : res bytes) (argv envp : option (res (list bytes))) (s : S)
    : option (res Z * S) :=
  match (p ← path; a ← default (Ok []) argv; e ← default (Ok []) envp; Ok (p, a, e)) with
  | Err e => Some (Err e, s)
  | Panic => Some (Panic, s)
  | Ok (path, args, envs) =>
      match c_data s !! cur_pid with
      | None => Some (Panic, s)
      | Some d =>
          if (1 <? length (pt_threads (tree (c_sys s)) cur_pid))%nat then Some (Err WouldBlock, s)
          else
            match exec_load fuel d path args envs s with
            | None => None
            | Some (Ok (entry, sp), s) => Some (exec_commit d path args entry sp s)
            | Some (Err e, s) => Some (Err e, s)
            | Some (Panic, s) => Some (Panic, s)
            end
      end
  end.
End Clone.

(** ** What the interfaces promise *)

Class ProcForkOk (T : Type) `{ProcTree T, ProcFork T} := {
  pt_fork_children parent c t p x : x ∈ pt_children (pt_fork parent c t) p ↔ x ∈ pt_children t p ∨ p = parent ∧ x = c;
  pt_fork_parent parent c t : pt_parent (pt_fork parent c t) c = Some parent;
  pt_add_thread_threads pid tid t p x :
    x ∈ pt_threads (pt_add_thread pid tid t) p ↔ x ∈ pt_threads t p ∨ p = pid ∧ x = tid;
  pt_add_thread_children pid tid t p : pt_children (pt_add_thread pid tid t) p = pt_children t p;
  pt_add_thread_parent pid tid t p : pt_parent (pt_add_thread pid tid t) p = pt_parent t p;
}.

(** A clone has the mappings of the original, which keeps them. *)
Class SpaceCloneOk (A : Type) `{MmapSpaceOk A, SpaceClone A} := {
  as_try_clone_ok a r a' : as_try_clone a = (r, a') →
    r ≠ Panic ∧ (∀ x, mm_perm a' x = mm_perm a x) ∧ ∀ c, r = Ok c → ∀ x, mm_perm c x = mm_perm a x;
  as_copy_from_kernel_ok a r a' : as_copy_from_kernel a = (r, a') → r ≠ Panic ∧ ∀ x, mm_perm a' x = mm_perm a x;
}.

Section Facts.
Context {T G V A L K F D U : Type}.
Context `{ProcForkOk T, VmPtrOk V Z, SpaceCloneOk A, FlattenObjects F, UserCtx U}.
Abbreviation S := (CloneSys T G V A L K F D U).
Implicit Types (s : S) (d : PData).
Context (cur_tid cur_pid : Z).

(** The references of a process exist, and the numbers to come are not in use. *)
Definition refs_ok s d : Prop :=
  is_Some (c_spaces s !! pd_aspace d) ∧ is_Some (c_actions s !! pd_actions d)
  ∧ is_Some (c_tables s !! pd_fds d) ∧ is_Some (c_contexts s !! pd_fs d) ∧ length (pd_rlim d) = Z.to_nat RLIM_NLIMITS.
Definition unused s (o : Z) : Prop :=
  c_spaces s !! o = None ∧ c_actions s !! o = None ∧ c_tables s !! o = None ∧ c_contexts s !! o = None.
Record clone_wf s : Prop := {
  wf_refs p d : c_data s !! p = Some d → refs_ok s d;
  wf_unused o : c_next s ≤ o → unused s o;
  wf_tids t : c_next_tid s ≤ t → c_data s !! t = None ∧ c_threads s !! t = None;
  wf_threads t h : c_threads s !! t = Some h → is_Some (c_data s !! th_pid h);
}.

(** The object of a child: that of its parent, or a new one with the same
    content *)
Definition inherited {X} (share : bool) (m m' : gmap Z X) (o o' : Z) : Prop :=
  if share then o' = o ∧ m' = m
  else ∃ x, m !! o = Some x ∧ m !! o' = None ∧ m' = <[o' := x]> m.
Definition inherited_space (share : bool) (m m' : gmap Z A) (o o' : Z) : Prop :=
  if share then o' = o ∧ m' = m
  else ∃ a a1 c, m !! o = Some a ∧ m !! o' = None ∧ m' = <[o' := c]> (<[o := a1]> m)
    ∧ ∀ x, mm_perm a1 x = mm_perm a x ∧ mm_perm c x = mm_perm a x.

Lemma inherited_some {X} share (m m' : gmap Z X) o o' x :
  inherited share m m' o o' → is_Some (m !! x) → is_Some (m' !! x).
Proof.
  unfold inherited. destruct share; [by intros [_ ->]|]. intros (y & _ & _ & ->) Hx. rewrite lookup_insert_is_Some'. auto.
Qed.
Lemma inherited_new {X} share (m m' : gmap Z X) o o' :
  inherited share m m' o o' → is_Some (m !! o) → is_Some (m' !! o').
Proof.
  unfold inherited. destruct share; [by intros [-> ->]|]. intros (y & _ & _ & ->) _. by rewrite lookup_insert_eq.
Qed.
Lemma inherited_space_some share m m' o o' x :
  inherited_space share m m' o o' → is_Some (m !! x) → is_Some (m' !! x).
Proof.
  unfold inherited_space. destruct share; [by intros [_ ->]|]. intros (a & a1 & c & _ & _ & -> & _) Hx.
  rewrite !lookup_insert_is_Some'. auto.
Qed.
Lemma inherited_space_new share m m' o o' :
  inherited_space share m m' o o' → is_Some (m !! o) → is_Some (m' !! o').
Proof.
  unfold inherited_space. destruct share; [by intros [-> ->]|]. intros (a & a1 & c & _ & _ & -> & _) _.
  by rewrite lookup_insert_eq.
Qed.

(** [s'] has more objects than [s], and is otherwise as [s]. *)
Definition more_objects s s' : Prop :=
  c_data s' = c_data s ∧ c_threads s' = c_threads s ∧ c_sys s' = c_sys s ∧ c_cache s' = c_cache s
  ∧ c_next_tid s' = c_next_tid s ∧ c_next s ≤ c_next s' ∧ ∀ o, c_next s' ≤ o → unused s o → unused s' o.
#[local] Instance more_objects_refl : Reflexive more_objects.
Proof. intros s. split_and!; done || lia. Qed.
#[local] Instance more_objects_trans : Transitive more_objects.
Proof.
  intros s1 s2 s3 (?&?&?&?&?&?&Hu1) (?&?&?&?&?&?&Hu2). split_and!; try congruence; [lia|].
  intros o Ho Hu. apply Hu2; [done|]. apply Hu1; [lia|done].
Qed.

(** A new object with the content [h] *)
Local Ltac copied h :=
  eexists _, _; split; [done|]; cbn;
  split; [|split_and!; [|done..]; exists h; split_and!; [done|auto|done]; match goal with Hn : _ |- _ => by apply Hn end];
  split_and!; try done; [cbn; lia|]; intros x Hx (?&?&?&?); split_and!; try done; cbn in *;
  by rewrite lookup_insert_ne by lia.

Lemma clone_actions_spec share o s : (∀ x, c_next s ≤ x → unused s x) → is_Some (c_actions s !! o) →
  ∃ o' s', clone_actions share o s = (Ok o', s') ∧ more_objects s s'
    ∧ inherited share (c_actions s) (c_actions s') o o'
    ∧ c_spaces s' = c_spaces s ∧ c_tables s' = c_tables s ∧ c_contexts s' = c_contexts s.
Proof.
  intros Hn [h Hh]. unfold clone_actions. destruct share; [by exists o, s|]. unfold new_actions, new_object. unfold_m.
  rewrite Hh. cbn [unwrap]. copied h.
Qed.
Lemma clone_table_spec share o s : (∀ x, c_next s ≤ x → unused s x) → is_Some (c_tables s !! o) →
  ∃ o' s', clone_table share o s = (Ok o', s') ∧ more_objects s s'
    ∧ inherited share (c_tables s) (c_tables s') o o'
    ∧ c_spaces s' = c_spaces s ∧ c_actions s' = c_actions s ∧ c_contexts s' = c_contexts s.
Proof.
  intros Hn [h Hh]. unfold clone_table. destruct share; [by exists o, s|]. unfold new_table, new_object. unfold_m.
  rewrite Hh. cbn [unwrap]. copied h.
Qed.
Lemma clone_context_spec share o s : (∀ x, c_next s ≤ x → unused s x) → is_Some (c_contexts s !! o) →
  ∃ o' s', clone_context share o s = (Ok o', s') ∧ more_objects s s'
    ∧ inherited share (c_contexts s) (c_contexts s') o o'
    ∧ c_spaces s' = c_spaces s ∧ c_actions s' = c_actions s ∧ c_tables s' = c_tables s.
Proof.
  intros Hn [h Hh]. unfold clone_context. destruct share; [by exists o, s|]. unfold new_context, new_object. unfold_m.
  rewrite Hh. cbn [unwrap]. copied h.
Qed.
Lemma clone_space_spec share o s r s' : (∀ x, c_next s ≤ x → unused s x) → is_Some (c_spaces s !! o) →
  clone_space share o s = (r, s') →
  more_objects s s' ∧ c_actions s' = c_actions s ∧ c_tables s' = c_tables s ∧ c_contexts s' = c_contexts s
  ∧ (∀ x, is_Some (c_spaces s !! x) → is_Some (c_spaces s' !! x))
  ∧ match r with
    | Ok o' => inherited_space share (c_spaces s) (c_spaces s') o o'
    | Err _ => share = false
    | Panic => False
    end.
Proof.
  intros Hn [a Ha]. unfold clone_space. destruct share; [by intros [= <- <-]|]. unfold new_space, new_object. unfold_m.
  rewrite Ha. cbn [unwrap].
  assert (Hmore : ∀ a1 s1, s1 = s <| c_spaces ::= <[o := a1]> |> → more_objects s s1).
  { intros a1 s1 ->. split_and!; try done. intros x Hx (Hs&?&?&?). split_and!; try done. cbn.
    rewrite lookup_insert_ne; [done|]. intros ->. congruence. }
  destruct (as_try_clone a) as [rc a1] eqn:Hc. apply as_try_clone_ok in Hc as (Hnp & Hp1 & Hpc).
  assert (Hold : ∀ x, is_Some (c_spaces s !! x) → is_Some (<[o := a1]> (c_spaces s) !! x)) by (intros; rewrite lookup_insert_is_Some'; auto).
  destruct rc as [c|e|]; [| |done].
  2:{ intros [= <- <-]. split; [by eapply Hmore|by split_and!]. }
  specialize (Hpc c eq_refl). destruct (as_copy_from_kernel c) as [rk c1] eqn:Hk.
  apply as_copy_from_kernel_ok in Hk as [Hnk Hpk]. destruct rk as [[]|e|]; [| |done].
  2:{ intros [= <- <-]. split; [by eapply Hmore|by split_and!]. }
  intros [= <- <-]. cbn. assert (Hfresh : c_spaces s !! c_next s = None) by (by apply Hn).
  split; [|split_and!; [done|done|done| |]].
  - etrans; [by apply (Hmore a1)|]. split_and!; try done; [cbn; lia|]. intros x Hx (Hs&?&?&?). split_and!; try done.
    cbn in *. rewrite lookup_insert_ne by lia. done.
  - intros x Hx. rewrite lookup_insert_is_Some'. auto.
  - exists a, a1, c1. split_and!; [done..|]. intros x. by rewrite Hpk.
Qed.

Lemma more_objects_unused s s' : more_objects s s' → (∀ x, c_next s ≤ x → unused s x) → ∀ x, c_next s' ≤ x → unused s' x.
Proof. intros (?&?&?&?&?&?&Hu) Hn x Hx. apply Hu; [done|]. apply Hn. lia. Qed.

(** The data of the child in terms of that of its parent *)
Definition child_data (flags : Z) (sig : option Z) s s' (old d : PData) : Prop :=
  inherited_space (has_flag flags CLONE_VM) (c_spaces s) (c_spaces s') (pd_aspace old) (pd_aspace d)
  ∧ inherited (has_flag flags CLONE_SIGHAND) (c_actions s) (c_actions s') (pd_actions old) (pd_actions d)
  ∧ inherited (has_flag flags CLONE_FILES) (c_tables s) (c_tables s') (pd_fds old) (pd_fds d)
  ∧ inherited (has_flag flags CLONE_FS) (c_contexts s) (c_contexts s') (pd_fs old) (pd_fs d)
  ∧ pd_exe_path d = pd_exe_path old ∧ pd_cmdline d = pd_cmdline old ∧ pd_heap_top d = pd_heap_top old
  ∧ pd_umask d = pd_umask old ∧ pd_exit_signal d = sig ∧ pd_rlim d = Rlimits_default.

Lemma child_data_refs flags sig s s' old d : child_data flags sig s s' old d →
  (∀ d0, refs_ok s d0 → refs_ok s' d0) ∧ (refs_ok s old → refs_ok s' d).
Proof.
  intros (Hs & Ha & Ht & Hf & _ & _ & _ & _ & _ & Hr). split.
  - intros d0 (?&?&?&?&?). split_and!; [by eapply inherited_space_some|by eapply inherited_some..|done].
  - intros (?&?&?&?&?). split_and!; [by eapply inherited_space_new|by eapply inherited_new..|by rewrite Hr].
Qed.

Lemma clone_process_spec flags sig old tid s r s' :
  (∀ x, c_next s ≤ x → unused s x) → refs_ok s old → clone_process cur_pid flags sig old tid s = (r, s') →
  (∃ s0, (s0 = s ∨ ∃ parent, s0 = s <| c_sys ::= λ y, y <| tree ::= pt_fork parent tid |> |>) ∧ more_objects s0 s')
  ∧ match r with
    | Ok d => child_data flags sig s s' old d
        ∧ ∃ parent, clone_parent cur_pid flags (tree (c_sys s)) = Ok parent
          ∧ c_sys s' = (c_sys s) <| tree ::= pt_fork parent tid |>
    | Err _ => (∀ d, refs_ok s d → refs_ok s' d)
        ∧ (c_sys s' = c_sys s
           ∨ has_flag flags CLONE_VM = false ∧ ∃ parent, clone_parent cur_pid flags (tree (c_sys s)) = Ok parent
               ∧ c_sys s' = (c_sys s) <| tree ::= pt_fork parent tid |>)
    | Panic => False
    end.
Proof.
  intros Hn (Hs & Ha & Ht & Hf & Hl). unfold clone_process. unfold_m.
  assert (clone_parent cur_pid flags (tree (c_sys s)) ≠ Panic) as Hpar.
  { unfold clone_parent, ok_or. by destruct (has_flag flags CLONE_PARENT), (pt_parent (tree (c_sys s)) cur_pid). }
  destruct (clone_parent cur_pid flags (tree (c_sys s))) as [parent|e|] eqn:Hp; [| |done].
  2:{ intros [= <- <-]. split; [|split; [done|by left]]. exists s. split; [by left|done]. }
  set (s0 := setf c_sys _ s). change (c_next s) with (c_next s0) in Hn. change (unused s) with (unused s0) in Hn.
  destruct (clone_space _ _ s0) as [r1 s1] eqn:Hsp. apply clone_space_spec in Hsp as (M1 & A1 & T1 & F1 & K1 & R1); [|done..].
  assert (Hst : ∀ s', more_objects s0 s' →
    ∃ s00, (s00 = s ∨ ∃ parent, s00 = s <| c_sys ::= λ y, y <| tree ::= pt_fork parent tid |> |>) ∧ more_objects s00 s').
  { intros s2 M2. exists s0. split; [right; by exists parent|done]. }
  destruct r1 as [o1|e|]; [| |done].
  2:{ intros [= <- <-]. split; [by apply Hst|]. split.
      - intros d (?&?&?&?&?). split_and!; [by apply K1|by rewrite A1|by rewrite T1|by rewrite F1|done].
      - right. split; [done|]. exists parent. split; [done|]. by destruct M1 as (_ & _ & -> & _). }
  destruct (clone_actions_spec (has_flag flags CLONE_SIGHAND) (pd_actions old) s1) as (o2 & s2 & -> & M2 & I2 & S2 & T2 & F2);
    [by eapply more_objects_unused|by rewrite A1|].
  destruct (clone_table_spec (has_flag flags CLONE_FILES) (pd_fds old) s2) as (o3 & s3 & -> & M3 & I3 & S3 & A3 & F3);
    [do 2 (eapply more_objects_unused; [done|]); done|by rewrite T2, T1|].
  destruct (clone_context_spec (has_flag flags CLONE_FS) (pd_fs old) s3) as (o4 & s4 & -> & M4 & I4 & S4 & A4 & T4);
    [do 3 (eapply more_objects_unused; [done|]); done|by rewrite F3, F2, F1|].
  intros [= <- <-]. assert (more_objects s0 s4) as M by (repeat (etrans; [eassumption|]); done).
  split; [by apply Hst|]. split.
  - rewrite A1 in I2. rewrite T2, T1 in I3. rewrite F3, F2, F1 in I4. unfold child_data. cbn.
    rewrite S4, S3, S2, A4, A3, T4. by split_and!.
  - exists parent. split; [done|]. destruct M as (_ & _ & -> & _). done.
Qed.

(** Only the caller's descriptor table and user memory change, and a number is
    used for the new file. *)
Definition pidfd_changes (o : Z) s s' : Prop :=
  ∃ f v, c_tables s' = <[o := f]> (c_tables s) ∧ c_sys s' = (c_sys s) <| user := v |>
    ∧ c_data s' = c_data s ∧ c_threads s' = c_threads s ∧ c_spaces s' = c_spaces s ∧ c_actions s' = c_actions s
    ∧ c_contexts s' = c_contexts s ∧ c_next_tid s' = c_next_tid s ∧ c_next s' = Z.succ (c_next s).

Lemma add_file_like_no_panic n f b (st : FdState F unit) : (add_file_like n f b st).1 ≠ Panic.
Proof.
  unfold add_file_like, on_table, ok_or. unfold_m. destruct (_ >=? _); [done|]. destruct (fo_add _ _) as [[]]; done.
Qed.

Lemma clone_pidfd_spec old ptr s r s' : refs_ok s old → clone_pidfd old ptr s = (r, s') →
  r ≠ Panic ∧ pidfd_changes (pd_fds old) s s'.
Proof.
  intros (_ & _ & [f Hf] & _ & Hlen). unfold clone_pidfd, new_object. unfold_m. cbn. rewrite Hf. cbn [unwrap].
  destruct (lookup_lt_is_Some_2 (pd_rlim old) (Z.to_nat RLIMIT_NOFILE)) as [limit ->]; [rewrite Hlen; by vm_compute; lia|].
  cbn [unwrap]. pose proof (add_file_like_no_panic (rl_current limit) (c_next s) true (mkFdState f tt)) as Hnp.
  destruct (add_file_like _ _ _ _) as [[fd|e|] st]; cbn in Hnp; [| |done].
  - cbn. pose proof (vm_write_no_panic (user (c_sys s)) ptr fd) as Hw.
    destruct (vm_write ptr fd (user (c_sys s))) as [rw v]. cbn in Hw. intros [= <- <-]. split; [by destruct rw|].
    by exists (fs_table st), v.
  - intros [= <- <-]. split; [done|]. exists (fs_table st), (user (c_sys s)). split_and!; try done. cbn. by destruct (c_sys s).
Qed.

Lemma pidfd_changes_refs o s s' d : is_Some (c_tables s !! o) → pidfd_changes o s s' → refs_ok s d → refs_ok s' d.
Proof.
  intros Ho (f & v & Ht & _ & _ & _ & Hs & Ha & Hc & _) (?&?&?&?&?). unfold refs_ok.
  rewrite Hs, Ha, Hc, Ht, lookup_insert_is_Some'. split_and!; auto.
Qed.
Lemma pidfd_changes_unused o s s' : is_Some (c_tables s !! o) → pidfd_changes o s s' →
  (∀ x, c_next s ≤ x → unused s x) → ∀ x, c_next s' ≤ x → unused s' x.
Proof.
  intros Ho (f & v & Ht & _ & _ & _ & Hs & Ha & Hc & _ & Hn) Hu x Hx. destruct (Hu x ltac:(lia)) as (?&?&Hx3&?).
  unfold unused. rewrite Hs, Ha, Hc, Ht, lookup_insert_ne; [done|]. intros ->. rewrite Hx3 in Ho. by destruct Ho.
Qed.

Lemma add_task_found tid pid (y : Sys T G V) : is_Some (live_tasks y !! tid) → is_Some (live_data y !! pid) →
  let y' := add_task_to_table tid pid y in
  task_found y' tid = true ∧ data_found y' pid = true ∧ tree y' = tree y.
Proof.
  intros Ht Hd y'. unfold y', add_task_to_table. set (y1 := setf task_table _ y).
  assert (Hfound : ∀ y2 : Sys T G V, live_tasks y2 = live_tasks y → live_data y2 = live_data y →
    tid ∈ task_table y2 → pid ∈ process_table y2 → task_found y2 tid = true ∧ data_found y2 pid = true).
  { intros y2 E1 E2 Hi Hj. unfold task_found, data_found. rewrite E1, E2, !bool_decide_eq_true_2; done. }
  destruct (data_found y1 pid) eqn:Hy1.
  { split_and!; [|done|done]. apply andb_true_iff in Hy1 as [Hp _]. apply bool_decide_eq_true in Hp.
    apply Hfound; try done. cbn. set_solver. }
  set (y2 := setf process_table _ y1). assert (tid ∈ task_table y2 ∧ pid ∈ process_table y2) as [Hi Hj] by (cbn; set_solver).
  repeat case_bool_decide; (split; [apply Hfound|split; [apply Hfound|]]); done.
Qed.

Lemma clone_finish_spec flags old ptr tid pid data thr s r s' :
  (∀ x, c_next s ≤ x → unused s x) → refs_ok s old → clone_finish flags old ptr tid pid data thr s = (r, s') →
  (∀ x, c_next s' ≤ x → unused s' x) ∧ (∀ d, refs_ok s d → refs_ok s' d) ∧ c_next_tid s' = c_next_tid s
  ∧ match r with
    | Ok t =>
        t = tid ∧ c_threads s' = <[tid := thr]> (c_threads s) ∧ c_data s' = <[pid := data]> (c_data s)
        ∧ tid ∈ pt_threads (tree (c_sys s')) pid ∧ (∀ p, pt_children (tree (c_sys s')) p = pt_children (tree (c_sys s)) p)
        ∧ task_found (c_sys s') tid = true ∧ data_found (c_sys s') pid = true
        ∧ c_spaces s' = c_spaces s ∧ c_actions s' = c_actions s ∧ c_contexts s' = c_contexts s
        ∧ (has_flag flags CLONE_PIDFD = false → c_tables s' = c_tables s)
    | Err _ => c_data s' = c_data s ∧ c_threads s' = c_threads s
        ∧ has_flag flags CLONE_PIDFD = true ∧ ∃ v, c_sys s' = (c_sys s) <| tree ::= pt_add_thread pid tid |> <| user := v |>
    | Panic => False
    end.
Proof.
  intros Hu Hold. unfold clone_finish. unfold_m. set (s0 := setf c_sys _ s).
  assert (Hspawn : ∀ s1, tree (c_sys s1) = tree (c_sys s0) → let s2 := (spawn tid pid data thr s1).2 in
    tid ∈ pt_threads (tree (c_sys s2)) pid ∧ (∀ p, pt_children (tree (c_sys s2)) p = pt_children (tree (c_sys s)) p)
    ∧ task_found (c_sys s2) tid = true ∧ data_found (c_sys s2) pid = true).
  { intros s1 Ht s2.
    pose (y := (c_sys s1) <| live_tasks ::= <[tid := Some pid]> |> <| live_data ::= <[pid := pd_exit_signal data]> |>).
    change (c_sys s2) with (add_task_to_table tid pid y).
    destruct (add_task_found tid pid y) as (Hf1 & Hf2 & Hf3); [cbn; rewrite lookup_insert_eq; by eexists..|].
    change (tree y) with (tree (c_sys s1)) in Hf3. rewrite Hf3, Ht. split_and!; [| |done|done]; [apply pt_add_thread_threads; by right|].
    intros p. apply pt_add_thread_children. }
  destruct (has_flag flags CLONE_PIDFD).
  - destruct (clone_pidfd old ptr s0) as [rp s1] eqn:Hp. apply clone_pidfd_spec in Hp as [Hnp Hch]; [|done].
    assert (is_Some (c_tables s0 !! pd_fds old)) as Ho by apply Hold.
    pose proof (pidfd_changes_unused _ _ _ Ho Hch Hu) as Hu1.
    pose proof (λ d, pidfd_changes_refs _ _ _ d Ho Hch) as Hr1.
    destruct Hch as (f & v & Ht & Hy & Hd & Hth & Hs & Ha & Hc & Hn & _).
    unfold s0 in Hd, Hth, Hs, Ha, Hc, Hn. cbn in Hd, Hth, Hs, Ha, Hc, Hn. destruct rp as [[]|e|]; [| |done].
    + specialize (Hspawn s1 ltac:(by rewrite Hy)). intros [= <- <-].
      split; [exact Hu1|]. split; [exact Hr1|]. split; [exact Hn|].
      destruct Hspawn as (?&?&?&?). split_and!; try done; cbn; congruence.
    + intros [= <- <-]. split; [exact Hu1|]. split; [exact Hr1|]. split_and!; try done. by exists v.
  - specialize (Hspawn s0 eq_refl). intros [= <- <-]. split; [exact Hu|]. split; [done|]. split; [done|].
    destruct Hspawn as (?&?&?&?). by split_and!.
Qed.

(** The state in which the process of the new thread is known *)
Lemma sys_clone_cases flags stack ptr ctid tls s thr old :
  c_threads s !! cur_tid = Some thr → c_data s !! cur_pid = Some old →
  let f := clone_flags flags in
  if clone_refused f (Z.land flags 0xff) then sys_clone cur_tid cur_pid flags stack ptr ctid tls s = (Err InvalidInput, s)
  else ∃ v, let tid := c_next_tid s in
    let s0 := s <| c_next_tid ::= Z.succ |> <| c_sys ::= λ y, y <| user := v |> |> in
    let finish pid data := clone_finish f old ptr tid pid data
      (mkThr pid (th_name thr) (child_context f stack tls (th_uctx thr))
         (if has_flag f CLONE_CHILD_SETTID then ctid else 0) (if has_flag f CLONE_CHILD_CLEARTID then ctid else 0) 200) in
    sys_clone cur_tid cur_pid flags stack ptr ctid tls s
    = (if has_flag f CLONE_THREAD then finish cur_pid old
       else d ← clone_process cur_pid f (signo_of (Z.land flags 0xff)) old tid; finish tid d) s0.
Proof.
  intros Ht Hd f. unfold sys_clone. fold f. destruct (clone_refused f _); [done|]. unfold_m. rewrite Ht, Hd. cbn [unwrap].
  destruct (has_flag f CLONE_PARENT_SETTID).
  - exists (vm_write ptr (c_next_tid s) (user (c_sys s))).2. destruct (has_flag f CLONE_THREAD); [done|].
    set (s1 := setf c_sys (λ y, setf user (λ v, (vm_write _ _ v).2) y) _). set (s2 := setf c_sys _ _). change s1 with s2.
    by destruct (clone_process _ _ _ _ _ s2) as [[]].
  - exists (user (c_sys s)). set (s1 := s <| c_next_tid ::= Z.succ |>).
    assert (s1 <| c_sys ::= λ y, y <| user := user (c_sys s) |> |> = s1) as -> by (unfold s1; destruct s as [[]]; done).
    destruct (has_flag f CLONE_THREAD); [done|]. by destruct (clone_process _ _ _ _ _ s1) as [[]].
Qed.

Lemma wf_after_error s s' : clone_wf s → (∀ x, c_next s' ≤ x → unused s' x) → (∀ d, refs_ok s d → refs_ok s' d) →
  c_next_tid s ≤ c_next_tid s' → c_data s' = c_data s → c_threads s' = c_threads s → clone_wf s'.
Proof.
  intros [W1 W2 W3 W4] Hu Hr Ht Hd Hth. split; rewrite ?Hd, ?Hth; [naive_solver|done| |done].
  intros t' Hge. apply W3. lia.
Qed.

Lemma wf_after_clone s s' tid pid d thr : clone_wf s → (∀ x, c_next s' ≤ x → unused s' x) → (∀ d, refs_ok s d → refs_ok s' d) →
  tid = c_next_tid s → c_next_tid s' = Z.succ tid → refs_ok s' d → th_pid thr = pid → pid ≤ tid →
  c_data s' = <[pid := d]> (c_data s) → c_threads s' = <[tid := thr]> (c_threads s) → clone_wf s'.
Proof.
  intros [W1 W2 W3 W4] Hu Hr -> Ht Hd Hp Hle Ed Et. split; rewrite ?Ed, ?Et; [|done| |].
  - intros p d' [[<- <-]|[_ ?]]%lookup_insert_Some; [done|]. naive_solver.
  - intros t' Hge. rewrite !lookup_insert_ne by lia. apply W3. lia.
  - intros t' h [[<- <-]|[_ Hh]]%lookup_insert_Some; [by rewrite Hp, lookup_insert_eq|].
    rewrite lookup_insert_is_Some'. right. by eapply W4.
Qed.

(** What a call that failed has done to the process tree *)
Definition leftover (flags tid : Z) (t t' : T) : Prop :=
  t' = t
  ∨ if has_flag flags CLONE_THREAD then has_flag flags CLONE_PIDFD = true ∧ t' = pt_add_thread cur_pid tid t
    else ∃ parent, clone_parent cur_pid flags t = Ok parent
      ∧ (has_flag flags CLONE_VM = false ∧ t' = pt_fork parent tid t
         ∨ has_flag flags CLONE_PIDFD = true ∧ t' = pt_add_thread tid tid (pt_fork parent tid t)).

(** C13: [clone].  It never panics and keeps the bookkeeping consistent: every
    process refers to objects that exist, and new numbers are not in use.  On
    success there is one new thread, found in the tables and a thread of its
    process, with the registers, name and addresses that were asked for.  With
    [CLONE_THREAD] it belongs to the caller's process, and no process is added.
    Otherwise there is one new process, a child of the caller or of the
    caller's parent, which shares exactly the objects it was asked to share and
    has copies, made at the call, of the others; path, command line, heap top
    and file mask are inherited, the resource limits are the default ones.  A
    call that fails adds no thread and no process data, and the tables of tasks
    are as before; but a child whose address space could not be copied, or a
    child or thread whose descriptor could not be made, stays in the process
    tree. *)
Theorem clone_inherits flags stack ptr ctid tls s thr old r s' :
  clone_wf s → c_threads s !! cur_tid = Some thr → c_data s !! cur_pid = Some old →
  sys_clone cur_tid cur_pid flags stack ptr ctid tls s = (r, s') →
  let f := clone_flags flags in
  clone_wf s' ∧
  match r with
  | Ok tid =>
      let pid := if has_flag f CLONE_THREAD then cur_pid else tid in
      tid = c_next_tid s
      ∧ c_threads s' = <[tid := mkThr pid (th_name thr) (child_context f stack tls (th_uctx thr))
           (if has_flag f CLONE_CHILD_SETTID then ctid else 0) (if has_flag f CLONE_CHILD_CLEARTID then ctid else 0) 200]>
           (c_threads s)
      ∧ tid ∈ pt_threads (tree (c_sys s')) pid ∧ task_found (c_sys s') tid = true ∧ data_found (c_sys s') pid = true
      ∧ if has_flag f CLONE_THREAD then
          c_data s' = c_data s ∧ c_spaces s' = c_spaces s ∧ c_actions s' = c_actions s ∧ c_contexts s' = c_contexts s
        else
          ∃ d parent s1, c_data s' = <[tid := d]> (c_data s) ∧ child_data f (signo_of (Z.land flags 0xff)) s s1 old d
            ∧ c_spaces s' = c_spaces s1 ∧ c_actions s' = c_actions s1 ∧ c_contexts s' = c_contexts s1
            ∧ (has_flag f CLONE_PIDFD = false → c_tables s' = c_tables s1)
            ∧ clone_parent cur_pid f (tree (c_sys s)) = Ok parent ∧ tid ∈ pt_children (tree (c_sys s')) parent
  | Err _ => c_data s' = c_data s ∧ c_threads s' = c_threads s
      ∧ ∃ t v, c_sys s' = (c_sys s) <| tree := t |> <| user := v |> ∧ leftover f (c_next_tid s) (tree (c_sys s)) t
  | Panic => False
  end.
Proof.
  intros Hwf Ht Hd Hc f. pose proof (wf_refs s Hwf _ _ Hd) as Hold. pose proof (wf_unused s Hwf) as Hu.
  pose proof (sys_clone_cases flags stack ptr ctid tls s thr old Ht Hd) as Hcase. cbv zeta in Hcase. fold f in Hcase.
  destruct (clone_refused f (Z.land flags 0xff)).
  { rewrite Hc in Hcase. injection Hcase as -> ->. split_and!; try done. exists (tree (c_sys s)), (user (c_sys s)).
    split; [by destruct (c_sys s)|by left]. }
  destruct Hcase as (v & Hcase). rewrite Hc in Hcase. clear Hc. symmetry in Hcase.
  set (s0 := setf c_sys _ _) in Hcase. change (c_next s) with (c_next s0) in Hu. change (unused s) with (unused s0) in Hu.
  assert (Hlt : cur_pid < c_next_tid s).
  { apply Z.nle_gt. intros Hge. apply (wf_tids s Hwf) in Hge as [Hge _]. congruence. }
  destruct (has_flag f CLONE_THREAD) eqn:Hthread.
  - apply clone_finish_spec in Hcase as (Hu' & Hr' & Hn' & Hres); [|done..]. destruct r as [tid|e|]; [| |done].
    + destruct Hres as (-> & Et & Ed & Hin & _ & Hf1 & Hf2 & Es & Ea & Ec & _).
      change (c_data s0) with (c_data s) in Ed. split.
      * eapply (wf_after_clone _ _ (c_next_tid s) cur_pid); [done|done|exact Hr'|done|done|by apply Hr'| |lia|exact Ed|exact Et]; done.
      * rewrite insert_id in Ed by done. by split_and!.
    + destruct Hres as (Ed & Et & Hfd & v' & Hsys). split.
      2:{ split_and!; try done. exists (pt_add_thread cur_pid (c_next_tid s) (tree (c_sys s))), v'. split; [by rewrite Hsys|].
          right. by rewrite Hthread. }
      eapply wf_after_error; [done|done|exact Hr'|rewrite Hn'; change (c_next_tid s0) with (Z.succ (c_next_tid s)); lia|done|done].
  - unfold mbind, M_bind in Hcase.
    destruct (clone_process cur_pid f _ old (c_next_tid s) s0) as [rp s1] eqn:Hp.
    apply clone_process_spec in Hp as [(s00 & Hs00 & Hmore) Hres]; [|done..].
    assert (c_next s00 = c_next s0 ∧ unused s00 = unused s0 ∧ c_data s00 = c_data s ∧ c_threads s00 = c_threads s
            ∧ c_next_tid s00 = Z.succ (c_next_tid s)) as (E1 & E2 & E3 & E4 & E5)
      by (destruct Hs00 as [->|[parent ->]]; done).
    assert (Hu1 : ∀ x, c_next s1 ≤ x → unused s1 x) by (eapply more_objects_unused; [done|by rewrite E1, E2]).
    destruct Hmore as (Ed1 & Et1 & _ & _ & En1 & _). rewrite E3 in Ed1. rewrite E4 in Et1. rewrite E5 in En1.
    destruct rp as [d|e|]; [| |done].
    2:{ injection Hcase as <- <-. destruct Hres as [Hres Hsys]. split.
        { eapply wf_after_error; [done|done|exact Hres|rewrite En1; lia|done..]. }
        split_and!; try done. destruct Hsys as [Hsys|(Hvm & parent & Hpar & Hsys)].
        - exists (tree (c_sys s)), v. rewrite Hsys. change (c_sys s0) with ((c_sys s) <| user := v |>).
          split; [by destruct (c_sys s)|by left].
        - exists (pt_fork parent (c_next_tid s) (tree (c_sys s))), v. rewrite Hsys. split; [done|].
          right. rewrite Hthread. exists parent. auto. }
    destruct Hres as [Hch (parent & Hpar & Hsys)].
    destruct (child_data_refs _ _ _ _ _ _ Hch) as [Hkeep Hnew].
    apply clone_finish_spec in Hcase as (Hu' & Hr' & Hn' & Hres); [|done|by apply Hkeep].
    destruct r as [tid|e|]; [| |done].
    + destruct Hres as (-> & Et & Ed & Hin & Hchild & Hf1 & Hf2 & Es & Ea & Ec & Etb). rewrite Ed1 in Ed. rewrite Et1 in Et. split.
      * eapply (wf_after_clone _ _ (c_next_tid s) (c_next_tid s)); [done|done|intros d' Hd'; apply Hr', Hkeep, Hd'|done|congruence|by apply Hr', Hnew| |lia|exact Ed|exact Et]; done.
      * split_and!; try done. exists d, parent, s1. split_and!; try done. rewrite Hchild, Hsys.
        apply pt_fork_children. by right.
    + destruct Hres as (Ed & Et & Hfd & v' & Hsys2). split.
      2:{ split; [by rewrite Ed|]. split; [by rewrite Et|].
          exists (pt_add_thread (c_next_tid s) (c_next_tid s) (pt_fork parent (c_next_tid s) (tree (c_sys s)))), v'.
          split; [by rewrite Hsys2, Hsys|]. right. rewrite Hthread. exists parent. auto. }
      eapply wf_after_error; [done|done|intros d' Hd'; apply Hr', Hkeep, Hd'|rewrite Hn', En1; lia|congruence..].
Qed.

(** ** A new program *)

Context `{Lru L, LoadWorld A, !FlattenObjectsOk F}.
Context (default_actions : K) (loc_name : Z → bytes) (absolute_path : Z → res bytes).

(** What a call of process [d] may change: the objects it refers to *)
Definition exec_frame (d : PData) s s' : Prop :=
  c_sys s' = c_sys s ∧ c_contexts s' = c_contexts s ∧ c_next s' = c_next s ∧ c_next_tid s' = c_next_tid s
  ∧ (∀ p, p ≠ cur_pid → c_data s' !! p = c_data s !! p)
  ∧ (∀ t, t ≠ cur_tid → c_threads s' !! t = c_threads s !! t)
  ∧ (∀ o, o ≠ pd_aspace d → c_spaces s' !! o = c_spaces s !! o)
  ∧ (∀ o, o ≠ pd_actions d → c_actions s' !! o = c_actions s !! o)
  ∧ (∀ o, o ≠ pd_fds d → c_tables s' !! o = c_tables s !! o).
#[local] Instance exec_frame_refl d : Reflexive (exec_frame d).
Proof. intros s. by split_and!. Qed.
#[local] Instance exec_frame_trans d : Transitive (exec_frame d).
Proof.
  intros s1 s2 s3 (?&?&?&?&Hp1&Ht1&Hs1&Ha1&Hf1) (?&?&?&?&Hp2&Ht2&Hs2&Ha2&Hf2). split_and!; try congruence; intros x Hx.
  - by rewrite Hp2, Hp1.
  - by rewrite Ht2, Ht1.
  - by rewrite Hs2, Hs1.
  - by rewrite Ha2, Ha1.
  - by rewrite Hf2, Hf1.
Qed.

Lemma exec_load_spec fuel d path args envs s r s' : exec_load fuel d path args envs s = Some (r, s') →
  exec_frame d s s' ∧ c_data s' = c_data s ∧ c_threads s' = c_threads s ∧ c_actions s' = c_actions s
  ∧ c_tables s' = c_tables s
  ∧ (r ≠ Panic → ∃ a l, c_spaces s !! pd_aspace d = Some a
       ∧ load_user_app fuel (Some path) args envs (mkLoader a (c_cache s)) = Some (r, l)
       ∧ c_spaces s' !! pd_aspace d = Some (ld_space l))
  ∧ ∀ o, is_Some (c_spaces s !! o) ↔ is_Some (c_spaces s' !! o).
Proof.
  unfold exec_load. destruct (c_spaces s !! pd_aspace d) as [a|] eqn:Ha; [|intros [= <- <-]; by split_and!].
  destruct (load_user_app _ _ _ _ _) as [[r1 l]|] eqn:Hl; [|done]. intros [= <- <-].
  split; [|split_and!; try done].
  - split_and!; try done. intros o Ho. cbn. by rewrite lookup_insert_ne.
  - intros _. exists a, l. split_and!; [done|exact Hl|]. cbn. by rewrite lookup_insert_eq.
  - intros o. cbn. rewrite lookup_insert_is_Some'. split; [by right|]. intros [<-|?]; [by exists a|done].
Qed.

(** The same objects exist, and the processes refer to the same ones. *)
Definition same_objects s s' : Prop :=
  (∀ o, is_Some (c_spaces s !! o) ↔ is_Some (c_spaces s' !! o)) ∧ (∀ o, is_Some (c_actions s !! o) ↔ is_Some (c_actions s' !! o))
  ∧ (∀ o, is_Some (c_tables s !! o) ↔ is_Some (c_tables s' !! o)).

Lemma wf_same_objects s s' : clone_wf s → same_objects s s' → c_contexts s' = c_contexts s → c_next s' = c_next s →
  c_next_tid s' = c_next_tid s →
  (∀ p, c_data s' !! p = c_data s !! p
     ∨ ∃ d d', c_data s !! p = Some d ∧ c_data s' !! p = Some d' ∧ pd_aspace d' = pd_aspace d
         ∧ pd_actions d' = pd_actions d ∧ pd_fds d' = pd_fds d ∧ pd_fs d' = pd_fs d ∧ pd_rlim d' = pd_rlim d) →
  (∀ t, th_pid <$> c_threads s' !! t = th_pid <$> c_threads s !! t) → clone_wf s'.
Proof.
  intros [W1 W2 W3 W4] (Hs & Ha & Ht) Hc Hn Hnt Hd Hth.
  assert (Hrefs : ∀ d, refs_ok s d → refs_ok s' d).
  { intros d (?&?&?&?&?). split_and!; [by apply Hs|by apply Ha|by apply Ht|by rewrite Hc|done]. }
  assert (Hnone : ∀ X (m m' : gmap Z X) o, (is_Some (m !! o) ↔ is_Some (m' !! o)) → m !! o = None → m' !! o = None).
  { intros X m m' o Hi. rewrite !eq_None_not_Some. tauto. }
  split.
  - intros p d' Hp. destruct (Hd p) as [E|(d & d2 & E1 & E2 & ? & ? & ? & ? & ?)]; [apply Hrefs, (W1 p); congruence|].
    assert (d2 = d') as -> by congruence. apply W1, Hrefs in E1. unfold refs_ok in *.
    repeat match goal with E : _ d' = _ |- _ => rewrite E; clear E end. done.
  - intros o Ho. rewrite Hn in Ho. destruct (W2 o Ho) as (?&?&?&?).
    split_and!; [by apply (Hnone _ (c_spaces s))|by apply (Hnone _ (c_actions s))|by apply (Hnone _ (c_tables s))|by rewrite Hc].
  - intros x Hx. rewrite Hnt in Hx. destruct (W3 x Hx) as [E1 E2]. split.
    + destruct (Hd x) as [->|(d & d2 & ? & _)]; [done|congruence].
    + specialize (Hth x). rewrite E2 in Hth. by destruct (c_threads s' !! x).
  - intros x h Hx. specialize (Hth x). rewrite Hx in Hth. destruct (c_threads s !! x) as [h0|] eqn:E0; [|done].
    injection Hth as ->. destruct (W4 x h0 E0) as [d0 Hd0]. destruct (Hd (th_pid h0)) as [->|(d & d2 & ? & ? & _)]; by eexists.
Qed.

Lemma exec_commit_spec d path args entry sp s r s' :
  c_data s !! cur_pid = Some d → is_Some (c_actions s !! pd_actions d) →
  exec_commit cur_tid cur_pid default_actions loc_name absolute_path d path args entry sp s = (r, s') →
  exec_frame d s s' ∧ c_spaces s' = c_spaces s ∧ same_objects s s'
  ∧ (∀ t, th_pid <$> c_threads s' !! t = th_pid <$> c_threads s !! t)
  ∧ match r with
    | Ok n => ∃ loc exe, n = 0 ∧ lw_resolve path = Ok loc ∧ absolute_path loc = Ok exe
        ∧ c_data s' !! cur_pid = Some (d <| pd_exe_path := exe |> <| pd_cmdline := args |> <| pd_heap_top := USER_HEAP_BASE |>)
        ∧ c_actions s' !! pd_actions d = Some default_actions
        ∧ c_tables s' !! pd_fds d = close_cloexec_fds <$> c_tables s !! pd_fds d
        ∧ c_threads s' !! cur_tid
          = (λ t, t <| th_name := loc_name loc |> <| th_clear_child_tid := 0 |>
                    <| th_uctx ::= λ u, uc_set_sp sp (uc_set_ip entry u) |>) <$> c_threads s !! cur_tid
    | _ => c_data s' = c_data s ∧ c_actions s' = c_actions s ∧ c_tables s' = c_tables s
    end.
Proof.
  intros Hd Ha. unfold exec_commit. unfold_m. destruct (lw_resolve path) as [loc|e|]; [|intros [= <- <-]; by split_and!..].
  assert (Hname : ∀ t x, th_pid <$> alter (λ t : Thr U, t <| th_name := x |>) cur_tid (c_threads s) !! t = th_pid <$> c_threads s !! t).
  { intros t x. rewrite lookup_alter. case_decide; [|done]. subst. by destruct (c_threads s !! _). }
  destruct (absolute_path loc) as [exe|e|] eqn:Habs.
  2,3: intros [= <- <-]; split; [split_and!; try done; intros t Ht; cbn; by rewrite lookup_alter_ne|];
       split_and!; try done; intros t; apply Hname.
  intros [= <- <-]. cbn. split; [|split; [done|split; [|split]]].
  - split_and!; try done; cbn; intros x Hx; rewrite ?lookup_insert_ne, ?lookup_alter_ne; done.
  - split_and!; try done; cbn; intros o; [rewrite lookup_insert_is_Some'; split; [by right|]; by intros [<-|]|].
    rewrite lookup_alter_is_Some. done.
  - intros t. rewrite lookup_alter. case_decide; [subst|apply Hname].
    rewrite lookup_alter_eq. by destruct (c_threads s !! t).
  - exists loc, exe. rewrite !lookup_insert_eq, !lookup_alter_eq. split_and!; try done. by destruct (c_threads s !! cur_tid).
Qed.

Lemma sys_execve_spec fuel path argv envp s d r s' :
  clone_wf s → c_data s !! cur_pid = Some d →
  sys_execve cur_tid cur_pid default_actions loc_name absolute_path fuel path argv envp s = Some (r, s') →
  clone_wf s' ∧ exec_frame d s s' ∧
  match r with
  | Ok _ =>
      (length (pt_threads (tree (c_sys s)) cur_pid) ≤ 1)%nat
      ∧ ∃ p args envs loc exe entry sp a l,
          path = Ok p ∧ default (Ok []) argv = Ok args ∧ default (Ok []) envp = Ok envs
          ∧ lw_resolve p = Ok loc ∧ absolute_path loc = Ok exe
          ∧ c_spaces s !! pd_aspace d = Some a
          ∧ load_user_app fuel (Some p) args envs (mkLoader a (c_cache s)) = Some (Ok (entry, sp), l)
          ∧ c_spaces s' !! pd_aspace d = Some (ld_space l)
          ∧ c_data s' !! cur_pid = Some (d <| pd_exe_path := exe |> <| pd_cmdline := args |> <| pd_heap_top := USER_HEAP_BASE |>)
          ∧ c_actions s' !! pd_actions d = Some default_actions
          ∧ (∀ f, c_tables s !! pd_fds d = Some f → ∃ f', c_tables s' !! pd_fds d = Some f'
               ∧ ∀ i, fo_view f' !! i =
                   if bool_decide ((fd_cloexec <$> fo_view f !! i) = Some true) then None else fo_view f !! i)
          ∧ ∀ t, c_threads s !! cur_tid = Some t →
              c_threads s' !! cur_tid = Some (t <| th_name := loc_name loc |> <| th_clear_child_tid := 0 |>
                                                <| th_uctx ::= λ u, uc_set_sp sp (uc_set_ip entry u) |>)
  | _ => c_data s' = c_data s ∧ c_actions s' = c_actions s ∧ c_tables s' = c_tables s
  end.
Proof.
  intros Hwf Hd. unfold sys_execve. destruct path as [p|e|]; [|by intros [= <- <-]..].
  destruct (default (Ok []) argv) as [args|e|]; [|by intros [= <- <-]..].
  destruct (default (Ok []) envp) as [envs|e|]; [|by intros [= <- <-]..]. cbn [mbind res_bind]. rewrite Hd.
  destruct (Nat.ltb_spec 1 (length (pt_threads (tree (c_sys s)) cur_pid))) as [|Hone]; [by intros [= <- <-]|].
  destruct (exec_load fuel d p args envs s) as [[r1 s1]|] eqn:Hl; [|done].
  apply exec_load_spec in Hl as (Hframe & Ed & Et & Ea & Etb & Hload & Hsp).
  assert (Hwf1 : clone_wf s1).
  { destruct Hframe as (_ & Hc & Hn & Hnt & _). eapply wf_same_objects; try done; [|by left; rewrite Ed|by rewrite Et].
    split_and!; [done|by rewrite Ea|by rewrite Etb]. }
  destruct r1 as [[entry sp]|e|]; [|by intros [= <- <-]..].
  destruct Hload as (a & l & Ha & Happ & Hspace); [done|]. intros [= Hcommit].
  apply exec_commit_spec in Hcommit as (Hframe2 & Es2 & Hobj & Hth & Hres);
    [|by rewrite Ed|rewrite Ea; by apply (wf_refs s Hwf _ _ Hd)].
  pose proof Hframe2 as (_ & Hc2 & Hn2 & Hnt2 & Hother & _).
  assert (Hframe' : exec_frame d s s') by (by etrans). split; [|split; [done|]].
  - eapply wf_same_objects; try done. intros x. destruct (decide (x = cur_pid)) as [->|]; [|left; by apply Hother].
    destruct r; [|left; by destruct Hres as [-> _]..]. right. destruct Hres as (loc & exe & _ & _ & _ & Hd' & _).
    eexists d, _. split_and!; [by rewrite Ed|exact Hd'|done..].
  - destruct r as [n|e|]; [|destruct Hres as (Ed2 & Ea2 & Et2); split_and!; congruence..].
    destruct Hres as (loc & exe & _ & Hloc & Hexe & Hd' & Ha' & Htb' & Hthr').
    split; [done|]. exists p, args, envs, loc, exe, entry, sp, a, l. split_and!; try done; [by rewrite Es2| |].
    + intros f Hf. exists (close_cloexec_fds f). rewrite Htb', Etb, Hf. split; [done|]. intros i. apply close_cloexec_view.
    + intros t Ht. rewrite Et, Ht in Hthr'. exact Hthr'.
Qed.
(** The loader ends, and so does the call. *)
Lemma sys_execve_returns n fuel path argv envp s : (∀ p, path = Ok p → script_chain n p = true) → (n < fuel)%nat →
  is_Some (sys_execve cur_tid cur_pid default_actions loc_name absolute_path fuel path argv envp s).
Proof.
  intros Hc Hf. unfold sys_execve. destruct path as [p|e|]; [|by eexists..].
  destruct (default (Ok []) argv) as [args|e|]; [|by eexists..].
  destruct (default (Ok []) envp) as [envs|e|]; [|by eexists..]. cbn [mbind res_bind].
  destruct (c_data s !! cur_pid) as [d|]; [|by eexists]. case_match; [by eexists|]. unfold exec_load.
  destruct (c_spaces s !! pd_aspace d) as [a|]; [|by eexists].
  destruct (load_user_app_ends fuel n (Some p) args envs (mkLoader a (c_cache s))) as [[[[]| |] l] ->];
    [intros q [= <-]; by apply Hc|done|by eexists..].
Qed.

End Facts.

(** ** A process with one thread *)

#[export] Instance ptree_fork : ProcFork ptree := {
  pt_fork parent c t :=
    t <| tr_children ::= λ f, upd parent (f parent ++ [c]) f |> <| tr_parent ::= upd c (Some parent) |>
      <| tr_threads ::= upd c [] |> <| tr_group ::= upd c (tr_group t parent) |>;
  pt_add_thread pid tid t := t <| tr_threads ::= λ f, upd pid (f pid ++ [tid]) f |>;
}.
#[export] Instance ptree_fork_ok : ProcForkOk ptree.
Proof.
  split; try done.
  - intros parent c t p x. cbn. unfold upd. case_bool_decide; [subst|]; set_solver.
  - intros parent c t. cbn. unfold upd. by rewrite bool_decide_eq_true_2.
  - intros pid tid t p x. cbn. unfold upd. case_bool_decide; [subst|]; set_solver.
Qed.
#[export] Instance areas_clone : SpaceClone areas := { as_try_clone a := (Ok a, a); as_copy_from_kernel := mret tt }.
#[export] Instance areas_clone_ok : SpaceCloneOk areas.
Proof. split; [|by intros a r a' [= <- <-]]. intros a r a' [= <- <-]. split_and!; [done..|]. by intros c [= <-]. Qed.

Record regs := mkRegs { r_ip : Z; r_sp : Z; r_tls : Z; r_ret : Z }.
#[export] Instance regs_ctx : UserCtx regs := {
  uc_set_ip x u := mkRegs x (r_sp u) (r_tls u) (r_ret u);
  uc_set_sp x u := mkRegs (r_ip u) x (r_tls u) (r_ret u);
  uc_set_tls x u := mkRegs (r_ip u) (r_sp u) x (r_ret u);
  uc_set_retval x u := mkRegs (r_ip u) (r_sp u) (r_tls u) x;
}.

Definition init_data : PData := mkPData [47] [] 1 3 4 USER_HEAP_BASE Rlimits_default (Some SIGCHLD) 2 18.
Definition init_thr : Thr regs := mkThr 2 [105] (mkRegs 1 2 3 4) 0 0 200.
(** Actions and contexts are numbers; descriptor 3 is close-on-exec. *)
Definition one_process : CloneSys ptree siglog (cells Z) areas (list ElfEntry) Z table Z regs :=
  mkCloneSys family_sys {[2 := init_data]} {[20 := init_thr]} {[1 := one_page]} {[2 := 7]}
    {[3 := {[0 := mkFd 100 false; 3 := mkFd 101 true]}]} {[4 := 9]} [] 10 60.

Lemma one_process_wf : clone_wf one_process.
Proof.
  split; cbn.
  - intros p d [<- <-]%lookup_singleton_Some. split_and!; by eexists.
  - intros o Ho. split_and!; apply lookup_singleton_ne; lia.
  - intros t Ht. split; apply lookup_singleton_ne; lia.
  - intros t h [<- <-]%lookup_singleton_Some. by eexists.
Qed.

Lemma clone_inherits_witness :
  let s' := (sys_fork 20 2 one_process).2 in
  sys_fork 20 2 one_process = (Ok 60, s') ∧ clone_wf s' ∧ 60 ∈ pt_threads (tree (c_sys s')) 60
  ∧ ∃ d, c_data s' = <[60 := d]> {[2 := init_data]} ∧ pd_rlim d = Rlimits_default.
Proof.
  cbv zeta. destruct (clone_inherits 20 2 SIGCHLD 0 0 0 0 one_process init_thr init_data
    (Ok 60) (sys_fork 20 2 one_process).2) as (Hwf & _ & _ & Hin & _ & _ & d & parent & s1 & Hd & Hch & _).
  - exact one_process_wf.
  - done.
  - done.
  - by vm_compute.
  - split; [by vm_compute|]. split; [exact Hwf|]. split; [exact Hin|]. exists d. split; [exact Hd|apply Hch].
Defined.

Abbreviation exec tid pid path :=
  (sys_execve tid pid 0 (λ _, []) (λ _, Ok []) 3 (Ok path) None None).


(** A child that shares the address space and the descriptors of its parent and
    starts another program: the parent's memory is gone, and its descriptor is
    closed. *)
Example shared_execve_hits_parent :
  let s1 := (sys_clone 20 2 (Z.lor (Z.lor CLONE_VM CLONE_FILES) SIGCHLD) 0 0 0 0 one_process).2 in
  let mapped (s : CloneSys ptree siglog (cells Z) areas (list ElfEntry) Z table Z regs) :=
    (λ a, mm_perm a 0x10000) <$> c_spaces s !! 1 in
  mapped s1 = Some (Some rw)
  ∧ match exec 60 60 [47; 97] s1 with
    | Some (Ok _, s2) => mapped s2 = Some None ∧ (fo_get 3 <$> c_tables s2 !! 3) = Some None
    | _ => False
    end.
Proof. split; by vm_compute. Qed.

(** When the descriptor for the child cannot be made, the child stays in the
    tree with a thread that never runs: its parent waits for it for ever. *)
Example failed_clone_leaves_child :
  let d := init_data <| pd_rlim := replicate 16 (mkRlimit 0 0) |> in
  let '(r, s') := sys_clone 20 2 (Z.lor CLONE_PIDFD SIGCHLD) 0 0 0 0 (one_process <| c_data := {[2 := d]} |>) in
  r = Err TooManyOpenFiles ∧ pt_children (tree (c_sys s')) 2 = [3; 4; 5; 60]
  ∧ pt_threads (tree (c_sys s')) 60 = [60] ∧ task_found (c_sys s') 60 = false
  ∧ (sys_waitpid 2 60 0 0 [] (c_sys s')).1 = Err Interrupted.
Proof. by vm_compute. Qed.

(** Of an exit signal and [CLONE_THREAD] or [CLONE_PARENT] only all three are
    refused. *)
Example thread_with_exit_signal :
  clone_refused (clone_flags (Z.lor (Z.lor (Z.lor CLONE_THREAD CLONE_VM) CLONE_SIGHAND) SIGCHLD)) SIGCHLD = false.
Proof. done. Qed.
