(* ===== verification/TaskCtl.v ===== *)
(** * Task control and process descriptors

    The calls of a thread about itself and its process
    ([api/src/syscall/task/thread.rs], [task/ctl.rs]), process descriptors
    ([api/src/file/pidfd.rs], [api/src/syscall/fs/pidfd.rs]), information about
    the system ([api/src/syscall/sys.rs]) and [membarrier].  The state is that
    of [Clone], with the process behind each process descriptor. *)

From S2P Require Import Prelude Bytes Text Vm FdTable TimeSys FsPath Process UserMem Mmap Loader Clone.
Open Scope Z_scope.

(** [__user_cap_header_struct] and [__user_cap_data_struct] *)
Record CapHeader := mkCapHeader { cap_version : Z; cap_pid : Z }.
Record CapData := mkCapData { cap_effective : Z; cap_permitted : Z; cap_inheritable : Z }.
Definition CAPABILITY_VERSION_3 : Z := 0x20080522.

Definition PR_SET_NAME : Z := 15.
Definition PR_GET_NAME : Z := 16.
Definition PR_SET_SECCOMP : Z := 22.
Definition PR_MCE_KILL : Z := 33.
Definition PR_SET_MM : Z := 35.

(** [UserContext] on x86-64 *)
Class UserSegs (U : Type) := {
  uc_tls : U → Z;
  uc_gs_base : U → Z;
  uc_set_gs_base : Z → U → U;
}.

Record TcSt (T G V A L K F D U : Type) := mkTcSt {
  tc_sys : CloneSys T G V A L K F D U;
  tc_pidfds : gmap Z Z;                     (* the process of a [PidFd] *)
}.
Arguments mkTcSt {_ _ _ _ _ _ _ _ _}.
Arguments tc_sys {_ _ _ _ _ _ _ _ _}.
Arguments tc_pidfds {_ _ _ _ _ _ _ _ _}.
#[export] Instance eta_TcSt T G V A L K F D U : Eta (TcSt T G V A L K F D U) := λ s, mkTcSt (tc_sys s) (tc_pidfds s).

Section TaskCtl.
Context {T G V A L K F D U : Type}.
Context `{ProcTree T, SigSys G, VmPtr V Z, FlattenObjects F, UserCtx U, !UserSegs U}.
Context `{VmPtr V CapHeader, VmPtr V CapData, UserBytes V, UserText V}.
Abbreviation S := (TcSt T G V A L K F D U).

(** The calling thread and its process *)
Context (cur_tid cur_pid : Z).

Definition sys_of (s : S) : Sys T G V := c_sys (tc_sys s).
Definition on_sys {X} (m : M (Sys T G V) X) : M S X := λ s,
  let '(r, y) := m (sys_of s) in (r, s <| tc_sys ::= λ c, c <| c_sys := y |> |>).
Definition on_user {X} (m : M V X) : M S X := on_sys (λ y, let '(r, v) := m (user y) in (r, y <| user := v |>)).
(** [current().as_thread()] and its [proc_data]: a user thread has both. *)
Definition cur_thread (s : S) : res (Thr U) := unwrap (c_threads (tc_sys s) !! cur_tid).
Definition proc_data (pid : Z) (s : S) : res PData := unwrap (c_data (tc_sys s) !! pid).
Definition set_thread (f : Thr U → Thr U) : M S unit :=
  modifyM (λ s : S, s <| tc_sys ::= λ c, c <| c_threads ::= alter f cur_tid |> |>).

(** ** [thread.rs] *)

Definition sys_set_tid_address (clear_child_tid : Z) : M S Z :=
  set_thread (λ t, t <| th_clear_child_tid := clear_child_tid |>);;
  mret (as_i64 cur_tid).

(** [arch_prctl] on x86-64; the codes are those of [ArchPrctlCode]. *)
Definition sys_arch_prctl (code addr : Z) : M S Z :=
  s ← getM;
  t ← liftR (cur_thread s);
  match code with
  | 0x1003 => on_user (vm_write addr (uc_tls (th_uctx t)));; mret 0
  | 0x1002 => set_thread (λ t, t <| th_uctx ::= uc_set_tls addr |>);; mret 0
  | 0x1004 => on_user (vm_write addr (uc_gs_base (th_uctx t)));; mret 0
  | 0x1001 => set_thread (λ t, t <| th_uctx ::= uc_set_gs_base addr |>);; mret 0
  | 0x1011 => mret 0
  | 0x1012 => failM NoSuchDevice
  | _ => failM InvalidInput
  end.

(** ** [ctl.rs] *)

Definition validate_cap_header (header_ptr : Z) : M S unit :=
  s ← getM;
  header ← liftR (vm_read (user (sys_of s)) header_ptr);
  if negb (cap_version header =? CAPABILITY_VERSION_3) then
    on_user (vm_write header_ptr (mkCapHeader CAPABILITY_VERSION_3 (cap_pid header)));;
    failM InvalidInput
  else
    liftR (get_process_data cur_pid (as_u32 (cap_pid header)) (sys_of s));;
    mret tt.

Definition sys_capget (header data : Z) : M S Z :=
  validate_cap_header header;;
  on_user (vm_write data (mkCapData u32_max u32_max u32_max));;
  mret 0.
Definition sys_capset (header data : Z) : M S Z := validate_cap_header header;; mret 0.

(** [replace_umask] *)
Definition sys_umask (mask : Z) : M S Z :=
  s ← getM;
  d ← liftR (proc_data cur_pid s);
  putM (s <| tc_sys ::= λ c, c <| c_data ::= alter (λ d, d <| pd_umask := mask |>) cur_pid |> |>);;
  mret (pd_umask d).

Definition sys_prctl (option arg2 : Z) : M S Z :=
  s ← getM;
  if option =? PR_SET_NAME then
    name ← liftR (vm_load_until_nul (user (sys_of s)) arg2);
    if negb (utf8 name) then failM IllegalBytes
    else set_thread (λ t, t <| th_name := name |>);; mret 0
  else if option =? PR_GET_NAME then
    t ← liftR (cur_thread s);
    let len := Nat.min (length (th_name t)) 15 in
    on_user (ub_put arg2 (take len (th_name t) ++ replicate (16 - len) 0));;
    mret 0
  else if option =? PR_SET_SECCOMP then mret 0
  else if option =? PR_MCE_KILL then mret 0
  else failM InvalidInput.

(** ** [pidfd.rs] *)

(** [process_data]: the process has not been dropped. *)
Definition PidFd_process_data (file : Z) (s : S) : res Z :=
  p ← unwrap (tc_pidfds s !! file);
  if bool_decide (is_Some (live_data (sys_of s) !! p)) then Ok p else Err NoSuchProcess.
(** [IN] of [poll] *)
Definition PidFd_poll (file : Z) (s : S) : bool := is_ok (PidFd_process_data file s).

(** [FD_TABLE] of a process *)
Definition fd_table (d : PData) (s : S) : res F := unwrap (c_tables (tc_sys s) !! pd_fds d).

(** [PidFd::from_fd] in the table of the caller; another file is refused. *)
Definition PidFd_from_fd (fd : Z) (s : S) : res Z :=
  d ← proc_data cur_pid s;
  t ← fd_table d s;
  file ← ok_or BadFileDescriptor (fd_inner <$> fo_get (as_u64 fd) t);
  if bool_decide (is_Some (tc_pidfds s !! file)) then Ok file else Err InvalidInput.

(** [add_file_like] in the table of the caller *)
Definition add_to_table (file : Z) (cloexec : bool) : M S Z :=
  s ← getM;
  d ← liftR (proc_data cur_pid s);
  t ← liftR (fd_table d s);
  limit ← liftR (unwrap (pd_rlim d !! Z.to_nat RLIMIT_NOFILE));
  let '(r, st) := add_file_like (rl_current limit) file cloexec (mkFdState t tt) in
  putM (s <| tc_sys ::= λ c, c <| c_tables ::= <[pd_fds d := fs_table st]> |> |>);;
  liftR r.

Definition sys_pidfd_open (pid flags : Z) : M S Z :=
  if negb (flags =? 0) then failM InvalidInput
  else
    s ← getM;
    p ← liftR (get_process_data cur_pid pid (sys_of s));
    let file := c_next (tc_sys s) in
    putM (s <| tc_sys ::= λ c, c <| c_next ::= Z.succ |> |> <| tc_pidfds ::= <[file := p]> |>);;
    add_to_table file true.

(** The guard of the target's table is held while the new descriptor is added,
    for which the caller's table is locked for writing: a call that finds the
    file in the caller's own table spins for ever. *)
Definition sys_pidfd_getfd (pidfd target_fd flags : Z) (s : S) : outcome (res Z * S) :=
  match
    (pidfd ← PidFd_from_fd pidfd s;
     p ← PidFd_process_data pidfd s;
     d ← proc_data p s;
     t ← fd_table d s;
     e ← ok_or BadFileDescriptor (fo_get (as_u64 target_fd) t);
     me ← proc_data cur_pid s;
     Ok (e, bool_decide (pd_fds d = pd_fds me)))
  with
  | Ok (e, same) => if same : bool then Hangs else Returns (add_to_table (fd_inner e) true s)
  | Err e => Returns (Err e, s)
  | Panic => Returns (Panic, s)
  end.

(** [read_info] is the read of the caller's [SignalInfo]. *)
Definition sys_pidfd_send_signal (read_info : res SignalInfo) (pidfd signo flags : Z) : M S Z :=
  if negb (flags =? 0) then failM InvalidInput
  else
    s ← getM;
    pidfd ← liftR (PidFd_from_fd pidfd s);
    pid ← liftR (PidFd_process_data pidfd s);
    sig ← liftR (make_queue_signal_info cur_pid read_info pid signo);
    on_sys (send_signal_to_process cur_tid cur_pid pid sig);;
    mret 0.

(** ** What a process descriptor gives *)

Context `{!FlattenObjectsOk F}.

(** The caller's tables: its own is there, and it has all limits. *)
Definition caller_ok (s : S) (me : PData) (t : F) : Prop :=
  proc_data cur_pid s = Ok me ∧ fd_table me s = Ok t ∧ length (pd_rlim me) = Z.to_nat RLIM_NLIMITS.

Lemma add_to_table_spec file cloexec (s : S) me t r s' : caller_ok s me t → add_to_table file cloexec s = (r, s') →
  ∃ t', s' = s <| tc_sys ::= λ c, c <| c_tables ::= <[pd_fds me := t']> |> |>
    ∧ match r with
      | Ok fd => lowest_free (fo_view t) fd ∧ fo_view t' = <[fd := mkFd file cloexec]> (fo_view t)
      | Err e => e = TooManyOpenFiles ∧ fo_view t' = fo_view t
      | Panic => False
      end.
Proof.
  intros (Hme & Ht & Hlen). unfold add_to_table. unfold_m. rewrite Hme, Ht.
  destruct (lookup_lt_is_Some_2 (pd_rlim me) (Z.to_nat RLIMIT_NOFILE)) as [limit ->];
    [rewrite Hlen; unfold RLIMIT_NOFILE, RLIM_NLIMITS; lia|]. cbn [unwrap].
  destruct (add_file_like _ _ _ _) as [r1 st] eqn:Ha. apply add_file_like_spec in Ha as [_ Ha]. unfold view in Ha.
  cbn in Ha. intros Hr. exists (fs_table st).
  destruct r1; injection Hr as <- <-; (split; [done|]); [by destruct Ha as (? & ? & _)|by destruct Ha as (? & ? & _)|done].
Qed.

(** A table is found where it was stored, and the others where they were. *)
Lemma fd_table_insert (s : S) me t d :
  fd_table d (s <| tc_sys ::= λ c, c <| c_tables ::= <[pd_fds me := t]> |> |>)
  = if bool_decide (pd_fds d = pd_fds me) then Ok t else fd_table d s.
Proof.
  unfold fd_table. cbn. case_bool_decide as Hd; [by rewrite Hd, lookup_insert_eq|]. by rewrite lookup_insert_ne.
Qed.

(** [pidfd_open] gives a descriptor of the process, closed on [execve]. *)
Lemma pidfd_open_process pid (s : S) me t fd s' :
  caller_ok s me t → sys_pidfd_open pid 0 s = (Ok fd, s') →
  ∃ p t' file, get_process_data cur_pid pid (sys_of s) = Ok p ∧ caller_ok s' me t'
    ∧ fo_view t' = <[fd := mkFd file true]> (fo_view t) ∧ tc_pidfds s' !! file = Some p
    ∧ PidFd_from_fd fd s' = Ok file.
Proof.
  intros Hc. unfold sys_pidfd_open. cbn [Z.eqb negb]. unfold_m.
  destruct (get_process_data cur_pid pid (sys_of s)) as [p|e|]; [|done..].
  set (s1 := s <| tc_sys ::= _ |> <| tc_pidfds ::= _ |>). intros Ha.
  assert (caller_ok s1 me t) as Hc1 by done.
  apply (add_to_table_spec _ _ _ _ _ _ _ Hc1) in Ha as (t' & -> & Hlow & Hview).
  exists p, t', (c_next (tc_sys s)). set (s2 := s1 <| tc_sys ::= _ |>).
  assert (fd_table me s2 = Ok t') as Ht by (unfold s2; by rewrite fd_table_insert, bool_decide_eq_true_2).
  assert (tc_pidfds s2 !! c_next (tc_sys s) = Some p) as Hp by (cbn; by rewrite lookup_insert_eq).
  assert (proc_data cur_pid s2 = Ok me) as Hme by apply Hc.
  do 2 (split; [done || (split; [done|]; split; [done|apply Hc])|]). do 2 (split; [done|]).
  unfold PidFd_from_fd. rewrite Hme. cbn. rewrite Ht. cbn. rewrite fo_get_view.
  assert (fo_view t' !! fd = Some (mkFd (c_next (tc_sys s)) true)) as Hfd by (by rewrite Hview, lookup_insert_eq).
  pose proof (fo_view_range _ _ _ Hfd). unfold FdTable.AX_FILE_LIMIT in *. rewrite view_fd by lia. rewrite Hfd. cbn.
  by rewrite lookup_insert_eq, bool_decide_eq_true_2 by eauto.
Qed.

(** [pidfd_getfd] on a descriptor of a living process gives the caller a
    new descriptor, the lowest free one and closed on [execve], of the very
    file the target's descriptor refers to, and leaves the target's table as it
    is; a descriptor the target does not have is refused.  When the target
    shares the caller's table the call never returns. *)
Lemma pidfd_getfd_shares pidfd target_fd flags (s : S) me t file p d t' :
  caller_ok s me t → fd_int target_fd → PidFd_from_fd pidfd s = Ok file → PidFd_process_data file s = Ok p →
  proc_data p s = Ok d → fd_table d s = Ok t' →
  match fo_view t' !! target_fd with
  | None => sys_pidfd_getfd pidfd target_fd flags s = Returns (Err BadFileDescriptor, s)
  | Some e =>
      if bool_decide (pd_fds d = pd_fds me) then sys_pidfd_getfd pidfd target_fd flags s = Hangs
      else ∃ r s' t1, sys_pidfd_getfd pidfd target_fd flags s = Returns (r, s')
        ∧ fd_table d s' = Ok t' ∧ fd_table me s' = Ok t1
        ∧ match r with
          | Ok fd => lowest_free (fo_view t) fd ∧ fo_view t1 = <[fd := mkFd (fd_inner e) true]> (fo_view t)
          | Err e => e = TooManyOpenFiles ∧ fo_view t1 = fo_view t
          | Panic => False
          end
  end.
Proof.
  intros Hc Hfd Hfile Hp Hd Ht'. unfold sys_pidfd_getfd. rewrite Hfile. cbn. rewrite Hp. cbn. rewrite Hd. cbn.
  rewrite Ht'. cbn. rewrite fo_get_view, view_fd by done. destruct (fo_view t' !! target_fd) as [e|]; [|done].
  cbn. destruct (Hc) as (Hme & _). rewrite Hme. cbn. case_bool_decide as Hsame; [done|].
  destruct (add_to_table (fd_inner e) true s) as [r s'] eqn:Ha.
  apply (add_to_table_spec _ _ _ _ _ _ _ Hc) in Ha as (t1 & -> & Hr). exists r, (s <| tc_sys ::= λ c, c <| c_tables ::= <[pd_fds me := t1]> |> |>), t1.
  rewrite !fd_table_insert, bool_decide_eq_false_2, bool_decide_eq_true_2 by done. done.
Qed.

(** The name of a thread is read back up to 15 bytes, with a zero behind it. *)
Lemma thread_name_read (s : S) thr ptr out name v :
  cur_thread s = Ok thr → vm_load_until_nul (user (sys_of s)) ptr = Ok name → utf8 name = true →
  let s1 := (sys_prctl PR_SET_NAME ptr s).2 in
  ub_put out (take 15 name ++ replicate (16 - length (take 15 name)) 0) (user (sys_of s)) = (Ok tt, v) →
  (sys_prctl PR_SET_NAME ptr s).1 = Ok 0
  ∧ sys_prctl PR_GET_NAME out s1 = (Ok 0, s1 <| tc_sys ::= λ c, c <| c_sys ::= λ y, y <| user := v |> |> |>).
Proof.
  intros Ht Hn Hu s1 Hv. unfold cur_thread in Ht. destruct (c_threads (tc_sys s) !! cur_tid) as [x|] eqn:Hx; [|done].
  assert (sys_prctl PR_SET_NAME ptr s = (Ok 0, s <| tc_sys ::= λ c, c <| c_threads ::= alter (λ t, t <| th_name := name |>) cur_tid |> |>)) as Hs.
  { unfold sys_prctl. cbn [Z.eqb Pos.eqb PR_SET_NAME PR_GET_NAME]. unfold_m. by rewrite Hn, Hu. }
  unfold s1. rewrite Hs. cbn [fst snd]. split; [done|]. set (s2 := s <| tc_sys ::= _ |>).
  assert (cur_thread s2 = Ok (x <| th_name := name |>)) as Hx2 by (unfold cur_thread; cbn; by rewrite lookup_alter_eq, Hx).
  unfold sys_prctl. cbn [Z.eqb Pos.eqb PR_SET_NAME PR_GET_NAME]. unfold_m. rewrite Hx2.
  change (th_name (x <| th_name := name |>)) with name.
  replace (take (length name `min` 15) name) with (take 15 name) by (by rewrite Nat.min_comm, <- take_take, (take_ge name (length name))).
  replace (length name `min` 15)%nat with (length (take 15 name)) by (rewrite length_take; lia).
  unfold on_user, on_sys. change (user (sys_of s2)) with (user (sys_of s)). by rewrite Hv.
Qed.
End TaskCtl.

(** ** [sys.rs] and [membarrier.rs] *)

(** [pad_str]: the text is copied without a check of its length. *)
Definition pad_str (info : bytes) : bytes := info ++ replicate (65 - length info) 0.

Record new_utsname := mkUtsname {
  sysname : bytes; nodename : bytes; release : bytes; version : bytes; machine : bytes; domainname : bytes;
}.
Definition UTSNAME (ARCH : bytes) : new_utsname :=
  mkUtsname (pad_str (str "Linux")) (pad_str (str "starry")) (pad_str (str "10.0.0")) (pad_str (str "10.0.0"))
    (pad_str ARCH) (pad_str (str "https://github.com/Starry-OS/StarryOS")).

(** [sysinfo]; the fields that are not named are zero. *)
Record sysinfo := mkSysinfo { procs : Z; mem_unit : Z }.

Definition GRND_RANDOM : Z := 2.

(** [FS_CONTEXT.lock().resolve(path)?.entry().as_file()?.read_at(buf, 0)]: the
    length and the bytes read *)
Class ReadPath (W : Type) := { read_path : bytes → nat → M W (Z * bytes) }.

Section SysInfo.
Context {W T G V : Type} `{!ReadPath W, ProcTree T, VmPtr V new_utsname, VmPtr V sysinfo, UserBytes V}.

Definition sys_getgroups (size list : Z) : M V Z :=
  if size <? 1 then failM InvalidInput else ub_put list (le_bytes 4 0);; mret 1.
Definition sys_uname (ARCH : bytes) (name : Z) : M V Z := vm_write name (UTSNAME ARCH);; mret 0.
Definition sys_sysinfo (info : Z) : M (Sys T G V) Z := λ s,
  let '(r, v) := vm_write info (mkSysinfo (as_u16 (zlen (processes s))) 1) (user s) in
  (match r with Ok _ => Ok 0 | Err e => Err e | Panic => Panic end, s <| user := v |>).

(** The whole buffer is written, zeros where nothing was read. *)
Definition sys_getrandom (buf len flags : Z) : M (W * V) Z := λ '(w, v),
  if len =? 0 then (Ok 0, (w, v))
  else
    let path := if has_flag flags GRND_RANDOM then str "/dev/random" else str "/dev/urandom" in
    match read_path path (Z.to_nat len) w with
    | (Ok (n, l), w) =>
        let kbuf := l ++ replicate (Z.to_nat len - length l) 0 in
        match ub_put buf kbuf v with
        | (Ok _, v) => (Ok (as_i64 n), (w, v))
        | (Err e, v) => (Err e, (w, v))
        | (Panic, v) => (Panic, (w, v))
        end
    | (Err e, w) => (Err e, (w, v))
    | (Panic, w) => (Panic, (w, v))
    end.
End SysInfo.

Definition MEMBARRIER_CMDS : list Z := [1; 2; 3; 4; 5].
Definition SUPPORTED_COMMANDS : Z := foldr (λ c m, Z.lor (Z.shiftl 1 c) m) 0 MEMBARRIER_CMDS.
Definition sys_membarrier (cmd flags : Z) : res Z :=
  if negb (flags =? 0) then Err InvalidInput else if cmd =? 0 then Ok SUPPORTED_COMMANDS else Ok 0.

(** The answer to a query has bit [c] for command [c]; the commands of Linux
    are themselves bits, so that of command 1 is not announced. *)
Example membarrier_query : sys_membarrier 0 0 = Ok 62 ∧ any_bit 62 1 = false.
Proof. done. Qed.

(** ** A process and its child *)

#[export] Instance regs_segs : UserSegs regs := { uc_tls := r_tls; uc_gs_base _ := 0; uc_set_gs_base _ u := u }.
Definition with_child : TcSt ptree siglog (cells Z) areas (list ElfEntry) Z table Z regs :=
  mkTcSt (sys_fork 20 2 one_process).2 ∅.

Definition child_opened := (sys_pidfd_open 2 60 0 with_child).2.
Definition child_data : PData := default init_data (c_data (tc_sys child_opened) !! 60).
Definition table_of (d : PData) : table := default ∅ (c_tables (tc_sys child_opened) !! pd_fds d).

(** A process that opens itself spins. *)
Example pidfd_getfd_self : let s := (sys_pidfd_open 2 2 0 with_child).2 in sys_pidfd_getfd 2 1 0 0 s = Hangs.
Proof. by vm_compute. Qed.

(** A pidfd is readable while its process lives, and not after it is gone. *)
Example pidfd_poll_inverted :
  let gone := child_opened <| tc_sys ::= λ c, c <| c_sys ::= λ y, y <| live_data ::= delete 60 |> |> |> in
  PidFd_poll 14 child_opened = true ∧ PidFd_poll 14 gone = false.
Proof. by vm_compute. Qed.
