(* ===== verification/Dispatch.v ===== *)
(** * System call dispatch

    [api/src/syscall/mod.rs]: the table from system call numbers to handlers,
    the conversion of register contents to the types of the handlers'
    parameters, and the return value.  There is one definition per section of
    the table.

    The configuration is that of x86-64.  [Sysno] (of the crate [syscalls]) has
    the numbers the table names; the handlers are named by [Handler], with the
    types of their parameters as they are declared below [api/src/syscall/].
    What a handler does is a parameter of [handle_syscall]. *)

From S2P Require Import Prelude.
Open Scope Z_scope.

Module Sysno.
Inductive t :=
  ioctl | chdir | fchdir | chroot | mkdir | mkdirat | getdents64 | link | linkat | rmdir | unlink | unlinkat
  | getcwd | symlink | symlinkat | rename | renameat | renameat2 | sync | syncfs | chown | lchown | fchown
  | fchownat | chmod | fchmod | fchmodat | fchmodat2 | readlink | readlinkat | utime | utimes | utimensat
  | open | openat | close | close_range | dup | dup2 | dup3 | fcntl | flock | read | readv | write | writev
  | lseek | truncate | ftruncate | fallocate | fsync | fdatasync | fadvise64 | pread64 | pwrite64 | preadv
  | pwritev | preadv2 | pwritev2 | sendfile | copy_file_range | splice | poll | ppoll | select | pselect6
  | epoll_create1 | epoll_ctl | epoll_pwait | epoll_pwait2 | mount | umount2 | pipe2 | pipe | eventfd2
  | pidfd_open | pidfd_getfd | pidfd_send_signal | memfd_create | stat | fstat | lstat | newfstatat | statx
  | access | faccessat | faccessat2 | statfs | fstatfs | brk | mmap | munmap | mprotect | mincore | mremap
  | madvise | msync | mlock | mlock2 | getpid | getppid | gettid | getrusage | sched_yield | nanosleep
  | clock_nanosleep | sched_getaffinity | sched_setaffinity | sched_getscheduler | sched_setscheduler
  | sched_getparam | getpriority | execve | set_tid_address | arch_prctl | prctl | prlimit64 | capget | capset
  | umask | setreuid | setresuid | setresgid | get_mempolicy | clone | fork | exit | exit_group | wait4
  | getsid | setsid | getpgid | setpgid | rt_sigprocmask | rt_sigaction | rt_sigpending | rt_sigreturn
  | rt_sigtimedwait | rt_sigsuspend | kill | tkill | tgkill | rt_sigqueueinfo | rt_tgsigqueueinfo
  | sigaltstack | futex | get_robust_list | set_robust_list | getuid | geteuid | getgid | getegid | setuid
  | setgid | getgroups | setgroups | uname | sysinfo | syslog | getrandom | seccomp | membarrier
  | gettimeofday | times | clock_gettime | clock_getres | getitimer | setitimer | msgget | msgsnd | msgrcv
  | msgctl | shmget | shmat | shmctl | shmdt | socket | socketpair | bind | connect | getsockname
  | getpeername | listen | accept | accept4 | shutdown | sendto | recvfrom | sendmsg | recvmsg | getsockopt
  | setsockopt | signalfd4 | timerfd_create | fanotify_init | inotify_init1 | userfaultfd | perf_event_open
  | io_uring_setup | bpf | fsopen | fspick | open_tree | memfd_secret | timer_create | timer_gettime
  | timer_settime
  | other (number : Z).
End Sysno.

Inductive Handler :=
  sys_ioctl | sys_chdir | sys_fchdir | sys_chroot | sys_mkdir | sys_mkdirat | sys_getdents64 | sys_link
  | sys_linkat | sys_rmdir | sys_unlink | sys_unlinkat | sys_getcwd | sys_symlink | sys_symlinkat | sys_rename
  | sys_renameat | sys_renameat2 | sys_sync | sys_syncfs | sys_chown | sys_lchown | sys_fchown | sys_fchownat
  | sys_chmod | sys_fchmod | sys_fchmodat | sys_readlink | sys_readlinkat | sys_utime | sys_utimes
  | sys_utimensat | sys_open | sys_openat | sys_close | sys_close_range | sys_dup | sys_dup2 | sys_dup3
  | sys_fcntl | sys_flock | sys_read | sys_readv | sys_write | sys_writev | sys_lseek | sys_truncate
  | sys_ftruncate | sys_fallocate | sys_fsync | sys_fdatasync | sys_fadvise64 | sys_pread64 | sys_pwrite64
  | sys_preadv | sys_pwritev | sys_preadv2 | sys_pwritev2 | sys_sendfile | sys_copy_file_range | sys_splice
  | sys_poll | sys_ppoll | sys_select | sys_pselect6 | sys_epoll_create1 | sys_epoll_ctl | sys_epoll_pwait
  | sys_epoll_pwait2 | sys_mount | sys_umount2 | sys_pipe2 | sys_eventfd2 | sys_pidfd_open | sys_pidfd_getfd
  | sys_pidfd_send_signal | sys_memfd_create | sys_stat | sys_fstat | sys_lstat | sys_fstatat | sys_statx
  | sys_access | sys_faccessat2 | sys_statfs | sys_fstatfs | sys_brk | sys_mmap | sys_munmap | sys_mprotect
  | sys_mincore | sys_mremap | sys_madvise | sys_msync | sys_mlock | sys_mlock2 | sys_getpid | sys_getppid
  | sys_gettid | sys_getrusage | sys_sched_yield | sys_nanosleep | sys_clock_nanosleep | sys_sched_getaffinity
  | sys_sched_setaffinity | sys_sched_getscheduler | sys_sched_setscheduler | sys_sched_getparam
  | sys_getpriority | sys_execve | sys_set_tid_address | sys_arch_prctl | sys_prctl | sys_prlimit64
  | sys_capget | sys_capset | sys_umask | sys_setreuid | sys_setresuid | sys_setresgid | sys_get_mempolicy
  | sys_clone | sys_fork | sys_exit | sys_exit_group | sys_waitpid | sys_getsid | sys_setsid | sys_getpgid
  | sys_setpgid | sys_rt_sigprocmask | sys_rt_sigaction | sys_rt_sigpending | sys_rt_sigreturn
  | sys_rt_sigtimedwait | sys_rt_sigsuspend | sys_kill | sys_tkill | sys_tgkill | sys_rt_sigqueueinfo
  | sys_rt_tgsigqueueinfo | sys_sigaltstack | sys_futex | sys_get_robust_list | sys_set_robust_list
  | sys_getuid | sys_geteuid | sys_getgid | sys_getegid | sys_setuid | sys_setgid | sys_getgroups
  | sys_setgroups | sys_uname | sys_sysinfo | sys_syslog | sys_getrandom | sys_seccomp | sys_membarrier
  | sys_gettimeofday | sys_times | sys_clock_gettime | sys_clock_getres | sys_getitimer | sys_setitimer
  | sys_msgget | sys_msgsnd | sys_msgrcv | sys_msgctl | sys_shmget | sys_shmat | sys_shmctl | sys_shmdt
  | sys_socket | sys_socketpair | sys_bind | sys_connect | sys_getsockname | sys_getpeername | sys_listen
  | sys_accept | sys_accept4 | sys_shutdown | sys_sendto | sys_recvfrom | sys_sendmsg | sys_recvmsg
  | sys_getsockopt | sys_setsockopt | sys_signalfd4.

(** ** Types of parameters

    [c_int] and clock ids are [i32]; process ids, modes and [socklen_t] are
    [u32]; offsets are [i64].  Pointers keep all bits. *)

Inductive CTy := I32 | U32 | I64 | Usize | Ptr.

(** [x as _] for a register [x] *)
Definition cast (ty : CTy) (x : Z) : Z :=
  match ty with I32 => as_i32 x | U32 => as_u32 x | I64 => as_i64 x | Usize | Ptr => as_u64 x end.

Definition signature (h : Handler) : list CTy :=
  match h with
  | sys_sync | sys_getpid | sys_getppid | sys_gettid | sys_sched_yield | sys_fork | sys_setsid
  | sys_rt_sigreturn | sys_getuid | sys_geteuid | sys_getgid | sys_getegid
      => []
  | sys_fchdir | sys_syncfs | sys_close | sys_dup | sys_fsync | sys_fdatasync | sys_sched_getscheduler
  | sys_exit | sys_exit_group
      => [I32]
  | sys_chdir | sys_chroot | sys_rmdir | sys_unlink | sys_uname | sys_sysinfo | sys_gettimeofday | sys_times
      => [Ptr]
  | sys_epoll_create1 | sys_umask | sys_getsid | sys_getpgid | sys_setuid | sys_setgid
      => [U32]
  | sys_brk | sys_set_tid_address | sys_shmdt
      => [Usize]
  | sys_dup2 | sys_flock | sys_msgget | sys_listen
      => [I32; I32]
  | sys_ftruncate
      => [I32; I64]
  | sys_fstat | sys_fstatfs | sys_getrusage | sys_sched_getparam | sys_clock_gettime | sys_clock_getres
  | sys_getitimer
      => [I32; Ptr]
  | sys_fchmod | sys_kill | sys_shutdown
      => [I32; U32]
  | sys_arch_prctl
      => [I32; Usize]
  | sys_umount2
      => [Ptr; I32]
  | sys_getcwd | sys_truncate
      => [Ptr; I64]
  | sys_link | sys_symlink | sys_rename | sys_utime | sys_utimes | sys_stat | sys_lstat | sys_statfs
  | sys_nanosleep | sys_capget | sys_capset | sys_sigaltstack
      => [Ptr; Ptr]
  | sys_mkdir | sys_chmod | sys_pipe2 | sys_memfd_create | sys_access
      => [Ptr; U32]
  | sys_rt_sigpending | sys_rt_sigsuspend | sys_set_robust_list
      => [Ptr; Usize]
  | sys_eventfd2 | sys_pidfd_open | sys_getpriority | sys_setreuid | sys_setpgid | sys_tkill
      => [U32; U32]
  | sys_getgroups | sys_setgroups
      => [Usize; Ptr]
  | sys_munmap | sys_mlock
      => [Usize; Usize]
  | sys_fchown | sys_dup3
      => [I32; I32; I32]
  | sys_sched_setscheduler
      => [I32; I32; Ptr]
  | sys_close_range | sys_pidfd_getfd
      => [I32; I32; U32]
  | sys_fcntl | sys_msgctl
      => [I32; I32; Usize]
  | sys_lseek
      => [I32; I64; I32]
  | sys_setitimer | sys_getsockname | sys_getpeername | sys_accept
      => [I32; Ptr; Ptr]
  | sys_mkdirat | sys_waitpid | sys_bind | sys_connect | sys_sendmsg | sys_recvmsg
      => [I32; Ptr; U32]
  | sys_getdents64 | sys_unlinkat | sys_read | sys_readv | sys_write | sys_writev | sys_syslog
      => [I32; Ptr; Usize]
  | sys_membarrier
      => [I32; U32; I32]
  | sys_shmctl
      => [I32; U32; Ptr]
  | sys_ioctl
      => [I32; U32; Usize]
  | sys_sched_getaffinity | sys_sched_setaffinity
      => [I32; Usize; Ptr]
  | sys_shmat
      => [I32; Usize; U32]
  | sys_shmget
      => [I32; Usize; Usize]
  | sys_chown | sys_lchown
      => [Ptr; I32; I32]
  | sys_symlinkat
      => [Ptr; I32; Ptr]
  | sys_open
      => [Ptr; I32; U32]
  | sys_execve
      => [Ptr; Ptr; Ptr]
  | sys_readlink
      => [Ptr; Ptr; Usize]
  | sys_poll
      => [Ptr; U32; I32]
  | sys_getrandom
      => [Ptr; Usize; U32]
  | sys_get_robust_list
      => [U32; Ptr; Ptr]
  | sys_seccomp
      => [U32; U32; Ptr]
  | sys_setresuid | sys_setresgid | sys_tgkill | sys_socket
      => [U32; U32; U32]
  | sys_madvise
      => [Usize; Usize; I32]
  | sys_mincore
      => [Usize; Usize; Ptr]
  | sys_mprotect | sys_msync | sys_mlock2
      => [Usize; Usize; U32]
  | sys_sendfile
      => [I32; I32; Ptr; Usize]
  | sys_fadvise64
      => [I32; I64; I64; U32]
  | sys_renameat
      => [I32; Ptr; I32; Ptr]
  | sys_openat
      => [I32; Ptr; I32; U32]
  | sys_utimensat | sys_fstatat | sys_accept4
      => [I32; Ptr; Ptr; U32]
  | sys_readlinkat | sys_rt_sigprocmask
      => [I32; Ptr; Ptr; Usize]
  | sys_fchmodat | sys_faccessat2
      => [I32; Ptr; U32; U32]
  | sys_msgsnd
      => [I32; Ptr; Usize; I32]
  | sys_pread64 | sys_pwrite64 | sys_preadv | sys_pwritev
      => [I32; Ptr; Usize; I64]
  | sys_signalfd4
      => [I32; Ptr; Usize; U32]
  | sys_epoll_ctl
      => [I32; U32; I32; Ptr]
  | sys_fallocate
      => [I32; U32; I64; I64]
  | sys_clock_nanosleep
      => [I32; U32; Ptr; Ptr]
  | sys_pidfd_send_signal
      => [I32; U32; Ptr; U32]
  | sys_rt_sigtimedwait
      => [Ptr; Ptr; Ptr; Usize]
  | sys_rt_sigaction
      => [U32; Ptr; Ptr; Usize]
  | sys_prlimit64
      => [U32; U32; Ptr; Ptr]
  | sys_rt_sigqueueinfo
      => [U32; U32; Ptr; Usize]
  | sys_socketpair
      => [U32; U32; U32; Ptr]
  | sys_mremap
      => [Usize; Usize; Usize; U32]
  | sys_fchownat
      => [I32; Ptr; I32; I32; U32]
  | sys_linkat | sys_renameat2
      => [I32; Ptr; I32; Ptr; U32]
  | sys_statx
      => [I32; Ptr; U32; U32; Ptr]
  | sys_msgrcv
      => [I32; Ptr; Usize; I64; I32]
  | sys_preadv2 | sys_pwritev2
      => [I32; Ptr; Usize; I64; U32]
  | sys_getsockopt
      => [I32; U32; U32; Ptr; Ptr]
  | sys_setsockopt
      => [I32; U32; U32; Ptr; U32]
  | sys_ppoll
      => [Ptr; I32; Ptr; Ptr; Usize]
  | sys_mount
      => [Ptr; Ptr; Ptr; I32; Ptr]
  | sys_get_mempolicy
      => [Ptr; Ptr; Usize; Usize; Usize]
  | sys_select
      => [U32; Ptr; Ptr; Ptr; Ptr]
  | sys_rt_tgsigqueueinfo
      => [U32; U32; U32; Ptr; Usize]
  | sys_prctl | sys_clone
      => [U32; Usize; Usize; Usize; Usize]
  | sys_epoll_pwait
      => [I32; Ptr; I32; I32; Ptr; Usize]
  | sys_epoll_pwait2
      => [I32; Ptr; I32; Ptr; Ptr; Usize]
  | sys_copy_file_range | sys_splice
      => [I32; Ptr; I32; Ptr; Usize; U32]
  | sys_recvfrom
      => [I32; Ptr; Usize; U32; Ptr; Ptr]
  | sys_sendto
      => [I32; Ptr; Usize; U32; Ptr; U32]
  | sys_futex
      => [Ptr; U32; U32; Ptr; Ptr; U32]
  | sys_pselect6
      => [U32; Ptr; Ptr; Ptr; Ptr; Ptr]
  | sys_mmap
      => [Usize; Usize; U32; U32; I32; I64]
  end.

(** The handlers that are given the user context *)
Definition takes_context (h : Handler) : bool :=
  match h with
  | sys_execve | sys_arch_prctl | sys_clone | sys_fork | sys_rt_sigreturn | sys_rt_sigtimedwait
  | sys_rt_sigsuspend => true
  | _ => false
  end.

(** ** The table *)

Inductive Action :=
| Call (h : Handler) (args : list Z)
| DummyFd (no : Sysno.t)                (* [sys_dummy_fd(sysno)] *)
| Answer (r : res Z).

(** A handler with its arguments, each converted to the type of its parameter *)
Definition call (h : Handler) (regs : list Z) : option Action :=
  Some (Call h (zip_with cast (signature h) regs)).

Section Table.
Context (a : nat → Z).                  (* [uctx.arg0()], [uctx.arg1()], ... *)

(** fs ctl *)
Definition fs_ctl (no : Sysno.t) : option Action :=
  match no with
  | Sysno.ioctl => call sys_ioctl [a 0; a 1; a 2]
  | Sysno.chdir => call sys_chdir [a 0]
  | Sysno.fchdir => call sys_fchdir [a 0]
  | Sysno.chroot => call sys_chroot [a 0]
  | Sysno.mkdir => call sys_mkdir [a 0; a 1]
  | Sysno.mkdirat => call sys_mkdirat [a 0; a 1; a 2]
  | Sysno.getdents64 => call sys_getdents64 [a 0; a 1; a 2]
  | Sysno.link => call sys_link [a 0; a 1]
  | Sysno.linkat => call sys_linkat [a 0; a 1; a 2; a 3; a 4]
  | Sysno.rmdir => call sys_rmdir [a 0]
  | Sysno.unlink => call sys_unlink [a 0]
  | Sysno.unlinkat => call sys_unlinkat [a 0; a 1; a 2]
  | Sysno.getcwd => call sys_getcwd [a 0; a 1]
  | Sysno.symlink => call sys_symlink [a 0; a 1]
  | Sysno.symlinkat => call sys_symlinkat [a 0; a 1; a 2]
  | Sysno.rename => call sys_rename [a 0; a 1]
  | Sysno.renameat => call sys_renameat [a 0; a 1; a 2; a 3]
  | Sysno.renameat2 => call sys_renameat2 [a 0; a 1; a 2; a 3; a 4]
  | Sysno.sync => call sys_sync []
  | Sysno.syncfs => call sys_syncfs [a 0]
  | _ => None
  end.

(** file ops *)
Definition file_ops (no : Sysno.t) : option Action :=
  match no with
  | Sysno.chown => call sys_chown [a 0; a 1; a 2]
  | Sysno.lchown => call sys_lchown [a 0; a 1; a 2]
  | Sysno.fchown => call sys_fchown [a 0; a 1; a 2]
  | Sysno.fchownat => call sys_fchownat [a 0; a 1; a 2; a 3; a 4]
  | Sysno.chmod => call sys_chmod [a 0; a 1]
  | Sysno.fchmod => call sys_fchmod [a 0; a 1]
  | Sysno.fchmodat | Sysno.fchmodat2 => call sys_fchmodat [a 0; a 1; a 2; a 3]
  | Sysno.readlink => call sys_readlink [a 0; a 1; a 2]
  | Sysno.readlinkat => call sys_readlinkat [a 0; a 1; a 2; a 3]
  | Sysno.utime => call sys_utime [a 0; a 1]
  | Sysno.utimes => call sys_utimes [a 0; a 1]
  | Sysno.utimensat => call sys_utimensat [a 0; a 1; a 2; a 3]
  | _ => None
  end.

(** fd ops *)
Definition fd_ops (no : Sysno.t) : option Action :=
  match no with
  | Sysno.open => call sys_open [a 0; a 1; a 2]
  | Sysno.openat => call sys_openat [a 0; a 1; a 2; a 3]
  | Sysno.close => call sys_close [a 0]
  | Sysno.close_range => call sys_close_range [a 0; a 1; a 2]
  | Sysno.dup => call sys_dup [a 0]
  | Sysno.dup2 => call sys_dup2 [a 0; a 1]
  | Sysno.dup3 => call sys_dup3 [a 0; a 1; a 2]
  | Sysno.fcntl => call sys_fcntl [a 0; a 1; a 2]
  | Sysno.flock => call sys_flock [a 0; a 1]
  | _ => None
  end.

(** io *)
Definition io (no : Sysno.t) : option Action :=
  match no with
  | Sysno.read => call sys_read [a 0; a 1; a 2]
  | Sysno.readv => call sys_readv [a 0; a 1; a 2]
  | Sysno.write => call sys_write [a 0; a 1; a 2]
  | Sysno.writev => call sys_writev [a 0; a 1; a 2]
  | Sysno.lseek => call sys_lseek [a 0; a 1; a 2]
  | Sysno.truncate => call sys_truncate [a 0; a 1]
  | Sysno.ftruncate => call sys_ftruncate [a 0; a 1]
  | Sysno.fallocate => call sys_fallocate [a 0; a 1; a 2; a 3]
  | Sysno.fsync => call sys_fsync [a 0]
  | Sysno.fdatasync => call sys_fdatasync [a 0]
  | Sysno.fadvise64 => call sys_fadvise64 [a 0; a 1; a 2; a 3]
  | Sysno.pread64 => call sys_pread64 [a 0; a 1; a 2; a 3]
  | Sysno.pwrite64 => call sys_pwrite64 [a 0; a 1; a 2; a 3]
  | Sysno.preadv => call sys_preadv [a 0; a 1; a 2; a 3]
  | Sysno.pwritev => call sys_pwritev [a 0; a 1; a 2; a 3]
  | Sysno.preadv2 => call sys_preadv2 [a 0; a 1; a 2; a 3; a 4]
  | Sysno.pwritev2 => call sys_pwritev2 [a 0; a 1; a 2; a 3; a 4]
  | Sysno.sendfile => call sys_sendfile [a 0; a 1; a 2; a 3]
  | Sysno.copy_file_range => call sys_copy_file_range [a 0; a 1; a 2; a 3; a 4; a 5]
  | Sysno.splice => call sys_splice [a 0; a 1; a 2; a 3; a 4; a 5]
  | _ => None
  end.

(** io mpx *)
Definition io_mpx (no : Sysno.t) : option Action :=
  match no with
  | Sysno.poll => call sys_poll [a 0; a 1; a 2]
  | Sysno.ppoll => call sys_ppoll [a 0; a 1; a 2; a 3; a 4]
  | Sysno.select => call sys_select [a 0; a 1; a 2; a 3; a 4]
  | Sysno.pselect6 => call sys_pselect6 [a 0; a 1; a 2; a 3; a 4; a 5]
  | Sysno.epoll_create1 => call sys_epoll_create1 [a 0]
  | Sysno.epoll_ctl => call sys_epoll_ctl [a 0; a 1; a 2; a 3]
  | Sysno.epoll_pwait => call sys_epoll_pwait [a 0; a 1; a 2; a 3; a 4; a 5]
  | Sysno.epoll_pwait2 => call sys_epoll_pwait2 [a 0; a 1; a 2; a 3; a 4; a 5]
  | _ => None
  end.

(** fs mount, pipe, event, pidfd, memfd *)
Definition special_files (no : Sysno.t) : option Action :=
  match no with
  | Sysno.mount => call sys_mount [a 0; a 1; a 2; a 3; a 4]
  | Sysno.umount2 => call sys_umount2 [a 0; a 1]
  | Sysno.pipe2 => call sys_pipe2 [a 0; a 1]
  | Sysno.pipe => call sys_pipe2 [a 0; 0]
  | Sysno.eventfd2 => call sys_eventfd2 [a 0; a 1]
  | Sysno.pidfd_open => call sys_pidfd_open [a 0; a 1]
  | Sysno.pidfd_getfd => call sys_pidfd_getfd [a 0; a 1; a 2]
  | Sysno.pidfd_send_signal => call sys_pidfd_send_signal [a 0; a 1; a 2; a 3]
  | Sysno.memfd_create => call sys_memfd_create [a 0; a 1]
  | _ => None
  end.

(** fs stat *)
Definition fs_stat (no : Sysno.t) : option Action :=
  match no with
  | Sysno.stat => call sys_stat [a 0; a 1]
  | Sysno.fstat => call sys_fstat [a 0; a 1]
  | Sysno.lstat => call sys_lstat [a 0; a 1]
  | Sysno.newfstatat => call sys_fstatat [a 0; a 1; a 2; a 3]
  | Sysno.statx => call sys_statx [a 0; a 1; a 2; a 3; a 4]
  | Sysno.access => call sys_access [a 0; a 1]
  | Sysno.faccessat | Sysno.faccessat2 => call sys_faccessat2 [a 0; a 1; a 2; a 3]
  | Sysno.statfs => call sys_statfs [a 0; a 1]
  | Sysno.fstatfs => call sys_fstatfs [a 0; a 1]
  | _ => None
  end.

(** mm *)
Definition mm (no : Sysno.t) : option Action :=
  match no with
  | Sysno.brk => call sys_brk [a 0]
  | Sysno.mmap => call sys_mmap [a 0; a 1; a 2; a 3; a 4; a 5]
  | Sysno.munmap => call sys_munmap [a 0; a 1]
  | Sysno.mprotect => call sys_mprotect [a 0; a 1; a 2]
  | Sysno.mincore => call sys_mincore [a 0; a 1; a 2]
  | Sysno.mremap => call sys_mremap [a 0; a 1; a 2; a 3]
  | Sysno.madvise => call sys_madvise [a 0; a 1; a 2]
  | Sysno.msync => call sys_msync [a 0; a 1; a 2]
  | Sysno.mlock => call sys_mlock [a 0; a 1]
  | Sysno.mlock2 => call sys_mlock2 [a 0; a 1; a 2]
  | _ => None
  end.

(** task info, task sched *)
Definition task_info_sched (no : Sysno.t) : option Action :=
  match no with
  | Sysno.getpid => call sys_getpid []
  | Sysno.getppid => call sys_getppid []
  | Sysno.gettid => call sys_gettid []
  | Sysno.getrusage => call sys_getrusage [a 0; a 1]
  | Sysno.sched_yield => call sys_sched_yield []
  | Sysno.nanosleep => call sys_nanosleep [a 0; a 1]
  | Sysno.clock_nanosleep => call sys_clock_nanosleep [a 0; a 1; a 2; a 3]
  | Sysno.sched_getaffinity => call sys_sched_getaffinity [a 0; a 1; a 2]
  | Sysno.sched_setaffinity => call sys_sched_setaffinity [a 0; a 1; a 2]
  | Sysno.sched_getscheduler => call sys_sched_getscheduler [a 0]
  | Sysno.sched_setscheduler => call sys_sched_setscheduler [a 0; a 1; a 2]
  | Sysno.sched_getparam => call sys_sched_getparam [a 0; a 1]
  | Sysno.getpriority => call sys_getpriority [a 0; a 1]
  | _ => None
  end.

(** task ops *)
Definition task_ops (no : Sysno.t) : option Action :=
  match no with
  | Sysno.execve => call sys_execve [a 0; a 1; a 2]
  | Sysno.set_tid_address => call sys_set_tid_address [a 0]
  | Sysno.arch_prctl => call sys_arch_prctl [a 0; a 1]
  | Sysno.prctl => call sys_prctl [a 0; a 1; a 2; a 3; a 4]
  | Sysno.prlimit64 => call sys_prlimit64 [a 0; a 1; a 2; a 3]
  | Sysno.capget => call sys_capget [a 0; a 1]
  | Sysno.capset => call sys_capset [a 0; a 1]
  | Sysno.umask => call sys_umask [a 0]
  | Sysno.setreuid => call sys_setreuid [a 0; a 1]
  | Sysno.setresuid => call sys_setresuid [a 0; a 1; a 2]
  | Sysno.setresgid => call sys_setresgid [a 0; a 1; a 2]
  | Sysno.get_mempolicy => call sys_get_mempolicy [a 0; a 1; a 2; a 3; a 4]
  | _ => None
  end.

(** task management *)
Definition task_management (no : Sysno.t) : option Action :=
  match no with
  | Sysno.clone => call sys_clone [a 0; a 1; a 2; a 3; a 4]
  | Sysno.fork => call sys_fork []
  | Sysno.exit => call sys_exit [a 0]
  | Sysno.exit_group => call sys_exit_group [a 0]
  | Sysno.wait4 => call sys_waitpid [a 0; a 1; a 2]
  | Sysno.getsid => call sys_getsid [a 0]
  | Sysno.setsid => call sys_setsid []
  | Sysno.getpgid => call sys_getpgid [a 0]
  | Sysno.setpgid => call sys_setpgid [a 0; a 1]
  | _ => None
  end.

(** signal *)
Definition signal (no : Sysno.t) : option Action :=
  match no with
  | Sysno.rt_sigprocmask => call sys_rt_sigprocmask [a 0; a 1; a 2; a 3]
  | Sysno.rt_sigaction => call sys_rt_sigaction [a 0; a 1; a 2; a 3]
  | Sysno.rt_sigpending => call sys_rt_sigpending [a 0; a 1]
  | Sysno.rt_sigreturn => call sys_rt_sigreturn []
  | Sysno.rt_sigtimedwait => call sys_rt_sigtimedwait [a 0; a 1; a 2; a 3]
  | Sysno.rt_sigsuspend => call sys_rt_sigsuspend [a 0; a 1]
  | Sysno.kill => call sys_kill [a 0; a 1]
  | Sysno.tkill => call sys_tkill [a 0; a 1]
  | Sysno.tgkill => call sys_tgkill [a 0; a 1; a 2]
  | Sysno.rt_sigqueueinfo => call sys_rt_sigqueueinfo [a 0; a 1; a 2; a 3]
  | Sysno.rt_tgsigqueueinfo => call sys_rt_tgsigqueueinfo [a 0; a 1; a 2; a 3; a 4]
  | Sysno.sigaltstack => call sys_sigaltstack [a 0; a 1]
  | Sysno.futex => call sys_futex [a 0; a 1; a 2; a 3; a 4; a 5]
  | Sysno.get_robust_list => call sys_get_robust_list [a 0; a 1; a 2]
  | Sysno.set_robust_list => call sys_set_robust_list [a 0; a 1]
  | _ => None
  end.

(** sys *)
Definition sys (no : Sysno.t) : option Action :=
  match no with
  | Sysno.getuid => call sys_getuid []
  | Sysno.geteuid => call sys_geteuid []
  | Sysno.getgid => call sys_getgid []
  | Sysno.getegid => call sys_getegid []
  | Sysno.setuid => call sys_setuid [a 0]
  | Sysno.setgid => call sys_setgid [a 0]
  | Sysno.getgroups => call sys_getgroups [a 0; a 1]
  | Sysno.setgroups => call sys_setgroups [a 0; a 1]
  | Sysno.uname => call sys_uname [a 0]
  | Sysno.sysinfo => call sys_sysinfo [a 0]
  | Sysno.syslog => call sys_syslog [a 0; a 1; a 2]
  | Sysno.getrandom => call sys_getrandom [a 0; a 1; a 2]
  | Sysno.seccomp => call sys_seccomp [a 0; a 1; a 2]
  | _ => None
  end.

(** sync, time *)
Definition sync_time (no : Sysno.t) : option Action :=
  match no with
  | Sysno.membarrier => call sys_membarrier [a 0; a 1; a 2]
  | Sysno.gettimeofday => call sys_gettimeofday [a 0]
  | Sysno.times => call sys_times [a 0]
  | Sysno.clock_gettime => call sys_clock_gettime [a 0; a 1]
  | Sysno.clock_getres => call sys_clock_getres [a 0; a 1]
  | Sysno.getitimer => call sys_getitimer [a 0; a 1]
  | Sysno.setitimer => call sys_setitimer [a 0; a 1; a 2]
  | _ => None
  end.

(** msg, shm *)
Definition msg_shm (no : Sysno.t) : option Action :=
  match no with
  | Sysno.msgget => call sys_msgget [a 0; a 1]
  | Sysno.msgsnd => call sys_msgsnd [a 0; a 1; a 2; a 3]
  | Sysno.msgrcv => call sys_msgrcv [a 0; a 1; a 2; a 3; a 4]
  | Sysno.msgctl => call sys_msgctl [a 0; a 1; a 2]
  | Sysno.shmget => call sys_shmget [a 0; a 1; a 2]
  | Sysno.shmat => call sys_shmat [a 0; a 1; a 2]
  | Sysno.shmctl => call sys_shmctl [a 0; a 1; a 2]
  | Sysno.shmdt => call sys_shmdt [a 0]
  | _ => None
  end.

(** net *)
Definition net (no : Sysno.t) : option Action :=
  match no with
  | Sysno.socket => call sys_socket [a 0; a 1; a 2]
  | Sysno.socketpair => call sys_socketpair [a 0; a 1; a 2; a 3]
  | Sysno.bind => call sys_bind [a 0; a 1; a 2]
  | Sysno.connect => call sys_connect [a 0; a 1; a 2]
  | Sysno.getsockname => call sys_getsockname [a 0; a 1; a 2]
  | Sysno.getpeername => call sys_getpeername [a 0; a 1; a 2]
  | Sysno.listen => call sys_listen [a 0; a 1]
  | Sysno.accept => call sys_accept [a 0; a 1; a 2]
  | Sysno.accept4 => call sys_accept4 [a 0; a 1; a 2; a 3]
  | Sysno.shutdown => call sys_shutdown [a 0; a 1]
  | Sysno.sendto => call sys_sendto [a 0; a 1; a 2; a 3; a 4; a 5]
  | Sysno.recvfrom => call sys_recvfrom [a 0; a 1; a 2; a 3; a 4; a 5]
  | Sysno.sendmsg => call sys_sendmsg [a 0; a 1; a 2]
  | Sysno.recvmsg => call sys_recvmsg [a 0; a 1; a 2]
  | Sysno.getsockopt => call sys_getsockopt [a 0; a 1; a 2; a 3; a 4]
  | Sysno.setsockopt => call sys_setsockopt [a 0; a 1; a 2; a 3; a 4]
  | _ => None
  end.

(** signal file descriptors, dummy fds *)
Definition signalfd_dummy (no : Sysno.t) : option Action :=
  match no with
  | Sysno.signalfd4 => call sys_signalfd4 [a 0; a 1; a 2; a 3]
  | Sysno.timerfd_create | Sysno.fanotify_init | Sysno.inotify_init1 | Sysno.userfaultfd
  | Sysno.perf_event_open | Sysno.io_uring_setup | Sysno.bpf | Sysno.fsopen | Sysno.fspick | Sysno.open_tree
  | Sysno.memfd_secret
      => Some (DummyFd no)
  | Sysno.timer_create | Sysno.timer_gettime | Sysno.timer_settime => Some (Answer (Ok 0))
  | _ => None
  end.

Definition sections : list (Sysno.t → option Action) :=
  [fs_ctl; file_ops; fd_ops; io; io_mpx; special_files; fs_stat; mm; task_info_sched; task_ops;
   task_management; signal; sys; sync_time; msg_shm; net; signalfd_dummy].

(** [match sysno]: the section that has the number, or [Unsupported] *)
Definition dispatch (no : Sysno.t) : Action :=
  default (Answer (Err Unsupported)) (foldr (λ f r, match f no with Some x => Some x | None => r end) None sections).
End Table.

(** ** The return value

    [Sysno::new], the error codes of [axerrno] and what the handlers do are
    parameters; [u_sysno], [u_arg] and [u_retval] are the registers of
    [UserContext]. *)

Class UserRegs (U : Type) := {
  u_sysno : U → Z;
  u_arg : U → nat → Z;
  u_set_retval : Z → U → U;
  u_retval : U → Z;
}.
Class UserRegsOk (U : Type) `{UserRegs U} := { u_retval_set r u : in_u64 r → u_retval (u_set_retval r u) = r }.

Definition ENOSYS_code : Z := 38.

Section Handle.
Context {U : Type} `{UserRegs U} (sysno_new : Z → option Sysno.t) (code : AxError → Z) (exec : Action → M U Z).

(** [result.unwrap_or_else(|err| -code) as _] *)
Definition return_value (result : res Z) : Z :=
  match result with Ok v => as_u64 v | Err e => as_u64 (- code e) | Panic => 0 end.

Definition handle_syscall : M U unit := λ u,
  match sysno_new (u_sysno u) with
  | None => (Ok tt, u_set_retval (as_u64 (- ENOSYS_code)) u)
  | Some sysno =>
      match exec (dispatch (u_arg u) sysno) u with
      | (Panic, u) => (Panic, u)
      | (result, u) => (Ok tt, u_set_retval (return_value result) u)
      end
  end.
End Handle.

(** ** The right handler with the right arguments *)

(** The number a handler is named after *)
Definition namesake (h : Handler) : Sysno.t :=
  match h with
  | sys_ioctl => Sysno.ioctl | sys_chdir => Sysno.chdir | sys_fchdir => Sysno.fchdir | sys_chroot => Sysno.chroot
  | sys_mkdir => Sysno.mkdir | sys_mkdirat => Sysno.mkdirat | sys_getdents64 => Sysno.getdents64
  | sys_link => Sysno.link | sys_linkat => Sysno.linkat | sys_rmdir => Sysno.rmdir | sys_unlink => Sysno.unlink
  | sys_unlinkat => Sysno.unlinkat | sys_getcwd => Sysno.getcwd | sys_symlink => Sysno.symlink
  | sys_symlinkat => Sysno.symlinkat | sys_rename => Sysno.rename | sys_renameat => Sysno.renameat
  | sys_renameat2 => Sysno.renameat2 | sys_sync => Sysno.sync | sys_syncfs => Sysno.syncfs | sys_chown => Sysno.chown
  | sys_lchown => Sysno.lchown | sys_fchown => Sysno.fchown | sys_fchownat => Sysno.fchownat
  | sys_chmod => Sysno.chmod | sys_fchmod => Sysno.fchmod | sys_fchmodat => Sysno.fchmodat
  | sys_readlink => Sysno.readlink | sys_readlinkat => Sysno.readlinkat | sys_utime => Sysno.utime
  | sys_utimes => Sysno.utimes | sys_utimensat => Sysno.utimensat | sys_open => Sysno.open
  | sys_openat => Sysno.openat | sys_close => Sysno.close | sys_close_range => Sysno.close_range
  | sys_dup => Sysno.dup | sys_dup2 => Sysno.dup2 | sys_dup3 => Sysno.dup3 | sys_fcntl => Sysno.fcntl
  | sys_flock => Sysno.flock | sys_read => Sysno.read | sys_readv => Sysno.readv | sys_write => Sysno.write
  | sys_writev => Sysno.writev | sys_lseek => Sysno.lseek | sys_truncate => Sysno.truncate
  | sys_ftruncate => Sysno.ftruncate | sys_fallocate => Sysno.fallocate | sys_fsync => Sysno.fsync
  | sys_fdatasync => Sysno.fdatasync | sys_fadvise64 => Sysno.fadvise64 | sys_pread64 => Sysno.pread64
  | sys_pwrite64 => Sysno.pwrite64 | sys_preadv => Sysno.preadv | sys_pwritev => Sysno.pwritev
  | sys_preadv2 => Sysno.preadv2 | sys_pwritev2 => Sysno.pwritev2 | sys_sendfile => Sysno.sendfile
  | sys_copy_file_range => Sysno.copy_file_range | sys_splice => Sysno.splice | sys_poll => Sysno.poll
  | sys_ppoll => Sysno.ppoll | sys_select => Sysno.select | sys_pselect6 => Sysno.pselect6
  | sys_epoll_create1 => Sysno.epoll_create1 | sys_epoll_ctl => Sysno.epoll_ctl | sys_epoll_pwait => Sysno.epoll_pwait
  | sys_epoll_pwait2 => Sysno.epoll_pwait2 | sys_mount => Sysno.mount | sys_umount2 => Sysno.umount2
  | sys_pipe2 => Sysno.pipe2 | sys_eventfd2 => Sysno.eventfd2 | sys_pidfd_open => Sysno.pidfd_open
  | sys_pidfd_getfd => Sysno.pidfd_getfd | sys_pidfd_send_signal => Sysno.pidfd_send_signal
  | sys_memfd_create => Sysno.memfd_create | sys_stat => Sysno.stat | sys_fstat => Sysno.fstat
  | sys_lstat => Sysno.lstat | sys_fstatat => Sysno.newfstatat | sys_statx => Sysno.statx | sys_access => Sysno.access
  | sys_faccessat2 => Sysno.faccessat2 | sys_statfs => Sysno.statfs | sys_fstatfs => Sysno.fstatfs
  | sys_brk => Sysno.brk | sys_mmap => Sysno.mmap | sys_munmap => Sysno.munmap | sys_mprotect => Sysno.mprotect
  | sys_mincore => Sysno.mincore | sys_mremap => Sysno.mremap | sys_madvise => Sysno.madvise
  | sys_msync => Sysno.msync | sys_mlock => Sysno.mlock | sys_mlock2 => Sysno.mlock2 | sys_getpid => Sysno.getpid
  | sys_getppid => Sysno.getppid | sys_gettid => Sysno.gettid | sys_getrusage => Sysno.getrusage
  | sys_sched_yield => Sysno.sched_yield | sys_nanosleep => Sysno.nanosleep
  | sys_clock_nanosleep => Sysno.clock_nanosleep | sys_sched_getaffinity => Sysno.sched_getaffinity
  | sys_sched_setaffinity => Sysno.sched_setaffinity | sys_sched_getscheduler => Sysno.sched_getscheduler
  | sys_sched_setscheduler => Sysno.sched_setscheduler | sys_sched_getparam => Sysno.sched_getparam
  | sys_getpriority => Sysno.getpriority | sys_execve => Sysno.execve | sys_set_tid_address => Sysno.set_tid_address
  | sys_arch_prctl => Sysno.arch_prctl | sys_prctl => Sysno.prctl | sys_prlimit64 => Sysno.prlimit64
  | sys_capget => Sysno.capget | sys_capset => Sysno.capset | sys_umask => Sysno.umask
  | sys_setreuid => Sysno.setreuid | sys_setresuid => Sysno.setresuid | sys_setresgid => Sysno.setresgid
  | sys_get_mempolicy => Sysno.get_mempolicy | sys_clone => Sysno.clone | sys_fork => Sysno.fork
  | sys_exit => Sysno.exit | sys_exit_group => Sysno.exit_group | sys_waitpid => Sysno.wait4
  | sys_getsid => Sysno.getsid | sys_setsid => Sysno.setsid | sys_getpgid => Sysno.getpgid
  | sys_setpgid => Sysno.setpgid | sys_rt_sigprocmask => Sysno.rt_sigprocmask | sys_rt_sigaction => Sysno.rt_sigaction
  | sys_rt_sigpending => Sysno.rt_sigpending | sys_rt_sigreturn => Sysno.rt_sigreturn
  | sys_rt_sigtimedwait => Sysno.rt_sigtimedwait | sys_rt_sigsuspend => Sysno.rt_sigsuspend | sys_kill => Sysno.kill
  | sys_tkill => Sysno.tkill | sys_tgkill => Sysno.tgkill | sys_rt_sigqueueinfo => Sysno.rt_sigqueueinfo
  | sys_rt_tgsigqueueinfo => Sysno.rt_tgsigqueueinfo | sys_sigaltstack => Sysno.sigaltstack | sys_futex => Sysno.futex
  | sys_get_robust_list => Sysno.get_robust_list | sys_set_robust_list => Sysno.set_robust_list
  | sys_getuid => Sysno.getuid | sys_geteuid => Sysno.geteuid | sys_getgid => Sysno.getgid
  | sys_getegid => Sysno.getegid | sys_setuid => Sysno.setuid | sys_setgid => Sysno.setgid
  | sys_getgroups => Sysno.getgroups | sys_setgroups => Sysno.setgroups | sys_uname => Sysno.uname
  | sys_sysinfo => Sysno.sysinfo | sys_syslog => Sysno.syslog | sys_getrandom => Sysno.getrandom
  | sys_seccomp => Sysno.seccomp | sys_membarrier => Sysno.membarrier | sys_gettimeofday => Sysno.gettimeofday
  | sys_times => Sysno.times | sys_clock_gettime => Sysno.clock_gettime | sys_clock_getres => Sysno.clock_getres
  | sys_getitimer => Sysno.getitimer | sys_setitimer => Sysno.setitimer | sys_msgget => Sysno.msgget
  | sys_msgsnd => Sysno.msgsnd | sys_msgrcv => Sysno.msgrcv | sys_msgctl => Sysno.msgctl | sys_shmget => Sysno.shmget
  | sys_shmat => Sysno.shmat | sys_shmctl => Sysno.shmctl | sys_shmdt => Sysno.shmdt | sys_socket => Sysno.socket
  | sys_socketpair => Sysno.socketpair | sys_bind => Sysno.bind | sys_connect => Sysno.connect
  | sys_getsockname => Sysno.getsockname | sys_getpeername => Sysno.getpeername | sys_listen => Sysno.listen
  | sys_accept => Sysno.accept | sys_accept4 => Sysno.accept4 | sys_shutdown => Sysno.shutdown
  | sys_sendto => Sysno.sendto | sys_recvfrom => Sysno.recvfrom | sys_sendmsg => Sysno.sendmsg
  | sys_recvmsg => Sysno.recvmsg | sys_getsockopt => Sysno.getsockopt | sys_setsockopt => Sysno.setsockopt
  | sys_signalfd4 => Sysno.signalfd4
  end.

(** The numbers that share the handler of another *)
Definition aliases : list (Sysno.t * Sysno.t) := [(Sysno.fchmodat2, Sysno.fchmodat); (Sysno.faccessat, Sysno.faccessat2)].
(** The numbers that get a dummy descriptor, and those that are answered with 0 *)
Definition dummies : list Sysno.t :=
  [Sysno.timerfd_create; Sysno.fanotify_init; Sysno.inotify_init1; Sysno.userfaultfd; Sysno.perf_event_open;
   Sysno.io_uring_setup; Sysno.bpf; Sysno.fsopen; Sysno.fspick; Sysno.open_tree; Sysno.memfd_secret].
Definition answered : list Sysno.t := [Sysno.timer_create; Sysno.timer_gettime; Sysno.timer_settime].

Definition width (ty : CTy) : Z := match ty with I32 | U32 => 32 | I64 | Usize | Ptr => 64 end.
Definition in_ty (ty : CTy) (v : Z) : Prop :=
  match ty with
  | I32 => in_i32 v | U32 => in_u32 v | I64 => - 2 ^ 63 ≤ v < 2 ^ 63 | Usize | Ptr => in_u64 v
  end.

Lemma wraps_mod w x : 0 < w → wraps w x mod 2 ^ w = x mod 2 ^ w.
Proof.
  intros Hw. pose proof (Z.pow_pos_nonneg 2 w). unfold wraps. case_match; [by rewrite Z.mod_mod by lia|].
  replace (x mod 2 ^ w - 2 ^ w) with (x mod 2 ^ w + (-1) * 2 ^ w) by lia. by rewrite Z.mod_add, Z.mod_mod by lia.
Qed.

(** A conversion gives a value of the type with the low bits of the register. *)
Lemma cast_passes ty x : in_ty ty (cast ty x) ∧ cast ty x mod 2 ^ width ty = x mod 2 ^ width ty.
Proof.
  destruct ty; cbn [cast in_ty width].
  1: split; [by apply (wraps_range 32)|by apply wraps_mod].
  2: split; [by apply (wraps_range 64)|by apply wraps_mod].
  all: unfold as_u32, as_u64, in_u32, in_u64, wrapu; rewrite Z.mod_mod by lia; split; [apply Z.mod_pos_bound; lia|done].
Qed.

(** C34: System call numbers.  Every handler is called by the number of its
    name, with the first registers in their order, as many as it has
    parameters, each converted to the declared type of its parameter: a value of
    that type with the low bits of the register.  Two more numbers call
    the handler of another, and [pipe] calls [pipe2] with flags 0.  Eleven
    numbers get a dummy descriptor, three numbers of timers are answered with 0
    and nothing else, and every number not among these is unsupported. *)
Theorem dispatch_abi a :
  (∀ h, dispatch a (namesake h) = Call h (zip_with cast (signature h) (a <$> seq 0 (length (signature h)))))
  ∧ (∀ ty x, in_ty ty (cast ty x) ∧ cast ty x mod 2 ^ width ty = x mod 2 ^ width ty)
  ∧ (∀ p, p ∈ aliases → dispatch a p.1 = dispatch a p.2)
  ∧ dispatch a Sysno.pipe = Call sys_pipe2 [as_u64 (a 0%nat); 0]
  ∧ (∀ no, no ∈ dummies → dispatch a no = DummyFd no)
  ∧ (∀ no, no ∈ answered → dispatch a no = Answer (Ok 0))
  ∧ (∀ no, (∀ h, no ≠ namesake h) → no ∉ aliases.*1 → no ≠ Sysno.pipe → no ∉ dummies → no ∉ answered →
       dispatch a no = Answer (Err Unsupported)).
Proof.
  split_and!.
  - by intros [].
  - apply cast_passes.
  - intros p. unfold aliases. rewrite !elem_of_cons, elem_of_nil. by intros [->|[->|[]]].
  - done.
  - intros no. unfold dummies. rewrite !elem_of_cons, elem_of_nil. intros; destruct_or!; by subst.
  - intros no. unfold answered. rewrite !elem_of_cons, elem_of_nil. intros; destruct_or!; by subst.
  - intros no Hn Ha Hp Hd Hz. destruct (dispatch a no) as [h args|no'|r] eqn:E.
    + exfalso. specialize (Hn h). destruct no; try discriminate E; injection E as <- _;
        first [by apply Hn|by apply Hp|apply Ha; cbn; rewrite !elem_of_cons; tauto].
    + exfalso. apply Hd. unfold dummies. rewrite !elem_of_cons. destruct no; try discriminate E; tauto.
    + destruct no; try discriminate E; injection E as <-;
        first [done|exfalso; apply Hz; unfold answered; rewrite !elem_of_cons; tauto].
Qed.

Lemma as_u64_neg v : - 2 ^ 64 ≤ v < 0 → as_u64 v = 2 ^ 64 + v.
Proof. intros Hv. unfold as_u64, wrapu. rewrite <- (Z.mod_add v 1) by lia. rewrite Z.mod_small; lia. Qed.
Lemma as_i64_as_u64 v : - 2 ^ 63 ≤ v < 2 ^ 63 → as_i64 (as_u64 v) = v.
Proof.
  intros Hv. rewrite <- (wraps_small 64 v) at 2 by lia. unfold as_i64, wraps, as_u64, wrapu. by rewrite Z.mod_mod by lia.
Qed.

(** What user code sees as an error *)
Definition is_error (x : Z) : Prop := 2 ^ 64 - 4095 ≤ x < 2 ^ 64.

(** The return value.  With error codes below 4096, after a system call
    the return register holds the negated code if the handler failed, which user
    code takes for an error; otherwise the result of the handler as a signed
    number, which user code takes for an error exactly if it is from -4095 to
    -1 ([sys_rt_sigreturn] returns what the restored register holds, which can be
    such a number).  A number the crate does not know gives ENOSYS and does
    nothing else. *)
Lemma syscall_return {U} `{UserRegsOk U} sysno_new code (exec : Action → M U Z) u :
  (∀ e, 0 < code e ≤ 4095) →
  match sysno_new (u_sysno u) with
  | None => handle_syscall sysno_new code exec u = (Ok tt, u_set_retval (2 ^ 64 - ENOSYS_code) u)
  | Some no =>
      let '(r, u1) := exec (dispatch (u_arg u) no) u in
      r ≠ Panic →
      ∃ u', handle_syscall sysno_new code exec u = (Ok tt, u')
        ∧ match r with
          | Err e => u_retval u' = 2 ^ 64 - code e ∧ is_error (u_retval u')
          | Ok v => - 2 ^ 63 ≤ v < 2 ^ 63 → as_i64 (u_retval u') = v ∧ (is_error (u_retval u') ↔ -4095 ≤ v < 0)
          | Panic => False
          end
  end.
Proof.
  intros Hcode. unfold handle_syscall. destruct (sysno_new (u_sysno u)) as [no|]; [|done].
  destruct (exec _ u) as [[v|e|] u1] eqn:E; intros Hr; [| |done]; eexists; (split; [done|]).
  - intros Hv. cbn [return_value]. rewrite u_retval_set by apply as_u64_in.
    split; [by apply as_i64_as_u64|]. unfold is_error.
    destruct (decide (0 ≤ v)); [rewrite as_u64_small by (unfold in_u64; lia); lia|].
    rewrite as_u64_neg by lia. lia.
  - specialize (Hcode e). cbn [return_value]. rewrite u_retval_set by apply as_u64_in.
    rewrite as_u64_neg by lia. unfold is_error. lia.
Qed.

(** ** Evaluations *)

(** Registers as user code fills them *)
Record Frame := { f_no : Z; f_args : list Z; f_ret : Z }.
#[export] Instance eta_Frame : Eta _ := λ r, Build_Frame (f_no r) (f_args r) (f_ret r).
#[export] Instance frame_regs : UserRegs Frame := {
  u_sysno := f_no;
  u_arg u i := nth i (f_args u) 0;
  u_set_retval r u := u <| f_ret := r |>;
  u_retval := f_ret;
}.
#[export] Instance frame_regs_ok : UserRegsOk Frame.
Proof. by constructor. Qed.

(** A kernel with one system call that fails unless its argument is 7 *)
Definition only_close (n : Z) : option Sysno.t := if n =? 3 then Some Sysno.close else None.
Definition run_close (act : Action) : M Frame Z :=
  match act with
  | Call sys_close [7] => mret 0
  | _ => failM BadFileDescriptor
  end.

Example close_returns :
  let result (no fd : Z) := f_ret (handle_syscall only_close (λ _, 9) run_close (Build_Frame no [fd] 1)).2 in
  result 3 7 = 0 ∧ result 3 8 = 2 ^ 64 - 9 ∧ result 4 7 = 2 ^ 64 - 38.
Proof. done. Qed.

(** [fchmodat] and [faccessat] take three arguments in Linux; their flags are
    what happens to be in the fourth register.  Numbers are cut to the type of
    the parameter: descriptor 2^32 + 5 is descriptor 5. *)
Example three_argument_calls a :
  dispatch a Sysno.fchmodat = dispatch a Sysno.fchmodat2
  ∧ dispatch a Sysno.faccessat = dispatch a Sysno.faccessat2
  ∧ dispatch (λ _, 2 ^ 32 + 5) Sysno.close = Call sys_close [5].
Proof. by repeat split. Qed.
