(* ===== verification/UserTask.v ===== *)
(** * The loop of a user task

    [api/src/task.rs]: what a thread does between two stays in user space
    ([new_user_task]), its end ([do_exit]) and the signals it raises itself
    ([raise_signal_fatal]).  The parts are those of the other files: system
    calls ([Dispatch]), the timers ([Time]), signals ([Signals], [Process]) and
    the futexes of an exiting thread ([Futex]).  User code, page faults and the
    handlers of system calls are parameters. *)

From S2P Require Import Prelude Vm Time Futex Process Signals Dispatch.

(** [ReturnReason]: why user code was left *)
Inductive ExceptionKind := Misaligned | Breakpoint | IllegalInstruction | OtherException.
Inductive ReturnReason :=
| Syscall
| PageFault (addr flags : Z)
| Interrupt
| Exception (kind : ExceptionKind)
| Unknown.

Definition SIGILL : Z := 4.
Definition SIGTRAP : Z := 5.
Definition SIGBUS : Z := 7.
Definition SIGSEGV : Z := 11.

(** [ut_space] is the address space of the process.  [ut_block_next] is a static
    variable that all threads write: a turn says what the others do to it. *)
Record Ut (T G V A U : Type) := mkUt {
  ut_sys : Sys T G V;
  ut_futex : FutexSys;
  ut_uctx : U;
  ut_block_next : bool;                     (* [BLOCK_NEXT_SIGNAL_CHECK] *)
  ut_time : TimeManager;
  ut_alarm : Alarm;
  ut_space : A;
  ut_clear_child_tid : Z;
  ut_robust_list_head : Z;
}.
Arguments mkUt {_ _ _ _ _}.
Arguments ut_sys {_ _ _ _ _}.
Arguments ut_futex {_ _ _ _ _}.
Arguments ut_uctx {_ _ _ _ _}.
Arguments ut_block_next {_ _ _ _ _}.
Arguments ut_time {_ _ _ _ _}.
Arguments ut_alarm {_ _ _ _ _}.
Arguments ut_space {_ _ _ _ _}.
Arguments ut_clear_child_tid {_ _ _ _ _}.
Arguments ut_robust_list_head {_ _ _ _ _}.
#[export] Instance eta_Ut T G V A U : Eta (Ut T G V A U) := λ s,
  mkUt (ut_sys s) (ut_futex s) (ut_uctx s) (ut_block_next s) (ut_time s) (ut_alarm s) (ut_space s)
    (ut_clear_child_tid s) (ut_robust_list_head s).

(** [AddrSpace]: the areas, and whether a page fault was resolved *)
Class FaultSpace (A : Type) := {
  fs_find_area : A → Z → option (Z * option Z);
  fs_handle_page_fault : Z → Z → A → bool * A;
}.

Section UserTask.
Context {T G V A U X : Type}.
Context `{ProcTree T, SigSys G, SigThread G X U, VmPtr V Z, FaultSpace A}.
Abbreviation S := (Ut T G V A U).

(** The calling thread and its process *)
Context (cur_tid cur_pid : Z).

Definition on_sys {Y} (m : M (Sys T G V) Y) : M S Y := λ s, let '(r, x) := m (ut_sys s) in (r, s <| ut_sys := x |>).
Definition on_futex {Y} (m : M FutexSys Y) : M S Y := λ s, let '(r, x) := m (ut_futex s) in (r, s <| ut_futex := x |>).
Definition on_user {Y} (m : M V Y) : M S Y := on_sys (λ y, let '(r, v) := m (user y) in (r, y <| user := v |>)).

(** The state of [Signals]: the managers, the registers and the flag; the rest
    of the state is what its memory is there. *)
Definition to_sig (s : S) : SigState G U S := mkSigState (sigs (ut_sys s)) (ut_uctx s) s (ut_block_next s).
Definition of_sig (x : SigState G U S) : S :=
  (sg_user x) <| ut_sys ::= λ y, y <| sigs := sg_mgr x |> |> <| ut_uctx := sg_uctx x |> <| ut_block_next := sg_block_next x |>.
Definition on_sig {Y} (m : M (SigState G U S) Y) : M S Y := λ s, let '(r, x) := m (to_sig s) in (r, of_sig x).
Definition from_sig {Y} (m : M S Y) : M (SigState G U S) Y := λ x, let '(r, s) := m (of_sig x) in (r, to_sig s).

(** ** Exit *)

Definition pending_exit (s : S) : bool := bool_decide (cur_tid ∈ exited (ut_sys s)).

Definition do_exit (exit_code : Z) (group_exit : bool) : M S unit :=
  s ← getM;
  cleared ← attempt (on_user (vm_write (ut_clear_child_tid s) 0));
  (if cleared : bool then
     s ← getM;
     on_futex (exit_clear_child_tid (fs_find_area (ut_space s)) cur_pid (ut_clear_child_tid s))
   else mret tt);;
  s ← getM;
  (if negb (ut_robust_list_head s =? 0) then
     attempt (on_futex (exit_robust_list (fs_find_area (ut_space s)) cur_pid (user (ut_sys s)) (ut_robust_list_head s)));;
     mret tt
   else mret tt);;
  on_sys (exit_process cur_tid cur_pid exit_code group_exit).

(** [exit_code << 8] *)
Definition sys_exit (exit_code : Z) : M S Z := do_exit (as_i32 (exit_code * 256)) false;; mret 0.
Definition sys_exit_group (exit_code : Z) : M S Z := do_exit (as_i32 (exit_code * 256)) true;; mret 0.

(** A signal of the thread to itself: nobody takes it, then the thread ends. *)
Definition raise_signal_fatal (sig : SignalInfo) : M S unit :=
  o ← on_sys (λ y, let '(o, g) := sg_send_proc cur_pid sig (sigs y) in (Ok o, y <| sigs := g |>));
  s ← getM;
  match o with
  | Some tid =>
      match get_task cur_tid tid (ut_sys s) with
      | Ok task => on_sys (interrupt task)
      | _ => do_exit (si_signo sig) true
      end
  | None => do_exit (si_signo sig) true
  end.

(** ** One turn *)

(** The emitter of the timers: the signals go to the thread. *)
Fixpoint emit_all (l : list Z) : M (Sys T G V) unit :=
  match l with [] => mret tt | n :: l => send_signal_thread_inner cur_tid (new_kernel n);; emit_all l end.

(** [set_timer_state(&curr, st)] at the times [wall] and [now] *)
Definition switch_timer (wall now : Z) (st : TimerState) : M S unit := λ s,
  match set_timer_state false wall cur_tid now st (ut_time s, ut_alarm s) with
  | (Ok fired, (t, a)) =>
      on_sys (emit_all fired) (s <| ut_time := t |> <| ut_alarm := a |>)
  | (Err e, (t, a)) => (Err e, s <| ut_time := t |> <| ut_alarm := a |>)
  | (Panic, (t, a)) => (Panic, s <| ut_time := t |> <| ut_alarm := a |>)
  end.

Definition exception_signo (kind : ExceptionKind) : Z :=
  match kind with Misaligned => SIGBUS | Breakpoint => SIGTRAP | IllegalInstruction => SIGILL | OtherException => SIGTRAP end.

(** [emulate_unaligned] is there on one architecture only. *)
Context (handle_syscall : M S unit) (emulate_unaligned : U → option U).

Definition handle_reason (reason : ReturnReason) : M S unit :=
  match reason with
  | Syscall => handle_syscall
  | PageFault addr flags =>
      s ← getM;
      let '(resolved, a) := fs_handle_page_fault addr flags (ut_space s) in
      putM (s <| ut_space := a |>);;
      if resolved : bool then mret tt else raise_signal_fatal (new_kernel SIGSEGV)
  | Interrupt => mret tt
  | Exception kind =>
      s ← getM;
      match kind, emulate_unaligned (ut_uctx s) with
      | Misaligned, Some u => putM (s <| ut_uctx := u |>)
      | _, _ => raise_signal_fatal (new_kernel (exception_signo kind))
      end
  | Unknown => raise_signal_fatal (new_kernel SIGSEGV)
  end.

(** [while check_signals(thr, &mut uctx, None) {}]; [None]: it has not ended
    after [fuel] rounds. *)
Fixpoint drain_signals (fuel : nat) : M S (option unit) :=
  match fuel with
  | O => mret None
  | Datatypes.S fuel =>
      more ← on_sig (check_signals (λ c b, from_sig (do_exit c b)) None);
      if more : bool then drain_signals fuel else mret (Some tt)
  end.

(** A stay in user space: what it does to registers and memory, why it ends,
    and the clocks when it does and when the kernel is left.  [tn_others] is the
    last that other threads have written to the flag, if they have, before this
    one takes it: true by a return from a handler, false by a check. *)
Record Turn := mkTurn {
  tn_run : U * V → U * V;
  tn_reason : ReturnReason;
  tn_enter : Z * Z;
  tn_leave : Z * Z;
  tn_others : option bool;
}.

Definition run_user (f : U * V → U * V) : M S unit := modifyM (λ s : S,
  let '(u, v) := f (ut_uctx s, user (ut_sys s)) in s <| ut_uctx := u |> <| ut_sys ::= λ y, y <| user := v |> |>).
Definition clear_interrupt : M S unit :=
  on_sys (modifyM (λ y, y <| interrupted ::= filter (λ t, t ≠ cur_tid) |>)).

(** From the end of the stay in user space to the signals being handled *)
Definition turn_handle (t : Turn) : M S unit :=
  run_user (tn_run t);;
  switch_timer (tn_enter t).1 (tn_enter t).2 TS_Kernel;;
  handle_reason (tn_reason t).
Definition others_write (t : Turn) : M S unit :=
  modifyM (λ s, s <| ut_block_next ::= λ b, default b (tn_others t) |>).
Definition turn_kernel (fuel : nat) (t : Turn) : M S (option unit) :=
  turn_handle t;;
  others_write t;;
  blocked ← on_sig unblock_next_signal;
  if blocked : bool then mret (Some tt) else drain_signals fuel.
Definition turn_leave (t : Turn) : M S unit :=
  switch_timer (tn_leave t).1 (tn_leave t).2 TS_User;; clear_interrupt.

(** The loop, for the stays [env]: the states in which user space was entered *)
Fixpoint user_loop (fuel : nat) (env : list Turn) : M S (option (list S)) :=
  match env with
  | [] => mret (Some [])
  | t :: env =>
      s ← getM;
      if pending_exit s then mret (Some [])
      else
        done ← turn_kernel fuel t;
        match done with
        | None => mret None
        | Some _ =>
            turn_leave t;;
            rest ← user_loop fuel env;
            mret ((s ::.) <$> rest)
        end
  end.

(** The task: its number is written where [clone] was told to. *)
Definition user_task (set_child_tid : Z) (fuel : nat) (env : list Turn) : M S (option (list S)) :=
  (if negb (set_child_tid =? 0) then attempt (on_user (vm_write set_child_tid (as_u32 cur_tid)));; mret tt else mret tt);;
  user_loop fuel env.

End UserTask.

(** ** What the interfaces promise *)

(** [starry_process]: an exiting thread is taken out of its process. *)
Class ProcThreads (T : Type) `{ProcTree T} := {
  pt_exit_thread_threads p tid code t b t' : pt_exit_thread p tid code t = (b, t') →
    pt_threads t' p = filter (λ x, x ≠ tid) (pt_threads t p) ∧ pt_parent t' p = pt_parent t p;
  pt_exit_threads p t r t' : pt_exit p t = (r, t') → pt_threads t' p = pt_threads t p ∧ pt_parent t' p = pt_parent t p;
  pt_group_exit_threads p t :
    pt_threads (pt_group_exit p t) p = pt_threads t p ∧ pt_parent (pt_group_exit p t) p = pt_parent t p;
}.

(** [starry_signal] for thread [tid] of process [pid]: a check takes a signal
    out of those that wait for the thread, and when it finds none the next one
    does not either; signals for others do not count. *)
Class SigCount (G X U : Type) `{SigSys G, SigThread G X U} (tid pid : Z) := {
  sc_count : G → nat;
  sc_check r u g x u' g' : st_check r u g = (Some x, (u', g')) → (sc_count g' < sc_count g)%nat;
  sc_none r u g u' g' : st_check r u g = (None, (u', g')) → (st_check r u' g').1 = None;
  sc_other_thread t sig g : t ≠ tid → sc_count (sg_send_thread t sig g).2 = sc_count g;
  sc_other_proc p sig g : p ≠ pid → sc_count (sg_send_proc p sig g).2 = sc_count g;
}.

Section Facts.
Context {T G V A U X : Type}.
Context (cur_tid cur_pid : Z).
Context `{ProcThreads T, SigSys G, SigThread G X U, !SigCount G X U cur_tid cur_pid, VmPtr V Z, FaultSpace A}.
Abbreviation S := (Ut T G V A U).
Abbreviation Y := (Sys T G V).

(** The process is not its own parent, and 0 is neither a process nor a thread. *)
Definition self_ok (t : T) : Prop :=
  (∀ p, pt_parent t cur_pid = Some p → p ≠ cur_pid ∧ p ≠ 0) ∧ 0 ∉ pt_threads t cur_pid.

(** Signals go to others: the thread has the same signals waiting, the same
    threads have exited, and the processes are as before. *)
Definition others (y y' : Y) : Prop :=
  tree y' = tree y ∧ exited y' = exited y ∧ sc_count (sigs y') = sc_count (sigs y).
#[local] Instance others_preorder : PreOrder others.
Proof. split; [done|]. intros x y z (? & ? & ?) (? & ? & ?). repeat split; congruence. Qed.

Lemma interrupt_others tid y : keeps others (interrupt tid) y.
Proof. done. Qed.

Lemma thread_inner_others tid sig y : tid ≠ cur_tid → keeps others (send_signal_thread_inner tid sig) y.
Proof.
  intros Ht. unfold send_signal_thread_inner. apply keeps_get. pose proof (sc_other_thread tid sig (sigs y) Ht) as Hc.
  destruct (sg_send_thread tid sig (sigs y)) as [b g]. keeps_tac; [by apply keeps_put|apply interrupt_others].
Qed.

Lemma thread_others tgid tid sig y : tid ≠ cur_tid → tid ≠ 0 →
  keeps others (send_signal_to_thread cur_tid tgid tid sig) y.
Proof.
  intros Ht Hn. unfold send_signal_to_thread, get_task. rewrite (proj2 (Z.eqb_neq tid 0)) by done.
  apply keeps_get. destruct (task_found y tid); [|by keeps_tac]. apply keeps_then; [apply _|by keeps_tac|].
  intros task y1 [= <- <-]. keeps_tac. by apply thread_inner_others.
Qed.

Lemma process_others pid sig y : pid ≠ cur_pid → pid ≠ 0 →
  keeps others (send_signal_to_process cur_tid cur_pid pid sig) y.
Proof.
  intros Hp Hn. unfold send_signal_to_process, get_process_data. rewrite (proj2 (Z.eqb_neq pid 0)) by done.
  apply keeps_get. destruct (data_found y pid); [|by keeps_tac]. apply keeps_then; [apply _|by keeps_tac|].
  intros p y1 [= <- <-]. destruct sig as [sig|]; [|by keeps_tac].
  pose proof (sc_other_proc pid sig (sigs y) Hp) as Hc. destruct (sg_send_proc pid sig (sigs y)) as [o g].
  keeps_tac; [by apply keeps_put|apply interrupt_others].
Qed.

Lemma each_ignored_others (f : Z → M Y unit) l : ∀ y, (∀ x y, x ∈ l → keeps others (f x) y) →
  keeps others (each_ignored f l) y.
Proof.
  induction l as [|x l IH]; intros y Hf; cbn [each_ignored]; [by keeps_tac|]. apply keeps_then; [apply _| |].
  - pose proof (Hf x y ltac:(left)) as Hx. unfold keeps, ignore in *. by destruct (f x y) as [[] ?].
  - intros _ y' _. apply IH. intros z y1 Hz. apply Hf. by right.
Qed.

Lemma notify_parent_others y : self_ok (tree y) → keeps others (notify_parent cur_tid cur_pid cur_pid) y.
Proof.
  intros [Hp _]. unfold notify_parent. apply keeps_get. destruct (pt_parent (tree y) cur_pid) as [p|]; [|by keeps_tac].
  destruct (Hp p eq_refl). keeps_tac; [|by apply keeps_modify].
  pose proof (process_others p (Some (new_kernel z)) y) as Hx. unfold keeps, ignore in *.
  by destruct (send_signal_to_process _ _ _ _ y) as [[] ?]; apply Hx.
Qed.

(** What also holds of an exit *)
Definition exits (y y' : Y) : Prop :=
  (self_ok (tree y) → self_ok (tree y'))
  ∧ (cur_tid ∉ pt_threads (tree y) cur_pid → cur_tid ∉ pt_threads (tree y') cur_pid)
  ∧ exited y ⊆ exited y' ∧ sc_count (sigs y') = sc_count (sigs y).
#[local] Instance exits_preorder : PreOrder exits.
Proof.
  split; [done|]. intros x y z (? & ? & ? & ?) (? & ? & ? & ?). split; [auto|]. split; [auto|].
  split; [by etransitivity|congruence].
Qed.
Lemma others_exits {B} (m : M Y B) y : keeps others m y → keeps exits m y.
Proof. unfold keeps, exits. by intros (-> & -> & ->). Qed.

(** A change of the tree that keeps the parent and adds no threads *)
Lemma tree_exits y t : pt_parent t cur_pid = pt_parent (tree y) cur_pid →
  pt_threads t cur_pid ⊆ pt_threads (tree y) cur_pid → exits y (y <| tree := t |>).
Proof.
  intros Hp Ht. unfold exits, self_ok. cbn. rewrite Hp. split; [|split; [set_solver|done]].
  intros [? ?]. split; [done|set_solver].
Qed.

Lemma stop_group_exits b y : self_ok (tree y) → cur_tid ∉ pt_threads (tree y) cur_pid →
  keeps exits (stop_group cur_tid cur_pid b) y.
Proof.
  intros Hs Hn. unfold stop_group. apply keeps_get. destruct (b && _); [|by keeps_tac].
  destruct (pt_group_exit_threads cur_pid (tree y)) as [Ht Hp].
  apply keeps_then; [apply _|apply keeps_modify, tree_exits; [done|by rewrite Ht]|]. intros [] y1 E. unfold modifyM in E. injection E as <-.
  apply keeps_get, others_exits, each_ignored_others. intros x y2. cbn. rewrite Ht. intros Hx. apply thread_others.
  - by intros ->.
  - intros ->. by apply Hs.
Qed.

Lemma exit_process_exits code b y : self_ok (tree y) → keeps exits (exit_process cur_tid cur_pid code b) y.
Proof.
  intros Hs. unfold exit_process. apply keeps_get. destruct (pt_exit_thread cur_pid cur_tid code (tree y)) as [last t] eqn:Ht.
  apply pt_exit_thread_threads in Ht as [Hthr Hpar]. set (y1 := y <| tree := t |>).
  assert (exits y y1) as Hy1. { apply tree_exits; [done|]. rewrite Hthr. intros x. rewrite list_elem_of_filter. naive_solver. }
  assert (cur_tid ∉ pt_threads t cur_pid) as Hn. { rewrite Hthr, list_elem_of_filter. naive_solver. }
  assert (∀ y', exits y1 y' → self_ok (tree y') ∧ cur_tid ∉ pt_threads (tree y') cur_pid) as Hok.
  { intros y' (H1' & H2' & _). split; [apply H1', Hy1, Hs|by apply H2']. }
  apply keeps_then; [apply _|by apply keeps_put|]. intros [] y2 [= <-]. fold y1.
  set (last_part := if last then _ else _).
  assert (keeps exits last_part y1) as Hl.
  { unfold last_part. destruct last; [|by keeps_tac]. apply keeps_then; [apply _| |].
    - unfold keeps, on_tree. destruct (pt_exit cur_pid (tree y1)) as [r t'] eqn:He.
      apply pt_exit_threads in He as [Ht' Hp']. apply (tree_exits y1 t'); [done|by rewrite Ht'].
    - intros [] y2 He. apply keeps_then; [apply _| |by intros; apply keeps_modify].
      apply others_exits, notify_parent_others. unfold on_tree in He. destruct (pt_exit _ _) as [r t'] eqn:Hx.
      apply pt_exit_threads in Hx as [Ht' Hp']. injection He as _ <-. apply Hok, (tree_exits y1 t'); [done|by rewrite Ht']. }
  apply keeps_then; [apply _|done|]. intros [] y2 E2.
  assert (exits y1 y2) as Hy2 by (unfold keeps in Hl; by rewrite E2 in Hl). destruct (Hok y2 Hy2).
  apply keeps_then; [apply _|by apply stop_group_exits|]. intros _ y3 _. apply keeps_modify.
  do 2 (split; [done|]). split; [cbn; set_solver|done].
Qed.

Lemma exit_process_marks code b (y y' : Y) : exit_process cur_tid cur_pid code b y = (Ok tt, y') → cur_tid ∈ exited y'.
Proof.
  unfold exit_process. unfold_m. destruct (pt_exit_thread _ _ _ _) as [last t]. cbn.
  repeat (case_match; try done; simplify_eq); cbn; set_solver.
Qed.

(** The same of the whole state; the timers and the flag are not touched. *)
Definition moves (s s' : S) : Prop :=
  exits (ut_sys s) (ut_sys s') ∧ ut_time s' = ut_time s ∧ ut_alarm s' = ut_alarm s ∧ ut_block_next s' = ut_block_next s.
#[local] Instance moves_preorder : PreOrder moves.
Proof.
  split; [done|]. intros x y z (? & ? & ? & ?) (? & ? & ? & ?). split; [by etransitivity|]. repeat split; congruence.
Qed.

Lemma on_sys_moves {B} (m : M Y B) (s : S) : keeps exits m (ut_sys s) → keeps moves (on_sys m) s.
Proof. unfold keeps, on_sys. by destruct (m (ut_sys s)) as [r y]. Qed.
Lemma on_user_moves {B} (m : M V B) (s : S) : keeps moves (on_user m) s.
Proof. apply on_sys_moves. unfold keeps. by destruct (m (user (ut_sys s))). Qed.
Lemma on_futex_moves {B} (m : M FutexSys B) (s : S) : keeps moves (on_futex m) s.
Proof. unfold keeps, on_futex. by destruct (m (ut_futex s)). Qed.

Definition task_ok (s : S) : Prop := self_ok (tree (ut_sys s)).
Lemma moves_ok s s' : moves s s' → task_ok s → task_ok s'.
Proof. intros [(Hs & _) _]. apply Hs. Qed.

Lemma do_exit_moves code b s : task_ok s → keeps moves (do_exit cur_tid cur_pid code b) s.
Proof.
  intros Hs. unfold do_exit. apply keeps_get. apply keeps_seq; [apply _|apply keeps_attempt, on_user_moves|].
  intros cleared s1 H1'. apply keeps_seq; [apply _|destruct cleared; [apply keeps_get, on_futex_moves|by keeps_tac]|].
  intros [] s2 H2'. apply keeps_get. apply keeps_seq; [apply _| |].
  - destruct (negb _); [|by keeps_tac]. apply keeps_seq; [apply _|apply keeps_attempt, on_futex_moves|]. by keeps_tac.
  - intros [] s3 H3'. apply on_sys_moves, exit_process_exits. by apply (moves_ok s2), (moves_ok s1), (moves_ok s).
Qed.

Lemma do_exit_marks code b (s s' : S) : do_exit cur_tid cur_pid code b s = (Ok tt, s') → pending_exit cur_tid s' = true.
Proof.
  unfold do_exit. intros (s0 & x0 & _ & E0)%bind_inv. apply bind_inv in E0 as (cleared & s1 & _ & E1).
  apply bind_inv in E1 as ([] & s2 & _ & E2). apply bind_inv in E2 as (? & s3 & _ & E3).
  apply bind_inv in E3 as ([] & s4 & _ & E4). unfold on_sys in E4.
  destruct (exit_process _ _ _ _ _) as [r y] eqn:He. injection E4 as -> <-. apply exit_process_marks in He.
  by apply bool_decide_eq_true_2.
Qed.

(** ** The check for signals *)

Definition fatal (act : SignalOSAction) : bool :=
  match act with OsTerminate | OsCoreDump | OsStop => true | OsContinue | OsHandler => false end.
Definition waiting (s : S) : nat := sc_count (sigs (ut_sys s)).
(** There is no signal that the thread could take. *)
Definition nothing_left (s : S) : Prop := (st_check None (ut_uctx s) (sigs (ut_sys s))).1 = None.

Abbreviation check := (on_sig (check_signals (λ c b, from_sig (do_exit cur_tid cur_pid c b)) None)).

Lemma of_to_sig (s : S) : of_sig (to_sig s) = s.
Proof. by destruct s as [[] ? ? ? ? ? ? ? ?]. Qed.

(** [took s x s']: the check in [s] takes signal [x] and leaves [s']. *)
Definition took (s : S) (x : SignalInfo * SignalOSAction) (s' : S) : Prop :=
  (waiting s' < waiting s)%nat ∧ (fatal x.2 = true → pending_exit cur_tid s' = true)
  ∧ (st_check None (ut_uctx s) (sigs (ut_sys s))).1 = Some x.
(** What every round keeps *)
Definition goes_on (s s' : S) : Prop :=
  (task_ok s → task_ok s') ∧ exited (ut_sys s) ⊆ exited (ut_sys s') ∧ ut_time s' = ut_time s ∧ ut_alarm s' = ut_alarm s
  ∧ ut_block_next s' = ut_block_next s.

Lemma check_spec s : task_ok s →
  goes_on s (check s).2
  ∧ match (check s).1 with
    | Ok true => ∃ x, took s x (check s).2
    | Ok false => nothing_left (check s).2
    | _ => True
    end.
Proof.
  intros Hs. set (c := st_check None (ut_uctx s) (sigs (ut_sys s))).
  destruct c as [o [u g]] eqn:Hc. set (s1 := s <| ut_sys ::= λ y, y <| sigs := g |> |> <| ut_uctx := u |>).
  assert (check s = match o with
    | None => (Ok false, s1)
    | Some (sig, act) =>
        (match act with
         | OsTerminate => do_exit cur_tid cur_pid (si_signo sig) true
         | OsCoreDump => do_exit cur_tid cur_pid (128 + si_signo sig) true
         | OsStop => do_exit cur_tid cur_pid 1 true
         | OsContinue | OsHandler => mret tt
         end;; mret true) s1
    end) as ->.
  { unfold on_sig, check_signals. unfold_m. cbn [sg_uctx sg_mgr to_sig]. fold c. rewrite Hc.
    destruct o as [[sig act]|]; [|done]. cbn [fst snd].
    destruct act; try done; unfold from_sig; lazymatch goal with |- context [do_exit _ _ ?n ?b (of_sig ?x)] =>
      change (of_sig x) with s1; destruct (do_exit cur_tid cur_pid n b s1) as [[] s2] end; cbn; by rewrite of_to_sig. }
  assert (task_ok s1) as Hs1 by done. destruct o as [[sig act]|].
  2:{ cbn. split; [done|]. by apply sc_none in Hc. }
  apply sc_check in Hc as Hlt.
  set (m := match act with OsTerminate => _ | _ => _ end).
  assert (moves s1 (m s1).2 ∧ (fatal act = true → (m s1).1 = Ok tt → pending_exit cur_tid (m s1).2 = true)) as [Hm Hf].
  { unfold m. destruct act; (split; [by apply do_exit_moves || by keeps_tac|try done]); intros _ E;
      eapply do_exit_marks; rewrite <- E; apply surjective_pairing. }
  unfold_m. destruct (m s1) as [[[]|e|] s2]; cbn [fst snd] in *; destruct Hm as ((Hok & _ & Hex & Hcnt) & Ht & Ha & Hb);
    (split; [split; [intros _; apply Hok, Hs1|exact (conj Hex (conj Ht (conj Ha Hb)))]|]); [|exact I..].
  exists (sig, act). split; [unfold waiting; rewrite Hcnt; exact Hlt|].
  split; [by auto|]. fold c. by rewrite Hc.
Qed.

(** The signals that a run of checks takes, in order *)
Inductive drained : S → list (SignalInfo * SignalOSAction) → S → Prop :=
| drained_nil s s' : check s = (Ok false, s') → drained s [] s'
| drained_cons s x s1 l s' : check s = (Ok true, s1) → took s x s1 → drained s1 l s' → drained s (x :: l) s'.

#[local] Instance goes_on_preorder : PreOrder goes_on.
Proof.
  split; [done|]. intros x y z (? & ? & ? & ? & ?) (? & ? & ? & ? & ?). split; [auto|]. split; [by etransitivity|].
  repeat split; congruence.
Qed.
Lemma goes_on_exit (s s' : S) : goes_on s s' → pending_exit cur_tid s = true → pending_exit cur_tid s' = true.
Proof. unfold pending_exit. rewrite !bool_decide_eq_true. intros (_ & Hex & _). set_solver. Qed.

Lemma drain_spec fuel : ∀ s, task_ok s → (waiting s < fuel)%nat →
  let '(r, s') := drain_signals cur_tid cur_pid fuel s in
  goes_on s s' ∧ r ≠ Ok None
  ∧ (r = Ok (Some tt) → nothing_left s' ∧ ∃ l, drained s l s'
      ∧ (Exists (λ x, fatal x.2 = true) l → pending_exit cur_tid s' = true)).
Proof.
  induction fuel as [|fuel IH]; intros s Hs Hf; [lia|]. cbn [drain_signals]. unfold_m.
  destruct (check_spec s Hs) as [Hg Hc]. destruct (check s) as [[[]|e|] s1] eqn:E; cbn [fst snd] in *; [| |done..].
  - destruct Hc as [x Hx]. specialize (IH s1 ltac:(by apply Hg) ltac:(destruct Hx; lia)).
    destruct (drain_signals _ _ fuel s1) as [r s']. destruct IH as (Hg' & Hr & Hd). split; [by etransitivity|]. split; [done|].
    intros Hok. destruct (Hd Hok) as (Hn & l & Hl & Hfat). split; [done|]. exists (x :: l). split; [by econstructor|].
    intros [Hx'|Hl']%Exists_cons; [|auto]. apply (goes_on_exit s1); [done|by apply Hx].
  - split; [done|]. split; [done|]. intros _. split; [done|]. exists []. split; [by constructor|]. by intros ?%Exists_nil.
Qed.

(** ** A turn *)

Context (handle_syscall : M S unit) (emulate_unaligned : U → option U).

(** The counters of the timers: a system call may set timers, but time is only
    charged by a switch. *)
Definition time_kept (t t' : TimeManager) : Prop :=
  utime_ns t' = utime_ns t ∧ stime_ns t' = stime_ns t ∧ last_wall_ns t' = last_wall_ns t ∧ tm_state t' = tm_state t
  ∧ (tm_ok t → tm_ok t').
Definition kept (s s' : S) : Prop :=
  (task_ok s → task_ok s') ∧ exited (ut_sys s) ⊆ exited (ut_sys s') ∧ time_kept (ut_time s) (ut_time s').
#[export] Instance kept_preorder : PreOrder kept.
Proof.
  split; [done|]. intros x y z (? & ? & Hx) (? & ? & Hy). split; [auto|]. split; [by etransitivity|].
  destruct Hx as (? & ? & ? & ? & ?), Hy as (? & ? & ? & ? & ?). do 4 (split; [congruence|]). auto.
Qed.
Lemma moves_kept (s s' : S) : moves s s' → kept s s'.
Proof. intros ((? & _ & ? & _) & Ht & _). split; [done|]. split; [done|]. by rewrite Ht. Qed.
Lemma goes_on_kept (s s' : S) : goes_on s s' → kept s s'.
Proof. intros (? & ? & Ht & _). split; [done|]. split; [done|]. by rewrite Ht. Qed.

Context (Hsys : ∀ s, task_ok s → keeps kept handle_syscall s).

Lemma raise_kept sig s : task_ok s → keeps kept (raise_signal_fatal cur_tid cur_pid sig) s.
Proof.
  intros Hs. unfold raise_signal_fatal. apply keeps_seq; [apply _| |].
  - unfold keeps, on_sys. by destruct (sg_send_proc cur_pid sig (sigs (ut_sys s))).
  - intros o s1 (Hs1 & _). apply keeps_get.
    assert (∀ n, keeps kept (do_exit cur_tid cur_pid n true) s1) by (intros; by apply moves_kept, do_exit_moves, Hs1).
    destruct o as [tid|]; [|done]. by destruct (get_task cur_tid tid (ut_sys s1)).
Qed.
Lemma reason_kept reason s : task_ok s → keeps kept (handle_reason cur_tid cur_pid handle_syscall emulate_unaligned reason) s.
Proof.
  intros Hs. destruct reason as [|addr flags| |kind|]; cbn [handle_reason]; [by apply Hsys| | | |by apply raise_kept].
  - apply keeps_get. destruct (fs_handle_page_fault _ _ _) as [resolved a]. apply keeps_seq; [apply _|by apply keeps_put|].
    intros [] s1 (Hs1 & _). destruct resolved; [by keeps_tac|]. by apply raise_kept, Hs1.
  - by keeps_tac.
  - apply keeps_get. destruct kind; try by apply raise_kept.
    destruct (emulate_unaligned _); [by apply keeps_put|by apply raise_kept].
Qed.

(** The switch of the timers to [st] at time [now] *)
Definition switched (now : Z) (st : TimerState) (s s' : S) : Prop :=
  (task_ok s → task_ok s') ∧ exited (ut_sys s') = exited (ut_sys s)
  ∧ ut_time s' = (poll_spec now (ut_time s)).2 <| tm_state := st |>.
Lemma emit_all_ok l : ∀ y : Y, ∃ y', emit_all cur_tid l y = (Ok tt, y') ∧ tree y' = tree y ∧ exited y' = exited y.
Proof.
  induction l as [|n l IH]; intros y; [by exists y|]. cbn [emit_all]. unfold send_signal_thread_inner. unfold_m.
  destruct (sg_send_thread _ _ _) as [[] g]; cbn.
  all: match goal with |- context [emit_all cur_tid _ ?y1] => destruct (IH y1) as (y' & Hy & Ht & He) end; by exists y'.
Qed.
Lemma switch_timer_spec wall now st s :
  tm_ok (ut_time s) → in_u64 wall → in_u64 now → last_wall_ns (ut_time s) ≤ now →
  ∃ s', switch_timer cur_tid wall now st s = (Ok tt, s') ∧ switched now st s s'.
Proof.
  intros Hok Hw Hn Hl. unfold switch_timer.
  destruct (set_timer_state_spec wall cur_tid now st (ut_time s) (ut_alarm s) Hok Hw Hn Hl) as [a ->]. unfold on_sys. cbn [ut_sys setf].
  match goal with |- context [emit_all cur_tid ?l ?y] => destruct (emit_all_ok l y) as (y' & -> & Ht & He) end.
  eexists. split; [done|]. split; [|done]. unfold task_ok. cbn. by rewrite Ht.
Qed.
(** Whatever the clocks say, a switch keeps the processes. *)
Lemma switch_timer_alive wall now st (s : S) :
  let s' := (switch_timer cur_tid wall now st s).2 in
  (task_ok s → task_ok s') ∧ exited (ut_sys s') = exited (ut_sys s) ∧ ut_block_next s' = ut_block_next s.
Proof.
  cbv zeta. unfold switch_timer. destruct (set_timer_state _ _ _ _ _ _) as [[fired|e|] [t a]]; [|done..]. unfold on_sys.
  match goal with |- context [emit_all cur_tid ?l ?y] => destruct (emit_all_ok l y) as (y' & -> & Ht & He) end.
  unfold task_ok. cbn. by rewrite Ht.
Qed.

Lemma turn_handle_alive t s s1 : task_ok s →
  turn_handle cur_tid cur_pid handle_syscall emulate_unaligned t s = (Ok tt, s1) →
  task_ok s1 ∧ exited (ut_sys s) ⊆ exited (ut_sys s1).
Proof.
  intros Hs. unfold turn_handle. intros ([] & s2 & E2 & ([] & s3 & E3 & E4)%bind_inv)%bind_inv.
  unfold run_user, modifyM in E2. destruct (tn_run t _) as [u v]. injection E2 as <-.
  match type of E3 with switch_timer _ ?w ?n ?st ?x = _ => destruct (switch_timer_alive w n st x) as (Hok & He & _) end.
  rewrite E3 in Hok, He. cbn [snd] in Hok, He.
  destruct (reason_kept (tn_reason t) s3) as (Hok' & He' & _); [by apply Hok|]. rewrite E4 in Hok', He'. cbn in Hok', He', He.
  split; [by apply Hok', Hok|]. by rewrite <- He.
Qed.

Lemma turn_leave_exit t (s s' : S) : turn_leave cur_tid t s = (Ok tt, s') →
  pending_exit cur_tid s = true → pending_exit cur_tid s' = true.
Proof.
  unfold turn_leave. intros ([] & s1 & E1 & E2)%bind_inv. injection E2 as <-.
  destruct (switch_timer_alive (tn_leave t).1 (tn_leave t).2 TS_User s) as (_ & He & _). rewrite E1 in He.
  unfold pending_exit. cbn in *. by rewrite He.
Qed.

(** The signals that the timers raise at the switch to user space *)
Definition timers_fired (t : Turn (U := U) (V := V)) (s : S) : list Z :=
  match (set_timer_state false (tn_leave t).1 cur_tid (tn_leave t).2 TS_User (ut_time s, ut_alarm s)).1 with
  | Ok fired => fired
  | _ => []
  end.

Lemma turn_leave_signals t (s s' : S) : turn_leave cur_tid t s = (Ok tt, s') → timers_fired t s = [] →
  ut_uctx s' = ut_uctx s ∧ sigs (ut_sys s') = sigs (ut_sys s).
Proof.
  unfold turn_leave, switch_timer, timers_fired. intros ([] & s1 & E1 & E2)%bind_inv Hf. injection E2 as <-. revert E1 Hf.
  destruct (set_timer_state _ _ _ _ _ _) as [[fired|e|] [tm a]]; cbn [fst]; [|done..]. intros E1 ->.
  by injection E1 as <-.
Qed.

(** C16: Before a thread goes back to user space the signals it can take are
    taken.  The checks are skipped if the flag is set that a return from a
    handler, of this thread or of another one, sets; otherwise the loop over the
    checks ends, it takes the signals one by one and then none is left, nor is
    one when user space is entered, unless the timers raise one at the switch
    ([late_signal]).  When one of the signals is fatal no user code of the thread
    runs any more. *)
Theorem signals_before_user_space t fuel s s1 : task_ok s →
  turn_handle cur_tid cur_pid handle_syscall emulate_unaligned t s = (Ok tt, s1) → (waiting s1 < fuel)%nat →
  let '(r, s') := turn_kernel cur_tid cur_pid handle_syscall emulate_unaligned fuel t s in
  r ≠ Ok None
  ∧ (r = Ok (Some tt) →
     let s2 := s1 <| ut_block_next := false |> in
     if default (ut_block_next s1) (tn_others t) then s' = s2
     else nothing_left s' ∧ ∃ l, drained s2 l s' ∧ ∀ s3, turn_leave cur_tid t s' = (Ok tt, s3) →
       (timers_fired t s' = [] → nothing_left s3)
       ∧ (Exists (λ x, fatal x.2 = true) l → ∀ fuel' env,
            user_loop cur_tid cur_pid handle_syscall emulate_unaligned fuel' env s3 = (Ok (Some []), s3))).
Proof.
  intros Hs Hh Hf. unfold turn_kernel. rewrite (bind_ok _ _ _ _ _ Hh).
  destruct (turn_handle_alive t s s1 Hs Hh) as [Hs1 _].
  unfold others_write, unblock_next_signal, on_sig at 1. unfold_m. cbn [sg_block_next to_sig].
  set (s2 := s1 <| ut_block_next := false |>). set (s1' := setf ut_block_next _ s1).
  assert (of_sig ((to_sig s1') <| sg_block_next := false |>) = s2) as -> by (by destruct s1 as [[] ? ? ? ? ? ? ? ?]).
  change (ut_block_next s1') with (default (ut_block_next s1) (tn_others t)).
  destruct (default (ut_block_next s1) (tn_others t)); [done|]. pose proof (drain_spec fuel s2 Hs1 Hf) as Hd.
  destruct (drain_signals cur_tid cur_pid fuel s2) as [r s']. destruct Hd as (_ & Hr & Hd). split; [done|].
  intros Hok. destruct (Hd Hok) as (Hn & l & Hl & Hfat). split; [done|]. exists l. split; [done|].
  intros s3 Hleave. split.
  - intros Ht. unfold nothing_left. by destruct (turn_leave_signals t s' s3 Hleave Ht) as [-> ->].
  - intros Hex fuel' env. apply Hfat in Hex. apply (turn_leave_exit t) in Hleave; [|done].
    destruct env; [done|]. cbn [user_loop]. unfold_m. by rewrite Hleave.
Qed.

(** ** The time of a thread *)

(** The clocks of a run: they do not go back. *)
Fixpoint clocks_ok (last : Z) (l : list (Turn (U := U) (V := V))) : Prop :=
  match l with
  | [] => True
  | t :: l =>
      in_u64 (tn_enter t).1 ∧ in_u64 (tn_leave t).1 ∧ in_u64 (tn_leave t).2
      ∧ last ≤ (tn_enter t).2 ≤ (tn_leave t).2 ∧ clocks_ok (tn_leave t).2 l
  end.
(** The time spent in the kernel, and that in user space since [last], where the
    first stay counts only if the timers run as [TS_User]. *)
Fixpoint kernel_ns (l : list (Turn (U := U) (V := V))) : Z :=
  match l with [] => 0 | t :: l => ((tn_leave t).2 - (tn_enter t).2) + kernel_ns l end.
Fixpoint user_ns (counts : bool) (last : Z) (l : list (Turn (U := U) (V := V))) : Z :=
  match l with
  | [] => 0
  | t :: l => (if counts then (tn_enter t).2 - last else 0) + user_ns true (tn_leave t).2 l
  end.

Definition in_user (s : S) : bool := bool_decide (tm_state (ut_time s) = TS_User).
Abbreviation loop := (user_loop cur_tid cur_pid handle_syscall emulate_unaligned).

Lemma drain_kept fuel : ∀ s, task_ok s → keeps kept (drain_signals cur_tid cur_pid fuel) s.
Proof.
  induction fuel as [|fuel IH]; intros s Hs; cbn [drain_signals]; [by keeps_tac|]. apply keeps_seq; [apply _| |].
  - by apply goes_on_kept, check_spec.
  - intros [] s1 (Hs1 & _); [by apply IH, Hs1|by keeps_tac].
Qed.

(** After the switch to the kernel until the switch back *)
Lemma turn_kernel_time fuel t s r s1 : task_ok s → tm_ok (ut_time s) → in_u64 (tn_enter t).1 → in_u64 (tn_enter t).2 →
  last_wall_ns (ut_time s) ≤ (tn_enter t).2 →
  turn_kernel cur_tid cur_pid handle_syscall emulate_unaligned fuel t s = (Ok r, s1) →
  task_ok s1 ∧ time_kept ((poll_spec (tn_enter t).2 (ut_time s)).2 <| tm_state := TS_Kernel |>) (ut_time s1).
Proof.
  intros Hs Hok Hw Hn Hl. unfold turn_kernel, turn_handle.
  intros ([] & s4 & ([] & s2 & E2 & ([] & s3 & E3 & E4)%bind_inv)%bind_inv & ([] & s40 & E40 & (b & s5 & E5 & E6)%bind_inv)%bind_inv)%bind_inv.
  unfold run_user, modifyM in E2. destruct (tn_run t _) as [u v]. injection E2 as <-.
  match type of E3 with switch_timer _ ?w ?n ?st ?x = _ => destruct (switch_timer_spec w n st x) as (s3' & E3' & Hsw) end; [done..|].
  rewrite E3' in E3. injection E3 as ->. destruct Hsw as (Hs3 & _ & Ht3). specialize (Hs3 Hs).
  pose proof (reason_kept (tn_reason t) s3 Hs3) as Hk4. unfold keeps in Hk4. rewrite E4 in Hk4.
  assert (kept s4 s5) as Hk5 by (injection E40 as <-; by injection E5 as <- <-).
  assert (kept s5 s1) as Hk6.
  { destruct b; [by injection E6 as <- <-|]. pose proof (drain_kept fuel s5 ltac:(by apply Hk5, Hk4)) as Hd. unfold keeps in Hd. by rewrite E6 in Hd. }
  assert (kept s3 s1) as (Hs1 & _ & Ht1) by (etransitivity; [exact Hk4|by etransitivity]).
  split; [auto|]. by rewrite Ht3 in Ht1.
Qed.

Lemma tm_ok_state t st : tm_ok t → tm_ok (t <| tm_state := st |>).
Proof. intros [Ht Hl]. split; [|done]. intros ty. specialize (Ht ty). by destruct ty. Qed.

Lemma turn_time fuel t s r s1 s2 rest : task_ok s → tm_ok (ut_time s) → tm_state (ut_time s) ≠ TS_Kernel →
  clocks_ok (last_wall_ns (ut_time s)) (t :: rest) →
  turn_kernel cur_tid cur_pid handle_syscall emulate_unaligned fuel t s = (Ok r, s1) →
  turn_leave cur_tid t s1 = (Ok tt, s2) →
  task_ok s2 ∧ tm_ok (ut_time s2) ∧ tm_state (ut_time s2) = TS_User ∧ last_wall_ns (ut_time s2) = (tn_leave t).2
  ∧ utime_ns (ut_time s2) = (if in_user s then add_u64 (utime_ns (ut_time s)) ((tn_enter t).2 - last_wall_ns (ut_time s)) else utime_ns (ut_time s))
  ∧ stime_ns (ut_time s2) = add_u64 (stime_ns (ut_time s)) ((tn_leave t).2 - (tn_enter t).2).
Proof.
  intros Hs Hok Hst (Hw1 & Hw2 & Hn2 & Hle & _) Hk Hlv. pose proof (ok_last _ Hok) as Hlast.
  assert (in_u64 (tn_enter t).2) as Hn1 by (unfold in_u64 in *; lia).
  destruct (turn_kernel_time fuel t s r s1) as (Hs1 & Hu & Hst1 & Hla & Hts & Hok1); [done..|lia|done|].
  specialize (Hok1 (tm_ok_state _ _ (poll_spec_ok _ _ Hok Hn1 (proj1 Hle)))). cbn -[add_u64] in Hu, Hst1, Hla, Hts.
  unfold turn_leave in Hlv. apply bind_inv in Hlv as ([] & s3 & E3 & E4). injection E4 as <-.
  destruct (switch_timer_spec (tn_leave t).1 (tn_leave t).2 TS_User s1) as (s3' & E3' & Hsw); [done..|rewrite Hla; lia|].
  rewrite E3' in E3. injection E3 as ->. destruct Hsw as (Hs3 & _ & Ht3).
  split; [by apply Hs3|]. cbn [ut_time setf]. cbn -[add_u64]. rewrite Ht3.
  split; [apply tm_ok_state, poll_spec_ok; [done..|rewrite Hla; lia]|]. cbn -[add_u64]. do 2 (split; [done|]).
  rewrite Hts, Hu, Hst1, Hla. unfold in_user. rewrite (decide_False (P := tm_state (ut_time s) = TS_Kernel)) by done.
  rewrite (decide_False (P := TS_Kernel = TS_User)) by done. split; [|by rewrite decide_True].
  unfold bool_decide, decide. by destruct (decide_rel _ _ _).
Qed.

(** The times a run with the stays [tr] of those of [env] has charged *)
Definition charged (s : S) (env : list (Turn (U := U) (V := V))) (tr : list S) (s' : S) : Prop :=
  let ran := take (length tr) env in
  utime_ns (ut_time s') = as_u64 (utime_ns (ut_time s) + user_ns (in_user s) (last_wall_ns (ut_time s)) ran)
  ∧ stime_ns (ut_time s') = as_u64 (stime_ns (ut_time s) + kernel_ns ran)
  ∧ Forall (λ x, pending_exit cur_tid x = false) tr
  ∧ ((length tr < length env)%nat → pending_exit cur_tid s' = true).

Lemma loop_time fuel env s tr s' :
  task_ok s → tm_ok (ut_time s) → clocks_ok (last_wall_ns (ut_time s)) env → tm_state (ut_time s) ≠ TS_Kernel →
  in_u64 (utime_ns (ut_time s)) → in_u64 (stime_ns (ut_time s)) →
  loop fuel env s = (Ok (Some tr), s') →
  charged s env tr s'.
Proof.
  unfold charged. revert s tr. induction env as [|t env IH]; intros s tr Hs Hok Hck Hst Hu0 Hs0; cbn [user_loop]; unfold_m.
  { intros [= <- <-]. cbn. rewrite !Z.add_0_r, !as_u64_small by done. split_and!; [done..|lia]. }
  destruct (pending_exit cur_tid s) eqn:Hp.
  { intros [= <- <-]. cbn. rewrite !Z.add_0_r, !as_u64_small by done. by split_and!. }
  destruct (turn_kernel _ _ _ _ fuel t s) as [[[[]|]|e|] s1] eqn:E1; [|done..].
  destruct (turn_leave cur_tid t s1) as [[[]|e|] s2] eqn:E2; [|done..].
  destruct (loop fuel env s2) as [[[tr'|]|e|] s3] eqn:E3; [|done..]. intros [= <- <-].
  destruct (turn_time fuel t s (Some tt) s1 s2 env) as (Hs2 & Hok2 & Hst2 & Hl2 & Hu2 & Hst2'); [done..|].
  destruct (IH s2 tr') as (Hu & Hs' & Hall & Hlt); try done.
  { rewrite Hl2. by destruct Hck as (_ & _ & _ & _ & ?). }
  { by rewrite Hst2. }
  { rewrite Hu2. destruct (in_user s); [apply as_u64_in|done]. }
  { rewrite Hst2'. apply as_u64_in. }
  assert (in_user s2 = true) as Hin by (by apply bool_decide_eq_true_2). rewrite Hin, Hl2 in Hu.
  cbn -[add_u64]. split; [|split; [|split; [by constructor|intros; apply Hlt; lia]]].
  - rewrite Hu, Hu2. destruct (in_user s); [unfold add_u64; rewrite as_u64_add_l|]; f_equal; lia.
  - rewrite Hs', Hst2'. unfold add_u64. rewrite as_u64_add_l. f_equal. lia.
Qed.

(** C17: Every nanosecond of a thread is charged once, to the right account.
    After any number of turns the kernel time has grown by exactly the times
    from the ends of stays in user space to their next beginnings, and the user
    time by the lengths of the stays, but the first one of a new thread, which
    is not charged.  User space is only entered by a thread that has not
    exited, and if it is entered fewer times than the program wants the thread
    has. *)
Theorem user_task_time set_child_tid fuel env s tr s' :
  task_ok s → tm_ok (ut_time s) → clocks_ok (last_wall_ns (ut_time s)) env → tm_state (ut_time s) ≠ TS_Kernel →
  in_u64 (utime_ns (ut_time s)) → in_u64 (stime_ns (ut_time s)) →
  user_task cur_tid cur_pid handle_syscall emulate_unaligned set_child_tid fuel env s = (Ok (Some tr), s') →
  let ran := take (length tr) env in
  utime_ns (ut_time s') = as_u64 (utime_ns (ut_time s) + user_ns (in_user s) (last_wall_ns (ut_time s)) ran)
  ∧ stime_ns (ut_time s') = as_u64 (stime_ns (ut_time s) + kernel_ns ran)
  ∧ Forall (λ x, pending_exit cur_tid x = false) tr
  ∧ ((length tr < length env)%nat → pending_exit cur_tid s' = true).
Proof.
  intros Hs Hok Hck Hst Hu0 Hs0. unfold user_task. intros ([] & s1 & E1 & E2)%bind_inv.
  assert (moves s s1) as Hm.
  { change s1 with (Ok tt, s1).2. rewrite <- E1. change (keeps moves (if negb (set_child_tid =? 0) then
      attempt (on_user (vm_write set_child_tid (as_u32 cur_tid)));; mret tt else mret tt) s).
    destruct (negb _); [|by keeps_tac]. apply keeps_seq; [apply _|apply keeps_attempt, on_user_moves|by keeps_tac]. }
  pose proof (moves_ok _ _ Hm Hs) as Hs1. destruct Hm as (_ & Ht & _).
  pose proof (loop_time fuel env s1 tr s' Hs1) as Hl. unfold charged, in_user in *. rewrite Ht in Hl. by apply Hl.
Qed.
End Facts.

(** ** A kernel with one process *)

#[export] Instance ptree_threads : ProcThreads ptree.
Proof.
  split.
  - intros p tid code t b t' [= <- <-]. cbn. unfold upd. by rewrite bool_decide_eq_true_2.
  - intros p t r t'. cbn. case_match; by intros [= <- <-].
  - done.
Qed.

(** Thread 20 of process 2: [inl] are signals for a thread, [inr] for a process.
    Signal 10 has a handler, at 0x4000; the others end the process. *)
Abbreviation mailbox := (list ((Z + Z) * SignalInfo)).
Definition for_me (x : (Z + Z) * SignalInfo) : bool := match x.1 with inl t => t =? 20 | inr p => p =? 2 end.
Fixpoint take_mine (g : mailbox) : option SignalInfo * mailbox :=
  match g with
  | [] => (None, [])
  | x :: g => if for_me x then (Some x.2, g) else let '(o, g') := take_mine g in (o, x :: g')
  end.
#[export] Instance mailbox_sigs : SigSys mailbox := {
  sg_send_thread t sig g := (true, g ++ [(inl t, sig)]);
  sg_send_proc p sig g := (Some (p * 10), g ++ [(inr p, sig)]);
}.
#[export] Instance mailbox_thread : SigThread mailbox unit Frame := {
  st_blocked _ := 0;
  st_set_blocked _ g := g;
  st_pending _ := 0;
  st_dequeue _ g := (None, g);
  st_check _ u g := let '(o, g') := take_mine g in
    match o with
    | Some sig => if si_signo sig =? 10 then (Some (sig, OsHandler), (u <| f_ret := 0x4000 |>, g'))
                  else (Some (sig, OsTerminate), (u, g'))
    | None => (None, (u, g'))
    end;
  st_restore u g := (u, g);
  st_stack _ := mkSignalStack 0 2 0;
  st_set_stack _ g := g;
  st_action _ _ := tt;
  st_set_action _ _ g := g;
  Signals.u_set_retval r u := u <| f_ret := r |>;
  Signals.u_retval := f_ret;
}.

Lemma take_mine_count g :
  match take_mine g with
  | (Some _, g') => (length (filter for_me g') < length (filter for_me g))%nat
  | (None, g') => take_mine g' = (None, g')
  end.
Proof.
  induction g as [|x g IH]; cbn [take_mine]; [done|]. destruct (for_me x) eqn:Hx.
  { rewrite filter_cons_True by (by rewrite Hx). cbn. lia. }
  destruct (take_mine g) as [[sig|] g'].
  - rewrite !filter_cons_False; [done|rewrite Hx; by intros []..].
  - cbn [take_mine]. by rewrite Hx, IH.
Qed.
#[export] Instance mailbox_count : SigCount mailbox unit Frame 20 2.
Proof.
  refine {| sc_count g := length (filter for_me g) |}.
  - intros r u g x u' g'. cbn. pose proof (take_mine_count g) as Hc. destruct (take_mine g) as [[sig|] g1]; [|done].
    case_match; by intros [= _ _ <-].
  - intros r u g u' g'. cbn. pose proof (take_mine_count g) as Hc. destruct (take_mine g) as [[sig|] g1].
    { case_match; done. } intros [= _ <-]. by rewrite Hc.
  - intros t sig g Ht. cbn. rewrite filter_app, filter_cons_False; [by rewrite app_nil_r|].
    unfold for_me. cbn. destruct (Z.eqb_spec t 20); [done|by intros []].
  - intros p sig g Hp. cbn. rewrite filter_app, filter_cons_False; [by rewrite app_nil_r|].
    unfold for_me. cbn. destruct (Z.eqb_spec p 2); [done|by intros []].
Defined.

(** Memory is one private area; pages below its end [a] are mapped on demand. *)
#[export] Instance heap_space : FaultSpace Z := {
  fs_find_area a addr := if (0 <=? addr) && (addr <? a) then Some (0, None) else None;
  fs_handle_page_fault addr flags a := ((0 <=? addr) && (addr <? a), a);
}.

(** The kernel has the calls [exit] (60) and [exit_group] (231). *)
Abbreviation task := (Ut ptree mailbox (cells Z) Z Frame).
#[export] Instance task_regs : UserRegs task := {
  u_sysno s := f_no (ut_uctx s);
  u_arg s i := nth i (f_args (ut_uctx s)) 0;
  u_set_retval r s := s <| ut_uctx ::= λ u, u <| f_ret := r |> |>;
  u_retval s := f_ret (ut_uctx s);
}.
Definition exit_calls (n : Z) : option Sysno.t :=
  if n =? 60 then Some Sysno.exit else if n =? 231 then Some Sysno.exit_group else None.
Definition run_exit (act : Action) : M task Z :=
  match act with
  | Call Dispatch.sys_exit [c] => sys_exit 20 2 c
  | Call Dispatch.sys_exit_group [c] => sys_exit_group 20 2 c
  | _ => failM Unsupported
  end.
Definition exit_kernel : M task unit := Dispatch.handle_syscall exit_calls (λ _, 38) run_exit.

Lemma exit_kernel_kept (s : task) : task_ok 2 s → keeps (kept 2) exit_kernel s.
Proof.
  intros Hs. assert (∀ act, keeps (kept 2) (run_exit act) s) as Hrun.
  { intros act. unfold run_exit, sys_exit, sys_exit_group. repeat case_match; subst; try by keeps_tac.
    all: apply keeps_seq; [apply _|apply (moves_kept 20 2), (do_exit_moves 20 2), Hs|by keeps_tac]. }
  unfold exit_kernel, Dispatch.handle_syscall, keeps. destruct (exit_calls _) as [no|]; [|done].
  specialize (Hrun (dispatch (u_arg s) no)). unfold keeps in Hrun.
  by destruct (run_exit _ s) as [[] s1].
Qed.

(** Process 2, a child of 9, with thread 20 *)
Definition lone : ptree := mkPtree
  (λ p, if p =? 9 then [2] else []) (λ p, if p =? 2 then Some 9 else None) (λ p, if p =? 2 then [20] else [])
  (λ _, false) (λ _, 0) (λ _, false) (λ _, 2) (λ g, if g =? 2 then [2] else []).
Definition lone_task (g : mailbox) (block_next : bool) (t : TimeManager) : task :=
  mkUt (mkSys lone g {[0x1000 := 7]} {[20 := Some 2]} {[2 := Some 17; 9 := Some 17]} {[20]} {[2; 9]} {[2 := 2]} ∅ [] [] [] [] ∅)
    (mkFutexSys ∅ ∅ 0 ∅ ∅) (Build_Frame 1 [] 0) block_next t (mkAlarm [] 0) 0x10000 0 0.
Definition syscall_turn (no arg enter leave : Z) : Turn (U := Frame) (V := cells Z) :=
  mkTurn (λ x, (Build_Frame no [arg] 0, x.2)) Syscall (enter, enter) (leave, leave) None.

Definition usr1 : SignalInfo := new_kernel 10.
Definition kill9 : SignalInfo := new_kernel 9.

Lemma lone_ok g b t : task_ok 2 (lone_task g b t).
Proof. split; [by intros p [= <-]|cbn; set_solver]. Qed.

(** A signal with a handler and one that kills: both are taken, and then no
    user code runs. *)
Lemma signals_before_user_space_witness :
  let t := mkTurn id Interrupt (5, 5) (9, 9) None in
  let s := lone_task [(inl 20, usr1); (inr 9, usr1); (inr 2, kill9)] false TimeManager_new in
  let '(r, s') := turn_kernel 20 2 exit_kernel (λ _, None) 3 t s in
  r = Ok (Some tt) ∧ nothing_left s' ∧ (∃ l, drained 20 2 (turn_handle 20 2 exit_kernel (λ _, None) t s).2 l s')
  ∧ nothing_left (turn_leave 20 t s').2 ∧ (user_loop 20 2 exit_kernel (λ _, None) 3 [t] (turn_leave 20 t s').2).1 = Ok (Some []).
Proof.
  intros t s. set (s1 := (turn_handle 20 2 exit_kernel (λ _, None) t s).2).
  pose proof (signals_before_user_space 20 2 exit_kernel (λ _, None) exit_kernel_kept t 3 s s1 (lone_ok _ _ _)) as Hw.
  destruct (turn_kernel 20 2 exit_kernel (λ _, None) 3 t s) as [r s'] eqn:E.
  assert (r = Ok (Some tt)) as Hr by (change r with (r, s').1; rewrite <- E; vm_compute; reflexivity).
  destruct Hw as [_ Hw]; [vm_compute; reflexivity|vm_compute; lia|]. destruct (Hw Hr) as (Hn & l & Hl & Hleave).
  split; [done|]. split; [done|]. split; [by exists l|].
  assert (turn_leave 20 t s' = (Ok tt, (turn_leave 20 t s').2) ∧ timers_fired 20 t s' = []) as [Hlv Ht]
    by (change s' with (r, s').2; rewrite <- E; vm_compute; done).
  split; [by apply (Hleave _ Hlv)|]. change s' with (r, s').2. rewrite <- E. vm_compute. reflexivity.
Defined.

Lemma TimeManager_new_ok : tm_ok TimeManager_new.
Proof. split; [by intros []|done]. Qed.

(** The first stay, of 100 ns, is not charged; the second, of 20, is.  After
    [exit_group] the program is not run again. *)
Lemma user_task_time_witness :
  let env := [syscall_turn 1 0 100 130; syscall_turn 231 5 150 200; syscall_turn 1 0 300 400] in
  let '(r, s') := user_task 20 2 exit_kernel (λ _, None) 0x1000 3 env (lone_task [] false TimeManager_new) in
  utime_ns (ut_time s') = 20 ∧ stime_ns (ut_time s') = 80 ∧ (∃ tr, r = Ok (Some tr) ∧ length tr = 2%nat)
  ∧ user (ut_sys s') !! 0x1000 = Some 20.
Proof.
  intros env. set (s := lone_task [] false TimeManager_new).
  assert (clocks_ok 0 env) as Hck by (cbn; unfold in_u64; lia).
  pose proof (λ tr s', user_task_time 20 2 exit_kernel (λ _, None) exit_kernel_kept 0x1000 3 env s tr s'
    (lone_ok [] false TimeManager_new) TimeManager_new_ok Hck ltac:(discriminate) ltac:(done) ltac:(done)) as Hw.
  assert (∃ tr s', user_task 20 2 exit_kernel (λ _, None) 0x1000 3 env s = (Ok (Some tr), s')
      ∧ length tr = 2%nat ∧ user (ut_sys s') !! 0x1000 = Some 20) as (tr & s' & E & Hl & Hu)
    by (do 2 eexists; vm_compute; split_and!; reflexivity).
  destruct (Hw tr s' E) as (H1 & H2 & _). rewrite E. clear E Hw. rewrite Hl in H1, H2. split_and!; [by rewrite H1|by rewrite H2|by exists tr|done].
Defined.

(** A timer that fires at the switch to user space: its signal comes after the
    checks, and the interrupt it brings is cleared.  The thread goes to user
    space with the signal waiting. *)
Example late_signal :
  let s := lone_task [] false (TimeManager_new <| it_prof := mkITimer 0 20 |>) in
  let t := syscall_turn 1 0 100 130 in
  let s1 := (turn_kernel 20 2 exit_kernel (λ _, None) 3 t s).2 in
  let s2 := (turn_leave 20 t s1).2 in
  nothing_left s1 ∧ sigs (ut_sys s2) = [(inl 20, new_kernel 27)] ∧ interrupted (ut_sys s2) = []
  ∧ (st_check None (ut_uctx s2) (sigs (ut_sys s2))).1 = Some (new_kernel 27, OsTerminate).
Proof. vm_compute. done. Qed.

(** Another thread has returned from a handler: this one runs on with a signal
    that should have killed it. *)
Example skipped_by_another_thread :
  let s := lone_task [(inr 2, kill9)] false TimeManager_new in
  let t := mkTurn id Interrupt (5, 5) (9, 9) (Some true) in
  let '(r, s') := turn_kernel 20 2 exit_kernel (λ _, None) 3 t s in
  r = Ok (Some tt) ∧ sigs (ut_sys s') = [(inr 2, kill9)] ∧ pending_exit 20 (turn_leave 20 t s').2 = false.
Proof. vm_compute. done. Qed.

(** Two signals that kill: the thread ends twice, and its parent is told twice. *)
Example exit_twice :
  let '(r, s') := turn_kernel 20 2 exit_kernel (λ _, None) 3 (mkTurn id Interrupt (5, 5) (9, 9) None)
                    (lone_task [(inl 20, kill9); (inr 2, kill9)] false TimeManager_new) in
  r = Ok (Some tt) ∧ sigs (ut_sys s') = [(inr 9, new_kernel 17); (inr 9, new_kernel 17)]
  ∧ child_exit_woken (ut_sys s') = [9; 9].
Proof. vm_compute. done. Qed.
